(* ===== verification/_CoqProject ===== *)
-Q . S2P
Prelude.v
PyStr.v
OrdDict.v
Path.v
Chmod.v
Vfs.v
VfsTree.v
HoneypotTree.v
VfsSpec.v
VfsProps.v
Lru.v
SessionManager.v
Auth.v
Proxy.v
Binary64.v
RateLimit.v
Relay.v
RelayProps.v
ProxyServer.v
ProxyServerProps.v
Options.v
Lifecycle.v
Terminal.v
ShellParse.v
ShellParseProps.v
Regex.v
Json.v
Llm.v
LlmProps.v
ShellStatic.v
DateTime.v
Sinkhole.v
JsonDump.v
TextOps.v
VfsText.v
Telemetry.v
AuthLog.v
Shell.v
ShellSample.v
ShellEffects.v
ShellText.v
HandlerText.v
ShellTyped.v
ShellProps.v
ShellFuel.v
ShellBounds.v
ShellDiverge.v
Sharing.v
ShellInterp.v
EchoCat.v
LsProps.v
Server.v
ServerInv.v
ServerProps.v
Attribution.v
ServerText.v
Gateway.v
FrontDoor.v
LlmSchema.v
Benchmark.v
TestSuite.v
