(* ===== verification/Prelude.v ===== *)
(** * Verification of the dynamic SSH honeypot

    The program is an SSH honeypot in Python behind a TCP proxy in C++.  A client
    that logs in gets a shell that is simulated: commands act on a filesystem in
    memory, downloads are captured instead of fetched, some answers are fixed
    texts and some are asked of a language model; everything is logged.  Nothing a client types may
    reach the host, escape the quota, be lost from the log, or address the model
    in any other way than as data; what is logged must bear the visitor's own
    address, which only the proxy sees.  This development models the sources
    below src/ and proves that contract for the definitions, which are all
    executable.

    ** Parts, files and sources

    - Foundations.  [Prelude]: exceptions ([pyexc]), fallible results ([result])
      and stateful computations ([ST]) in which, as in Python, an exception does
      not roll the state back.  [PyStr]: Python strings as lists of code points,
      with the methods the program uses, integers in decimal, UTF-8.  [OrdDict]:
      insertion-ordered dictionaries ([dict] and [OrderedDict]).
    - vfs.py.  [Path]: [canonicalize] and [parent_path].  [Chmod]: octal and
      symbolic modes, the rwx string.  [Vfs]: inodes and [VirtualFileSystem];
      [HoneypotTree]: the tree a session starts from.  [VfsTree] holds lemmas on
      trees, [VfsSpec] the invariant [vfs_ok] and the abstract [view] of a tree
      as a partial map from component lists to entries, [VfsProps] the contract
      of each operation in terms of it.  [TextOps] and [VfsText]: texts of
      scalar values, those that UTF-8 can encode, stay so.
    - session_manager.py.  [Lru]: bounded tables that expire, shared by the next
      two.  [SessionManager]: the table from client addresses to session
      objects.  Sessions are shared by the connections of one client, so they
      live in a heap ([gmap] from locations) and the table holds references.
    - auth.py.  [Auth]: pinned passwords, failure counts, lockout.  Each locked
      section of [validate_login] is one atomic step; histories interleave them.
    - server.py.  [Proxy]: the PROXY line in front of a connection, as a protocol
      object fed with chunks and as a stream reader.  [Terminal]: line ends.
      [Server]: [HoneypotServer] ([connection_made], [connection_lost],
      [validate_password] in two halves around the tarpit), [handle_client] in
      the pieces between two reads of the terminal, and the event loop as
      [server_step], which runs one callback or piece of any connection.
      [ServerInv], [ServerProps]: their contract; [Attribution]: whose records
      the logs hold; [ServerText]: that the logs read back.  [Gateway]: the
      protocols of the listener in front of the server, from the bytes of TCP
      connections on.
    - shell.py.  [ShellParse]: from a line to statements, conditionals, stages,
      words and redirections, with [shlex.split]; [ShellParseProps].
      [ShellStatic]: the fixed answers.  [DateTime]: calendar arithmetic for
      dates.  [Shell]: the handlers, redirection, scripts, dispatch, execution.
    - llm.py.  [Regex] and [Json] model what the program uses of re and json;
      [Llm]: sanitising, the request, validation, providers; [LlmProps];
      [LlmSchema]: the schema sent with a request, and who answers.
    - sinkhole.py and telemetry.py.  [Sinkhole]: payloads, quarantine, records.
      [JsonDump]: [json.dumps], and that [json.loads] of [Json] reads it back.
      [Telemetry]: the lines of the log files; [AuthLog]: those of the logins.
    - benchmark_llm.py.  [Benchmark]: labels, previews, timed samples, tables.
    - proxy/ (C++).  [RateLimit] (rate_limiter.cpp): places and tokens of each
      address, and the leases that give them back; [Binary64]: its arithmetic.  [Relay] (proxy_server.cpp):
      a session, its two buffers and the handlers of its events; [RelayProps]:
      that they relay faithfully.  [ProxyServer]: the PROXY line, accepting, the
      event loop; [ProxyServerProps]: its invariant over any history.  [Options]
      (main.cpp): the command line.  [Lifecycle]: the process and its signals.
      [FrontDoor]: the proxy joined to the gateway by TCP.
    - The contract of the shell.  [ShellEffects]: the specification [runs], the
      closed list of effects of a command line, and the refinement of [execute]
      to it.  [ShellProps]: invariants by induction on [runs], telemetry,
      redirection, the cache.  [ShellBounds]: exit codes.  [ShellFuel]: how much
      stack a line needs; [ShellDiverge]: a line no stack is enough for.
      [ShellText], [HandlerText], [ShellTyped]: what is typed as text is
      answered as text, so that encoding never fails.
      [Sharing]: several shells on one session, rely and guarantee.
      [ShellInterp]: the semantics of programs as syntax trees, which [execute]
      implements on their text; [EchoCat]: one program through every layer;
      [LsProps]: what ls shows.
      [ShellSample]: a concrete world for witnesses.
    - src/tests.  [TestSuite]: the expectations of the repository's tests,
      evaluated on the definitions.

    ** How the parts interact

    [Shell.shell] is a [Shell] object with the session it works on, the log
    file, the quarantine directory and, as a ghost, the questions put to the
    model.  A handler is an [ST shell] computation; calls of the filesystem go
    through [vfs_call], so [VfsProps] applies to them.  Python coroutines
    interleave only where they await: [await] applies [w_others], an arbitrary
    function on the session, which theorems constrain to keep [session_ok], the
    part of the invariant that every command line is proved to keep in turn.
    [Sharing.interference] is the exact constraint for several shells on one
    session: what a shell may meet at an await is also all that it does itself.

    [Server.server] is the whole process: both managers, the connections, the
    terminals and the sensor's files.  A terminal's shell is loaded with the
    session object and the files as they are, runs a line, and stores them
    ([load], [store_session], [store_disk]); what other terminals of the client
    do during a line is the [w_others] of its [moment], constrained to
    [interference].  Every event moves the managers only by their own
    operations ([ServerProps.server_refines]), so that the theorems of
    [SessionManager] and [Auth] about histories apply to the server.

    [Gateway.gateway] puts a protocol object of [Proxy] in front of every
    connection of the server: a connection is made within the callback that hands
    over, with the address announced.  On the other side of the wire
    [ProxyServer.proxy_server] has the limiter and a table of sessions; an event
    of [epoll_wait] comes with the answers to the system calls it leads to, and
    every session with the bytes that passed its sockets ([Relay.wire]).
    [FrontDoor.front_step] runs the two together: an event is one of the proxy's,
    one of the gateway's, a link opened for a session of the proxy, or bytes the
    proxy wrote carried to the end of the link.  That a link has been given a
    prefix of what the proxy wrote ([FrontDoor.carried]) is an invariant of it.

    ** What the theorems show

    - Filesystem: the quota counter is exact after any history; a write is read
      back and changes nothing else; a call that raises changes nothing; when a
      write succeeds; what removal and [mkdir -p] do; lookup and listing;
      canonical paths cannot leave the root.
    - Server: an invariant of every interleaving of callbacks; refinement of the
      managers' histories, isolation of sessions and growth of the evidence; a
      client that reconnects finds its session and directory; the login that
      reaches the limit is disconnected; every terminal comes to its end with
      the session saved and a status from 0 to 255; shells can share a session.
    - Logs: the lines of a log read back as exactly the records appended, in any
      interleaving of terminals, every login leaves its line, and every record
      names a connection that was made, by the address its bytes announce and,
      through the proxy, the one the visitor was accepted from; a PROXY line
      that the visitor sends himself is not believed.
    - Text: while the model answers in text, a line of text is executed without
      [UnicodeEncodeError], and all that is sent can be encoded.
    - Proxy: no more sessions than the limits, counted exactly; the rate of
      admissions, in rounded arithmetic; every byte passed on in order or waiting
      in a bounded buffer, ends passed on when due, no session stuck; stopping by
      signal; the options read back.
    - Sessions and logins: tables bounded and consistent after any history; a
      session survives while it is fresh and fewer than [max_sessions] others
      came; the bounded failure table implements one counter per client; exact
      login decision; lockout; stable pins.
    - Connections: the hand-over does not depend on chunking and loses no byte;
      exactly which headers are accepted; round trip of the header; over any joint
      history of proxy and honeypot the logs bear the visitors' addresses.
    - Parsing and meaning: printing then parsing a quoted program is the identity;
      executing its text is interpreting its tree; exact meaning of redirections;
      what is written at the prompt is what is read back; ls lists a directory
      completely, in order and in columns.
    - Model: answers are validated, as the schema sent asks, arguments are data but
      for the delimiters taken out of them, only allowlisted commands whose
      arguments pass the filter are asked, the cache is transparent.
    - Shell: invariant under every line and interference; every command logged;
      evidence kept; redirection; refinement to the list of effects; exit codes
      from 0 to 255; termination of lines whose nested shells are written out,
      and divergence of a script that pipes itself into a shell.
    - Benchmark: a command labelled static is answered by a fixed text; every
      command is timed, and the table lines up.

    ** Bounds and fuel

    [execute] takes the depth of its recursion as fuel; out of fuel is
    [RecursionError], as in Python.  A larger stack never changes an answer
    ([ShellFuel.stack_is_enough]) and lines whose nested shells are given by
    [-c] need the depth they are written with.  Scripts that pipe themselves
    into [sh] need unbounded depth in the program itself
    ([ShellDiverge.piped_script_never_stops]), so no general bound exists; the
    theorems of [Server] hold for every stack.  [read_value] of [Json] and the
    regular expressions of [Regex] take the length of the text.  [while] loops are structural on the text or on the
    list they consume; [stream_writes] on the number of iterations of the code.
    The loops of the proxy are structural on the answers of the kernel: a list
    that is used up stands for [EAGAIN], which ends each of them.

    ** Parameters

    [Shell.World] collects what is outside the sources: the clock, the other
    connections, success of disk writes, digests, URL parsing, the regular
    expressions of grep, the client of the model vendor; [Regex.Unicode] the
    classification of non-ASCII characters; the regular expressions may raise what
    re.compile raises.  Passwords are chosen by an index
    argument, identifiers of sessions are arguments.  [RateLimit.Double] is the
    arithmetic of double, which most theorems of the proxy do not depend on;
    [RateLimit.binary64] is that of the machine, with rounding, on which the rate
    is proved.  [ProxyServer.Inet] is inet_ntop, with the laws
    [FrontDoor.InetLaws].

    ** Not modelled

    AsyncSSH and asyncio are the sequence of events and a channel that may
    raise; the construction of the options in [start_ssh_backend],
    [ensure_host_key] and the rest of [main] only call libraries.  Cancellation of
    a coroutine reaches [handle_client] at its reads, not inside a command or a
    login.  Durations (a record's is the text of a float, an argument), network
    and disk: a write of the disk succeeds or fails as a whole, where
    [write_bytes] that fails halfway would leave a truncated artifact.  Limits of
    the Python runtime: the recursion of commands is modelled, that inside the
    other modules is not (on a tree deeper than Python's stack
    [_release_dynamic_bytes] of vfs.py raises [RecursionError] when part of the
    counter was given back; json accepts integers of any length and texts of any
    depth here); overflow of double, and the contraction of its operations that a
    compiler may choose; asctime-dependent locale; argparse and the environment of the benchmark.  Of the proxy, the
    descriptors ([UniqueFd], socket_utils.cpp), socket options, the search for
    addresses in [init] and [open_backend], whose outcome is an argument, and what
    is printed.  A handler of the proxy is atomic, as in its single thread; the
    times within one event are two, of admission and of release.

    The tests are not modelled: they start processes, sockets and mocked
    libraries; [TestSuite] evaluates what they expect of the modelled functions.

    ** What is left

    A bound on the stack for scripts on file that read no piped text: script depth
    and the length of the text given by [-c] decrease together, but whether a shell
    is given piped text depends on the whole execution, which the definitions of
    [Shell] would have to record. *)

From stdpp Require Export prelude strings list gmap sorting pretty.
From Stdlib Require Export ZArith Lia.

#[global] Set Default Goal Selector "!".

(** ** Scopes and Python strings

    A Python [str] is the list of its Unicode code points; an ASCII literal of
    the source is written as a Rocq string and read through [lit]. *)

Abbreviation str := (list Z).

Fixpoint lit (s : string) : list Z :=
  match s with
  | EmptyString => []
  | String a s' => Z.of_N (Ascii.N_of_ascii a) :: lit s'
  end.
Coercion lit : string >-> list.

Declare Scope honeypot_scope.
Delimit Scope honeypot_scope with hp.
Open Scope string_scope.
Open Scope list_scope.
Open Scope Z_scope.
Open Scope honeypot_scope.

(** The double quote of the source's string literals. *)
Definition dq : str := [34].

(** ** Exceptions

    The exception classes the program raises or catches.  The message or file
    name the source passes to the constructor is the argument. *)
Inductive pyexc : Type :=
  | FileNotFoundError (filename : str)
  | NotADirectoryError (filename : str)
  | IsADirectoryError (filename : str)
  | FileExistsError (filename : str)
  | OSError (msg : str)
  | VFSFileTooLargeError (msg : str)
  | VFSNoSpaceError (msg : str)
  | ValueError (msg : str)
  | OverflowError (msg : str)
  | UnicodeEncodeError
  | RecursionError
  | AuthAttemptLimitExceeded (session_id : str).

#[export] Instance pyexc_eq_dec : EqDecision pyexc.
Proof. solve_decision. Defined.

(** [except OSError] also catches the subclasses of [OSError]. *)
Definition is_OSError (e : pyexc) : bool :=
  match e with
  | FileNotFoundError _ | NotADirectoryError _ | IsADirectoryError _
  | FileExistsError _ | OSError _ | VFSFileTooLargeError _
  | VFSNoSpaceError _ => true
  | _ => false
  end.

(** ** Fallible computations *)
Inductive result (A : Type) : Type :=
  | Ok (a : A)
  | Err (e : pyexc).
Arguments Ok {A} a.
Arguments Err {A} e.

#[export] Instance result_ret : MRet result := λ A a, Ok a.
#[export] Instance result_bind : MBind result := λ A B f r,
  match r with Ok a => f a | Err e => Err e end.
#[export] Instance result_fmap : FMap result := λ A B f r,
  match r with Ok a => Ok (f a) | Err e => Err e end.
#[export] Instance result_eq_dec `{EqDecision A} : EqDecision (result A).
Proof. solve_decision. Defined.

Definition is_ok {A} (r : result A) : bool :=
  match r with Ok _ => true | Err _ => false end.

(** ** Stateful fallible computations

    A method of an object with state [S].  As in Python, an exception does not
    roll the state back: [Err] is returned with the state reached so far. *)
Definition ST (S A : Type) : Type := S → result A * S.

#[export] Instance st_ret {S} : MRet (ST S) := λ A a s, (Ok a, s).
#[export] Instance st_bind {S} : MBind (ST S) := λ A B f m s,
  match m s with
  | (Ok a, s') => f a s'
  | (Err e, s') => (Err e, s')
  end.

Definition raise {S A} (e : pyexc) : ST S A := λ s, (Err e, s).
Definition gets {S A} (f : S → A) : ST S A := λ s, (Ok (f s), s).
Definition modify {S} (f : S → S) : ST S unit := λ s, (Ok tt, f s).
(** A read-only fallible computation on the state. *)
Definition reads {S A} (f : S → result A) : ST S A := λ s, (f s, s).
Definition lift {S A} (r : result A) : ST S A := λ s, (r, s).
(** [try: m except ...: h]; the handler re-raises what it does not catch. *)
Definition try_except {S A} (m : ST S A) (h : pyexc → ST S A) : ST S A := λ s,
  match m s with
  | (Ok a, s') => (Ok a, s')
  | (Err e, s') => h e s'
  end.

(** [for x in l: f(x)]; [f] is a section variable so that a recursive
    definition may loop over the children of a node. *)
Section ForEach.
Context {S A : Type} (f : A → ST S unit).
Fixpoint for_each (l : list A) : ST S unit :=
  match l with
  | [] => mret tt
  | x :: l' => _ ← f x; for_each l'
  end.
End ForEach.

Lemma st_bind_eq {S A B} (m : ST S A) (f : A → ST S B) s :
  (m ≫= f) s =
  match m s with (Ok a, s') => f a s' | (Err e, s') => (Err e, s') end.
Proof. reflexivity. Qed.

Lemma st_bind_ok {S A B} (m : ST S A) (f : A → ST S B) s b s' :
  (m ≫= f) s = (Ok b, s') ↔ ∃ a s1, m s = (Ok a, s1) ∧ f a s1 = (Ok b, s').
Proof.
  rewrite st_bind_eq. destruct (m s) as [[a|e] s1]; naive_solver.
Qed.

Lemma result_bind_ok {A B} (r : result A) (f : A → result B) b :
  (r ≫= f) = Ok b ↔ ∃ a, r = Ok a ∧ f a = Ok b.
Proof. destruct r; cbn; naive_solver. Qed.

(** A method that leaves the object as it was whenever it raises. *)
Definition atomic {S A} (m : ST S A) (P : S → Prop) : Prop :=
  ∀ s e s', P s → m s = (Err e, s') → s' = s.

(** A method that keeps an invariant on every path, exceptions included. *)
Definition preserves {S A} (m : ST S A) (P : S → Prop) : Prop :=
  ∀ s r s', P s → m s = (r, s') → P s'.

Lemma preserves_ret {S A} (a : A) (P : S → Prop) : preserves (mret a) P.
Proof. intros s r s' ? [= <- <-]; done. Qed.

Lemma preserves_raise {S A} e (P : S → Prop) : preserves (raise (A:=A) e) P.
Proof. intros s r s' ? [= <- <-]; done. Qed.

Lemma preserves_gets {S A} (f : S → A) (P : S → Prop) : preserves (gets f) P.
Proof. intros s r s' ? [= <- <-]; done. Qed.

Lemma preserves_reads {S A} (f : S → result A) (P : S → Prop) :
  preserves (reads f) P.
Proof. intros s r s' ? [= <- <-]; done. Qed.

Lemma preserves_lift {S A} (x : result A) (P : S → Prop) : preserves (lift x) P.
Proof. intros s r s' ? [= <- <-]; done. Qed.

Lemma preserves_bind {S A B} (m : ST S A) (f : A → ST S B) (P : S → Prop) :
  preserves m P → (∀ a, preserves (f a) P) → preserves (m ≫= f) P.
Proof.
  intros Hm Hf s r s' HP. rewrite st_bind_eq.
  destruct (m s) as [[a|e] s1] eqn:E; intros H.
  - eapply Hf; [|done]. by eapply Hm.
  - simplify_eq. by eapply Hm.
Qed.

Lemma preserves_try {S A} (m : ST S A) h (P : S → Prop) :
  preserves m P → (∀ e, preserves (h e) P) → preserves (try_except m h) P.
Proof.
  intros Hm Hh s r s' HP. unfold try_except.
  destruct (m s) as [[a|e] s1] eqn:E; intros H; simplify_eq.
  - by eapply Hm.
  - eapply Hh; [|done]. by eapply Hm.
Qed.

Lemma preserves_for_each {S A} (f : A → ST S unit) l (P : S → Prop) :
  (∀ a, preserves (f a) P) → preserves (for_each f l) P.
Proof.
  intros Hf. induction l as [|x l IH]; cbn.
  - apply preserves_ret.
  - by apply preserves_bind.
Qed.

Create HintDb hp.
#[export] Hint Resolve preserves_ret preserves_raise preserves_gets
  preserves_reads preserves_lift : hp.

(** Splits every successful [bind] among the hypotheses into its two steps. *)
Ltac monad_inv :=
  repeat match goal with
  | H : (_ ≫= _) _ = (Ok _, _) |- _ =>
      apply st_bind_ok in H as (? & ? & ? & ?)
  | H : (_ ≫= _) = Ok _ |- _ => apply result_bind_ok in H as (? & ? & ?)
  | H : gets _ _ = _ |- _ => unfold gets in H; simplify_eq
  | H : modify _ _ = _ |- _ => unfold modify in H; simplify_eq
  | H : reads _ _ = _ |- _ => unfold reads in H; simplify_eq
  | H : lift _ _ = _ |- _ => unfold lift in H; simplify_eq
  | H : raise _ _ = _ |- _ => unfold raise in H; simplify_eq
  | H : mret _ _ = (_, _) |- _ => unfold mret, st_ret in H; simplify_eq
  end.

(** Case analysis on every [if decide] and [match] in the goal. *)
Ltac cases := repeat (case_decide || case_match); simplify_eq/=.

(** Decides a closed proposition by evaluation. *)
Ltac vm_decide := apply (bool_decide_eq_true_1 _); vm_compute; reflexivity.

(** What a map holds after an insertion. *)
Lemma lookup_insert_cases `{Countable K} {A} (i j : K) (x y : A) (m : gmap K A) :
  <[i := x]> m !! j = Some y → m !! j = Some y ∨ y = x.
Proof. rewrite lookup_insert_Some. intros [[_ <-]|[_ ?]]; auto. Qed.

(** The clock does not go backwards between [t] and [t']. *)
Fixpoint timeline {A} (t : Z) (ops : list (Z * A)) (t' : Z) : Prop :=
  match ops with
  | [] => t ≤ t'
  | (now, _) :: ops' => t ≤ now ∧ timeline now ops' t'
  end.

Lemma timeline_le {A} t (ops : list (Z * A)) t' : timeline t ops t' → t ≤ t'.
Proof.
  revert t. induction ops as [|[n o] ops IH]; cbn; [done|]. intros t [? ?%IH]. lia.
Qed.
