(* ===== verification/PyStr.v ===== *)
(** * Python string operations used by the program

    The methods of [str] and [bytes] the sources call, on code-point lists:
    prefix and suffix tests, [strip], [split], [join], [rpartition], [find],
    [replace], [splitlines], UTF-8 sizes and [int()], with the lemmas the
    components share. *)

From S2P Require Import Prelude.

(** ** Tests and case *)

(** [s.startswith(p)] and [s.endswith(p)]. *)
Definition startswith (s p : str) : bool := bool_decide (p `prefix_of` s).
Definition endswith (s p : str) : bool := bool_decide (p `suffix_of` s).

(** [c in s] for a one-character string [c]. *)
Definition contains (s : str) (c : Z) : bool := bool_decide (c ∈ s).

(** The whitespace of [str.strip()] and [str.split()] with no argument. *)
Definition is_space (c : Z) : bool :=
  ((9 <=? c) && (c <=? 13)) || ((28 <=? c) && (c <=? 32)) || (c =? 133)
  || (c =? 160) || (c =? 5760) || ((8192 <=? c) && (c <=? 8202))
  || (c =? 8232) || (c =? 8233) || (c =? 8239) || (c =? 8287) || (c =? 12288).

(** ** Stripping *)
Fixpoint drop_while (p : Z → bool) (s : str) : str :=
  match s with
  | [] => []
  | c :: s' => if p c then drop_while p s' else s
  end.

Definition lstrip_by (p : Z → bool) (s : str) : str := drop_while p s.
Definition rstrip_by (p : Z → bool) (s : str) : str :=
  reverse (drop_while p (reverse s)).
Definition strip_by (p : Z → bool) (s : str) : str := rstrip_by p (lstrip_by p s).

(** [s.strip()], [s.rstrip(chars)], [s.strip(chars)]. *)
Definition strip (s : str) : str := strip_by is_space s.
Definition rstrip (s chars : str) : str := rstrip_by (contains chars) s.
Definition strip_chars (s chars : str) : str := strip_by (contains chars) s.

(** The characters in front that [p] holds of, and the rest. *)
Fixpoint span (p : Z → bool) (s : str) : str * str :=
  match s with
  | c :: s' => if p c then let (a, b) := span p s' in (c :: a, b) else ([], s)
  | [] => ([], [])
  end.

(** ** Splitting and joining *)

(** [s.split(sep)] for a one-character separator. *)
Fixpoint split_on (sep : Z) (s : str) : list str :=
  match s with
  | [] => [[]]
  | c :: s' =>
      if decide (c = sep) then [] :: split_on sep s'
      else match split_on sep s' with
           | [] => [[c]]
           | w :: ws => (c :: w) :: ws
           end
  end.

(** [sep.join(l)]. *)
Fixpoint join (sep : str) (l : list str) : str :=
  match l with
  | [] => []
  | [w] => w
  | w :: l' => w ++ sep ++ join sep l'
  end.

(** [s.rpartition(sep)] for a one-character separator. *)
Fixpoint rpartition_opt (sep : Z) (s : str) : option (str * str) :=
  match s with
  | [] => None
  | c :: s' =>
      match rpartition_opt sep s' with
      | Some (h, t) => Some (c :: h, t)
      | None => if decide (c = sep) then Some ([], s') else None
      end
  end.
Definition rpartition (sep : Z) (s : str) : str * str * str :=
  match rpartition_opt sep s with
  | Some (h, t) => (h, [sep], t)
  | None => ([], [], s)
  end.

(** [s.rsplit(sep, 1)[-1]]: the text after the last separator. *)
Definition rsplit_last (sep : Z) (s : str) : str := (rpartition sep s).2.

(** [s.split(sep, 1)[1]] where [sep] occurs in [s]. *)
Fixpoint split_once_tail (sep : Z) (s : str) : str :=
  match s with
  | [] => []
  | c :: s' => if decide (c = sep) then s' else split_once_tail sep s'
  end.

(** [s.split()]: the maximal runs of non-whitespace. *)
Fixpoint split_ws_aux (cur : str) (s : str) : list str :=
  let emit := match cur with [] => [] | _ => [reverse cur] end in
  match s with
  | [] => emit
  | c :: s' => if is_space c then emit ++ split_ws_aux [] s'
               else split_ws_aux (c :: cur) s'
  end.
Definition split_ws (s : str) : list str := split_ws_aux [] s.

(** ** Searching and replacing *)

(** [s.find(pat)], [None] for Python's -1. *)
Fixpoint find (pat s : str) : option nat :=
  if startswith s pat then Some 0%nat
  else match s with
       | [] => None
       | _ :: s' => S <$> find pat s'
       end.

(** [s.replace(old, new)] for a non-empty [old]: [skip] counts the characters
    of the current occurrence still to be passed over. *)
Fixpoint replace_aux (old new : str) (skip : nat) (s : str) : str :=
  match s with
  | [] => []
  | c :: s' =>
      match skip with
      | S k => replace_aux old new k s'
      | O => if startswith s old
             then new ++ replace_aux old new (length old - 1) s'
             else c :: replace_aux old new 0 s'
      end
  end.
Definition replace (s old new : str) : str := replace_aux old new 0 s.

(** [s.splitlines()]. *)
Definition is_linebreak (c : Z) : bool :=
  ((10 <=? c) && (c <=? 13)) || ((28 <=? c) && (c <=? 30)) || (c =? 133)
  || (c =? 8232) || (c =? 8233).
Fixpoint splitlines_aux (cur : str) (s : str) : list str :=
  match s with
  | [] => match cur with [] => [] | _ => [reverse cur] end
  | c :: s' =>
      if is_linebreak c then
        reverse cur ::
        match s' with
        | d :: s'' => if (c =? 13) && (d =? 10) then splitlines_aux [] s''
                      else splitlines_aux [] s'
        | [] => []
        end
      else splitlines_aux (c :: cur) s'
  end.
Definition splitlines (s : str) : list str := splitlines_aux [] s.

(** ** UTF-8 *)

(** A lone surrogate cannot be encoded. *)
Definition is_surrogate (c : Z) : bool := (55296 <=? c) && (c <=? 57343).
Definition utf8_char_len (c : Z) : Z :=
  if c <? 128 then 1 else if c <? 2048 then 2 else if c <? 65536 then 3 else 4.
Fixpoint utf8_len (s : str) : Z :=
  match s with [] => 0 | c :: s' => utf8_char_len c + utf8_len s' end.
Definition encodable (s : str) : bool := forallb (λ c, negb (is_surrogate c)) s.

(** [len(s.encode("utf-8"))]. *)
Definition encoded_size (s : str) : result Z :=
  if encodable s then Ok (utf8_len s) else Err UnicodeEncodeError.

(** [s.encode("utf-8")]. *)
Definition utf8_char (c : Z) : str :=
  if c <? 128 then [c]
  else if c <? 2048 then [192 + c / 64; 128 + c mod 64]
  else if c <? 65536 then [224 + c / 4096; 128 + c / 64 mod 64; 128 + c mod 64]
  else [240 + c / 262144; 128 + c / 4096 mod 64; 128 + c / 64 mod 64; 128 + c mod 64].
Definition encode_utf8 (s : str) : result str :=
  if encodable s then Ok (flat_map utf8_char s) else Err UnicodeEncodeError.

(** ** Integers *)

(** [str(n)]. *)
Definition py_str (n : Z) : str := lit (pretty n).

Definition is_digit (c : Z) : bool := (48 <=? c) && (c <=? 57).

(** The digits of [int(s)]: single underscores are allowed between digits. *)
Fixpoint int_digits (acc : Z) (after_digit : bool) (s : str) : option Z :=
  match s with
  | [] => if after_digit then Some acc else None
  | c :: s' =>
      if is_digit c then int_digits (acc * 10 + (c - 48)) true s'
      else if (c =? 95) && after_digit then int_digits acc false s'
      else None
  end.

Definition int_sign (s : str) : Z * str :=
  match s with
  | c :: ds => if c =? 43 then (1, ds) else if c =? 45 then (-1, ds) else (1, s)
  | [] => (1, [])
  end.

(** What the digits [ds] behind [acc] say. *)
Definition digits_value (acc : Z) (ds : str) : Z := fold_left (λ a c, a * 10 + (c - 48)) ds acc.

(** The blanks that [int] skips around an ASCII number: those of C. *)
Definition int_space : str := [9; 10; 11; 12; 13; 32].

(** [int(s)] for an ASCII string; CPython refuses more than 4300 digits. *)
Definition py_int (s : str) : option Z :=
  let '(sign, ds) := int_sign (strip_chars s int_space) in
  if decide (4300 < length (filter (λ c, is_digit c = true) ds))%nat then None
  else match int_digits 0 false ds with
       | Some n => Some (sign * n)
       | None => None
       end.

(** [s.isalpha()] restricted to ASCII letters. *)
Definition is_lower (c : Z) : bool := (97 <=? c) && (c <=? 122).
Definition is_upper (c : Z) : bool := (65 <=? c) && (c <=? 90).

(** ** Lemmas *)

Lemma startswith_true s p : startswith s p = true ↔ p `prefix_of` s.
Proof. unfold startswith. by rewrite bool_decide_eq_true. Qed.

Lemma startswith_app p s : startswith (p ++ s) p = true.
Proof. apply startswith_true. by apply prefix_app_r. Qed.

Lemma startswith_false s p : startswith s p = false ↔ ¬ p `prefix_of` s.
Proof. unfold startswith. by rewrite bool_decide_eq_false. Qed.

(** A prefix test is settled once enough has arrived. *)
Lemma startswith_app_l p s t :
  (length p ≤ length s)%nat → startswith (s ++ t) p = startswith s p.
Proof.
  intros Hl. apply bool_decide_ext. split; [|by intros; apply prefix_app_r].
  intros [k Hk]. apply (f_equal (take (length s))) in Hk.
  rewrite take_app_length, take_app_ge in Hk by lia. rewrite Hk. by apply prefix_app_r.
Qed.

Lemma startswith_mono p s t : startswith s p = true → startswith (s ++ t) p = true.
Proof. rewrite !startswith_true. intros. by apply prefix_app_r. Qed.

Lemma startswith_length s p : startswith s p = true → (length p ≤ length s)%nat.
Proof. rewrite startswith_true. apply prefix_length. Qed.

Lemma find_unfold pat s :
  find pat s = if startswith s pat then Some 0%nat
               else match s with [] => None | _ :: s' => S <$> find pat s' end.
Proof. by destruct s. Qed.

Lemma find_bound pat s i : find pat s = Some i → (i + length pat ≤ length s)%nat.
Proof.
  revert i. induction s as [|c s IH]; intros i; rewrite find_unfold.
  - destruct (startswith [] pat) eqn:E; [|done]. intros [= <-].
    apply startswith_length in E. cbn in *. lia.
  - destruct (startswith (c :: s) pat) eqn:E.
    + intros [= <-]. apply startswith_length in E. cbn in *. lia.
    + intros Hi. apply fmap_Some in Hi as (j & Hj & ->). apply IH in Hj. cbn. lia.
Qed.

(** What is found stays found, at the same place. *)
Lemma find_app pat s t i : find pat s = Some i → find pat (s ++ t) = Some i.
Proof.
  revert i. induction s as [|c s IH]; intros i; rewrite (find_unfold _ (_ ++ _)), find_unfold.
  - destruct (startswith [] pat) eqn:E; [|done]. by rewrite startswith_mono.
  - destruct (startswith (c :: s) pat) eqn:E; [by rewrite startswith_mono|].
    cbn [app]. intros Hi. rewrite fmap_Some in Hi. destruct Hi as (j & Hj & ->).
    destruct (startswith (c :: s ++ t) pat) eqn:E'; [|by rewrite (IH _ Hj)].
    exfalso. pose proof (find_bound _ _ _ Hj).
    change (c :: s ++ t) with ((c :: s) ++ t) in E'.
    rewrite startswith_app_l in E' by (cbn; lia). congruence.
Qed.

(** An occurrence that lies inside a prefix is found there. *)
Lemma find_app_inv pat s t i :
  find pat (s ++ t) = Some i → (i + length pat ≤ length s)%nat → find pat s = Some i.
Proof.
  revert i. induction s as [|c s IH]; intros i; rewrite (find_unfold _ (_ ++ _)), find_unfold.
  - cbn [length]. intros Hf Hi. assert (pat = []) as -> by (destruct pat; cbn in *; [done|lia]).
    assert (i = 0%nat) as -> by lia. done.
  - cbn [app]. destruct (startswith (c :: s ++ t) pat) eqn:E.
    + intros [= <-] Hl. change (c :: s ++ t) with ((c :: s) ++ t) in E.
      rewrite startswith_app_l in E by done. by rewrite E.
    + destruct (startswith (c :: s) pat) eqn:E'.
      { apply (startswith_mono _ _ t) in E'. cbn in E'. congruence. }
      intros Hi Hl. apply fmap_Some in Hi as (j & Hj & ->). cbn in Hl.
      rewrite (IH j); [done|done|lia].
Qed.

(** The text before and after the first occurrence. *)
Lemma find_split pat s i :
  find pat s = Some i → s = take i s ++ pat ++ drop (i + length pat) s.
Proof.
  revert i. induction s as [|c s IH]; intros i; rewrite find_unfold.
  - destruct (startswith [] pat) eqn:E; [|done]. intros [= <-].
    apply startswith_true in E as [k Hk]. symmetry in Hk. apply app_nil in Hk as [-> ->]. done.
  - destruct (startswith (c :: s) pat) eqn:E.
    + intros [= <-]. apply startswith_true in E as [k Hk]. rewrite Hk at 1. cbn [take app].
      f_equal. rewrite Hk. by rewrite Nat.add_0_l, drop_app_length.
    + intros Hi. apply fmap_Some in Hi as (j & Hj & ->). cbn. f_equal. by apply IH.
Qed.

Lemma contains_true s c : contains s c = true ↔ c ∈ s.
Proof. unfold contains. by rewrite bool_decide_eq_true. Qed.

Lemma split_on_nonempty sep s : split_on sep s ≠ [].
Proof.
  destruct s as [|c s]; cbn; [done|].
  case_decide; [done|]. by destruct (split_on sep s).
Qed.

(** A word without the separator is not split. *)
Lemma split_on_word sep w : sep ∉ w → split_on sep w = [w].
Proof.
  induction w as [|c w IH]; cbn; [done|].
  intros [Hc Hw]%not_elem_of_cons. rewrite decide_False by done.
  by rewrite IH.
Qed.

Lemma split_on_app sep w s :
  sep ∉ w → split_on sep (w ++ sep :: s) = w :: split_on sep s.
Proof.
  induction w as [|c w IH]; cbn.
  - intros _. by rewrite decide_True.
  - intros [Hc Hw]%not_elem_of_cons. rewrite decide_False by done.
    by rewrite IH.
Qed.

(** [sep.join] then [split] gives the words back. *)
Lemma split_join sep ws :
  ws ≠ [] → Forall (λ w, sep ∉ w) ws → split_on sep (join [sep] ws) = ws.
Proof.
  intros Hne Hws. induction Hws as [|w ws Hw Hws IH]; [done|].
  destruct ws as [|w' ws].
  - by apply split_on_word.
  - cbn [join]. etrans; [by apply split_on_app|]. f_equal. by apply IH.
Qed.

(** [split] then [join] gives the text back. *)
Lemma join_split sep s : join [sep] (split_on sep s) = s.
Proof.
  induction s as [|c s IH]; [done|]. cbn.
  destruct (split_on sep s) as [|w ws] eqn:E;
    [by apply split_on_nonempty in E|].
  case_decide as Hc; subst; cbn; [done|].
  by destruct ws.
Qed.

(** The pieces of a split hold no separator. *)
Lemma split_on_pieces sep s : Forall (λ w, sep ∉ w) (split_on sep s).
Proof.
  induction s as [|c s IH]; cbn.
  - repeat constructor. apply not_elem_of_nil.
  - case_decide as Hc.
    + constructor; [apply not_elem_of_nil|done].
    + destruct (split_on sep s) as [|w ws]; inversion_clear IH.
      all: repeat constructor; try done.
      * apply not_elem_of_cons. split; [done|apply not_elem_of_nil].
      * apply not_elem_of_cons. split; done.
Qed.

Lemma join_snoc sep ws w :
  ws ≠ [] → join sep (ws ++ [w]) = join sep ws ++ sep ++ w.
Proof.
  induction ws as [|w' ws IH]; [done|]. intros _.
  destruct ws as [|w'' ws]; [done|].
  change ((w' :: w'' :: ws) ++ [w]) with (w' :: (w'' :: ws) ++ [w]).
  cbn [join app]. cbn [join app] in IH. rewrite IH by done.
  by rewrite <-!app_assoc.
Qed.

Lemma rpartition_opt_none sep s : sep ∉ s → rpartition_opt sep s = None.
Proof.
  induction s as [|c s IH]; [done|]. intros [Hc Hs]%not_elem_of_cons.
  cbn. rewrite IH by done. by rewrite decide_False.
Qed.

Lemma rpartition_opt_app sep h t :
  sep ∉ t → rpartition_opt sep (h ++ sep :: t) = Some (h, t).
Proof.
  intros Ht. induction h as [|c h IH]; cbn.
  - by rewrite rpartition_opt_none, decide_True.
  - by rewrite IH.
Qed.

Lemma rpartition_app sep h t :
  sep ∉ t → rpartition sep (h ++ sep :: t) = (h, [sep], t).
Proof. intros Ht. unfold rpartition. by rewrite rpartition_opt_app. Qed.

Lemma rsplit_last_app sep h t : sep ∉ t → rsplit_last sep (h ++ sep :: t) = t.
Proof. intros Ht. unfold rsplit_last. by rewrite rpartition_app. Qed.

Lemma rsplit_last_word sep s : sep ∉ s → rsplit_last sep s = s.
Proof.
  intros Hs. unfold rsplit_last, rpartition. by rewrite rpartition_opt_none.
Qed.

Lemma drop_while_id p s :
  match s with [] => True | c :: _ => p c = false end → drop_while p s = s.
Proof. destruct s as [|c s]; cbn; [done|]. by intros ->. Qed.

Lemma utf8_char_len_bounds c : 1 ≤ utf8_char_len c ≤ 4.
Proof. unfold utf8_char_len. repeat case_match; lia. Qed.

Lemma utf8_len_nonneg s : 0 ≤ utf8_len s.
Proof.
  induction s as [|c s IH]; cbn; [lia|].
  pose proof (utf8_char_len_bounds c). lia.
Qed.

Lemma utf8_len_app s t : utf8_len (s ++ t) = utf8_len s + utf8_len t.
Proof. induction s as [|c s IH]; cbn; lia. Qed.

Lemma encodable_app s t : encodable (s ++ t) = encodable s && encodable t.
Proof. unfold encodable. apply forallb_app. Qed.

Lemma encoded_size_ok s n :
  encoded_size s = Ok n ↔ encodable s = true ∧ n = utf8_len s.
Proof. unfold encoded_size. destruct (encodable s); naive_solver. Qed.


(** ** Decimal numerals *)

Lemma pretty_char (x : N) :
  (x < 10)%N → Z.of_N (Ascii.N_of_ascii (pretty_N_char x)) = 48 + Z.of_N x.
Proof.
  intros Hx. assert (x = 0 ∨ x = 1 ∨ x = 2 ∨ x = 3 ∨ x = 4 ∨ x = 5 ∨ x = 6 ∨ x = 7 ∨ x = 8
    ∨ x = 9)%N as H by lia.
  by repeat destruct H as [->|H]; subst.
Qed.

Lemma int_digits_step acc d b s :
  0 ≤ d < 10 → int_digits acc b (48 + d :: s) = int_digits (acc * 10 + d) true s.
Proof.
  intros Hd. cbn [int_digits]. unfold is_digit.
  destruct (Z.leb_spec 48 (48 + d)), (Z.leb_spec (48 + d) 57); try lia.
  cbn [andb]. f_equal. lia.
Qed.

Lemma mod10_bounds (x : N) : 0 ≤ Z.of_N (x `mod` 10)%N < 10.
Proof.
  pose proof (N.mod_lt x 10 ltac:(lia)) as Hm. apply N2Z.inj_lt in Hm.
  split; [apply N2Z.is_nonneg|exact Hm].
Qed.

Lemma int_digits_value ds : ∀ acc b,
  Forall (λ c, is_digit c = true) ds → (ds ≠ [] ∨ b = true) →
  int_digits acc b ds = Some (digits_value acc ds).
Proof.
  induction ds as [|c ds IH]; intros acc b Hd Hb; cbn.
  - by destruct Hb as [?| ->].
  - apply Forall_cons in Hd as [Hc Hd]. rewrite Hc. by apply IH; [|right].
Qed.

(** The digits that [pretty] puts in front of [s], read back. *)
Lemma int_digits_pretty (x : N) s :
  (0 < x)%N → int_digits 0 false (lit (pretty_N_go x s)) = int_digits (Z.of_N x) true (lit s).
Proof.
  revert s. induction (N.lt_wf_0 x) as [x _ IH]. intros s Hx.
  rewrite pretty_N_go_step by done. pose proof (N.mod_lt x 10 ltac:(lia)) as Hm.
  assert (Ex : Z.of_N x = Z.of_N (x / 10)%N * 10 + Z.of_N (x `mod` 10)%N).
  { pose proof (N.div_mod' x 10). lia. }
  pose proof (mod10_bounds x) as Hd.
  destruct (decide (x / 10 = 0)%N) as [E|E].
  - rewrite Ex, E, pretty_N_go_0. cbn [lit]. rewrite pretty_char by done.
    by rewrite int_digits_step by exact Hd.
  - rewrite IH; [|apply N.div_lt; lia|lia]. cbn [lit]. rewrite pretty_char by done.
    rewrite Ex. by rewrite int_digits_step by exact Hd.
Qed.

Lemma pretty_digits (x : N) s :
  Forall (λ c, is_digit c = true) (lit s) →
  Forall (λ c, is_digit c = true) (lit (pretty_N_go x s)).
Proof.
  revert s. induction (N.lt_wf_0 x) as [x _ IH]. intros s Hs.
  destruct (decide (x = 0)%N) as [->|Hx]; [by rewrite pretty_N_go_0|].
  rewrite pretty_N_go_step by lia. apply IH; [apply N.div_lt; lia|].
  pose proof (N.mod_lt x 10 ltac:(lia)). cbn [lit]. constructor; [|done].
  rewrite pretty_char by done. unfold is_digit. pose proof (mod10_bounds x) as Hm.
  revert Hm. generalize (Z.of_N (x `mod` 10)%N). lia.
Qed.

Lemma pretty_length (k : nat) (x : N) s :
  (x < 10 ^ N.of_nat k)%N → (length (lit (pretty_N_go x s)) ≤ k + length (lit s))%nat.
Proof.
  revert x s. induction k as [|k IH]; intros x s Hx.
  - assert (x = 0%N) as -> by (cbn in Hx; lia). by rewrite pretty_N_go_0.
  - destruct (decide (x = 0)%N) as [->|Hx0]; [rewrite pretty_N_go_0; lia|].
    rewrite pretty_N_go_step by lia. etrans; [apply IH|cbn; lia].
    rewrite Nat2N.inj_succ, N.pow_succ_r' in Hx. by apply N.Div0.div_lt_upper_bound.
Qed.

Lemma digit_not_space c : is_digit c = true → contains int_space c = false.
Proof.
  intros Hd. apply bool_decide_eq_false_2. intros Hin. unfold int_space in Hin.
  repeat apply elem_of_cons in Hin as [->|Hin]; try done. by apply elem_of_nil in Hin.
Qed.

Lemma drop_while_none p s : Forall (λ c, p c = false) s → drop_while p s = s.
Proof. by destruct 1 as [|c s H]; cbn; [|rewrite H]. Qed.

Lemma strip_none p s : Forall (λ c, p c = false) s → strip_by p s = s.
Proof.
  intros Hs. unfold strip_by, lstrip_by, rstrip_by.
  rewrite (drop_while_none _ s) by done. rewrite drop_while_none by by apply Forall_reverse.
  apply reverse_involutive.
Qed.

Lemma py_str_length (k : nat) (n : Z) :
  0 ≤ n < 10 ^ Z.of_nat k → (length (py_str n) ≤ Nat.max 1 k)%nat.
Proof.
  intros Hn. unfold py_str. destruct n as [|p|p]; [cbn; lia| |lia].
  etrans; [apply (pretty_length k (Npos p) "")|cbn [lit length]; lia].
  apply N2Z.inj_lt. rewrite N2Z.inj_pow, nat_N_Z. apply Hn.
Qed.

(** [int(str(n)) == n] for a natural number of at most 4300 digits. *)
Lemma py_int_str (n : Z) : 0 ≤ n → (length (py_str n) ≤ 4300)%nat → py_int (py_str n) = Some n.
Proof.
  intros Hn Hlen. assert (Hd : Forall (λ c, is_digit c = true) (py_str n)).
  { unfold py_str. destruct n as [|p|p]; [by repeat constructor|apply pretty_digits; constructor|lia]. }
  unfold py_int, strip_chars. rewrite strip_none by (eapply Forall_impl; [done|]; apply digit_not_space).
  assert (Hsign : int_sign (py_str n) = (1, py_str n)).
  { destruct Hd as [|c ds Hc _]; [done|]. unfold is_digit, int_sign in *.
    destruct (Z.eqb_spec c 43), (Z.eqb_spec c 45); try lia. done. }
  rewrite Hsign. rewrite decide_False.
  2:{ apply Nat.le_ngt. etrans; [apply length_filter|done]. }
  unfold py_str. destruct n as [|p|p]; [done| |lia].
  assert (E : int_digits 0 false (lit (pretty (Zpos p))) = Some (Zpos p)).
  { exact (int_digits_pretty (Npos p) "" eq_refl). }
  by rewrite E.
Qed.

#[export] Hint Resolve utf8_len_nonneg startswith_app : hp.
