(* ===== verification/OrdDict.v ===== *)
(** * Insertion-ordered dictionaries

    Python's [dict] and [collections.OrderedDict] as association lists in
    iteration order.  Assigning to a present key keeps its position, a new key
    goes last, [move_to_end] makes a key the last one and
    [popitem(last=False)] removes the first.  Well-formedness ([dict_wf]: no
    key twice) is what the constructors of a Python dictionary guarantee. *)

From S2P Require Import Prelude.

Section Dict.
Context {K : Type} `{EqDecision K} {V : Type}.
Abbreviation dict := (list (K * V)).
Implicit Types (d : dict) (k : K) (v : V).

(** ** Operations *)

(** [d.get(k)]. *)
Fixpoint dict_get (d : dict) (k : K) : option V :=
  match d with
  | [] => None
  | (k', v) :: d' => if decide (k = k') then Some v else dict_get d' k
  end.

(** [d[k] = v]. *)
Fixpoint dict_set (d : dict) (k : K) (v : V) : dict :=
  match d with
  | [] => [(k, v)]
  | (k', v') :: d' =>
      if decide (k = k') then (k', v) :: d' else (k', v') :: dict_set d' k v
  end.

(** [del d[k]], nothing when absent. *)
Fixpoint dict_del (d : dict) (k : K) : dict :=
  match d with
  | [] => []
  | (k', v') :: d' =>
      if decide (k = k') then d' else (k', v') :: dict_del d' k
  end.

(** In-place update of the value stored under [k]. *)
Fixpoint dict_alter (f : V → V) (d : dict) (k : K) : dict :=
  match d with
  | [] => []
  | (k', v') :: d' =>
      if decide (k = k') then (k', f v') :: d' else (k', v') :: dict_alter f d' k
  end.

(** [d.move_to_end(k)] for a present key. *)
Definition move_to_end (d : dict) (k : K) : dict :=
  match dict_get d k with
  | Some v => dict_del d k ++ [(k, v)]
  | None => d
  end.

(** [k in d]. *)
Definition dict_has (d : dict) (k : K) : bool :=
  match dict_get d k with Some _ => true | None => false end.

(** [while len(d) >= n: d.popitem(last=False)] for [n >= 1]. *)
Definition evict_to (n : nat) (d : dict) : dict :=
  drop (S (length d) - n) d.

(** [for k in [k for k, v in d.items() if p v]: del d[k]]. *)
Definition dict_purge (p : V → bool) (d : dict) : dict :=
  fold_left dict_del (map fst (List.filter (λ kv, p kv.2) d)) d.

Definition dict_wf (d : dict) : Prop := NoDup d.*1.

(** ** Lookup *)

Lemma dict_get_set_eq d k v : dict_get (dict_set d k v) k = Some v.
Proof.
  induction d as [|[k' v'] d IH]; cbn; [by rewrite decide_True|].
  case_decide; cbn; [by rewrite decide_True|by rewrite decide_False].
Qed.

Lemma dict_get_set_ne d k k' v :
  k ≠ k' → dict_get (dict_set d k v) k' = dict_get d k'.
Proof.
  intros Hne. induction d as [|[k0 v0] d IH]; cbn; [by rewrite decide_False|].
  case_decide; subst; cbn; [by rewrite !decide_False by done|].
  by rewrite IH.
Qed.

Lemma dict_get_alter d k k' (f : V → V) :
  dict_get (dict_alter f d k) k' =
  if decide (k = k') then f <$> dict_get d k' else dict_get d k'.
Proof.
  induction d as [|[k0 v0] d IH]; cbn; [by case_decide|].
  repeat (case_decide; subst; cbn in *); congruence.
Qed.

Lemma dict_get_Some_elem d k v : dict_get d k = Some v → (k, v) ∈ d.
Proof.
  induction d as [|[k' v'] d IH]; cbn; [done|].
  case_decide; subst; intros; simplify_eq; constructor; auto.
Qed.

Lemma dict_get_None d k : dict_get d k = None ↔ k ∉ d.*1.
Proof.
  induction d as [|[k' v'] d IH]; cbn.
  - split; [intros _; apply not_elem_of_nil|done].
  - rewrite not_elem_of_cons. case_decide; subst; naive_solver.
Qed.

Lemma elem_dict_get d k v : dict_wf d → (k, v) ∈ d → dict_get d k = Some v.
Proof.
  unfold dict_wf. induction d as [|[k' v'] d IH]; cbn.
  - by intros _ ?%not_elem_of_nil.
  - intros [Hk Hd]%NoDup_cons [?|Hin]%elem_of_cons; simplify_eq.
    + by rewrite decide_True.
    + rewrite decide_False; [by apply IH|]. intros ->. apply Hk.
      apply list_elem_of_fmap. by exists (k', v).
Qed.

Lemma dict_get_del_eq d k : dict_wf d → dict_get (dict_del d k) k = None.
Proof.
  unfold dict_wf. induction d as [|[k' v'] d IH]; cbn; [done|].
  intros [Hk Hd]%NoDup_cons. case_decide; subst; cbn.
  - by apply dict_get_None.
  - rewrite decide_False by done. by apply IH.
Qed.

Lemma dict_get_del_ne d k k' :
  k ≠ k' → dict_get (dict_del d k) k' = dict_get d k'.
Proof.
  intros Hne. induction d as [|[k0 v0] d IH]; cbn; [done|].
  case_decide; subst; cbn; [by rewrite decide_False by done|].
  by rewrite IH.
Qed.

Lemma dict_get_app d1 d2 k :
  dict_get (d1 ++ d2) k =
  match dict_get d1 k with Some v => Some v | None => dict_get d2 k end.
Proof.
  induction d1 as [|[k' v'] d1 IH]; cbn; [done|]. by case_decide.
Qed.

Lemma dict_get_move_to_end d k k' :
  dict_wf d → dict_get (move_to_end d k) k' = dict_get d k'.
Proof.
  intros Hwf. unfold move_to_end. destruct (dict_get d k) as [v|] eqn:E; [|done].
  rewrite dict_get_app. cbn.
  destruct (decide (k' = k)) as [->|Hne].
  - by rewrite dict_get_del_eq, E.
  - rewrite dict_get_del_ne by done. by destruct (dict_get d k').
Qed.

(** ** Keys and well-formedness *)

Lemma dict_del_keys_sub d k k' : k' ∈ (dict_del d k).*1 → k' ∈ d.*1.
Proof.
  induction d as [|[k0 v0] d IH]; cbn; [done|].
  case_decide; cbn; rewrite !elem_of_cons; naive_solver.
Qed.

Lemma dict_del_wf d k : dict_wf d → dict_wf (dict_del d k).
Proof.
  unfold dict_wf. induction d as [|[k' v'] d IH]; cbn; [done|].
  intros [Hk Hd]%NoDup_cons. case_decide; [done|]. cbn.
  apply NoDup_cons. split; [|by apply IH].
  intros ?%dict_del_keys_sub. done.
Qed.

Lemma dict_set_new d k v : dict_get d k = None → dict_set d k v = d ++ [(k, v)].
Proof.
  induction d as [|[k' v'] d IH]; cbn; [done|].
  case_decide; [done|]. intros Hn. by rewrite IH.
Qed.

Lemma dict_set_keys_in d k v : k ∈ d.*1 → (dict_set d k v).*1 = d.*1.
Proof.
  induction d as [|[k' v'] d IH]; cbn; [by intros ?%not_elem_of_nil|].
  case_decide; [done|]. intros [?|?]%elem_of_cons; [done|]. cbn.
  by rewrite IH.
Qed.

Lemma dict_set_wf d k v : dict_wf d → dict_wf (dict_set d k v).
Proof.
  unfold dict_wf. intros Hd. destruct (dict_get d k) as [v'|] eqn:E.
  - apply dict_get_Some_elem in E. rewrite dict_set_keys_in; [done|].
    apply list_elem_of_fmap. by exists (k, v').
  - rewrite dict_set_new by done. apply dict_get_None in E.
    rewrite fmap_app. apply NoDup_app. split; [done|]. split.
    + intros x Hx ->%list_elem_of_singleton. done.
    + apply NoDup_singleton.
Qed.

Lemma dict_set_elem d k v kv : kv ∈ dict_set d k v → kv ∈ d ∨ kv = (k, v).
Proof.
  induction d as [|[k0 v0] d IH]; cbn; [intros ?%list_elem_of_singleton; auto|].
  case_decide; intros Hin; apply elem_of_cons in Hin as [->|Hin]; try subst k0.
  - by right.
  - left. by right.
  - left. by left.
  - destruct (IH Hin) as [?|?]; [left; by right|by right].
Qed.
Lemma dict_set_Forall (P : K * V → Prop) d k v : Forall P d → P (k, v) → Forall P (dict_set d k v).
Proof.
  intros Hd Hv. apply Forall_forall. intros kv Hin. rewrite Forall_forall in Hd.
  apply dict_set_elem in Hin as [Hin| ->]; [by apply Hd|done].
Qed.

Lemma dict_set_id d k v : dict_get d k = Some v → dict_set d k v = d.
Proof.
  induction d as [|[k' v'] d IH]; cbn; [done|].
  case_decide; intros; simplify_eq; [done|]. by rewrite IH.
Qed.

Lemma dict_alter_keys f d k : (dict_alter f d k).*1 = d.*1.
Proof.
  induction d as [|[k' v'] d IH]; cbn; [done|]. case_decide; cbn; congruence.
Qed.

Lemma dict_alter_wf f d k : dict_wf d → dict_wf (dict_alter f d k).
Proof. unfold dict_wf. by rewrite dict_alter_keys. Qed.

Lemma dict_alter_length f d k : length (dict_alter f d k) = length d.
Proof.
  induction d as [|[k' v'] d IH]; cbn; [done|]. case_decide; cbn; congruence.
Qed.

Lemma dict_del_length d k v :
  dict_get d k = Some v → S (length (dict_del d k)) = length d.
Proof.
  induction d as [|[k' v'] d IH]; cbn; [done|].
  case_decide; cbn; [done|]. intros Hn. by rewrite IH.
Qed.

Lemma dict_del_elem d k kv : kv ∈ dict_del d k → kv ∈ d.
Proof.
  induction d as [|[k' v'] d IH]; cbn; [done|].
  case_decide; rewrite ?elem_of_cons; naive_solver.
Qed.

Lemma move_to_end_perm d k : move_to_end d k ≡ₚ d.
Proof.
  unfold move_to_end. destruct (dict_get d k) as [v|] eqn:E; [|done].
  rewrite Permutation_app_comm. cbn. revert E.
  induction d as [|[k' v'] d IH]; cbn; [done|].
  case_decide; intros; simplify_eq; [done|].
  rewrite Permutation_swap. constructor. by apply IH.
Qed.

Lemma move_to_end_wf d k : dict_wf d → dict_wf (move_to_end d k).
Proof. unfold dict_wf. by rewrite move_to_end_perm. Qed.

Lemma move_to_end_length d k : length (move_to_end d k) = length d.
Proof. by rewrite move_to_end_perm. Qed.

(** ** Eviction and expiry *)

(** [while len(d) >= n: d.popitem(last=False)] as the loop it is. *)
Fixpoint pop_while (fuel n : nat) (d : dict) : dict :=
  match fuel with
  | O => d
  | S fuel' => if decide (n ≤ length d)%nat then pop_while fuel' n (tail d) else d
  end.

Lemma pop_while_evict fuel n d :
  (1 ≤ n)%nat → (length d ≤ fuel)%nat → pop_while fuel n d = evict_to n d.
Proof.
  intros Hn. revert d. induction fuel as [|fuel IH]; intros d Hf; cbn.
  - destruct d; cbn in *; [|lia]. unfold evict_to. by rewrite drop_nil.
  - unfold evict_to. case_decide.
    + destruct d as [|kv d]; cbn [length tail] in *; [lia|].
      rewrite IH by lia. unfold evict_to.
      replace (S (S (length d)) - n)%nat with (S (S (length d) - n)) by lia.
      done.
    + by replace (S (length d) - n)%nat with 0%nat by lia.
Qed.

Lemma evict_to_length n d :
  (1 ≤ n)%nat → length (evict_to n d) = Nat.min (length d) (n - 1).
Proof. intros. unfold evict_to. rewrite length_drop. lia. Qed.

Lemma evict_to_wf n d : dict_wf d → dict_wf (evict_to n d).
Proof.
  unfold dict_wf, evict_to. rewrite fmap_drop. intros Hd.
  rewrite <-(take_drop (S (length d) - n) d.*1) in Hd.
  by apply NoDup_app in Hd as (_ & _ & ?).
Qed.

Lemma evict_to_get n d k v :
  dict_wf d → dict_get (evict_to n d) k = Some v → dict_get d k = Some v.
Proof.
  intros Hwf H%dict_get_Some_elem. apply elem_dict_get; [done|].
  unfold evict_to in H. apply list_elem_of_lookup in H as [i Hi].
  rewrite lookup_drop in Hi. apply list_elem_of_lookup. eauto.
Qed.

Lemma dict_del_filter d k :
  dict_wf d → dict_del d k = filter (λ kv, kv.1 ≠ k) d.
Proof.
  unfold dict_wf. induction d as [|[k' v'] d IH]; cbn [dict_del]; [done|].
  intros [Hk Hd]%NoDup_cons. rewrite filter_cons. cbn [fst].
  case_decide as E1; case_decide as E2; subst; try done.
  - clear IH Hd. symmetry. induction d as [|[k0 v0] d IH]; [done|].
    apply not_elem_of_cons in Hk as [Hne Hk]. cbn in Hne.
    rewrite filter_cons_True by (cbn; congruence). by rewrite IH.
  - by rewrite IH.
Qed.

Lemma fold_del_filter (ks : list K) d :
  dict_wf d → fold_left dict_del ks d = filter (λ kv, kv.1 ∉ ks) d.
Proof.
  revert d. induction ks as [|k ks IH]; intros d Hd; cbn [fold_left].
  - clear Hd. induction d as [|kv d IH]; [done|].
    rewrite filter_cons_True by apply not_elem_of_nil. by rewrite <-IH.
  - rewrite IH by by apply dict_del_wf.
    rewrite dict_del_filter by done. rewrite list_filter_filter.
    apply list_filter_iff. intros kv. rewrite not_elem_of_cons. tauto.
Qed.

(** The purge keeps exactly the entries whose value fails the test. *)
Lemma dict_purge_filter (p : V → bool) d :
  dict_wf d → dict_purge p d = filter (λ kv, p kv.2 = false) d.
Proof.
  intros Hd. unfold dict_purge. rewrite fold_del_filter by done.
  assert (Hin : ∀ kv, kv ∈ d →
    (kv.1 ∉ map fst (List.filter (λ kv, p kv.2) d) ↔ p kv.2 = false)).
  { intros [k v] Hkv. cbn. rewrite list_elem_of_In, in_map_iff. split.
    - intros Hn. destruct (p v) eqn:Ep; [|done]. destruct Hn.
      exists (k, v). split; [done|]. apply filter_In.
      by rewrite <-list_elem_of_In.
    - intros Hp ([k' v'] & Hk & Hf). cbn in Hk. subst k'.
      apply filter_In in Hf as [Hf Hp']. cbn in Hp'.
      apply list_elem_of_In in Hf. apply elem_dict_get in Hf, Hkv; congruence. }
  revert Hin. generalize (map fst (List.filter (λ kv, p kv.2) d)) as ks.
  intros ks Hin. clear Hd.
  induction d as [|kv d IH]; [done|].
  rewrite !filter_cons. rewrite IH by (intros ??; apply Hin; by constructor).
  specialize (Hin kv ltac:(constructor)). repeat case_decide; tauto.
Qed.

Lemma dict_purge_wf (p : V → bool) d : dict_wf d → dict_wf (dict_purge p d).
Proof.
  intros Hd. unfold dict_purge.
  generalize (map fst (List.filter (λ kv, p kv.2) d)) as ks. intros ks.
  revert d Hd. induction ks as [|k ks IH]; intros d Hd; cbn; [done|].
  by apply IH, dict_del_wf.
Qed.

Lemma dict_purge_get (p : V → bool) d k :
  dict_wf d →
  dict_get (dict_purge p d) k =
  match dict_get d k with
  | Some v => if p v then None else Some v
  | None => None
  end.
Proof.
  intros Hd. pose proof (dict_purge_wf p d Hd) as Hwf.
  rewrite dict_purge_filter in * by done.
  destruct (dict_get d k) as [v|] eqn:E.
  - apply dict_get_Some_elem in E as Hin. destruct (p v) eqn:Ep.
    + apply dict_get_None. rewrite list_elem_of_fmap.
      intros ([k' v'] & Hk & Hf). cbn in Hk. subst k'.
      apply list_elem_of_filter in Hf as [Hp Hf]. cbn in Hp.
      apply elem_dict_get in Hf; [congruence|done].
    + apply elem_dict_get; [done|]. by apply list_elem_of_filter.
  - apply dict_get_None in E. apply dict_get_None.
    rewrite list_elem_of_fmap. intros ([k' v'] & Hk & Hf). cbn in Hk. subst k'.
    apply list_elem_of_filter in Hf as [_ Hf]. apply E, list_elem_of_fmap.
    by exists (k, v').
Qed.

Lemma dict_purge_length (p : V → bool) d :
  dict_wf d → (length (dict_purge p d) ≤ length d)%nat.
Proof. intros Hd. rewrite dict_purge_filter by done. apply length_filter. Qed.
End Dict.

#[export] Hint Resolve dict_set_wf dict_del_wf dict_alter_wf move_to_end_wf
  evict_to_wf dict_purge_wf : hp.
