(* ===== verification/Path.v ===== *)
(** * Path resolution: [canonicalize] and [parent_path] of src/vfs.py

    The text-level half of path resolution.  [canonical] is the abstract
    specification of an absolute path: a slash followed by components that are
    non-empty, hold no slash and are neither [.] nor [..]. *)

From S2P Require Import Prelude PyStr.

Definition slash : Z := 47.

Definition HOSTNAME : str := "ubuntu-srv".
Definition DEFAULT_HOME : str := "/root".

(** ** Definitions *)

(** One iteration of the loop over [path.split("/")]. *)
Definition canon_push (parts : list str) (part : str) : list str :=
  if decide (part = [] ∨ part = lit ".") then parts
  else if decide (part = lit "..") then
    match parts with [] => [] | _ => removelast parts end
  else parts ++ [part].

Definition canon_parts (path : str) : list str :=
  fold_left canon_push (split_on slash path) [].

(** The text [canonicalize] splits: absolute, or prefixed with the cwd. *)
Definition absolutize (path cwd : str) : str :=
  if startswith path "/" then path
  else (if decide (cwd = lit "/") then [] else cwd) ++ [slash] ++ path.

Definition render (ws : list str) : str := slash :: join [slash] ws.

Definition canonicalize (path cwd home : str) : str :=
  if bool_decide (path = lit "~") || startswith path "~/" then
    render (canon_parts (absolutize (home ++ drop 1 path) cwd))
  else if decide (path = lit "-") then path
  else render (canon_parts (absolutize path cwd)).

Definition parent_path (abs_path : str) : str :=
  if decide (abs_path = lit "/") then "/"
  else
    let '(parent, _, _) := rpartition slash (rstrip abs_path "/") in
    match parent with [] => "/" | _ => parent end.

(** [abs_path.strip("/").split("/")], the components a walk visits. *)
Definition path_parts (abs_path : str) : list str :=
  split_on slash (strip_chars abs_path "/").

(** [abs_path.rsplit("/", 1)[-1]]. *)
Definition base_name (abs_path : str) : str := rsplit_last slash abs_path.

(** ** Specification *)

Definition comp_ok (w : str) : Prop :=
  w ≠ [] ∧ w ≠ lit "." ∧ w ≠ lit ".." ∧ slash ∉ w.

Definition canonical (p : str) : Prop := ∃ ws, Forall comp_ok ws ∧ p = render ws.

#[export] Instance comp_ok_dec w : Decision (comp_ok w).
Proof. unfold comp_ok. apply _. Defined.

(** ** Components *)

Lemma comp_ok_noslash ws : Forall comp_ok ws → Forall (λ w, slash ∉ w) ws.
Proof. intros H. eapply Forall_impl; [done|]. by intros w (_ & _ & _ & ?). Qed.

Lemma comps_snoc ws w :
  Forall comp_ok (ws ++ [w]) → Forall comp_ok ws ∧ comp_ok w.
Proof. rewrite Forall_app, Forall_singleton. done. Qed.

Lemma canon_push_ok parts part :
  slash ∉ part → Forall comp_ok parts → Forall comp_ok (canon_push parts part).
Proof.
  intros Hs Hp. unfold canon_push. case_decide as H1; [done|].
  case_decide as H2.
  - destruct parts as [|w parts]; [done|]. generalize dependent (w :: parts).
    intros l Hl. destruct l as [|x l] using rev_ind; [done|].
    rewrite removelast_last. by apply Forall_app in Hl as [? _].
  - apply Forall_app. split; [done|]. repeat constructor; tauto.
Qed.

Lemma fold_canon_ok ws acc :
  Forall (λ w, slash ∉ w) ws → Forall comp_ok acc →
  Forall comp_ok (fold_left canon_push ws acc).
Proof.
  intros Hws. revert acc. induction Hws as [|w ws Hw Hws IH]; intros acc Ha; [done|].
  cbn. by apply IH, canon_push_ok.
Qed.

Lemma canon_parts_ok path : Forall comp_ok (canon_parts path).
Proof. apply fold_canon_ok; [apply split_on_pieces|constructor]. Qed.

Lemma canon_push_comp parts w : comp_ok w → canon_push parts w = parts ++ [w].
Proof.
  intros (H1 & H2 & H3 & _). unfold canon_push.
  rewrite decide_False by tauto. by rewrite decide_False.
Qed.

Lemma fold_canon_comps ws acc :
  Forall comp_ok ws → fold_left canon_push ws acc = acc ++ ws.
Proof.
  intros Hws. revert acc. induction Hws as [|w ws Hw Hws IH]; intros acc; cbn.
  - by rewrite app_nil_r.
  - rewrite canon_push_comp, IH by done. by rewrite <-app_assoc.
Qed.

Lemma split_on_app_gen sep s t :
  split_on sep (s ++ sep :: t) = split_on sep s ++ split_on sep t.
Proof.
  induction s as [|c s IH]; cbn.
  - by rewrite decide_True.
  - rewrite IH. case_decide; [done|].
    destruct (split_on sep s) as [|w ws] eqn:E; [|done].
    by apply split_on_nonempty in E.
Qed.

Lemma canon_parts_app s t :
  canon_parts (s ++ slash :: t) =
  fold_left canon_push (split_on slash t) (canon_parts s).
Proof. unfold canon_parts. by rewrite split_on_app_gen, fold_left_app. Qed.

Lemma canon_parts_render ws : Forall comp_ok ws → canon_parts (render ws) = ws.
Proof.
  intros Hws. unfold render.
  change (slash :: ?s) with ([] ++ slash :: s). rewrite canon_parts_app.
  change (canon_parts []) with (@nil str).
  destruct ws as [|w ws]; [done|].
  rewrite split_join by (done || by apply comp_ok_noslash).
  by rewrite fold_canon_comps.
Qed.

(** ** The ends of a rendered path *)

Lemma comp_ok_head w rest :
  comp_ok w → ∃ c t, w ++ rest = c :: t ∧ c ≠ slash.
Proof.
  intros (Hne & _ & _ & Hs). destruct w as [|c w]; [done|].
  exists c, (w ++ rest). split; [done|]. set_solver.
Qed.

Lemma join_head ws :
  ws ≠ [] → Forall comp_ok ws →
  ∃ c t, join [slash] ws = c :: t ∧ c ≠ slash.
Proof.
  intros Hne Hws. destruct Hws as [|w ws Hw Hws]; [done|].
  destruct ws as [|w' ws]; cbn [join].
  - rewrite <-(app_nil_r w). by apply comp_ok_head.
  - by apply comp_ok_head.
Qed.

Lemma join_last ws :
  ws ≠ [] → Forall comp_ok ws →
  ∃ t c, join [slash] ws = t ++ [c] ∧ c ≠ slash.
Proof.
  intros Hne Hws. destruct ws as [|w ws _] using rev_ind; [done|]. clear Hne.
  apply comps_snoc in Hws as [Hws (Hwne & _ & _ & Hs)].
  destruct w as [|c w _] using rev_ind; [done|].
  destruct ws as [|w0 ws].
  - exists w, c. split; [done|]. set_solver.
  - rewrite join_snoc by done. exists (join [slash] (w0 :: ws) ++ [slash] ++ w), c.
    split; [by rewrite <-!app_assoc|]. set_solver.
Qed.

Lemma contains_slash c : contains "/" c = bool_decide (c = slash).
Proof.
  unfold contains. apply bool_decide_ext. cbn. rewrite list_elem_of_singleton.
  done.
Qed.

Lemma rstrip_last t c : c ≠ slash → rstrip (t ++ [c]) "/" = t ++ [c].
Proof.
  intros Hc. unfold rstrip, rstrip_by. rewrite reverse_snoc. cbn [drop_while].
  rewrite contains_slash, bool_decide_eq_false_2 by done.
  by rewrite reverse_cons, reverse_involutive.
Qed.

Lemma strip_render ws :
  ws ≠ [] → Forall comp_ok ws → strip_chars (render ws) "/" = join [slash] ws.
Proof.
  intros Hne Hws. unfold strip_chars, strip_by, render, lstrip_by. cbn [drop_while].
  rewrite contains_slash, bool_decide_eq_true_2 by done.
  destruct (join_head ws) as (c & t & E & Hc); [done..|].
  rewrite drop_while_id.
  - destruct (join_last ws) as (t' & c' & -> & Hc'); [done..|]. by apply rstrip_last.
  - rewrite E. by rewrite contains_slash, bool_decide_eq_false_2.
Qed.

Lemma rstrip_render ws :
  ws ≠ [] → Forall comp_ok ws → rstrip (render ws) "/" = render ws.
Proof.
  intros Hne Hws. unfold render.
  destruct (join_last ws) as (t & c & -> & Hc); [done..|].
  apply (rstrip_last (slash :: t) c Hc).
Qed.

(** ** [path_parts], [parent_path] and the base name of a canonical path *)

Lemma render_root ws : Forall comp_ok ws → render ws = lit "/" ↔ ws = [].
Proof.
  intros Hws. split; [|by intros ->]. intros H. destruct ws as [|w ws]; [done|].
  destruct (join_head (w :: ws)) as (c & t & E & _); [done..|].
  unfold render in H. rewrite E in H. done.
Qed.

Lemma path_parts_render ws :
  ws ≠ [] → Forall comp_ok ws → path_parts (render ws) = ws.
Proof.
  intros Hne Hws. unfold path_parts. rewrite strip_render by done.
  apply split_join; [done|]. by apply comp_ok_noslash.
Qed.

Lemma render_inj ws ws' :
  Forall comp_ok ws → Forall comp_ok ws' → render ws = render ws' → ws = ws'.
Proof.
  intros H1 H2 E. rewrite <-(canon_parts_render ws), <-(canon_parts_render ws') by done.
  by rewrite E.
Qed.

Lemma render_snoc ws w :
  render (ws ++ [w]) =
  match ws with [] => slash :: w | _ => render ws ++ slash :: w end.
Proof.
  destruct ws as [|w' ws]; [done|]. unfold render. by rewrite join_snoc.
Qed.

Lemma parent_path_render ws w :
  Forall comp_ok (ws ++ [w]) → parent_path (render (ws ++ [w])) = render ws.
Proof.
  intros Hws. unfold parent_path. rewrite decide_False.
  2: { rewrite render_root by done. by destruct ws. }
  rewrite rstrip_render by (done || by destruct ws). rewrite render_snoc.
  apply comps_snoc in Hws as [Hws (_ & _ & _ & Hw)].
  destruct ws as [|w' ws].
  - pose proof (rpartition_app slash [] w Hw) as E. cbn [app] in E. by rewrite E.
  - by rewrite rpartition_app.
Qed.

Lemma base_name_render ws w :
  Forall comp_ok (ws ++ [w]) → base_name (render (ws ++ [w])) = w.
Proof.
  intros Hws. apply comps_snoc in Hws as [_ (_ & _ & _ & Hw)].
  unfold base_name. rewrite render_snoc. destruct ws as [|w' ws].
  - by apply (rsplit_last_app slash []).
  - by apply rsplit_last_app.
Qed.

(** ** Canonical paths *)

Lemma canonicalize_shape path cwd home :
  path ≠ lit "-" →
  ∃ p, canonicalize path cwd home = render (canon_parts p).
Proof.
  intros H. unfold canonicalize. case_match; [by eexists|].
  rewrite decide_False by done. by eexists.
Qed.

Lemma canonicalize_comps path cwd home :
  path ≠ lit "-" →
  ∃ ws, Forall comp_ok ws ∧ canonicalize path cwd home = render ws.
Proof.
  intros H. destruct (canonicalize_shape path cwd home H) as [p ->].
  eexists. split; [apply canon_parts_ok|done].
Qed.

Lemma canonicalize_render ws cwd home :
  Forall comp_ok ws → canonicalize (render ws) cwd home = render ws.
Proof.
  intros Hws. unfold canonicalize, startswith at 1.
  rewrite !bool_decide_eq_false_2 by (done || by intros [k Hk]).
  cbn [orb]. rewrite decide_False by done.
  unfold absolutize. change (render ws) with (lit "/" ++ join [slash] ws) at 1.
  rewrite startswith_app. by rewrite canon_parts_render.
Qed.

(** [path] with a leading [~] replaced, the text that is made absolute. *)
Definition expand_tilde (path home : str) : str :=
  if bool_decide (path = lit "~") || startswith path "~/"
  then home ++ drop 1 path else path.

Lemma canonicalize_expand path cwd home :
  path ≠ lit "-" →
  canonicalize path cwd home =
  render (canon_parts (absolutize (expand_tilde path home) cwd)).
Proof.
  intros Hne. unfold canonicalize, expand_tilde.
  case_match; [done|]. by rewrite decide_False.
Qed.

Lemma expand_tilde_app p q home :
  p ≠ [] → expand_tilde (p ++ slash :: q) home = expand_tilde p home ++ slash :: q.
Proof.
  intros Hp. unfold expand_tilde, startswith.
  assert (E : bool_decide (p ++ slash :: q = lit "~")
              || bool_decide (lit "~/" `prefix_of` p ++ slash :: q)
            = bool_decide (p = lit "~") || bool_decide (lit "~/" `prefix_of` p)).
  { apply eq_bool_prop_intro. rewrite !orb_True, !bool_decide_spec.
    destruct p as [|c [|d p]]; [done|..]; cbn; split.
    - intros [?|[k Hk]]; simplify_eq/=. by left.
    - intros [?|[k Hk]]; simplify_eq/=. right. by exists q.
    - intros [?|[k Hk]]; simplify_eq/=. right. by exists p.
    - intros [?|[k Hk]]; simplify_eq/=. right. by exists (k ++ slash :: q). }
  rewrite E. case_match; [|done]. destruct p as [|c p]; [done|].
  cbn. by rewrite <-app_assoc.
Qed.

Lemma canonicalize_dash cwd home : canonicalize "-" cwd home = lit "-".
Proof. reflexivity. Qed.

#[export] Hint Resolve canon_parts_ok : hp.

Lemma absolutize_app x q cwd :
  x ≠ [] → absolutize (x ++ slash :: q) cwd = absolutize x cwd ++ slash :: q.
Proof.
  intros Hx. destruct x as [|c x]; [done|]. unfold absolutize, startswith.
  assert (E : (lit "/" `prefix_of` (c :: x) ++ slash :: q) ↔
              lit "/" `prefix_of` c :: x).
  { split; intros [k [= -> _]]; by eexists. }
  rewrite (bool_decide_ext _ _ E). case_match; [done|]. by rewrite <-!app_assoc.
Qed.

Lemma canon_parts_cwd ws q :
  Forall comp_ok ws → startswith q "/" = false →
  canon_parts (absolutize q (render ws)) =
  fold_left canon_push (split_on slash q) ws.
Proof.
  intros Hws Hq. unfold absolutize. rewrite Hq. cbn [app].
  rewrite canon_parts_app. case_decide as E.
  - by apply render_root in E as ->.
  - by rewrite canon_parts_render.
Qed.

(** ** Properties *)

(** sandboxing of names.  Whatever text an attacker types, the path
    [canonicalize] returns is absolute and made of plain components: no empty
    component, no [.] or [..] left to escape the root with.  The operand [-]
    alone is returned as it is. *)
Theorem canonicalize_canonical path cwd home :
  (path = lit "-" ∧ canonicalize path cwd home = lit "-") ∨
  (canonical (canonicalize path cwd home) ∧
   ∀ cwd', canonicalize (canonicalize path cwd home) cwd' home
           = canonicalize path cwd home).
Proof.
  destruct (decide (path = lit "-")) as [->|Hne]; [by left|]. right.
  destruct (canonicalize_comps path cwd home Hne) as (ws & Hws & ->).
  split; [by exists ws|]. intros cwd'. by apply canonicalize_render.
Qed.

(** resolving a relative path [q] from where [p] leads is resolving
    [p/q] at once: [cd p; cd q] and [cd p/q] reach the same directory. *)
Theorem canonicalize_compose p q cwd home :
  p ≠ [] → p ≠ lit "-" → home ≠ [] →
  startswith q "/" = false → q ≠ lit "-" → q ≠ lit "~" →
  startswith q "~/" = false →
  canonicalize (p ++ slash :: q) cwd home =
  canonicalize q (canonicalize p cwd home) home.
Proof.
  intros Hp Hpd Hh Hq Hqd Hqt Hqt'.
  rewrite canonicalize_expand.
  2: { destruct p as [|c p]; [done|]. intros E. injection E as E1 E2.
       by destruct p. }
  rewrite !canonicalize_expand by done. f_equal.
  rewrite expand_tilde_app by done.
  assert (Hx : expand_tilde p home ≠ []).
  { unfold expand_tilde. destruct home; [done|]. by case_match. }
  assert (Hq' : expand_tilde q home = q).
  { unfold expand_tilde. by rewrite Hqt', bool_decide_eq_false_2. }
  rewrite absolutize_app, canon_parts_app, Hq' by done.
  by rewrite canon_parts_cwd by (done || apply canon_parts_ok).
Qed.

Lemma canonicalize_compose_witness :
  canonicalize (lit "~/a" ++ slash :: lit "../b") "/tmp" DEFAULT_HOME =
  canonicalize "../b" (canonicalize "~/a" "/tmp" DEFAULT_HOME) DEFAULT_HOME.
Proof. apply canonicalize_compose; done. Defined.

(** [parent_path] and the base name cut a canonical path other than the
    root into a canonical directory and one plain component, and nothing is
    lost: the two parts put together are the path. *)
Theorem parent_base_split p :
  canonical p → p ≠ lit "/" →
  canonical (parent_path p) ∧ comp_ok (base_name p) ∧
  canonicalize (lit "./" ++ base_name p) (parent_path p) DEFAULT_HOME = p.
Proof.
  intros (ws & Hws & ->) Hne. rewrite render_root in Hne by done.
  destruct ws as [|w ws _] using rev_ind; [done|]. clear Hne.
  rewrite parent_path_render, base_name_render by done.
  apply comps_snoc in Hws as [Hws Hw]. split; [by exists ws|]. split; [done|].
  rewrite canonicalize_expand by done. f_equal.
  change (expand_tilde (lit "./" ++ w) DEFAULT_HOME) with (lit "." ++ slash :: w).
  rewrite canon_parts_cwd by done.
  rewrite split_on_app by (cbn; set_solver).
  rewrite split_on_word by apply Hw. cbn [fold_left].
  by rewrite canon_push_comp.
Qed.

Lemma parent_base_split_witness :
  canonical (parent_path "/etc/passwd") ∧ comp_ok (base_name "/etc/passwd") ∧
  canonicalize (lit "./" ++ base_name "/etc/passwd") (parent_path "/etc/passwd")
    DEFAULT_HOME = lit "/etc/passwd".
Proof.
  apply parent_base_split; [|done].
  exists [lit "etc"; lit "passwd"]. split; [|done].
  repeat constructor; (done || vm_compute; set_solver).
Defined.
