(* ===== verification/Chmod.v ===== *)
(** * Permission bits: [apply_chmod_mode] of src/vfs.py, [_perm_string] of
    src/shell.py

    Modes are integers; the bit operations are the source's.  The set of
    subjects of a symbolic clause is kept in the order u, g, o: the source
    folds a disjunction over a Python [set], so its order is immaterial. *)

From S2P Require Import Prelude PyStr.

(** The characters of a clause. *)
Definition ch_u : Z := 117.
Definition ch_g : Z := 103.
Definition ch_o : Z := 111.
Definition ch_a : Z := 97.
Definition ch_r : Z := 114.
Definition ch_w : Z := 119.
Definition ch_x : Z := 120.
Definition ch_s : Z := 115.
Definition ch_t : Z := 116.

Definition mode_mask : Z := 4095.

(** ** [apply_chmod_mode] *)

(** [bit_map.get((subject, perm), 0)]. *)
Definition bit_map (subject perm : Z) : Z :=
  if decide ((subject, perm) = (ch_u, ch_r)) then 256
  else if decide ((subject, perm) = (ch_u, ch_w)) then 128
  else if decide ((subject, perm) = (ch_u, ch_x)) then 64
  else if decide ((subject, perm) = (ch_u, ch_s)) then 2048
  else if decide ((subject, perm) = (ch_g, ch_r)) then 32
  else if decide ((subject, perm) = (ch_g, ch_w)) then 16
  else if decide ((subject, perm) = (ch_g, ch_x)) then 8
  else if decide ((subject, perm) = (ch_g, ch_s)) then 1024
  else if decide ((subject, perm) = (ch_o, ch_r)) then 4
  else if decide ((subject, perm) = (ch_o, ch_w)) then 2
  else if decide ((subject, perm) = (ch_o, ch_x)) then 1
  else if decide ((subject, perm) = (ch_o, ch_t)) then 512
  else 0.

(** The key looked up for a subject and a permission letter. *)
Definition perm_bits (subject perm : Z) : Z :=
  if decide (perm = ch_t) then bit_map ch_o ch_t else bit_map subject perm.

(** [for subject in subjects: for perm in perms: delta |= ...]. *)
Definition clause_delta (subjects perms : str) : Z :=
  fold_left (λ acc subject,
    fold_left (λ acc perm, Z.lor acc (perm_bits subject perm)) perms acc)
    subjects 0.

Definition who_mask (subjects : str) : Z :=
  let m := if decide (ch_u ∈ subjects) then Z.lor 0 2496 else 0 in
  let m := if decide (ch_g ∈ subjects) then Z.lor m 1080 else m in
  if decide (ch_o ∈ subjects) then Z.lor m 519 else m.

(** The leading run of [ugoa] letters, and what follows it. *)
Fixpoint who_span (clause : str) : str * str :=
  match clause with
  | [] => ([], [])
  | c :: rest =>
      if contains "ugoa" c then let '(w, r) := who_span rest in (c :: w, r)
      else ([], clause)
  end.

Definition clause_subjects (who_chars : str) : str :=
  if bool_decide (who_chars = []) || contains who_chars ch_a
  then [ch_u; ch_g; ch_o]
  else filter (λ c, c ∈ who_chars) [ch_u; ch_g; ch_o].

Definition _apply_symbolic_clause (current : Z) (clause : str) : result Z :=
  match clause with
  | [] => Err (ValueError clause)
  | _ =>
      let '(who_chars, rest) := who_span clause in
      match rest with
      | [] => Err (ValueError clause)
      | op :: perms =>
          if negb (contains "+-=" op) then Err (ValueError clause)
          else if negb (forallb (contains "rwxst") perms)
          then Err (ValueError clause)
          else
            let subjects := clause_subjects who_chars in
            let delta := clause_delta subjects perms in
            if decide (op = 43) then Ok (Z.lor current delta)
            else if decide (op = 45) then Ok (Z.land current (Z.lnot delta))
            else Ok (Z.lor (Z.land current (Z.lnot (who_mask subjects))) delta)
      end
  end.

Fixpoint apply_clauses (current : Z) (clauses : list str) : result Z :=
  match clauses with
  | [] => Ok current
  | clause :: rest =>
      current' ← _apply_symbolic_clause current clause; apply_clauses current' rest
  end.

(** [int(digits, 8)] for a string of octal digits. *)
Definition octal_value (digits : str) : Z :=
  fold_left (λ acc c, acc * 8 + (c - 48)) digits 0.

Definition apply_chmod_mode (current : Z) (spec : str) : result Z :=
  let stripped := strip spec in
  if decide (stripped = []) then Err (ValueError spec)
  else if forallb (contains "01234567") stripped then
    if decide (4 < length stripped)%nat then Err (ValueError spec)
    else Ok (Z.land (octal_value stripped) mode_mask)
  else apply_clauses (Z.land current mode_mask) (split_on 44 stripped).

(** ** [_perm_string] *)
Definition perm_char (bits bit : Z) (c : Z) : Z :=
  if decide (Z.land bits bit = 0) then 45 else c.

Definition perm_triple (mode shift : Z) : str :=
  let bits := Z.land (Z.shiftr mode shift) 7 in
  [perm_char bits 4 ch_r; perm_char bits 2 ch_w; perm_char bits 1 ch_x].

(** [if mode & bit: chars[i] = lo if chars[i] == "x" else up]. *)
Definition special_char (mode bit : Z) (i : nat) (lo up : Z) (chars : str) : str :=
  if decide (Z.land mode bit = 0) then chars
  else <[i := if decide (chars !! i = Some ch_x) then lo else up]> chars.

Definition _perm_string (mode : Z) : str :=
  let chars := perm_triple mode 6 ++ perm_triple mode 3 ++ perm_triple mode 0 in
  special_char mode 2048 2 ch_s 83
    (special_char mode 1024 5 ch_s 83
       (special_char mode 512 8 ch_t 84 chars)).

(** ** Specification of the listing format: what a reader of [ls -l] decodes *)
Definition read_special (c lo up : Z) : Z :=
  if decide (c = lo ∨ c = up) then 1 else 0.
Definition read_bit (c on lo : Z) : Z := if decide (c = on ∨ c = lo) then 1 else 0.

Definition read_perm_string (s : str) : Z :=
  match s with
  | [a; b; c; d; e; f; g; h; i] =>
      read_special c ch_s 83 * 2048 + read_special f ch_s 83 * 1024
      + read_special i ch_t 84 * 512
      + read_bit a ch_r ch_r * 256 + read_bit b ch_w ch_w * 128
      + read_bit c ch_x ch_s * 64
      + read_bit d ch_r ch_r * 32 + read_bit e ch_w ch_w * 16
      + read_bit f ch_x ch_s * 8
      + read_bit g ch_r ch_r * 4 + read_bit h ch_w ch_w * 2
      + read_bit i ch_x ch_t * 1
  | _ => -1
  end.

(** ** Lemmas *)

Definition is_mode (m : Z) : Prop := Z.land m mode_mask = m.

Lemma is_mode_bounds m : is_mode m ↔ 0 ≤ m < 4096.
Proof.
  unfold is_mode. change mode_mask with (Z.ones 12).
  rewrite Z.land_ones by lia. split.
  - intros <-. apply Z.mod_pos_bound. lia.
  - intros ?. by rewrite Z.mod_small.
Qed.

Lemma is_mode_land m : is_mode (Z.land m mode_mask).
Proof. unfold is_mode. by rewrite <-Z.land_assoc, Z.land_diag. Qed.

Lemma is_mode_lor a b : is_mode a → is_mode b → is_mode (Z.lor a b).
Proof. unfold is_mode. intros Ha Hb. by rewrite Z.land_lor_distr_l, Ha, Hb. Qed.

Lemma is_mode_land_l a b : is_mode a → is_mode (Z.land a b).
Proof.
  unfold is_mode. intros Ha.
  by rewrite <-Z.land_assoc, (Z.land_comm b), Z.land_assoc, Ha.
Qed.

Lemma bit_map_mode s p : is_mode (bit_map s p).
Proof. unfold bit_map. by repeat case_decide. Qed.

Lemma perm_bits_mode s p : is_mode (perm_bits s p).
Proof. unfold perm_bits. case_decide; apply bit_map_mode. Qed.

#[export] Hint Resolve is_mode_land is_mode_lor is_mode_land_l perm_bits_mode : hp.

(** The bits of a clause are the union of the bits of its pairs. *)
Lemma fold_perms_testbit s perms acc i :
  Z.testbit (fold_left (λ acc p, Z.lor acc (perm_bits s p)) perms acc) i =
  Z.testbit acc i || existsb (λ p, Z.testbit (perm_bits s p) i) perms.
Proof.
  revert acc. induction perms as [|p perms IH]; intros acc; cbn.
  - by rewrite orb_false_r.
  - by rewrite IH, Z.lor_spec, orb_assoc.
Qed.

Lemma clause_delta_testbit subjects perms i :
  Z.testbit (clause_delta subjects perms) i =
  existsb (λ s, existsb (λ p, Z.testbit (perm_bits s p) i) perms) subjects.
Proof.
  assert (H : ∀ acc, Z.testbit (fold_left (λ acc subject, fold_left (λ acc perm,
      Z.lor acc (perm_bits subject perm)) perms acc) subjects acc) i =
    Z.testbit acc i ||
    existsb (λ s, existsb (λ p, Z.testbit (perm_bits s p) i) perms) subjects).
  { induction subjects as [|s subjects IH]; intros acc; cbn.
    - by rewrite orb_false_r.
    - by rewrite IH, fold_perms_testbit, orb_assoc. }
  unfold clause_delta. by rewrite H, Z.testbit_0_l.
Qed.

Lemma fold_perms_mode s perms acc :
  is_mode acc →
  is_mode (fold_left (λ acc p, Z.lor acc (perm_bits s p)) perms acc).
Proof.
  revert acc. induction perms as [|p perms IH]; intros acc Ha; cbn; [done|].
  apply IH. auto with hp.
Qed.

Lemma clause_delta_mode subjects perms : is_mode (clause_delta subjects perms).
Proof.
  unfold clause_delta. assert (H : is_mode 0) by done. revert H. generalize 0.
  induction subjects as [|s subjects IH]; intros acc Ha; cbn; [done|].
  by apply IH, fold_perms_mode.
Qed.
#[export] Hint Resolve clause_delta_mode : hp.

Lemma symbolic_clause_mode m clause m' :
  is_mode m → _apply_symbolic_clause m clause = Ok m' → is_mode m'.
Proof.
  intros Hm. unfold _apply_symbolic_clause. destruct clause; [done|].
  destruct (who_span _) as [who [|op perms]]; [done|].
  repeat (case_match; try done); intros [= <-]; auto with hp.
Qed.

Lemma apply_clauses_mode m clauses m' :
  is_mode m → apply_clauses m clauses = Ok m' → is_mode m'.
Proof.
  revert m. induction clauses as [|c clauses IH]; intros m Hm; cbn.
  - by intros [= <-].
  - intros H. monad_inv. eapply IH; [|done]. by eapply symbolic_clause_mode.
Qed.

(** [_perm_string] only looks at the twelve permission bits. *)
Lemma land_mask_sub m b : Z.land b mode_mask = b → Z.land (Z.land m mode_mask) b = Z.land m b.
Proof. intros Hb. by rewrite <-Z.land_assoc, (Z.land_comm mode_mask), Hb. Qed.

Lemma perm_triple_mask m shift :
  shift = 6 ∨ shift = 3 ∨ shift = 0 →
  perm_triple (Z.land m mode_mask) shift = perm_triple m shift.
Proof.
  intros H. unfold perm_triple. rewrite Z.shiftr_land, <-Z.land_assoc.
  by destruct H as [->|[->| ->]].
Qed.

Lemma perm_string_mask m : _perm_string (Z.land m mode_mask) = _perm_string m.
Proof.
  unfold _perm_string, special_char.
  rewrite !perm_triple_mask by lia. by rewrite !land_mask_sub by done.
Qed.

Lemma all_modes (P : Z → bool) :
  forallb (λ n, P (Z.of_nat n)) (List.seq 0 4096) = true →
  ∀ m, 0 ≤ m < 4096 → P m = true.
Proof.
  intros H m Hm. rewrite forallb_forall in H.
  specialize (H (Z.to_nat m)). rewrite Z2Nat.id in H by lia. apply H.
  apply in_seq. lia.
Qed.

(** ** Properties *)

(** whatever the current mode and the attacker's text, a successful
    [chmod] leaves exactly permission bits: the new mode is in 0..0o7777. *)
Theorem chmod_mode_bounds current spec m :
  apply_chmod_mode current spec = Ok m → 0 ≤ m < 4096.
Proof.
  unfold apply_chmod_mode. rewrite <-is_mode_bounds.
  repeat (case_match; try done).
  - intros [= <-]. auto with hp.
  - apply apply_clauses_mode. auto with hp.
Qed.

Lemma chmod_mode_bounds_witness :
  apply_chmod_mode 420 "u+xs,go=" = Ok 2496 ∧ 0 ≤ 2496 < 4096.
Proof.
  split; [reflexivity|]. by apply (chmod_mode_bounds 420 (lit "u+xs,go=")).
Defined.

(** bit-exact meaning of a symbolic clause.  With [who] letters, an
    operator and [perms] letters, bit [i] of the result is: set by [+] when it
    was set or one of the named subject/permission pairs has it; cleared by
    [-] when one of them has it; and with [=] taken from the pairs, except
    that bits outside the subjects' mask are kept. *)
Theorem symbolic_clause_bits current who op perms i :
  forallb (contains "ugoa") who = true →
  contains "+-=" op = true → forallb (contains "rwxst") perms = true → 0 ≤ i →
  let subjects := clause_subjects who in
  let named := existsb (λ s, existsb (λ p, Z.testbit (perm_bits s p) i) perms)
                 subjects in
  ∃ m, _apply_symbolic_clause current (who ++ op :: perms) = Ok m ∧
    Z.testbit m i =
      if decide (op = 43) then Z.testbit current i || named
      else if decide (op = 45) then Z.testbit current i && negb named
      else (Z.testbit current i && negb (Z.testbit (who_mask subjects) i)) || named.
Proof.
  intros Hwho Hop Hperms Hi subjects named.
  assert (Hspan : who_span (who ++ op :: perms) = (who, op :: perms)).
  { induction who as [|c who IH]; cbn in *.
    - apply contains_true in Hop. change (op ∈ [43; 45; 61]) in Hop.
      rewrite !elem_of_cons in Hop.
      by destruct Hop as [->|[->|[->|[]%not_elem_of_nil]]].
    - apply andb_prop in Hwho as [-> Hwho]. by rewrite IH. }
  unfold _apply_symbolic_clause. rewrite Hspan, Hop, Hperms. cbn [negb].
  fold subjects. exists (if decide (op = 43) then Z.lor current (clause_delta subjects perms)
    else if decide (op = 45) then Z.land current (Z.lnot (clause_delta subjects perms))
    else Z.lor (Z.land current (Z.lnot (who_mask subjects))) (clause_delta subjects perms)).
  split; [destruct who; cbn; by repeat case_decide|].
  repeat case_decide.
  all: rewrite ?Z.lor_spec, ?Z.land_spec, ?Z.lnot_spec, ?clause_delta_testbit by done.
  all: done.
Qed.

Lemma symbolic_clause_bits_witness :
  ∃ m, _apply_symbolic_clause 420 (lit "go" ++ 45 :: lit "rw") = Ok m ∧
    Z.testbit m 2 = Z.testbit 420 2 && negb true.
Proof.
  apply (symbolic_clause_bits 420 (lit "go") 45 (lit "rw") 2); (reflexivity || lia).
Defined.

(** [ls -l] shows the permissions exactly: reading the nine letters back
    gives the twelve permission bits, the setuid, setgid and sticky letters
    included; so two modes with different bits never look the same. *)
Theorem perm_string_roundtrip mode :
  length (_perm_string mode) = 9%nat ∧
  read_perm_string (_perm_string mode) = Z.land mode mode_mask.
Proof.
  rewrite <-perm_string_mask.
  pose proof (is_mode_land mode) as Hm%is_mode_bounds.
  set (P := λ m, bool_decide (length (_perm_string m) = 9%nat) &&
                 (read_perm_string (_perm_string m) =? m)).
  pose proof (all_modes P ltac:(vm_compute; reflexivity) _ Hm) as H.
  unfold P in H. apply andb_prop in H as [H1 H2].
  split; [by apply bool_decide_eq_true in H1|]. by apply Z.eqb_eq.
Qed.
