(* ===== verification/Vfs.v ===== *)
(** * The in-memory filesystem: src/vfs.py

    [inode] has one constructor per class of the source; [vfs] is the state
    of a [VirtualFileSystem]; each method is a [Definition] of the same name.
    A method that reads [datetime.now] takes the instant it reads as its first
    argument.  The tree is owned by one [VirtualFileSystem] and no inode is
    shared between two directories, so mutating the object [resolve] returned
    is an update of the tree at that object's place ([update_at]). *)

From S2P Require Import Prelude PyStr OrdDict Path Chmod.

(** ** Inodes *)

(** The fields of the dataclass [INode]. *)
Record meta := Meta {
  m_name : str;
  m_mode : Z;
  m_uid : Z;
  m_gid : Z;
  m_owner : str;
  m_group : str;
  m_mtime : Z;
  m_char_device : bool }.

Inductive inode : Type :=
  | INode (m : meta)
  | VFSFile (m : meta) (content : str) (reported_size : option Z) (dynamic : bool)
  | VFSDirectory (m : meta) (children : list (str * inode)).

Definition node_meta (n : inode) : meta :=
  match n with INode m | VFSFile m _ _ _ | VFSDirectory m _ => m end.
Definition with_meta (f : meta → meta) (n : inode) : inode :=
  match n with
  | INode m => INode (f m)
  | VFSFile m c r d => VFSFile (f m) c r d
  | VFSDirectory m ch => VFSDirectory (f m) ch
  end.
Definition is_directory (n : inode) : bool :=
  match n with VFSDirectory _ _ => true | _ => false end.

(** 2024-04-10 09:15 UTC in microseconds since the epoch. *)
Definition _DEFAULT_MTIME : Z := 1712740500000000.

(** The dataclass defaults: uid, gid 0, owner and group root. *)
Definition new_meta (name : str) (mode mtime : Z) : meta :=
  Meta name mode 0 0 "root" "root" mtime false.

Definition set_mtime (now : Z) (n : inode) : inode :=
  with_meta (λ m, Meta (m_name m) (m_mode m) (m_uid m) (m_gid m) (m_owner m)
                    (m_group m) now (m_char_device m)) n.
Definition set_mode (mode : Z) (n : inode) : inode :=
  with_meta (λ m, Meta (m_name m) mode (m_uid m) (m_gid m) (m_owner m)
                    (m_group m) (m_mtime m) (m_char_device m)) n.

(** The properties [size], [nlink] and [ls_kind]. *)
Definition node_size (n : inode) : result Z :=
  match n with
  | INode _ => Ok 0
  | VFSFile _ content (Some r) _ =>
      match content with [] => Ok r | _ => encoded_size content end
  | VFSFile _ content None _ => encoded_size content
  | VFSDirectory _ _ => Ok 4096
  end.
Definition node_nlink (n : inode) : Z :=
  match n with
  | VFSDirectory _ children =>
      2 + Z.of_nat (length (filter (λ kv, is_directory kv.2 = true) children))
  | _ => 1
  end.
Definition ls_kind (n : inode) : str :=
  match n with
  | VFSDirectory _ _ => "d"
  | INode m | VFSFile m _ _ _ => if m_char_device m then "c" else "-"
  end.

(** ** The filesystem object *)

Definition DEV_NULL : str := "/dev/null".
Definition DEV_ZERO : str := "/dev/zero".
Definition DEV_URANDOM : str := "/dev/urandom".
Definition MAX_FILE_SIZE_BYTES : Z := 10 * 1024 * 1024.
Definition MAX_TOTAL_VFS_BYTES : Z := 50 * 1024 * 1024.
Definition MAX_READ_CHUNK_BYTES : Z := 1024 * 1024.
Definition _INFINITE_DEVICES : list str := [DEV_ZERO; DEV_URANDOM].

Record vfs := Vfs {
  v_root : inode;
  v_home : str;
  v_used : Z;          (* _dynamic_bytes_used *)
  v_max_file : Z;
  v_max_total : Z;
  v_max_chunk : Z }.

Definition set_root (r : inode) (v : vfs) : vfs :=
  Vfs r (v_home v) (v_used v) (v_max_file v) (v_max_total v) (v_max_chunk v).
Definition set_used (u : Z) (v : vfs) : vfs :=
  Vfs (v_root v) (v_home v) u (v_max_file v) (v_max_total v) (v_max_chunk v).

(** [VirtualFileSystem(root, home=home)]. *)
Definition vfs_init (root : inode) (home : str) : vfs :=
  Vfs root home 0 MAX_FILE_SIZE_BYTES MAX_TOTAL_VFS_BYTES MAX_READ_CHUNK_BYTES.

(** [clone]: a fresh object with the same limits and accounting; [deepcopy]
    is the identity on values. *)
Definition clone (v : vfs) : vfs :=
  let cloned := vfs_init (v_root v) (v_home v) in
  Vfs (v_root cloned) (v_home cloned) (v_used v) (v_max_file v)
    (v_max_total v) (v_max_chunk v).

(** ** Walking and updating the tree *)

(** The loop of [resolve]: [seen] is [parts[:index]]. *)
Fixpoint walk (abs_path : str) (seen : list str) (node : inode)
    (parts : list str) : result inode :=
  match parts with
  | [] => Ok node
  | part :: rest =>
      match node with
      | VFSDirectory _ children =>
          match dict_get children part with
          | None => Err (FileNotFoundError abs_path)
          | Some child => walk abs_path (seen ++ [part]) child rest
          end
      | _ => Err (NotADirectoryError (lit "/" ++ join "/" seen))
      end
  end.

(** The components below the root of an [abs_path]. *)
Definition loc_parts (abs_path : str) : list str :=
  if decide (abs_path = lit "/") then [] else path_parts abs_path.

Definition resolve (v : vfs) (path cwd : str) : result inode :=
  let abs_path := canonicalize path cwd (v_home v) in
  if decide (abs_path = lit "/") then Ok (v_root v)
  else walk abs_path [] (v_root v) (path_parts abs_path).

(** The tree after mutating the inode at [ps] in place. *)
Fixpoint update_at (ps : list str) (f : inode → inode) (n : inode) : inode :=
  match ps with
  | [] => f n
  | p :: ps' =>
      match n with
      | VFSDirectory m ch => VFSDirectory m (dict_alter (update_at ps' f) ch p)
      | _ => n
      end
  end.

(** [directory.children[name] = x] and [del directory.children[name]]. *)
Definition set_child (name : str) (x : inode) (n : inode) : inode :=
  match n with
  | VFSDirectory m ch => VFSDirectory m (dict_set ch name x)
  | _ => n
  end.
Definition del_child (name : str) (n : inode) : inode :=
  match n with
  | VFSDirectory m ch => VFSDirectory m (dict_del ch name)
  | _ => n
  end.

(** Mutation of the object that [self.resolve(path, cwd)] returned. *)
Definition mutate (path cwd : str) (f : inode → inode) : ST vfs unit :=
  modify (λ v, set_root (update_at (loc_parts (canonicalize path cwd (v_home v)))
                           f (v_root v)) v).

(** ** Reading *)

Definition _read_char_device (v : vfs) (abs_path : str) : str :=
  if decide (abs_path = DEV_NULL) then []
  else if decide (abs_path ∉ _INFINITE_DEVICES) then []
  else
    let size := Z.max (v_max_chunk v) 0 in
    if decide (size = 0) then []
    else if decide (abs_path = DEV_ZERO) then replicate (Z.to_nat size) 0
    else replicate (Z.to_nat size) 85.

Definition read_file (v : vfs) (path cwd : str) : result str :=
  let abs_path := canonicalize path cwd (v_home v) in
  node ← resolve v path cwd;
  match node with
  | VFSDirectory _ _ => Err (IsADirectoryError abs_path)
  | INode _ => Err (FileNotFoundError abs_path)
  | VFSFile m content _ _ =>
      if m_char_device m then Ok (_read_char_device v abs_path) else Ok content
  end.

(** The order of Python strings: lexicographic on code points. *)
Fixpoint str_leb (a b : str) : bool :=
  match a, b with
  | [], _ => true
  | _, [] => false
  | x :: a', y :: b' => (x <? y) || ((x =? y) && str_leb a' b')
  end.
Definition str_le (a b : str) : Prop := str_leb a b = true.
#[export] Instance str_le_dec a b : Decision (str_le a b).
Proof. unfold str_le. apply _. Defined.

Definition list_dir (v : vfs) (path cwd : str) : result (list str) :=
  node ← resolve v path cwd;
  match node with
  | VFSDirectory _ children => Ok (merge_sort str_le children.*1)
  | _ => Err (NotADirectoryError (canonicalize path cwd (v_home v)))
  end.

(** [except (FileNotFoundError, NotADirectoryError)]. *)
Definition is_missing (e : pyexc) : bool :=
  match e with FileNotFoundError _ | NotADirectoryError _ => true | _ => false end.

Definition is_dir (v : vfs) (path cwd : str) : result bool :=
  match resolve v path cwd with
  | Ok n => Ok (is_directory n)
  | Err e => if is_missing e then Ok false else Err e
  end.
Definition exists_ (v : vfs) (path cwd : str) : result bool :=
  match resolve v path cwd with
  | Ok _ => Ok true
  | Err e => if is_missing e then Ok false else Err e
  end.
Definition get (v : vfs) (path cwd : str) : result inode := resolve v path cwd.

(** ** Quota accounting *)

Definition _account_write (existing : option inode) (new_content : str)
    : ST vfs unit :=
  new_bytes ← lift (encoded_size new_content);
  v ← gets id;
  if decide (v_max_file v < new_bytes)
  then raise (VFSFileTooLargeError "File too large")
  else
    old_counted ← match existing with
                  | Some (VFSFile _ content _ true) => lift (encoded_size content)
                  | _ => mret 0
                  end;
    let projected := v_used v - old_counted + new_bytes in
    if decide (v_max_total v < projected)
    then raise (VFSNoSpaceError "No space left on device")
    else modify (set_used projected).

(** [_release_dynamic_bytes], on the counter it updates.  Its recursion has no
    bound here; Python's raises [RecursionError] on trees deeper than the stack. *)
Fixpoint release_bytes (node : inode) : ST Z unit :=
  match node with
  | VFSFile _ content _ dynamic =>
      if dynamic then
        n ← lift (encoded_size content);
        modify (λ used, if decide (used - n < 0) then 0 else used - n)
      else mret tt
  | VFSDirectory _ children => for_each (λ kv, release_bytes kv.2) children
  | INode _ => mret tt
  end.
Definition _release_dynamic_bytes (node : inode) : ST vfs unit := λ v,
  let '(r, used) := release_bytes node (v_used v) in (r, set_used used v).

(** ** Mutators *)

Definition touch (now : Z) (path cwd : str) : ST vfs unit :=
  abs_path ← gets (λ v, canonicalize path cwd (v_home v));
  if decide (abs_path = lit "/") then
    modify (λ v, set_root (set_mtime now (v_root v)) v)
  else
    let parent := parent_path abs_path in
    directory ← reads (λ v, resolve v parent "/");
    match directory with
    | VFSDirectory _ children =>
        let name := base_name abs_path in
        match dict_get children name with
        | None =>
            mutate parent "/"
              (set_child name (VFSFile (new_meta name 420 now) [] None false))
        | Some existing => mutate parent "/" (set_child name (set_mtime now existing))
        end
    | _ => raise (NotADirectoryError parent)
    end.

Definition touch_file (now : Z) (path cwd : str) : ST vfs unit := touch now path cwd.

Definition write_file (now : Z) (path content cwd : str) (append : bool)
    : ST vfs unit :=
  abs_path ← gets (λ v, canonicalize path cwd (v_home v));
  if decide (abs_path = DEV_NULL) then mret tt
  else if decide (abs_path = lit "/") then raise (IsADirectoryError "/")
  else
    let parent := parent_path abs_path in
    directory ← reads (λ v, resolve v parent "/");
    match directory with
    | VFSDirectory _ children =>
        let name := base_name abs_path in
        match dict_get children name with
        | Some (VFSFile m old_content reported dynamic as existing) =>
            if m_char_device m then mret tt
            else
              let new_content := if append then old_content ++ content else content in
              _ ← _account_write (Some existing) new_content;
              mutate parent "/"
                (set_child name (set_mtime now (VFSFile m new_content None true)))
        | Some _ => raise (IsADirectoryError abs_path)
        | None =>
            _ ← _account_write None content;
            mutate parent "/"
              (set_child name (VFSFile (new_meta name 420 now) content None true))
        end
    | _ => raise (NotADirectoryError parent)
    end.

(** The loop of [mkdir -p]: the new tree when it succeeds.  A part is only
    created below a directory, so nothing has been created when it fails. *)
Fixpoint mkdir_parents (abs_path : str) (mode now : Z) (seen : list str)
    (node : inode) (parts : list str) : result unit * inode :=
  match parts with
  | [] =>
      match node with
      | VFSDirectory _ _ => (Ok tt, node)
      | _ => (Err (FileExistsError abs_path), node)
      end
  | part :: rest =>
      match node with
      | VFSDirectory m children =>
          let child :=
            match dict_get children part with
            | Some child => child
            | None => VFSDirectory (new_meta part mode now) []
            end in
          let '(r, child') := mkdir_parents abs_path mode now (seen ++ [part]) child rest in
          (r, VFSDirectory m (dict_set children part child'))
      | _ => (Err (NotADirectoryError (lit "/" ++ join "/" seen)), node)
      end
  end.

Definition mkdir (now : Z) (path cwd : str) (parents : bool) (mode : Z)
    : ST vfs bool :=
  abs_path ← gets (λ v, canonicalize path cwd (v_home v));
  if decide (abs_path = lit "/") then
    if parents then mret true else raise (FileExistsError "/")
  else if parents then
    λ v, let '(r, root) := mkdir_parents abs_path mode now [] (v_root v)
                             (path_parts abs_path) in
         ((λ _, true) <$> r, set_root root v)
  else
    let parent := parent_path abs_path in
    directory ← try_except (reads (λ v, resolve v parent "/"))
      (λ e, match e with
            | FileNotFoundError _ => raise (FileNotFoundError parent)
            | _ => raise e
            end);
    match directory with
    | VFSDirectory _ children =>
        let name := base_name abs_path in
        if dict_has children name then raise (FileExistsError abs_path)
        else
          _ ← mutate parent "/" (set_child name (VFSDirectory (new_meta name mode now) []));
          mret true
    | _ => raise (NotADirectoryError parent)
    end.

Definition remove (path cwd : str) (recursive force : bool) : ST vfs bool :=
  abs_path ← gets (λ v, canonicalize path cwd (v_home v));
  if decide (abs_path = lit "/") then raise (OSError "Directory not empty")
  else
    let parent := parent_path abs_path in
    directory ← try_except (d ← reads (λ v, resolve v parent "/"); mret (Some d))
      (λ e, match e with
            | FileNotFoundError _ => if force then mret None else raise e
            | _ => raise e
            end);
    match directory with
    | None => mret true
    | Some (VFSDirectory _ children) =>
        let name := base_name abs_path in
        match dict_get children name with
        | None => if force then mret true else raise (FileNotFoundError abs_path)
        | Some node =>
            if is_directory node && negb recursive
            then raise (IsADirectoryError abs_path)
            else
              _ ← _release_dynamic_bytes node;
              _ ← mutate parent "/" (del_child name);
              mret true
        end
    | Some _ => raise (NotADirectoryError parent)
    end.

Definition rmdir (path cwd : str) : ST vfs unit :=
  abs_path ← gets (λ v, canonicalize path cwd (v_home v));
  if decide (abs_path = lit "/") then raise (OSError "Directory not empty")
  else
    let parent := parent_path abs_path in
    directory ← reads (λ v, resolve v parent "/");
    match directory with
    | VFSDirectory _ children =>
        let name := base_name abs_path in
        match dict_get children name with
        | None => raise (FileNotFoundError abs_path)
        | Some (VFSDirectory _ grandchildren as node) =>
            match grandchildren with
            | [] =>
                _ ← _release_dynamic_bytes node;
                mutate parent "/" (del_child name)
            | _ => raise (OSError "Directory not empty")
            end
        | Some _ => raise (NotADirectoryError abs_path)
        end
    | _ => raise (NotADirectoryError parent)
    end.

Definition chmod (path mode cwd : str) : ST vfs unit :=
  node ← reads (λ v, resolve v path cwd);
  mode' ← lift (apply_chmod_mode (m_mode (node_meta node)) mode);
  mutate path cwd (set_mode mode').
