(* ===== verification/VfsTree.v ===== *)
(** * The tree as a map from component lists to entries

    [lookup_path] follows components, [view] forgets the children of what it
    finds: a tree is specified by its [view], a partial map from component
    lists to files and directories, and every mutation of the source is an
    update of that map ([view_put_child], [view_del_child]).  [dyn_bytes] is
    the reference for the quota counter. *)

From S2P Require Import Prelude PyStr OrdDict Path Chmod Vfs.

(** ** Lookup by components *)

Fixpoint lookup_path (n : inode) (ps : list str) : option inode :=
  match ps with
  | [] => Some n
  | p :: ps' =>
      match n with
      | VFSDirectory _ ch =>
          match dict_get ch p with Some c => lookup_path c ps' | None => None end
      | _ => None
      end
  end.

(** A tree entry without its children. *)
Inductive entry :=
  | ENode (m : meta)
  | EFile (m : meta) (content : str) (reported_size : option Z) (dynamic : bool)
  | EDir (m : meta).

Definition shallow (n : inode) : entry :=
  match n with
  | INode m => ENode m
  | VFSFile m c r d => EFile m c r d
  | VFSDirectory m _ => EDir m
  end.

Definition view (n : inode) (ps : list str) : option entry :=
  shallow <$> lookup_path n ps.

Definition is_edir (e : entry) : bool :=
  match e with EDir _ => true | _ => false end.

Lemma lookup_path_app n ps qs :
  lookup_path n (ps ++ qs) = lookup_path n ps ≫= λ x, lookup_path x qs.
Proof.
  revert n. induction ps as [|p ps IH]; intros n; cbn; [done|].
  destruct n as [| |m ch]; try done. by destruct (dict_get ch p).
Qed.

Lemma lookup_path_leaf n q qs :
  is_directory n = false → lookup_path n (q :: qs) = None.
Proof. by destruct n. Qed.

(** The loop of [resolve] succeeds exactly on the paths of the tree. *)
Lemma walk_ok abs seen n ps x :
  walk abs seen n ps = Ok x ↔ lookup_path n ps = Some x.
Proof.
  revert seen n. induction ps as [|p ps IH]; intros seen n; cbn; [naive_solver|].
  destruct n as [| |m ch]; [naive_solver..|]. destruct (dict_get ch p); [|naive_solver].
  apply IH.
Qed.

(** It raises [NotADirectoryError] when a strict prefix leads to a file, and
    [FileNotFoundError] when a name is missing in a directory. *)
Lemma walk_not_dir abs seen n ps qs x :
  lookup_path n ps = Some x → is_directory x = false → qs ≠ [] →
  walk abs seen n (ps ++ qs) =
  Err (NotADirectoryError (lit "/" ++ join "/" (seen ++ ps))).
Proof.
  intros Hl Hx Hq. revert seen n Hl. induction ps as [|p ps IH]; intros seen n Hl.
  - destruct qs as [|q qs]; [done|]. simplify_eq/=. rewrite app_nil_r.
    by destruct x.
  - cbn in *. destruct n as [| |m ch]; try done. destruct (dict_get ch p); [|done].
    rewrite (IH _ _ Hl). by rewrite <-app_assoc.
Qed.

Lemma walk_missing abs seen n ps q qs m ch :
  lookup_path n ps = Some (VFSDirectory m ch) → dict_get ch q = None →
  walk abs seen n (ps ++ q :: qs) = Err (FileNotFoundError abs).
Proof.
  intros Hl Hq. revert seen n Hl. induction ps as [|p ps IH]; intros seen n Hl; cbn in *.
  - simplify_eq. by rewrite Hq.
  - destruct n as [| |m' ch']; try done. destruct (dict_get ch' p); [|done].
    by apply IH.
Qed.

Lemma walk_err_missing abs seen n ps e :
  walk abs seen n ps = Err e → is_missing e = true.
Proof.
  revert seen n. induction ps as [|p ps IH]; intros seen n; cbn; [done|].
  destruct n as [| |m ch]; [by intros [= <-]..|].
  destruct (dict_get ch p); [by apply IH|]. by intros [= <-].
Qed.

(** ** Views of updated trees *)

Lemma view_put_child root ps name x m ch qs :
  lookup_path root ps = Some (VFSDirectory m ch) →
  view (update_at ps (set_child name x) root) qs =
  if decide (ps ++ [name] `prefix_of` qs)
  then view x (drop (S (length ps)) qs) else view root qs.
Proof.
  unfold view. revert root qs. induction ps as [|p ps IH]; intros root qs Hl.
  - simplify_eq/=. destruct qs as [|q qs]; cbn.
    + rewrite decide_False; [done|]. by intros ?%prefix_nil_inv.
    + destruct (decide (name = q)) as [->|Hne].
      * rewrite dict_get_set_eq, decide_True; [by rewrite drop_0|].
        by apply prefix_cons, prefix_nil.
      * rewrite dict_get_set_ne by done. rewrite decide_False; [done|].
        by intros ?%prefix_cons_inv_1.
  - destruct root as [| |m0 ch0]; try done. cbn in Hl.
    destruct (dict_get ch0 p) as [c|] eqn:Ec; [|done].
    destruct qs as [|q qs]; cbn.
    + rewrite decide_False; [done|]. by intros ?%prefix_nil_inv.
    + rewrite dict_get_alter. destruct (decide (p = q)) as [->|Hne].
      * rewrite Ec. cbn. rewrite IH by done. cbn.
        apply decide_ext. split.
        -- apply prefix_cons.
        -- apply prefix_cons_inv_2.
      * rewrite decide_False; [done|]. by intros ?%prefix_cons_inv_1.
Qed.

Lemma view_del_child root ps name m ch qs :
  lookup_path root ps = Some (VFSDirectory m ch) → dict_wf ch →
  view (update_at ps (del_child name) root) qs =
  if decide (ps ++ [name] `prefix_of` qs) then None else view root qs.
Proof.
  unfold view. revert root qs. induction ps as [|p ps IH]; intros root qs Hl Hwf.
  - simplify_eq/=. destruct qs as [|q qs]; cbn.
    + rewrite decide_False; [done|]. by intros ?%prefix_nil_inv.
    + destruct (decide (name = q)) as [->|Hne].
      * rewrite dict_get_del_eq, decide_True by done || by apply prefix_cons, prefix_nil.
        done.
      * rewrite dict_get_del_ne by done. rewrite decide_False; [done|].
        by intros ?%prefix_cons_inv_1.
  - destruct root as [| |m0 ch0]; try done. cbn in Hl.
    destruct (dict_get ch0 p) as [c|] eqn:Ec; [|done].
    destruct qs as [|q qs]; cbn.
    + rewrite decide_False; [done|]. by intros ?%prefix_nil_inv.
    + rewrite dict_get_alter. destruct (decide (p = q)) as [->|Hne].
      * rewrite Ec. cbn. rewrite IH by done. cbn.
        apply decide_ext. split.
        -- apply prefix_cons.
        -- apply prefix_cons_inv_2.
      * rewrite decide_False; [done|]. by intros ?%prefix_cons_inv_1.
Qed.

(** Changing only the metadata of the inode at [ps]. *)
Lemma view_with_meta root ps g qs :
  view (update_at ps (with_meta g) root) qs =
  if decide (qs = ps)
  then (λ n, shallow (with_meta g n)) <$> lookup_path root ps
  else view root qs.
Proof.
  unfold view. revert root qs. induction ps as [|p ps IH]; intros root qs.
  - cbn. case_decide; subst; [done|]. destruct qs as [|q qs]; [done|].
    by destruct root.
  - destruct root as [| |m ch]; cbn.
    1-2: (case_decide; subst; [done|by destruct qs]).
    destruct qs as [|q qs]; cbn; [done|].
    rewrite dict_get_alter. destruct (decide (p = q)) as [->|Hne].
    + destruct (dict_get ch q) as [c|] eqn:Ec; cbn.
      * rewrite IH. apply decide_ext. naive_solver.
      * by case_decide.
    + rewrite decide_False by congruence. done.
Qed.

(** ** Accounted bytes *)

Fixpoint dyn_bytes (n : inode) : Z :=
  match n with
  | INode _ => 0
  | VFSFile _ content _ dynamic => if dynamic then utf8_len content else 0
  | VFSDirectory _ ch => foldr (λ kv acc, dyn_bytes kv.2 + acc) 0 ch
  end.

Abbreviation dyn_sum := (foldr (λ kv acc, dyn_bytes (kv : str * inode).2 + acc) 0).

(** Induction on trees, with the hypothesis for every child. *)
Lemma inode_tree_ind (P : inode → Prop) :
  (∀ m, P (INode m)) → (∀ m c r d, P (VFSFile m c r d)) →
  (∀ m ch, Forall (λ kv, P kv.2) ch → P (VFSDirectory m ch)) → ∀ n, P n.
Proof.
  intros Hn Hf Hd. fix IH 1. intros [m|m c r d|m ch]; [apply Hn|apply Hf|].
  apply Hd. revert ch. fix IHch 1. intros [|[k n] ch]; constructor; [apply IH|apply IHch].
Qed.

Lemma dyn_bytes_nonneg n : 0 ≤ dyn_bytes n.
Proof.
  induction n as [m|m c r d|m ch IH] using inode_tree_ind; cbn; [lia| |].
  - destruct d; auto with hp. lia.
  - induction IH as [|kv ch Hkv _ IHch]; cbn; [lia|]. lia.
Qed.

Definition child_bytes (ch : list (str * inode)) (name : str) : Z :=
  match dict_get ch name with Some n => dyn_bytes n | None => 0 end.

Lemma dyn_sum_set ch name x :
  dyn_sum (dict_set ch name x) = dyn_sum ch - child_bytes ch name + dyn_bytes x.
Proof.
  unfold child_bytes. induction ch as [|[k n] ch IH]; cbn; [lia|].
  case_decide; cbn; [|rewrite IH]; lia.
Qed.

Lemma dyn_sum_del ch name :
  dyn_sum (dict_del ch name) = dyn_sum ch - child_bytes ch name.
Proof.
  unfold child_bytes. induction ch as [|[k n] ch IH]; cbn; [lia|].
  case_decide; cbn; [|rewrite IH]; lia.
Qed.

Lemma dyn_sum_alter ch p f c :
  dict_get ch p = Some c →
  dyn_sum (dict_alter f ch p) = dyn_sum ch - dyn_bytes c + dyn_bytes (f c).
Proof.
  induction ch as [|[k n] ch IH]; cbn; [done|].
  case_decide; cbn; intros; simplify_eq; [|rewrite IH by done]; lia.
Qed.

Lemma dyn_bytes_update root ps f n :
  lookup_path root ps = Some n →
  dyn_bytes (update_at ps f root) = dyn_bytes root - dyn_bytes n + dyn_bytes (f n).
Proof.
  revert root. induction ps as [|p ps IH]; intros root Hl.
  - simplify_eq/=. lia.
  - destruct root as [| |m ch]; try done. cbn in *.
    destruct (dict_get ch p) as [c|] eqn:Ec; [|done].
    rewrite (dyn_sum_alter _ _ _ c) by done. rewrite IH by done. lia.
Qed.

Lemma dyn_bytes_lookup root ps n :
  lookup_path root ps = Some n → dyn_bytes n ≤ dyn_bytes root.
Proof.
  revert root. induction ps as [|p ps IH]; intros root Hl; [by simplify_eq/=|].
  destruct root as [| |m ch]; try done. cbn in *.
  destruct (dict_get ch p) as [c|] eqn:Ec; [|done].
  apply IH in Hl. clear IH. revert Ec. induction ch as [|[k x] ch IHch]; cbn; [done|].
  assert (Hn : ∀ l, 0 ≤ dyn_sum l).
  { intros l. apply (dyn_bytes_nonneg (VFSDirectory m l)). }
  specialize (Hn ch). pose proof (dyn_bytes_nonneg x).
  case_decide; intros; simplify_eq; [lia|]. specialize (IHch Ec). lia.
Qed.

(** ** Well-formed trees *)

(** What the source keeps true of every inode of a tree: a directory holds
    each name once, under the child's own name, a proper path component; a
    file written by the attacker is encodable and within the file limit. *)
Definition node_ok (max_file : Z) (n : inode) : Prop :=
  match n with
  | INode _ => True
  | VFSFile _ c _ dynamic =>
      dynamic = true → encodable c = true ∧ utf8_len c ≤ max_file
  | VFSDirectory _ ch =>
      dict_wf ch ∧
      ∀ k x, dict_get ch k = Some x → comp_ok k ∧ m_name (node_meta x) = k
  end.

Definition tree_ok (max_file : Z) (root : inode) : Prop :=
  ∀ ps n, lookup_path root ps = Some n → node_ok max_file n.

Lemma tree_ok_child mf root ps n :
  tree_ok mf root → lookup_path root ps = Some n → tree_ok mf n.
Proof.
  intros Hok Hl qs x Hx. apply (Hok (ps ++ qs)). by rewrite lookup_path_app, Hl.
Qed.

Lemma tree_ok_dir mf m ch :
  node_ok mf (VFSDirectory m ch) →
  (∀ k x, dict_get ch k = Some x → tree_ok mf x) →
  tree_ok mf (VFSDirectory m ch).
Proof.
  intros Hn Hch [|p ps] x Hx; cbn in Hx; [by simplify_eq|].
  destruct (dict_get ch p) as [c|] eqn:Ec; [|done]. by apply (Hch p c Ec ps).
Qed.

Lemma tree_ok_empty_dir mf m : tree_ok mf (VFSDirectory m []).
Proof. apply tree_ok_dir; [split; [constructor|done]|done]. Qed.

Lemma tree_ok_file mf m c r d :
  node_ok mf (VFSFile m c r d) → tree_ok mf (VFSFile m c r d).
Proof. intros Hn [|p ps] x Hx; cbn in Hx; by simplify_eq. Qed.

Lemma node_name_update ps f root n :
  lookup_path root ps = Some n →
  m_name (node_meta (f n)) = m_name (node_meta n) →
  m_name (node_meta (update_at ps f root)) = m_name (node_meta root).
Proof. intros Hl Hf. destruct ps; simplify_eq/=; [done|]. by destruct root. Qed.

Lemma is_directory_update ps f root n :
  lookup_path root ps = Some n → is_directory (f n) = is_directory n →
  is_directory (update_at ps f root) = is_directory root.
Proof. intros Hl Hf. destruct ps; simplify_eq/=; [done|]. by destruct root. Qed.

(** Replacing the inode at [ps] by a well-formed one of the same name. *)
Lemma tree_ok_update mf root ps f n :
  tree_ok mf root → lookup_path root ps = Some n → tree_ok mf (f n) →
  m_name (node_meta (f n)) = m_name (node_meta n) →
  tree_ok mf (update_at ps f root).
Proof.
  intros Hok Hl Hf Hname. revert root Hok Hl.
  induction ps as [|p ps IH]; intros root Hok Hl; [by simplify_eq/=|].
  destruct root as [| |m ch]; try done.
  pose proof (Hok [] _ eq_refl) as [Hwf Hch]. cbn in Hl |- *.
  destruct (dict_get ch p) as [c|] eqn:Ec; [|done].
  assert (Hc : tree_ok mf c) by (apply (tree_ok_child _ _ [p] _ Hok); cbn; by rewrite Ec).
  apply tree_ok_dir.
  - split; [by apply dict_alter_wf|]. intros k x. rewrite dict_get_alter.
    case_decide; subst; [|apply Hch]. rewrite Ec. intros [= <-].
    destruct (Hch _ _ Ec) as [? <-]. split; [done|]. by eapply node_name_update.
  - intros k x. rewrite dict_get_alter. case_decide; subst.
    + rewrite Ec. intros [= <-]. by apply IH.
    + intros Ek. apply (tree_ok_child _ _ [k] _ Hok). cbn. by rewrite Ek.
Qed.

Lemma tree_ok_set_child mf m ch name x :
  tree_ok mf (VFSDirectory m ch) → comp_ok name → m_name (node_meta x) = name →
  tree_ok mf x → tree_ok mf (set_child name x (VFSDirectory m ch)).
Proof.
  intros Hok Hn Hname Hx. pose proof (Hok [] _ eq_refl) as [Hwf Hch].
  apply tree_ok_dir.
  - split; [by apply dict_set_wf|]. intros k y.
    destruct (decide (name = k)) as [->|Hne].
    + rewrite dict_get_set_eq. by intros [= <-].
    + rewrite dict_get_set_ne by done. apply Hch.
  - intros k y. destruct (decide (name = k)) as [->|Hne].
    + rewrite dict_get_set_eq. by intros [= <-].
    + rewrite dict_get_set_ne by done. intros Ek.
      apply (tree_ok_child _ _ [k] _ Hok). cbn. by rewrite Ek.
Qed.

Lemma tree_ok_del_child mf m ch name :
  tree_ok mf (VFSDirectory m ch) → tree_ok mf (del_child name (VFSDirectory m ch)).
Proof.
  intros Hok. pose proof (Hok [] _ eq_refl) as [Hwf Hch].
  assert (Hsub : ∀ k y, dict_get (dict_del ch name) k = Some y → dict_get ch k = Some y).
  { intros k y. destruct (decide (name = k)) as [->|Hne].
    - by rewrite dict_get_del_eq.
    - by rewrite dict_get_del_ne. }
  apply tree_ok_dir.
  - split; [by apply dict_del_wf|]. eauto.
  - intros k y Ek%Hsub. apply (tree_ok_child _ _ [k] _ Hok). cbn. by rewrite Ek.
Qed.

Lemma tree_ok_with_meta mf g n :
  tree_ok mf n → tree_ok mf (with_meta g n).
Proof.
  intros Hok. pose proof (Hok [] n eq_refl) as Hn.
  destruct n as [m|m c r d|m ch]; cbn.
  - intros [|p ps] x Hx; by simplify_eq/=.
  - by apply tree_ok_file.
  - apply tree_ok_dir; [done|]. intros k x Ek.
    apply (tree_ok_child _ _ [k] _ Hok). cbn. by rewrite Ek.
Qed.

(** A decision procedure for concrete trees. *)
Fixpoint tree_okb (mf : Z) (n : inode) : bool :=
  match n with
  | INode _ => true
  | VFSFile _ c _ dynamic => negb dynamic || (encodable c && (utf8_len c <=? mf))
  | VFSDirectory _ ch =>
      bool_decide (NoDup ch.*1) &&
      forallb (λ kv, bool_decide (comp_ok kv.1) &&
                     bool_decide (m_name (node_meta kv.2) = kv.1) &&
                     tree_okb mf kv.2) ch
  end.

Lemma tree_okb_sound mf n : tree_okb mf n = true → tree_ok mf n.
Proof.
  induction n as [m|m c r d|m ch IH] using inode_tree_ind; cbn; intros H.
  - intros [|p ps] x Hx; by simplify_eq/=.
  - apply tree_ok_file. intros ->. cbn in H. apply andb_prop in H as [? ?].
    split; [done|]. by apply Z.leb_le.
  - apply andb_prop in H as [Hwf%bool_decide_eq_true H].
    rewrite forallb_forall in H.
    assert (Hch : ∀ k x, dict_get ch k = Some x →
      comp_ok k ∧ m_name (node_meta x) = k ∧ tree_ok mf x).
    { intros k x Hk%dict_get_Some_elem.
      pose proof (proj1 (Forall_forall _ _) IH _ Hk) as IHk.
      apply list_elem_of_In, H in Hk. cbn in Hk, IHk.
      apply andb_prop in Hk as [[?%bool_decide_eq_true ?%bool_decide_eq_true]%andb_prop ?].
      auto. }
    apply tree_ok_dir; [split; [done|]|]; intros k x Hk;
      destruct (Hch k x Hk) as (? & ? & ?); auto.
Qed.

(** ** [_release_dynamic_bytes] subtracts the bytes of the subtree *)
Lemma release_bytes_eq mf n used :
  tree_ok mf n → dyn_bytes n ≤ used →
  release_bytes n used = (Ok tt, used - dyn_bytes n).
Proof.
  revert used. induction n as [m|m c r d|m ch IH] using inode_tree_ind;
    intros used Hok Hle; cbn in *.
  - unfold mret, st_ret. f_equal. lia.
  - destruct d; [|unfold mret, st_ret; f_equal; lia].
    destruct (Hok [] _ eq_refl) as [He _]; [done|].
    rewrite st_bind_eq. unfold lift, encoded_size, modify. rewrite He.
    by rewrite decide_False by lia.
  - pose proof (Hok [] _ eq_refl) as [Hwf _].
    assert (Hch : Forall (λ kv, tree_ok mf kv.2) ch).
    { apply Forall_forall. intros [k x] Hx. cbn.
      apply (tree_ok_child _ _ [k] _ Hok). cbn. by rewrite (elem_dict_get _ k x). }
    clear Hok Hwf. revert used Hle. induction ch as [|[k x] ch IHch]; intros used Hle; cbn in *.
    + unfold mret, st_ret. f_equal. lia.
    + inversion_clear IH. inversion_clear Hch.
      assert (0 ≤ dyn_sum ch) by apply (dyn_bytes_nonneg (VFSDirectory m ch)).
      pose proof (dyn_bytes_nonneg x).
      rewrite st_bind_eq. cbn in *. rewrite H by (done || lia).
      rewrite IHch by (done || lia). f_equal. lia.
Qed.
