(* ===== verification/HoneypotTree.v ===== *)
(** * The default tree: the constants and [build_honeypot_tree] of src/vfs.py

    The simulated identity files, the stub binaries with their hashed sizes,
    and the tree every session starts from. *)

From S2P Require Import Prelude PyStr OrdDict Path Chmod Vfs VfsTree.

(** ** Constants *)

Definition KERNEL_RELEASE : str :=
  lit "5.15.0-88-generic".

Definition KERNEL_VERSION : str :=
  lit "#98-Ubuntu SMP Mon Oct 2 15:18:56 UTC 2023".

Definition UNAME_A : str :=
  join " " [lit "Linux"; HOSTNAME; KERNEL_RELEASE; KERNEL_VERSION;
            lit "x86_64"; lit "x86_64"; lit "x86_64"; lit "GNU/Linux"].

Definition OS_RELEASE : str :=
  lit "PRETTY_NAME=" ++ dq ++ lit "Ubuntu 22.04.3 LTS" ++ dq ++ lit "
NAME=" ++ dq ++ lit "Ubuntu" ++ dq ++ lit "
VERSION_ID=" ++ dq ++ lit "22.04" ++ dq ++ lit "
VERSION=" ++ dq ++ lit "22.04.3 LTS (Jammy Jellyfish)" ++ dq ++ lit "
VERSION_CODENAME=jammy
ID=ubuntu
ID_LIKE=debian
HOME_URL=" ++ dq ++ lit "https://www.ubuntu.com/" ++ dq ++ lit "
SUPPORT_URL=" ++ dq ++ lit "https://help.ubuntu.com/" ++ dq ++ lit "
BUG_REPORT_URL=" ++ dq ++ lit "https://bugs.launchpad.net/ubuntu/" ++ dq ++ lit "
PRIVACY_POLICY_URL=" ++ dq ++ lit "https://www.ubuntu.com/legal/terms-and-policies/privacy-policy" ++ dq ++ lit "
UBUNTU_CODENAME=jammy
".

Definition ISSUE : str :=
  lit "Ubuntu 22.04.3 LTS \n \l

".

Definition PROC_VERSION : str :=
  lit "Linux version " ++ KERNEL_RELEASE ++ lit " (buildd@lcy02-amd64-044) "
  ++ lit "(gcc (Ubuntu 11.4.0-1ubuntu1~22.04) 11.4.0, GNU ld (GNU Binutils for Ubuntu) 2.38) "
  ++ KERNEL_VERSION ++ lit "
".

Definition _CPUINFO_FLAGS : str :=
  lit "fpu vme de pse tsc msr pae mce cx8 apic sep mtrr pge mca cmov pat pse36 clflush mmx fxsr sse sse2 ss ht syscall nx pdpe1gb rdtscp lm constant_tsc rep_good nopl xtopology nonstop_tsc cpuid tsc_known_freq pni pclmulqdq ssse3 fma cx16 pcid sse4_1 sse4_2 x2apic movbe popcnt tsc_deadline_timer aes xsave avx f16c rdrand hypervisor lahf_lm abm 3dnowprefetch cpuid_fault invpcid_single pti ssbd ibrs ibpb stibp fsgsbase tsc_adjust bmi1 avx2 smep bmi2 erms invpcid mpx avx512f avx512dq rdseed adx smap clflushopt clwb avx512cd avx512bw avx512vl xsaveopt xsavec xgetbv1 xsaves ida arat pku ospke".

Definition _cpuinfo_block (processor : Z) : str :=
  lit "processor	: " ++ py_str processor ++ lit "
vendor_id	: GenuineIntel
cpu family	: 6
model		: 85
model name	: Intel(R) Xeon(R) Platinum 8259CL CPU @ 2.50GHz
stepping	: 7
microcode	: 0x5003306
cpu MHz		: 2499.998
cache size	: 36608 KB
physical id	: 0
siblings	: 2
core id		: " ++ py_str processor ++ lit "
cpu cores	: 2
apicid		: " ++ py_str processor ++ lit "
initial apicid	: " ++ py_str processor ++ lit "
fpu		: yes
fpu_exception	: yes
cpuid level	: 13
wp		: yes
flags		: " ++ _CPUINFO_FLAGS ++ lit "
bugs		: cpu_meltdown spectre_v1 spectre_v2 spec_store_bypass l1tf mds swapgs taa itlb_multihit mmio_stale_data
bogomips	: 4999.99
clflush size	: 64
cache_alignment	: 64
address sizes	: 46 bits physical, 48 bits virtual
power management:
".

Definition PROC_CPUINFO : str := _cpuinfo_block 0 ++ lit "
" ++ _cpuinfo_block 1.

Definition PROC_MEMINFO : str :=
  lit "MemTotal:        4016332 kB
MemFree:         2891456 kB
MemAvailable:    3210340 kB
Buffers:          126844 kB
Cached:           412768 kB
SwapCached:            0 kB
Active:           524288 kB
Inactive:         312456 kB
Active(anon):     287104 kB
Inactive(anon):    10240 kB
Active(file):     237184 kB
Inactive(file):   302216 kB
Unevictable:           0 kB
Mlocked:               0 kB
SwapTotal:             0 kB
SwapFree:              0 kB
Dirty:                64 kB
Writeback:             0 kB
AnonPages:        289012 kB
Mapped:            89432 kB
Shmem:              2560 kB
KReclaimable:      98416 kB
Slab:             142336 kB
SReclaimable:      98416 kB
SUnreclaim:        43920 kB
KernelStack:        4096 kB
PageTables:         5120 kB
NFS_Unstable:          0 kB
Bounce:                0 kB
WritebackTmp:          0 kB
CommitLimit:     2008164 kB
Committed_AS:     612448 kB
VmallocTotal:   34359738367 kB
VmallocUsed:       12352 kB
VmallocChunk:          0 kB
Percpu:             1024 kB
HardwareCorrupted:     0 kB
AnonHugePages:         0 kB
ShmemHugePages:        0 kB
ShmemPmdMapped:        0 kB
FileHugePages:         0 kB
FilePmdMapped:         0 kB
HugePages_Total:       0
HugePages_Free:        0
HugePages_Rsvd:        0
HugePages_Surp:        0
Hugepagesize:       2048 kB
Hugetlb:               0 kB
DirectMap4k:      122880 kB
DirectMap2M:     4063232 kB
DirectMap1G:           0 kB
".

Definition PROC_NET_DEV : str :=
  lit "Inter-|   Receive                                                |  Transmit
 face |bytes    packets errs drop fifo frame compressed multicast|bytes    packets errs drop fifo colls carrier compressed
    lo:  152384     182    0    0    0     0          0         0   152384     182    0    0    0     0       0          0
  eth0: 8472192    6234    0    0    0     0          0         0  2156032    4102    0    0    0     0       0          0
".

Definition RESOLV_CONF : str :=
  lit "nameserver 127.0.0.53
options edns0 trust-ad
search .
".

Definition PASSWD : str :=
  lit "root:x:0:0:root:/root:/bin/bash
daemon:x:1:1:daemon:/usr/sbin:/usr/sbin/nologin
bin:x:2:2:bin:/bin:/usr/sbin/nologin
sys:x:3:3:sys:/dev:/usr/sbin/nologin
sync:x:4:65534:sync:/bin:/bin/sync
games:x:5:60:games:/usr/games:/usr/sbin/nologin
man:x:6:12:man:/var/cache/man:/usr/sbin/nologin
lp:x:7:7:lp:/var/spool/lpd:/usr/sbin/nologin
mail:x:8:8:mail:/var/mail:/usr/sbin/nologin
news:x:9:9:news:/var/spool/news:/usr/sbin/nologin
uucp:x:10:10:uucp:/var/spool/uucp:/usr/sbin/nologin
proxy:x:13:13:proxy:/bin:/usr/sbin/nologin
www-data:x:33:33:www-data:/var/www:/usr/sbin/nologin
backup:x:34:34:backup:/var/backups:/usr/sbin/nologin
list:x:38:38:Mailing List Manager:/var/list:/usr/sbin/nologin
irc:x:39:39:ircd:/run/ircd:/usr/sbin/nologin
gnats:x:41:41:Gnats Bug-Reporting System (admin):/var/lib/gnats:/usr/sbin/nologin
nobody:x:65534:65534:nobody:/nonexistent:/usr/sbin/nologin
systemd-network:x:100:102:systemd Network Management,,,:/run/systemd:/usr/sbin/nologin
systemd-resolve:x:101:103:systemd Resolver,,,:/run/systemd:/usr/sbin/nologin
messagebus:x:102:105::/nonexistent:/usr/sbin/nologin
sshd:x:103:65534::/run/sshd:/usr/sbin/nologin
ubuntu:x:1000:1000:Ubuntu:/home/ubuntu:/bin/bash
".

Definition BASH_HISTORY : str :=
  lit "apt-get update
apt-get install -y nginx
systemctl status nginx
vim /etc/nginx/sites-available/default
ss -tulpn
journalctl -u ssh
tail -n 50 /var/log/auth.log
chmod 600 /root/.ssh/authorized_keys
ufw allow OpenSSH
".

Definition _STUB_BINARIES : list str :=
  map lit
  ["bash"; "sh"; "ls"; "cat"; "grep"; "cp"; "mv"; "rm";
   "mkdir"; "rmdir"; "touch"; "chmod"; "chown"; "ps"; "kill"; "killall";
   "free"; "uptime"; "df"; "uname"; "whoami"; "id"; "hostname"; "wget";
   "curl"; "tar"; "gzip"; "sed"; "awk"; "find"; "netstat"; "ss";
   "iptables"; "systemctl"].

(** ** Node constructors *)

(** [node.children[child.name] = child] for each child. *)
Definition _directory (name : str) (mode : Z) (children : list inode) : inode :=
  VFSDirectory (new_meta name mode _DEFAULT_MTIME)
    (fold_left (λ ch child, dict_set ch (m_name (node_meta child)) child) children []).

Definition _file (name content : str) (mode : Z) : inode :=
  VFSFile (new_meta name mode _DEFAULT_MTIME) content None false.

Definition _char_device (name : str) (mode : Z) : inode :=
  VFSFile (Meta name mode 0 0 "root" "root" _DEFAULT_MTIME true) [] None false.

Definition _STUB_SIZE_MIN : Z := 30 * 1024.
Definition _STUB_SIZE_MAX : Z := 800 * 1024.

(** One round of the 32-bit FNV-1a hash. *)
Definition fnv_step (acc char : Z) : Z :=
  Z.land (Z.lxor acc char * 16777619) 4294967295.

Definition _stub_size (name : str) : Z :=
  let acc := fold_left fnv_step name 2166136261 in
  let span := _STUB_SIZE_MAX - _STUB_SIZE_MIN in
  _STUB_SIZE_MIN + acc mod (span + 1).

Definition _binary_stub (name : str) : inode :=
  VFSFile (new_meta name 493 _DEFAULT_MTIME) [] (Some (_stub_size name)) false.

Definition _bin_stubs : list inode := map _binary_stub _STUB_BINARIES.

Definition build_honeypot_tree : inode :=
  let etc := _directory "etc" 493
    [_file "os-release" OS_RELEASE 420; _file "issue" ISSUE 420;
     _file "passwd" PASSWD 420;
     _file "hostname" (HOSTNAME ++ [10]) 420;
     _file "resolv.conf" RESOLV_CONF 420] in
  let proc := _directory "proc" 493
    [_file "version" PROC_VERSION 420; _file "cpuinfo" PROC_CPUINFO 420;
     _file "meminfo" PROC_MEMINFO 420;
     _directory "net" 493 [_file "dev" PROC_NET_DEV 420]] in
  let root_home := _directory "root" 448 [_file ".bash_history" BASH_HISTORY 384] in
  let home := _directory "home" 493 [_directory "ubuntu" 493 []] in
  let dev := _directory "dev" 493
    [_char_device "null" 438; _char_device "zero" 438; _char_device "urandom" 438] in
  _directory "" 493
    [_directory "bin" 493 _bin_stubs; dev; etc; home; proc; root_home;
     _directory "tmp" 1023 [];
     _directory "usr" 493 [_directory "bin" 493 _bin_stubs];
     _directory "var" 493 [_directory "log" 493 []]].

(** [create_default_vfs()]. *)
Definition create_default_vfs : vfs := vfs_init build_honeypot_tree DEFAULT_HOME.
