(* ===== verification/VfsSpec.v ===== *)
(** * Correctness of the filesystem operations

    The contract of [VirtualFileSystem], stated on the abstract [view] of
    VfsTree.v, and the theorems that the methods of Vfs.v implement it:
    resolution, read-after-write with its frame, creation, removal, exact
    quota accounting, and atomicity of every failing operation. *)

From S2P Require Import Prelude PyStr OrdDict Path Chmod Vfs VfsTree HoneypotTree.

(** ** From paths to components *)

(** The components an operand denotes. *)
Definition target (v : vfs) (path cwd : str) : list str :=
  loc_parts (canonicalize path cwd (v_home v)).

(** [abs] is a text [canonicalize] can return, [ws] its components. *)
Definition names (abs : str) (ws : list str) : Prop :=
  Forall comp_ok ws ∧ (abs = render ws ∨ (abs = lit "-" ∧ ws = [lit "-"])).

Lemma loc_parts_names abs ws : names abs ws → loc_parts abs = ws.
Proof.
  intros [Hws [->|[-> ->]]]; [|done]. unfold loc_parts. case_decide as E.
  - by apply render_root in E as ->.
  - apply path_parts_render; [|done]. intros ->. done.
Qed.

Lemma canonicalize_names path cwd home :
  ∃ ws, names (canonicalize path cwd home) ws.
Proof.
  destruct (decide (path = lit "-")) as [->|Hne].
  - exists [lit "-"]. split; [|by right]. by repeat constructor; vm_compute; set_solver.
  - destruct (canonicalize_comps path cwd home Hne) as (ws & Hws & ->).
    exists ws. split; [done|by left].
Qed.

(** What every method does with a path other than the root. *)
Lemma abs_split path cwd home :
  let abs := canonicalize path cwd home in
  abs ≠ lit "/" →
  ∃ ws name, loc_parts abs = ws ++ [name] ∧ comp_ok name ∧
    base_name abs = name ∧
    loc_parts (canonicalize (parent_path abs) "/" home) = ws.
Proof.
  cbn zeta. destruct (canonicalize_names path cwd home) as [ws Hn].
  rewrite (loc_parts_names _ _ Hn). destruct Hn as [Hws Habs].
  generalize dependent (canonicalize path cwd home).
  intros abs [->|[-> ->]] Hne.
  - destruct ws as [|name ws _] using rev_ind; [done|]. exists ws, name.
    apply comps_snoc in Hws as Hws'. destruct Hws' as [Hws' Hname].
    rewrite parent_path_render, base_name_render by done.
    rewrite canonicalize_render by done.
    by rewrite (loc_parts_names (render ws) ws) by (split; [done|by left]).
  - exists [], (lit "-"). split; [done|]. inversion_clear Hws. by split.
Qed.

Lemma resolve_walk v path cwd :
  resolve v path cwd =
  walk (canonicalize path cwd (v_home v)) [] (v_root v) (target v path cwd).
Proof.
  unfold resolve, target, loc_parts. by case_decide.
Qed.

Lemma resolve_ok v path cwd n :
  resolve v path cwd = Ok n ↔ lookup_path (v_root v) (target v path cwd) = Some n.
Proof. rewrite resolve_walk. apply walk_ok. Qed.

Lemma resolve_err v path cwd e :
  resolve v path cwd = Err e → is_missing e = true.
Proof. rewrite resolve_walk. apply walk_err_missing. Qed.

(** ** The invariant *)
Record vfs_ok (v : vfs) : Prop := {
  ok_root : is_directory (v_root v) = true;
  ok_tree : tree_ok (v_max_file v) (v_root v);
  ok_used : v_used v = dyn_bytes (v_root v);
  ok_total : v_used v ≤ v_max_total v }.

(** The filesystem a session starts from satisfies it. *)
Lemma default_vfs_ok : vfs_ok create_default_vfs.
Proof.
  split; [reflexivity| |vm_compute; reflexivity|vm_compute; discriminate].
  apply tree_okb_sound. vm_compute. reflexivity.
Qed.

(** What a successful [mutate] of a directory's child amounts to. *)
Lemma mutate_eq v path cwd f :
  mutate path cwd f v =
  (Ok tt, set_root (update_at (target v path cwd) f (v_root v)) v).
Proof. reflexivity. Qed.

Lemma target_set_used u v path cwd : target (set_used u v) path cwd = target v path cwd.
Proof. reflexivity. Qed.

(** Storing a child: the accounting moves by the difference of the bytes. *)
Lemma vfs_ok_put v ws name x m ch u :
  vfs_ok v → lookup_path (v_root v) ws = Some (VFSDirectory m ch) →
  comp_ok name → m_name (node_meta x) = name → tree_ok (v_max_file v) x →
  u = v_used v - child_bytes ch name + dyn_bytes x → u ≤ v_max_total v →
  vfs_ok (set_root (update_at ws (set_child name x) (v_root v)) (set_used u v)).
Proof.
  intros [Hr Ht Hu Htot] Hl Hname Hx Hxt -> Hle. split; cbn.
  - by rewrite (is_directory_update _ _ _ _ Hl).
  - eapply tree_ok_update; [done..| |done].
    apply tree_ok_set_child; try done. exact (tree_ok_child _ _ _ _ Ht Hl).
  - rewrite (dyn_bytes_update _ _ _ _ Hl). cbn. rewrite dyn_sum_set. lia.
  - done.
Qed.

Lemma vfs_ok_del v ws name m ch :
  vfs_ok v → lookup_path (v_root v) ws = Some (VFSDirectory m ch) →
  vfs_ok (set_root (update_at ws (del_child name) (v_root v))
            (set_used (v_used v - child_bytes ch name) v)).
Proof.
  intros [Hr Ht Hu Htot] Hl. split; cbn.
  - by rewrite (is_directory_update _ _ _ _ Hl).
  - eapply tree_ok_update; [done..| |done].
    apply tree_ok_del_child. exact (tree_ok_child _ _ _ _ Ht Hl).
  - rewrite (dyn_bytes_update _ _ _ _ Hl). cbn. rewrite dyn_sum_del. lia.
  - unfold child_bytes. case_match; [|lia].
    pose proof (dyn_bytes_nonneg i). lia.
Qed.

Lemma vfs_ok_meta v ws n g :
  vfs_ok v → lookup_path (v_root v) ws = Some n →
  m_name (node_meta (with_meta g n)) = m_name (node_meta n) →
  vfs_ok (set_root (update_at ws (with_meta g) (v_root v)) v).
Proof.
  intros [Hr Ht Hu Htot] Hl Hg. split; cbn.
  - rewrite (is_directory_update _ _ _ _ Hl); [done|]. by destruct n.
  - eapply tree_ok_update; [done..| |done].
    apply tree_ok_with_meta. exact (tree_ok_child _ _ _ _ Ht Hl).
  - rewrite (dyn_bytes_update _ _ _ _ Hl).
    replace (dyn_bytes (with_meta g n)) with (dyn_bytes n) by by destruct n. lia.
  - done.
Qed.

Lemma set_used_same v : set_used (v_used v) v = v.
Proof. by destruct v. Qed.

(** ** Accounting *)

Definition counted (existing : option inode) : Z :=
  match existing with Some n => dyn_bytes n | None => 0 end.
Definition is_file (existing : option inode) : Prop :=
  match existing with Some (VFSFile _ _ _ _) | None => True | _ => False end.

(** The bytes of the file that is replaced. *)
Lemma old_counted v existing :
  is_file existing → (∀ x, existing = Some x → tree_ok (v_max_file v) x) →
  (match existing with
   | Some (VFSFile _ content _ true) => lift (encoded_size content)
   | _ => mret 0
   end) v = (Ok (counted existing), v).
Proof.
  intros Hf Hex. destruct existing as [[m|m c rs [] |m ch]|]; try done. unfold lift. cbn.
  destruct (Hex _ eq_refl [] _ eq_refl) as [He _]; [done|]. unfold encoded_size. by rewrite He.
Qed.

(** Success, and the two quota errors, of [_account_write]. *)
Lemma account_write_spec v existing content r v' :
  is_file existing →
  (∀ x, existing = Some x → tree_ok (v_max_file v) x) →
  _account_write existing content v = (r, v') →
  (r = Ok tt ∧ encodable content = true ∧ utf8_len content ≤ v_max_file v ∧
   v_used v - counted existing + utf8_len content ≤ v_max_total v ∧
   v' = set_used (v_used v - counted existing + utf8_len content) v) ∨
  ((∃ e, r = Err e) ∧ v' = v).
Proof.
  intros Hfile Hex. unfold _account_write. rewrite st_bind_eq.
  unfold lift at 1.
  destruct (encoded_size content) as [n|e] eqn:En; [|naive_solver].
  apply encoded_size_ok in En as [Henc ->]. rewrite st_bind_eq. cbn [gets id].
  case_decide; [intros [= <- <-]; right; eauto|]. rewrite st_bind_eq.
  rewrite old_counted by done. case_decide; intros [= <- <-]; [right; eauto|].
  left. repeat split; try done; lia.
Qed.

(** [_release_dynamic_bytes] on a subtree of a well-formed filesystem. *)
Lemma release_spec v ws n :
  vfs_ok v → lookup_path (v_root v) ws = Some n →
  _release_dynamic_bytes n v = (Ok tt, set_used (v_used v - dyn_bytes n) v).
Proof.
  intros [Hr Ht Hu Htot] Hl. unfold _release_dynamic_bytes.
  rewrite (release_bytes_eq (v_max_file v)); [done|exact (tree_ok_child _ _ _ _ Ht Hl)|].
  apply dyn_bytes_lookup in Hl. lia.
Qed.

(** ** What each mutator does: its outcomes *)

Definition old_content (e : option entry) : str :=
  match e with Some (EFile _ c _ _) => c | _ => [] end.

(** A write is swallowed: [/dev/null] by name, or any character device. *)
Definition is_sink (v : vfs) (path cwd : str) : Prop :=
  canonicalize path cwd (v_home v) = DEV_NULL ∨
  ∃ m c rs d, view (v_root v) (target v path cwd) = Some (EFile m c rs d) ∧
              m_char_device m = true.

(** The parent directory and last component of an operand, resolved. *)
Record at_child (v : vfs) (path cwd : str) (ws : list str) (name : str)
    (m : meta) (ch : list (str * inode)) : Prop := {
  ac_target : target v path cwd = ws ++ [name];
  ac_name : comp_ok name;
  ac_base : base_name (canonicalize path cwd (v_home v)) = name;
  ac_parent : target v (parent_path (canonicalize path cwd (v_home v))) "/" = ws;
  ac_lookup : lookup_path (v_root v) ws = Some (VFSDirectory m ch) }.

Lemma at_child_intro v path cwd m ch :
  canonicalize path cwd (v_home v) ≠ lit "/" →
  resolve v (parent_path (canonicalize path cwd (v_home v))) "/" =
    Ok (VFSDirectory m ch) →
  ∃ ws name, at_child v path cwd ws name m ch.
Proof.
  intros Hne Hr. destruct (abs_split path cwd (v_home v) Hne)
    as (ws & name & H1 & H2 & H3 & H4).
  exists ws, name. split; try done. apply resolve_ok in Hr.
  unfold target in Hr. by rewrite H4 in Hr.
Qed.

Lemma resolve_missing_parent v path cwd e :
  canonicalize path cwd (v_home v) ≠ lit "/" →
  resolve v (parent_path (canonicalize path cwd (v_home v))) "/" = Err e →
  lookup_path (v_root v) (target v path cwd) = None.
Proof.
  intros Hne Hr. destruct (abs_split path cwd (v_home v) Hne)
    as (ws & name & H1 & H2 & H3 & H4).
  unfold target. rewrite H1, lookup_path_app.
  destruct (lookup_path (v_root v) ws) as [n|] eqn:E; [|done].
  assert (Hn : resolve v (parent_path (canonicalize path cwd (v_home v))) "/" = Ok n).
  { apply resolve_ok. unfold target. by rewrite H4. }
  congruence.
Qed.

Lemma at_child_view v path cwd ws name m ch :
  at_child v path cwd ws name m ch →
  lookup_path (v_root v) (target v path cwd) = dict_get ch name.
Proof.
  intros [-> _ _ _ Hl]. rewrite lookup_path_app, Hl. cbn.
  by destruct (dict_get ch name).
Qed.

Lemma at_child_tree v path cwd ws name m ch x :
  vfs_ok v → at_child v path cwd ws name m ch → dict_get ch name = Some x →
  tree_ok (v_max_file v) x ∧ m_name (node_meta x) = name.
Proof.
  intros Hv Hc Hx. split.
  - eapply tree_ok_child; [by apply Hv|]. by rewrite (at_child_view _ _ _ _ _ _ _ Hc).
  - pose proof (ok_tree v Hv _ _ (ac_lookup _ _ _ _ _ _ _ Hc)) as [_ Hch].
    by apply Hch.
Qed.

Lemma mutate_child v path cwd ws name m ch f u :
  at_child v path cwd ws name m ch →
  mutate (parent_path (canonicalize path cwd (v_home v))) "/" f (set_used u v) =
  (Ok tt, set_root (update_at ws f (v_root v)) (set_used u v)).
Proof. intros Hc. rewrite mutate_eq. by rewrite <-(ac_parent _ _ _ _ _ _ _ Hc). Qed.

Lemma mutate_child_same v path cwd ws name m ch f :
  at_child v path cwd ws name m ch →
  mutate (parent_path (canonicalize path cwd (v_home v))) "/" f v =
  (Ok tt, set_root (update_at ws f (v_root v)) (set_used (v_used v) v)).
Proof. intros Hc. rewrite set_used_same, mutate_eq. by rewrite <-(ac_parent _ _ _ _ _ _ _ Hc). Qed.

(** The filesystem after storing [x] under the operand. *)
Definition put (v : vfs) (ws : list str) (name : str) (x : inode) (u : Z) : vfs :=
  set_root (update_at ws (set_child name x) (v_root v)) (set_used u v).
Definition del (v : vfs) (ws : list str) (name : str) (u : Z) : vfs :=
  set_root (update_at ws (del_child name) (v_root v)) (set_used u v).

Lemma write_file_cases now path content cwd append v r v' :
  vfs_ok v → write_file now path content cwd append v = (r, v') →
  ((∃ e, r = Err e) ∧ v' = v) ∨
  (r = Ok tt ∧ v' = v ∧ is_sink v path cwd) ∨
  (r = Ok tt ∧ ∃ ws name m ch mx u,
     let old := old_content (view (v_root v) (target v path cwd)) in
     let new := if append then old ++ content else content in
     at_child v path cwd ws name m ch ∧
     is_file (dict_get ch name) ∧ m_name mx = name ∧ m_char_device mx = false ∧
     encodable new = true ∧ utf8_len new ≤ v_max_file v ∧ u ≤ v_max_total v ∧
     u = v_used v - child_bytes ch name + utf8_len new ∧
     v' = put v ws name (VFSFile mx new None true) u).
Proof.
  intros Hv. unfold write_file. rewrite st_bind_eq. cbn [gets].
  case_decide as Hnull.
  { intros [= <- <-]. right; left. split; [done|]. split; [done|by left]. }
  case_decide as Hroot; [intros [= <- <-]; left; eauto|].
  rewrite st_bind_eq. unfold reads at 1.
  destruct (resolve v _ "/") as [d|e] eqn:Hd; [|intros [= <- <-]; left; eauto].
  destruct d as [m|m c rs dy|m ch]; try (intros [= <- <-]; left; by eauto).
  destruct (at_child_intro v path cwd m ch Hroot Hd) as (ws & name & Hc).
  pose proof (at_child_view _ _ _ _ _ _ _ Hc) as Hview.
  rewrite (ac_base _ _ _ _ _ _ _ Hc).
  destruct (dict_get ch name) as [x|] eqn:Ex.
  - destruct x as [mx|mx cx rx dx|mx chx]; try (intros [= <- <-]; left; by eauto).
    destruct (m_char_device mx) eqn:Edev.
    { intros [= <- <-]. right; left. split; [done|]. split; [done|]. right.
      unfold view. rewrite Hview. by repeat eexists. }
    destruct (at_child_tree _ _ _ _ _ _ _ _ Hv Hc Ex) as [Hxt Hxn].
    rewrite st_bind_eq. destruct (_account_write _ _ v) as [r0 v0] eqn:Ea.
    apply account_write_spec in Ea as [(-> & He & Hf & Ht & ->)|[[e ->] ->]];
      [|intros [= <- <-]; left; by eauto|done|by intros ? [= <-]].
    rewrite (mutate_child _ _ _ _ _ _ _ _ _ Hc). intros [= <- <-]. right; right.
    split; [done|].
    unfold view. rewrite Hview. cbn [fmap option_fmap option_map shallow old_content].
    exists ws, name, m, ch, (node_meta (set_mtime now (INode mx))). eexists.
    split; [exact Hc|]. unfold child_bytes. rewrite Ex. split_and!; done.
  - rewrite st_bind_eq. destruct (_account_write _ _ v) as [r0 v0] eqn:Ea.
    apply account_write_spec in Ea as [(-> & He & Hf & Ht & ->)|[[e ->] ->]];
      [|intros [= <- <-]; left; by eauto|done|done].
    rewrite (mutate_child _ _ _ _ _ _ _ _ _ Hc). intros [= <- <-]. right; right.
    split; [done|].
    unfold view. rewrite Hview. cbn [fmap option_fmap option_map shallow old_content].
    eexists ws, name, m, ch, (new_meta name 420 now), _.
    replace (if append then [] ++ content else content) with content by by destruct append.
    split; [exact Hc|]. unfold child_bytes. rewrite Ex. split_and!; done.
Qed.

(** [touch]: only the modification time of an existing node changes; a
    missing one becomes an empty file that is not accounted. *)
Lemma touch_cases now path cwd v r v' :
  vfs_ok v → touch now path cwd v = (r, v') →
  ((∃ e, r = Err e) ∧ v' = v) ∨
  (r = Ok tt ∧ target v path cwd = [] ∧
   v' = set_root (set_mtime now (v_root v)) v) ∨
  (r = Ok tt ∧ ∃ ws name m ch, at_child v path cwd ws name m ch ∧
   let x := match dict_get ch name with
            | Some x => set_mtime now x
            | None => VFSFile (new_meta name 420 now) [] None false
            end in
   v' = put v ws name x (v_used v)).
Proof.
  intros Hv. unfold touch. rewrite st_bind_eq. cbn [gets].
  case_decide as Hroot.
  { intros [= <- <-]. right; left. split_and!; try done.
    unfold target, loc_parts. by rewrite decide_True. }
  rewrite st_bind_eq. unfold reads at 1.
  destruct (resolve v _ "/") as [d|e] eqn:Hd; [|intros [= <- <-]; left; eauto].
  destruct d as [m|m c rs dy|m ch]; try (intros [= <- <-]; left; by eauto).
  destruct (at_child_intro v path cwd m ch Hroot Hd) as (ws & name & Hc).
  rewrite (ac_base _ _ _ _ _ _ _ Hc).
  intros H. right; right. case_match eqn:Ex;
    rewrite (mutate_child_same _ _ _ _ _ _ _ _ Hc) in H; simplify_eq.
  all: split; [done|]; exists ws, name, m, ch; split; [exact Hc|]; by rewrite Ex.
Qed.

(** [remove]: one whole subtree goes, or nothing when forced. *)
Lemma remove_cases path cwd recursive force v r v' :
  vfs_ok v → remove path cwd recursive force v = (r, v') →
  ((∃ e, r = Err e) ∧ v' = v) ∨
  (r = Ok true ∧ v' = v ∧ force = true ∧
   lookup_path (v_root v) (target v path cwd) = None) ∨
  (r = Ok true ∧ ∃ ws name m ch n, at_child v path cwd ws name m ch ∧
   dict_get ch name = Some n ∧ (is_directory n = true → recursive = true) ∧
   v' = del v ws name (v_used v - child_bytes ch name)).
Proof.
  intros Hv. unfold remove. rewrite st_bind_eq. cbn [gets].
  case_decide as Hroot; [intros [= <- <-]; left; eauto|].
  rewrite st_bind_eq. unfold try_except. rewrite st_bind_eq. unfold reads at 1.
  destruct (resolve v _ "/") as [d|e] eqn:Hd.
  2: { pose proof (resolve_missing_parent v path cwd e Hroot Hd) as Hnone.
       destruct e; try (intros [= <- <-]; left; by eauto).
       destruct force; intros [= <- <-]; [right; left; done|left; eauto]. }
  cbn [mret st_ret]. unfold mret at 1, st_ret at 1.
  destruct d as [m|m c rs dy|m ch]; try (intros [= <- <-]; left; by eauto).
  destruct (at_child_intro v path cwd m ch Hroot Hd) as (ws & name & Hc).
  rewrite (ac_base _ _ _ _ _ _ _ Hc).
  pose proof (at_child_view _ _ _ _ _ _ _ Hc) as Hview.
  destruct (dict_get ch name) as [n|] eqn:Ex.
  2: { destruct force; intros [= <- <-]; [right; left; done|left; eauto]. }
  case_match eqn:Erec; [intros [= <- <-]; left; by eauto|].
  rewrite st_bind_eq, (release_spec v _ n Hv Hview), st_bind_eq.
  rewrite (mutate_child _ _ _ _ _ _ _ _ _ Hc). intros [= <- <-].
  right; right. split; [done|]. exists ws, name, m, ch, n.
  split; [exact Hc|]. split; [done|]. split.
  - intros Hdir. rewrite Hdir in Erec. by destruct recursive.
  - unfold child_bytes. by rewrite Ex.
Qed.

(** [rmdir]: only an empty directory goes. *)
Lemma rmdir_cases path cwd v r v' :
  vfs_ok v → rmdir path cwd v = (r, v') →
  ((∃ e, r = Err e) ∧ v' = v) ∨
  (r = Ok tt ∧ ∃ ws name m ch m', at_child v path cwd ws name m ch ∧
   dict_get ch name = Some (VFSDirectory m' []) ∧
   v' = del v ws name (v_used v - child_bytes ch name)).
Proof.
  intros Hv. unfold rmdir. rewrite st_bind_eq. cbn [gets].
  case_decide as Hroot; [intros [= <- <-]; left; eauto|].
  rewrite st_bind_eq. unfold reads at 1.
  destruct (resolve v _ "/") as [d|e] eqn:Hd; [|intros [= <- <-]; left; eauto].
  destruct d as [m|m c rs dy|m ch]; try (intros [= <- <-]; left; by eauto).
  destruct (at_child_intro v path cwd m ch Hroot Hd) as (ws & name & Hc).
  rewrite (ac_base _ _ _ _ _ _ _ Hc).
  pose proof (at_child_view _ _ _ _ _ _ _ Hc) as Hview.
  destruct (dict_get ch name) as [n|] eqn:Ex; [|intros [= <- <-]; left; eauto].
  destruct n as [mn|mn c rs dy|mn [|kv gch]];
    try (intros [= <- <-]; left; by eauto).
  rewrite st_bind_eq, (release_spec v _ _ Hv Hview).
  rewrite (mutate_child _ _ _ _ _ _ _ _ _ Hc). intros [= <- <-].
  right. split; [done|]. exists ws, name, m, ch, mn.
  split; [exact Hc|]. split; [done|]. unfold child_bytes. by rewrite Ex.
Qed.

Lemma chmod_cases path mode cwd v r v' :
  chmod path mode cwd v = (r, v') →
  ((∃ e, r = Err e) ∧ v' = v) ∨
  (r = Ok tt ∧ ∃ n mode', lookup_path (v_root v) (target v path cwd) = Some n ∧
   apply_chmod_mode (m_mode (node_meta n)) mode = Ok mode' ∧
   v' = set_root (update_at (target v path cwd) (set_mode mode') (v_root v)) v).
Proof.
  unfold chmod. rewrite st_bind_eq. unfold reads at 1.
  destruct (resolve v path cwd) as [n|e] eqn:Hn; [|intros [= <- <-]; left; eauto].
  rewrite st_bind_eq. unfold lift at 1.
  destruct (apply_chmod_mode _ mode) as [mode'|e] eqn:Em;
    [|intros [= <- <-]; left; eauto].
  rewrite mutate_eq. intros [= <- <-]. right. split; [done|].
  exists n, mode'. by apply resolve_ok in Hn.
Qed.

(** ** [mkdir] *)

Lemma mkdir_cases now path cwd mode v r v' :
  mkdir now path cwd false mode v = (r, v') →
  ((∃ e, r = Err e) ∧ v' = v) ∨
  (r = Ok true ∧ ∃ ws name m ch, at_child v path cwd ws name m ch ∧
   dict_get ch name = None ∧
   v' = put v ws name (VFSDirectory (new_meta name mode now) []) (v_used v)).
Proof.
  unfold mkdir. rewrite st_bind_eq. cbn [gets].
  case_decide as Hroot; [intros [= <- <-]; left; eauto|].
  rewrite st_bind_eq. unfold try_except, reads at 1.
  destruct (resolve v _ "/") as [d|e] eqn:Hd.
  2: { destruct e; intros [= <- <-]; left; eauto. }
  destruct d as [m|m c rs dy|m ch]; try (intros [= <- <-]; left; by eauto).
  destruct (at_child_intro v path cwd m ch Hroot Hd) as (ws & name & Hc).
  rewrite (ac_base _ _ _ _ _ _ _ Hc). unfold dict_has.
  destruct (dict_get ch name) as [n|] eqn:Ex; [intros [= <- <-]; left; by eauto|].
  rewrite st_bind_eq, (mutate_child_same _ _ _ _ _ _ _ _ Hc). intros [= <- <-].
  right. split; [done|]. by exists ws, name, m, ch.
Qed.

(** A new directory has no obstacle below it. *)
Lemma mkdir_parents_fresh abs mode now seen m ps :
  ∃ ch, mkdir_parents abs mode now seen (VFSDirectory m []) ps = (Ok tt, VFSDirectory m ch).
Proof.
  revert seen m. induction ps as [|p ps IH]; intros seen m; cbn; [by eexists|].
  destruct (IH (seen ++ [p]) (new_meta p mode now)) as [ch ->]. by eexists.
Qed.

Lemma mkdir_parents_meta abs mode now seen n ps r n' :
  mkdir_parents abs mode now seen n ps = (r, n') → node_meta n' = node_meta n.
Proof.
  destruct ps as [|p ps]; cbn; destruct n; try (by intros [= <- <-]).
  case_match. by intros [= <- <-].
Qed.

(** [mkdir -p] is all or nothing. *)
Lemma mkdir_parents_err abs mode now seen n ps e n' :
  mkdir_parents abs mode now seen n ps = (Err e, n') → n' = n.
Proof.
  revert seen n n'. induction ps as [|p ps IH]; intros seen n n'; cbn.
  - destruct n; by intros [= _ <-].
  - destruct n as [| |m ch]; try by intros [= _ <-].
    destruct (dict_get ch p) as [c|] eqn:Ec.
    + destruct (mkdir_parents _ _ _ _ c ps) as [r c'] eqn:E. intros [= -> <-].
      apply IH in E as ->. by rewrite dict_set_id.
    + destruct (mkdir_parents_fresh abs mode now (seen ++ [p]) (new_meta p mode now) ps)
        as [ch' ->]. done.
Qed.

Lemma mkdir_parents_bytes abs mode now seen n ps r n' :
  mkdir_parents abs mode now seen n ps = (r, n') → dyn_bytes n' = dyn_bytes n.
Proof.
  revert seen n r n'. induction ps as [|p ps IH]; intros seen n r n'; cbn.
  - destruct n; by intros [= <- <-].
  - destruct n as [| |m ch]; try by intros [= <- <-].
    destruct (mkdir_parents _ _ _ _ _ ps) as [r' c'] eqn:E. intros [= <- <-].
    apply IH in E. cbn. rewrite dyn_sum_set. unfold child_bytes.
    destruct (dict_get ch p); cbn in *; lia.
Qed.

Lemma mkdir_parents_ok mf abs mode now seen n ps r n' :
  Forall comp_ok ps → tree_ok mf n →
  mkdir_parents abs mode now seen n ps = (r, n') → tree_ok mf n'.
Proof.
  intros Hps. revert seen n r n'.
  induction Hps as [|p ps Hp Hps IH]; intros seen n r n' Hok; cbn.
  - destruct n; by intros [= <- <-].
  - destruct n as [| |m ch]; try by intros [= <- <-].
    destruct (mkdir_parents _ _ _ _ _ ps) as [r' c'] eqn:E. intros [= <- <-].
    pose proof (Hok [] _ eq_refl) as [Hwf Hch].
    apply (tree_ok_set_child mf m ch); try done.
    + apply mkdir_parents_meta in E as ->. case_match eqn:Ec; [|done]. by apply Hch.
    + eapply IH; [|done]. case_match eqn:Ec.
      * apply (tree_ok_child _ _ [p] _ Hok). cbn. by rewrite Ec.
      * apply tree_ok_empty_dir.
Qed.

(** The directories it adds are the missing prefixes of the operand. *)
Lemma mkdir_parents_view abs mode now seen n ps n' qs :
  mkdir_parents abs mode now seen n ps = (Ok tt, n') →
  view n' qs =
  match view n qs with
  | Some e => Some e
  | None => if decide (qs `prefix_of` ps)
            then (λ q, EDir (new_meta q mode now)) <$> last qs else None
  end.
Proof.
  unfold view. revert seen n n' qs.
  induction ps as [|p ps IH]; intros seen n n' qs; cbn.
  - destruct n as [| |m ch]; try done. intros [= <-].
    destruct (lookup_path _ qs); cbn; [done|]. case_decide as H; [|done].
    apply prefix_nil_inv in H as ->. done.
  - destruct n as [| |m ch]; try done.
    destruct (mkdir_parents _ _ _ _ _ ps) as [r' c'] eqn:E. intros [= -> <-].
    destruct qs as [|q qs]; cbn; [done|].
    destruct (decide (p = q)) as [->|Hne].
    2: { rewrite dict_get_set_ne by done.
         destruct (dict_get ch q) as [c|]; cbn.
         - destruct (lookup_path c qs); cbn; [done|].
           rewrite decide_False; [done|]. by intros ?%prefix_cons_inv_1.
         - rewrite decide_False; [done|]. by intros ?%prefix_cons_inv_1. }
    rewrite dict_get_set_eq. rewrite (IH _ _ _ qs E).
    assert (Hpre : (q :: qs `prefix_of` q :: ps) ↔ qs `prefix_of` ps).
    { split; [apply prefix_cons_inv_2|apply prefix_cons]. }
    rewrite (decide_ext _ _ _ _ Hpre). destruct (dict_get ch q) as [c|] eqn:Ec.
    + destruct (lookup_path c qs) as [x|] eqn:Ex; cbn; [done|].
      case_decide; [|done]. by destruct qs.
    + destruct qs as [|q' qs]; cbn; [|by case_decide].
      by rewrite decide_True by apply prefix_nil.
Qed.

(** Afterwards the whole chain is made of directories. *)
Lemma mkdir_parents_dirs abs mode now seen n ps n' qs :
  mkdir_parents abs mode now seen n ps = (Ok tt, n') →
  qs `prefix_of` ps → ∃ m, view n' qs = Some (EDir m).
Proof.
  unfold view. revert seen n n' qs.
  induction ps as [|p ps IH]; intros seen n n' qs; cbn.
  - destruct n as [| |m ch]; try done. intros [= <-] ->%prefix_nil_inv. by eexists.
  - destruct n as [| |m ch]; try done.
    destruct (mkdir_parents _ _ _ _ _ ps) as [r' c'] eqn:E. intros [= -> <-] Hq.
    destruct qs as [|q qs]; cbn; [by eexists|].
    apply prefix_cons_inv_1 in Hq as Hqp. subst q. rewrite dict_get_set_eq.
    apply (IH _ _ _ _ E). by eapply prefix_cons_inv_2.
Qed.

(** On an existing chain of directories it does nothing. *)
Lemma mkdir_parents_id abs mode now seen n ps :
  (∀ qs, qs `prefix_of` ps → ∃ m, view n qs = Some (EDir m)) →
  mkdir_parents abs mode now seen n ps = (Ok tt, n).
Proof.
  unfold view. revert seen n. induction ps as [|p ps IH]; intros seen n Hd; cbn.
  - destruct (Hd [] ltac:(by apply prefix_nil)) as [m Hm]. by destruct n.
  - destruct (Hd [] ltac:(by apply prefix_nil)) as [m Hm].
    destruct n as [| |m' ch]; try done.
    destruct (Hd [p] ltac:(by apply prefix_cons, prefix_nil)) as [mp Hp]. cbn in Hp.
    destruct (dict_get ch p) as [c|] eqn:Ec; [|done].
    rewrite IH; [by rewrite dict_set_id|]. intros qs Hq.
    destruct (Hd (p :: qs) ltac:(by apply prefix_cons)) as [mq Hmq]. exists mq.
    cbn in Hmq. by rewrite Ec in Hmq.
Qed.

Lemma mkdir_parents_cases now path cwd mode v r v' :
  mkdir now path cwd true mode v = (r, v') →
  ((∃ e, r = Err e) ∧ v' = v) ∨
  (r = Ok true ∧ ∃ root', v' = set_root root' v ∧
   mkdir_parents (canonicalize path cwd (v_home v)) mode now [] (v_root v)
     (target v path cwd) = (Ok tt, root') ) ∨
  (r = Ok true ∧ v' = v ∧ target v path cwd = []).
Proof.
  unfold mkdir. rewrite st_bind_eq. cbn [gets]. unfold target, loc_parts.
  case_decide as Hroot; [intros [= <- <-]; by right; right|].
  destruct (mkdir_parents _ _ _ _ _ _) as [r' root'] eqn:E. intros [= <- <-].
  destruct r' as [[]|e].
  - right; left. split; [done|]. by exists root'.
  - left. split; [by eexists|]. apply mkdir_parents_err in E as ->. by destruct v.
Qed.
