(* ===== verification/VfsProps.v ===== *)
(** * The contract of [VirtualFileSystem]

    The theorems about the filesystem: an invariant kept by every sequence of
    operations, and the effect of each operation on the abstract [view]. *)

From S2P Require Import Prelude PyStr OrdDict Path Chmod Vfs VfsTree HoneypotTree VfsSpec.

(** ** Operations as one step relation *)

(** The mutating methods of the class, with their operands. *)
Inductive vfs_op :=
  | OpTouch (path cwd : str)
  | OpWrite (path content cwd : str) (append : bool)
  | OpMkdir (path cwd : str) (parents : bool) (mode : Z)
  | OpRemove (path cwd : str) (recursive force : bool)
  | OpRmdir (path cwd : str)
  | OpChmod (path mode cwd : str).

Definition run_op (now : Z) (op : vfs_op) : ST vfs unit :=
  match op with
  | OpTouch path cwd => touch now path cwd
  | OpWrite path content cwd append => write_file now path content cwd append
  | OpMkdir path cwd parents mode => _ ← mkdir now path cwd parents mode; mret tt
  | OpRemove path cwd recursive force => _ ← remove path cwd recursive force; mret tt
  | OpRmdir path cwd => rmdir path cwd
  | OpChmod path mode cwd => chmod path mode cwd
  end.

(** [reachable v v']: [v'] is what some sequence of calls, failing or not,
    makes of the object [v]. *)
Inductive reachable (v : vfs) : vfs → Prop :=
  | reach_refl : reachable v v
  | reach_step v1 v2 now op r :
      reachable v v1 → run_op now op v1 = (r, v2) → reachable v v2.

(** ** Helpers *)

Lemma target_root v path cwd :
  target v path cwd = [] → canonicalize path cwd (v_home v) = lit "/".
Proof.
  unfold target. destruct (canonicalize_names path cwd (v_home v)) as [ws Hn].
  rewrite (loc_parts_names _ _ Hn). intros ->.
  by destruct Hn as [_ [->|[_ ?]]].
Qed.

Lemma new_file_ok mf m content :
  encodable content = true → utf8_len content ≤ mf →
  tree_ok mf (VFSFile m content None true).
Proof. intros. by apply tree_ok_file. Qed.

Lemma put_ok v path cwd ws name m ch x u :
  vfs_ok v → at_child v path cwd ws name m ch → m_name (node_meta x) = name →
  tree_ok (v_max_file v) x → u = v_used v - child_bytes ch name + dyn_bytes x →
  u ≤ v_max_total v → vfs_ok (put v ws name x u).
Proof.
  intros Hv [_ Hn _ _ Hl] ????. by eapply vfs_ok_put.
Qed.

Lemma touch_ok now path cwd v r v' :
  vfs_ok v → touch now path cwd v = (r, v') → vfs_ok v' ∧ (is_ok r = false → v' = v).
Proof.
  intros Hv H. apply (touch_cases _ _ _ _ _ _ Hv) in H
    as [[[e ->] ->]|[(-> & _ & ->)|(-> & ws & name & m & ch & Hc & ->)]]; [done|..].
  - split; [|done]. apply (vfs_ok_meta v [] (v_root v)); [done..|].
    by destruct (v_root v).
  - split; [|done]. destruct (dict_get ch name) as [x|] eqn:Ex.
    + destruct (at_child_tree _ _ _ _ _ _ _ _ Hv Hc Ex) as [Hx Hname].
      eapply put_ok; try done.
      * by destruct x.
      * by apply tree_ok_with_meta.
      * unfold child_bytes. rewrite Ex. replace (dyn_bytes (set_mtime now x))
          with (dyn_bytes x) by by destruct x. lia.
      * apply Hv.
    + eapply put_ok; try done.
      * by apply tree_ok_file.
      * unfold child_bytes. rewrite Ex. cbn. lia.
      * apply Hv.
Qed.

Lemma write_ok now path content cwd append v r v' :
  vfs_ok v → write_file now path content cwd append v = (r, v') →
  vfs_ok v' ∧ (is_ok r = false → v' = v).
Proof.
  intros Hv H. apply (write_file_cases _ _ _ _ _ _ _ _ Hv) in H
    as [[[e ->] ->]|[(-> & -> & _)|(-> & ws & name & m & ch & mx & u & Hc & _ & Hn &
        _ & He & Hf & Ht & -> & ->)]]; [done|done|].
  split; [|done]. eapply put_ok; try done. by apply new_file_ok.
Qed.

Lemma mkdir_ok now path cwd parents mode v r v' :
  vfs_ok v → mkdir now path cwd parents mode v = (r, v') →
  vfs_ok v' ∧ (is_ok r = false → v' = v).
Proof.
  intros Hv. destruct parents; intros H.
  - apply mkdir_parents_cases in H
      as [[[e ->] ->]|[(-> & root' & -> & E)|(-> & -> & _)]]; [done| |done].
    split; [|done]. destruct Hv as [Hr Ht Hu Htot]. split; cbn; try done.
    + by destruct (target v path cwd), (v_root v); cbn in E; repeat case_match; simplify_eq.
    + eapply mkdir_parents_ok; [|done..].
      destruct (canonicalize_names path cwd (v_home v)) as [ws Hn].
      unfold target. rewrite (loc_parts_names _ _ Hn). apply Hn.
    + by rewrite (mkdir_parents_bytes _ _ _ _ _ _ _ _ E).
  - apply mkdir_cases in H as [[[e ->] ->]|(-> & ws & name & m & ch & Hc & Ex & ->)]; [done|].
    split; [|done]. eapply put_ok; try done.
    + apply tree_ok_empty_dir.
    + unfold child_bytes. rewrite Ex. cbn. lia.
    + apply Hv.
Qed.

Lemma remove_ok path cwd recursive force v r v' :
  vfs_ok v → remove path cwd recursive force v = (r, v') →
  vfs_ok v' ∧ (is_ok r = false → v' = v).
Proof.
  intros Hv H. apply (remove_cases _ _ _ _ _ _ _ Hv) in H
    as [[[e ->] ->]|[(-> & -> & _)|(-> & ws & name & m & ch & n & Hc & _ & _ & ->)]];
    [done|done|].
  split; [|done]. eapply vfs_ok_del; [done|by apply Hc].
Qed.

Lemma rmdir_ok path cwd v r v' :
  vfs_ok v → rmdir path cwd v = (r, v') → vfs_ok v' ∧ (is_ok r = false → v' = v).
Proof.
  intros Hv H. apply (rmdir_cases _ _ _ _ _ Hv) in H
    as [[[e ->] ->]|(-> & ws & name & m & ch & m' & Hc & _ & ->)]; [done|].
  split; [|done]. eapply vfs_ok_del; [done|by apply Hc].
Qed.

Lemma chmod_ok path mode cwd v r v' :
  vfs_ok v → chmod path mode cwd v = (r, v') → vfs_ok v' ∧ (is_ok r = false → v' = v).
Proof.
  intros Hv H. apply chmod_cases in H as [[[e ->] ->]|(-> & n & mode' & Hl & _ & ->)];
    [done|]. split; [|done]. eapply vfs_ok_meta; [done..|]. by destruct n.
Qed.

Lemma run_op_ok now op v r v' :
  vfs_ok v → run_op now op v = (r, v') → vfs_ok v' ∧ (is_ok r = false → v' = v).
Proof.
  intros Hv. destruct op; cbn;
    eauto using touch_ok, write_ok, rmdir_ok, chmod_ok; rewrite st_bind_eq.
  - destruct (mkdir _ _ _ _ _ v) as [r0 v0] eqn:E. apply mkdir_ok in E as [??]; [|done].
    destruct r0; intros [= <- <-]; auto.
  - destruct (remove _ _ _ _ v) as [r0 v0] eqn:E. apply remove_ok in E as [??]; [|done].
    destruct r0; intros [= <- <-]; auto.
Qed.

(** The view after storing a childless node in a place that held none or a
    childless one: one point of the map changes. *)
Definition childless (n : inode) : Prop := ∀ q qs, lookup_path n (q :: qs) = None.

Lemma childless_file m c r d : childless (VFSFile m c r d).
Proof. done. Qed.

Lemma put_view v path cwd ws name m ch x u qs :
  at_child v path cwd ws name m ch → childless x →
  (∀ y, dict_get ch name = Some y → childless y) →
  view (v_root (put v ws name x u)) qs =
  if decide (qs = target v path cwd) then Some (shallow x) else view (v_root v) qs.
Proof.
  unfold childless. intros Hc Hx Hold. pose proof (at_child_view _ _ _ _ _ _ _ Hc) as Hview.
  cbn. rewrite (view_put_child _ _ _ _ _ _ _ (ac_lookup _ _ _ _ _ _ _ Hc)).
  rewrite (ac_target _ _ _ _ _ _ _ Hc) in *.
  destruct (decide (ws ++ [name] `prefix_of` qs)) as [[rs ->]|Hn].
  - rewrite drop_app_length' by (rewrite length_app; cbn; lia).
    destruct rs as [|q rs].
    + rewrite app_nil_r, decide_True by done. done.
    + rewrite decide_False.
      2: { intros E%(f_equal length). rewrite length_app in E. cbn in E. lia. }
      unfold view. rewrite Hx, lookup_path_app, Hview.
      destruct (dict_get ch name) as [y|]; [|done]. cbn [mbind option_bind]. by rewrite (Hold y).
  - rewrite decide_False; [done|]. by intros ->.
Qed.

(** ** Resolution *)

(** [resolve] is lookup in the tree, with the errors of a POSIX walk: it
    returns the inode the components lead to; it raises [NotADirectoryError]
    naming the first file that is used as a directory, or [FileNotFoundError]
    with the whole path when a name is missing in a directory, and nothing
    else. *)
Theorem resolve_correct v path cwd :
  let ps := target v path cwd in
  match resolve v path cwd with
  | Ok n => lookup_path (v_root v) ps = Some n
  | Err (NotADirectoryError f) => ∃ pre post x,
      ps = pre ++ post ∧ post ≠ [] ∧ lookup_path (v_root v) pre = Some x ∧
      is_directory x = false ∧ f = lit "/" ++ join "/" pre
  | Err (FileNotFoundError f) => f = canonicalize path cwd (v_home v) ∧
      ∃ pre q post m ch, ps = pre ++ q :: post ∧
      lookup_path (v_root v) pre = Some (VFSDirectory m ch) ∧ dict_get ch q = None
  | Err _ => False
  end.
Proof.
  cbn zeta. rewrite resolve_walk.
  generalize (canonicalize path cwd (v_home v)) as abs. intros abs.
  assert (H : ∀ seen n ps,
    match walk abs seen n ps with
    | Ok x => lookup_path n ps = Some x
    | Err (NotADirectoryError f) => ∃ pre post x,
        ps = pre ++ post ∧ post ≠ [] ∧ lookup_path n pre = Some x ∧
        is_directory x = false ∧ f = lit "/" ++ join "/" (seen ++ pre)
    | Err (FileNotFoundError f) => f = abs ∧ ∃ pre q post m ch,
        ps = pre ++ q :: post ∧
        lookup_path n pre = Some (VFSDirectory m ch) ∧ dict_get ch q = None
    | Err _ => False
    end).
  { intros seen n ps. revert seen n. induction ps as [|p ps IH]; intros seen n; [done|].
    cbn [walk lookup_path]. destruct n as [m|m c r d|m ch].
    1-2: exists [], (p :: ps); eexists; rewrite app_nil_r; split_and!; by cbn.
    destruct (dict_get ch p) as [c|] eqn:Ec.
    - specialize (IH (seen ++ [p]) c). destruct (walk _ _ _ _) as [x|[]]; try done.
      + destruct IH as [-> (pre & q & post & m' & ch' & -> & Hl & Hq)]. split; [done|].
        exists (p :: pre), q, post, m', ch'. cbn. by rewrite Ec.
      + destruct IH as (pre & post & x & -> & Hne & Hl & Hx & ->).
        exists (p :: pre), post, x. cbn. rewrite Ec, <-app_assoc. done.
    - split; [done|]. by exists [], p, ps, m, ch. }
  apply (H [] (v_root v) (target v path cwd)).
Qed.

(** ** Reading and writing *)

(** Reading a file that [view] shows. *)
Lemma view_read v path cwd m c rs d :
  view (v_root v) (target v path cwd) = Some (EFile m c rs d) → m_char_device m = false →
  read_file v path cwd = Ok c.
Proof.
  intros Hat Hdev. unfold read_file. unfold view in Hat.
  destruct (lookup_path _ (target v path cwd)) as [n|] eqn:El in Hat; [|done].
  assert (Hr : resolve v path cwd = Ok n) by by apply resolve_ok.
  rewrite Hr. cbn. destruct n; simplify_eq/=. by rewrite Hdev.
Qed.

Lemma write_view now path content cwd append v v' :
  vfs_ok v → write_file now path content cwd append v = (Ok tt, v') → ¬ is_sink v path cwd →
  let old := old_content (view (v_root v) (target v path cwd)) in
  let new := if append then old ++ content else content in
  v_home v' = v_home v ∧
  (∃ m, m_char_device m = false ∧
        view (v_root v') (target v path cwd) = Some (EFile m new None true)) ∧
  ∀ qs, qs ≠ target v path cwd → view (v_root v') qs = view (v_root v) qs.
Proof.
  intros Hv Hw Hs. cbn zeta.
  apply (write_file_cases _ _ _ _ _ _ _ _ Hv) in Hw
    as [[[e ?] _]|[(_ & _ & ?)|(_ & ws & name & m & ch & mx & u & Hc & Hf & _ & Hdev &
        _ & _ & _ & _ & ->)]]; [done|done|].
  assert (Hold : ∀ y, dict_get ch name = Some y → childless y).
  { intros y Hy. rewrite Hy in Hf. by destruct y. }
  pose proof (λ x, put_view v path cwd ws name m ch x u) as Hput.
  set (new := if append then _ else _) in *. split; [done|]. split.
  - exists mx. split; [done|]. rewrite (Hput (VFSFile mx new None true)) by done.
    by rewrite decide_True.
  - intros qs Hq. rewrite (Hput (VFSFile mx new None true)) by done.
    by rewrite decide_False.
Qed.

(** What was written is read back. *)
Lemma write_reads_back now path content cwd append v v' :
  vfs_ok v → write_file now path content cwd append v = (Ok tt, v') → ¬ is_sink v path cwd →
  let old := old_content (view (v_root v) (target v path cwd)) in
  read_file v' path cwd = Ok (if append then old ++ content else content).
Proof.
  intros Hv Hw Hs. destruct (write_view _ _ _ _ _ _ _ Hv Hw Hs) as (Hh & (m & Hd & Hat) & _).
  eapply view_read; [|done]. unfold target in *. by rewrite Hh.
Qed.

(** C12: read after write, and nothing else moves.  When [write_file]
    returns and the operand is not a character device or [/dev/null], the
    operand is a file holding exactly the written text (appended to the old
    text with [append]), reading it back returns that text, and the entry of
    every other path is what it was. *)
Theorem write_then_read now path content cwd append v v' :
  vfs_ok v → write_file now path content cwd append v = (Ok tt, v') →
  ¬ is_sink v path cwd →
  let old := old_content (view (v_root v) (target v path cwd)) in
  let new := if append then old ++ content else content in
  read_file v' path cwd = Ok new ∧
  (∃ m, view (v_root v') (target v path cwd) = Some (EFile m new None true)) ∧
  ∀ qs, qs ≠ target v path cwd → view (v_root v') qs = view (v_root v) qs.
Proof.
  intros Hv Hw Hs. cbn zeta. split; [by eapply write_reads_back|].
  destruct (write_view _ _ _ _ _ _ _ Hv Hw Hs) as (_ & (m & _ & Hat) & Hq). eauto.
Qed.

Lemma write_then_read_witness :
  let v' := (write_file 7 "notes" "hi" "/tmp" false create_default_vfs).2 in
  read_file v' "notes" "/tmp" = Ok (lit "hi") ∧
  (∃ m, view (v_root v') [lit "tmp"; lit "notes"] = Some (EFile m "hi" None true)) ∧
  ∀ qs, qs ≠ [lit "tmp"; lit "notes"] →
    view (v_root v') qs = view (v_root create_default_vfs) qs.
Proof.
  apply (write_then_read 7 "notes" "hi" "/tmp" false create_default_vfs).
  - apply default_vfs_ok.
  - vm_compute. reflexivity.
  - intros [H|(m & c & r & d & H & _)]; vm_compute in H; discriminate.
Defined.

(** The bytes a write gives back before it is charged. *)
Definition refund (e : option entry) : Z :=
  match e with Some (EFile _ c _ true) => utf8_len c | _ => 0 end.

(** What a write needs to go through. *)
Definition can_write (v : vfs) (path content cwd : str) (append : bool) : Prop :=
  let ps := target v path cwd in
  let e := view (v_root v) ps in
  let new := if append then old_content e ++ content else content in
  ps ≠ [] ∧ (∃ m, view (v_root v) (removelast ps) = Some (EDir m)) ∧
  (e = None ∨ ∃ m c rs d, e = Some (EFile m c rs d)) ∧
  encodable new = true ∧ utf8_len new ≤ v_max_file v ∧
  v_used v - refund e + utf8_len new ≤ v_max_total v.

Lemma at_child_of_view v path cwd m :
  target v path cwd ≠ [] →
  view (v_root v) (removelast (target v path cwd)) = Some (EDir m) →
  ∃ ws name ch, at_child v path cwd ws name m ch ∧
    resolve v (parent_path (canonicalize path cwd (v_home v))) "/" =
      Ok (VFSDirectory m ch).
Proof.
  intros Hne Hp.
  assert (Habs : canonicalize path cwd (v_home v) ≠ lit "/").
  { intros H. apply Hne. unfold target, loc_parts. by rewrite decide_True. }
  destruct (abs_split path cwd (v_home v) Habs) as (ws & name & H1 & H2 & H3 & H4).
  unfold target in *. rewrite H1, removelast_last in Hp. unfold view in Hp.
  destruct (lookup_path (v_root v) ws) as [[| |m' ch]|] eqn:El; simplify_eq/=.
  exists (loc_parts (canonicalize (parent_path (canonicalize path cwd (v_home v)))
            "/" (v_home v))), (base_name (canonicalize path cwd (v_home v))), ch.
  split; [by split|]. by apply resolve_ok.
Qed.

Lemma account_write_succeeds v existing content :
  is_file existing → (∀ x, existing = Some x → tree_ok (v_max_file v) x) →
  encodable content = true → utf8_len content ≤ v_max_file v →
  v_used v - counted existing + utf8_len content ≤ v_max_total v →
  _account_write existing content v =
  (Ok tt, set_used (v_used v - counted existing + utf8_len content) v).
Proof.
  intros Hf Hex He Hm Ht. unfold _account_write. rewrite st_bind_eq.
  unfold lift at 1, encoded_size at 1. rewrite He, st_bind_eq. cbn [gets id].
  rewrite decide_False by lia. rewrite st_bind_eq.
  rewrite old_counted by done. by rewrite decide_False by lia.
Qed.

(** Either condition gives the write a parent directory. *)
Lemma write_parent v path content cwd append :
  vfs_ok v → canonicalize path cwd (v_home v) ≠ DEV_NULL →
  is_sink v path cwd ∨ can_write v path content cwd append →
  target v path cwd ≠ [] ∧
  ∃ m, view (v_root v) (removelast (target v path cwd)) = Some (EDir m).
Proof.
  intros Hv Hnull [[?|(m & c & rs & d & He & _)]|(? & ? & _)]; try done.
  unfold view in He. destruct (target v path cwd) as [|w ws _] eqn:Et using rev_ind.
  - cbn in He. pose proof (ok_root v Hv). by destruct (v_root v).
  - split; [by destruct ws|]. rewrite removelast_last. unfold view.
    rewrite lookup_path_app in He.
    destruct (lookup_path (v_root v) ws) as [[| |m' ch']|]; try done. by eexists.
Qed.

Lemma write_file_succeeds now path content cwd append v :
  vfs_ok v → is_sink v path cwd ∨ can_write v path content cwd append →
  (write_file now path content cwd append v).1 = Ok tt.
Proof.
  intros Hv Hor. unfold write_file. rewrite st_bind_eq. cbn [gets].
  case_decide as Hnull; [done|].
  destruct (write_parent _ _ _ _ _ Hv Hnull Hor) as [Hne [m Hp]].
  destruct (at_child_of_view _ _ _ _ Hne Hp) as (ws & name & ch & Hc & Hr).
  rewrite decide_False.
  2: { intros H. apply Hne. unfold target, loc_parts. by rewrite decide_True. }
  rewrite st_bind_eq. unfold reads at 1. rewrite Hr, (ac_base _ _ _ _ _ _ _ Hc).
  pose proof (at_child_view _ _ _ _ _ _ _ Hc) as Hview.
  unfold is_sink, can_write, view in Hor. rewrite Hview in Hor.
  destruct (dict_get ch name) as [[mx|mx cx rx dx|mx chx]|] eqn:Ex.
  - naive_solver.
  - destruct (m_char_device mx) eqn:Edev; [done|].
    destruct Hor as [[?|(? & ? & ? & ? & ? & ?)]|(_ & _ & _ & He & Hm & Hu)];
      [done|simplify_eq/=; congruence|].
    destruct (at_child_tree _ _ _ _ _ _ _ _ Hv Hc Ex) as [Hxt Hxn].
    rewrite st_bind_eq, account_write_succeeds; [|try done..].
    + done.
    + by intros ? [= <-].
  - naive_solver.
  - destruct Hor as [[?|(? & ? & ? & ? & ? & ?)]|(_ & _ & _ & He & Hm & Hu)];
      [done|simplify_eq/=; congruence|].
    replace (if append then _ else _) with content in * by by destruct append.
    by rewrite st_bind_eq, account_write_succeeds.
Qed.

(** Exactly when a write goes through: the operand is a sink, or its
    parent is a directory, it is missing or a regular file, the new text can be
    encoded, fits the per-file limit and the total quota once the bytes of the
    old text are given back.  In every other case [write_file] raises. *)
Theorem write_success_iff now path content cwd append v :
  vfs_ok v →
  ((write_file now path content cwd append v).1 = Ok tt ↔
   is_sink v path cwd ∨ can_write v path content cwd append).
Proof.
  intros Hv. split.
  - destruct (write_file _ _ _ _ _ v) as [r v'] eqn:E. cbn. intros ->.
    apply (write_file_cases _ _ _ _ _ _ _ _ Hv) in E
      as [[[e ?] _]|[(_ & _ & ?)|(_ & ws & name & m & ch & mx & u & Hc & Hf & _ & _ &
          He & Hm & Hu & -> & _)]]; [done|by left|]. right.
    pose proof (at_child_view _ _ _ _ _ _ _ Hc) as Hview.
    unfold can_write. cbn zeta. split_and!; try done.
    + rewrite (ac_target _ _ _ _ _ _ _ Hc). by destruct ws.
    + rewrite (ac_target _ _ _ _ _ _ _ Hc), removelast_last. exists m.
      unfold view. by rewrite (ac_lookup _ _ _ _ _ _ _ Hc).
    + unfold view. rewrite Hview. destruct (dict_get ch name) as [[]|]; try done.
      * right. by repeat eexists.
      * by left.
    + etrans; [|exact Hu]. unfold child_bytes, view. rewrite Hview.
      destruct (dict_get ch name) as [[|? ? ? []|]|]; cbn in Hf |- *; (done || lia).
  - by apply write_file_succeeds.
Qed.

Lemma write_success_iff_witness :
  (write_file 7 "notes" "hi" "/tmp" false create_default_vfs).1 = Ok tt ↔
  is_sink create_default_vfs "notes" "/tmp" ∨
  can_write create_default_vfs "notes" "hi" "/tmp" false.
Proof. apply write_success_iff, default_vfs_ok. Defined.

(** ** Invariants *)

(** C3: exact quota accounting and well-formedness, for every history.  After
    any sequence of touch, write, mkdir, remove, rmdir and chmod calls on a
    fresh filesystem, failed ones included, the counter
    [_dynamic_bytes_used] is the number of UTF-8 bytes of the files written
    since the start that still exist, it never exceeds the total quota, no such
    file exceeds the per-file limit, and the tree is well-formed: unique,
    properly formed names, each stored under its own name.  (Trees deeper than
    Python's stack, on which removal raises [RecursionError] halfway, are
    excepted, here and below: the recursion of [release_bytes] has no bound.) *)
Theorem quota_exact v :
  reachable create_default_vfs v →
  v_used v = dyn_bytes (v_root v) ∧ 0 ≤ v_used v ≤ v_max_total v ∧
  tree_ok (v_max_file v) (v_root v).
Proof.
  intros Hr. assert (Hv : vfs_ok v).
  { induction Hr as [|v1 v2 now op r _ IH Hop]; [apply default_vfs_ok|].
    by destruct (run_op_ok now op v1 r v2 IH Hop). }
  destruct Hv as [_ Ht Hu Hm]. pose proof (dyn_bytes_nonneg (v_root v)).
  split_and!; (done || lia).
Qed.

Lemma quota_exact_witness :
  let v := (run_op 7 (OpWrite "notes" "hi" "/tmp" false) create_default_vfs).2 in
  v_used v = dyn_bytes (v_root v) ∧ 0 ≤ v_used v ≤ v_max_total v ∧
  tree_ok (v_max_file v) (v_root v).
Proof.
  intros v. apply quota_exact.
  apply (reach_step _ create_default_vfs _ 7 (OpWrite "notes" "hi" "/tmp" false) (Ok tt)).
  - constructor.
  - vm_compute. reflexivity.
Defined.

(** C33: a failing operation has no effect.  Whatever the error, the
    filesystem object is the one before the call: no half-made directory chain
    of [mkdir -p], no charged byte, no changed time.  ([RecursionError] in
    [release_bytes], on trees deeper than Python's stack, is not modelled.) *)
Theorem failed_op_no_effect now op v e v' :
  vfs_ok v → run_op now op v = (Err e, v') → v' = v.
Proof. intros Hv H. by destruct (run_op_ok _ _ _ _ _ Hv H) as [_ ->]. Qed.

Lemma failed_op_no_effect_witness :
  (run_op 7 (OpMkdir "/etc/passwd/x/y" "/" true 493) create_default_vfs).2
  = create_default_vfs.
Proof.
  apply (failed_op_no_effect 7 (OpMkdir "/etc/passwd/x/y" "/" true 493)
    create_default_vfs (NotADirectoryError "/etc/passwd")).
  - apply default_vfs_ok.
  - vm_compute. reflexivity.
Defined.

(** ** Removal *)

(** The view after deleting a child, and the bytes of the tree. *)
Lemma del_view v path cwd ws name m ch u qs :
  vfs_ok v → at_child v path cwd ws name m ch →
  view (v_root (del v ws name u)) qs =
  if decide (target v path cwd `prefix_of` qs) then None else view (v_root v) qs.
Proof.
  intros Hv Hc. cbn. rewrite (ac_target _ _ _ _ _ _ _ Hc).
  apply (view_del_child _ _ _ m ch); [by apply Hc|].
  by destruct (ok_tree v Hv _ _ (ac_lookup _ _ _ _ _ _ _ Hc)).
Qed.

(** [rm] and [rmdir] remove exactly the named subtree.  When the call
    returns, either nothing changed, which only a forced [rm] of a missing
    operand may do, or every path at or below the operand is gone and every
    other entry is untouched; a directory goes only with [recursive], or by
    [rmdir] when it was empty, and the counter drops by the bytes of the
    subtree. *)
Theorem removal_effect path cwd recursive force is_rmdir v v' :
  vfs_ok v →
  (if is_rmdir : bool then rmdir path cwd v = (Ok tt, v')
   else remove path cwd recursive force v = (Ok true, v')) →
  (is_rmdir = false ∧ force = true ∧ v' = v ∧
   view (v_root v) (target v path cwd) = None) ∨
  (∃ n, lookup_path (v_root v) (target v path cwd) = Some n ∧
   target v path cwd ≠ [] ∧
   (if is_rmdir then ∃ m, n = VFSDirectory m []
    else is_directory n = true → recursive = true) ∧
   (∀ qs, view (v_root v') qs =
      if decide (target v path cwd `prefix_of` qs) then None else view (v_root v) qs) ∧
   v_used v' = v_used v - dyn_bytes n).
Proof.
  intros Hv. destruct is_rmdir; intros H.
  - apply (rmdir_cases _ _ _ _ _ Hv) in H
      as [[[e ?] _]|(_ & ws & name & m & ch & m' & Hc & Ex & ->)]; [done|]. right.
    exists (VFSDirectory m' []). rewrite (at_child_view _ _ _ _ _ _ _ Hc).
    split_and!; [done| |by eexists| |].
    + rewrite (ac_target _ _ _ _ _ _ _ Hc). by destruct ws.
    + intros qs. by apply (del_view _ _ _ _ _ m ch).
    + cbn. unfold child_bytes. by rewrite Ex.
  - apply (remove_cases _ _ _ _ _ _ _ Hv) in H
      as [[[e ?] _]|[(_ & -> & -> & Hn)|(_ & ws & name & m & ch & n & Hc & Ex & Hd & ->)]];
      [done| |].
    + left. unfold view. by rewrite Hn.
    + right. exists n. rewrite (at_child_view _ _ _ _ _ _ _ Hc).
      split_and!; [done| |done| |].
      * rewrite (ac_target _ _ _ _ _ _ _ Hc). by destruct ws.
      * intros qs. by apply (del_view _ _ _ _ _ m ch).
      * cbn. unfold child_bytes. by rewrite Ex.
Qed.

Lemma removal_effect_witness :
  let v := create_default_vfs in
  let v' := (remove "/usr" "/" true false v).2 in
  (false = false ∧ false = true ∧ v' = v ∧ view (v_root v) [lit "usr"] = None) ∨
  (∃ n, lookup_path (v_root v) [lit "usr"] = Some n ∧ [lit "usr"] ≠ [] ∧
   (is_directory n = true → true = true) ∧
   (∀ qs, view (v_root v') qs =
      if decide ([lit "usr"] `prefix_of` qs) then None else view (v_root v) qs) ∧
   v_used v' = v_used v - dyn_bytes n).
Proof.
  apply (removal_effect "/usr" "/" true false false create_default_vfs).
  - apply default_vfs_ok.
  - vm_compute. reflexivity.
Defined.

(** ** Creation *)

(** [mkdir -p] makes exactly the missing directories.  When it returns,
    every prefix of the operand is a directory, those that were missing with
    the requested mode, every other entry is untouched, and calling it again
    changes nothing. *)
Theorem mkdir_p_effect now path cwd mode v v' :
  vfs_ok v → mkdir now path cwd true mode v = (Ok true, v') →
  (∀ qs, view (v_root v') qs =
    match view (v_root v) qs with
    | Some e => Some e
    | None => if decide (qs `prefix_of` target v path cwd)
              then (λ q, EDir (new_meta q mode now)) <$> last qs else None
    end) ∧
  (∀ qs, qs `prefix_of` target v path cwd →
     ∃ m, view (v_root v') qs = Some (EDir m)) ∧
  ∀ now', mkdir now' path cwd true mode v' = (Ok true, v').
Proof.
  intros Hv H. apply mkdir_parents_cases in H
    as [[[e ?] _]|[(_ & root' & -> & E)|(_ & -> & Ht)]]; [done| |].
  - pose proof (λ qs, mkdir_parents_dirs _ _ _ _ _ _ _ qs E) as Hdirs.
    split; [|split; [exact Hdirs|]].
    + intros qs. by apply (mkdir_parents_view _ _ _ _ _ _ _ qs E).
    + intros now'. unfold mkdir. rewrite st_bind_eq. cbn [gets v_home set_root].
      case_decide; [done|]. cbn [v_root set_root].
      rewrite mkdir_parents_id; [done|]. intros qs Hq. apply Hdirs.
      unfold target, loc_parts. by rewrite decide_False.
  - rewrite Ht. pose proof (ok_root v Hv) as Hroot.
    destruct (v_root v) as [| |m ch] eqn:Er; try done.
    split; [|split].
    + intros qs. destruct (view _ qs) eqn:Eq; [done|]. case_decide as Hq; [|done].
      by apply prefix_nil_inv in Hq as ->.
    + intros qs ->%prefix_nil_inv. by eexists.
    + intros now'. unfold mkdir. rewrite st_bind_eq. cbn [gets].
      by rewrite decide_True by by apply target_root.
Qed.

Lemma mkdir_p_effect_witness :
  let v := create_default_vfs in
  let v' := (mkdir 7 "x/y" "/tmp" true 493 v).2 in
  (∀ qs, view (v_root v') qs =
    match view (v_root v) qs with
    | Some e => Some e
    | None => if decide (qs `prefix_of` [lit "tmp"; lit "x"; lit "y"])
              then (λ q, EDir (new_meta q 493 7)) <$> last qs else None
    end) ∧
  (∀ qs, qs `prefix_of` [lit "tmp"; lit "x"; lit "y"] →
     ∃ m, view (v_root v') qs = Some (EDir m)) ∧
  ∀ now', mkdir now' "x/y" "/tmp" true 493 v' = (Ok true, v').
Proof.
  apply (mkdir_p_effect 7 "x/y" "/tmp" 493 create_default_vfs).
  - apply default_vfs_ok.
  - vm_compute. reflexivity.
Defined.

(** ** Listing *)

#[export] Instance str_le_total : Total str_le.
Proof.
  intros a. unfold str_le. induction a as [|x a IH]; intros b; [by left|].
  destruct b as [|y b]; [by right|]. cbn.
  rewrite !orb_true_iff, !andb_true_iff, !Z.ltb_lt, !Z.eqb_eq.
  destruct (Z.lt_total x y) as [?|[->|?]]; [by left; left| |by right; left].
  destruct (IH b); [left|right]; by right.
Qed.

#[export] Instance str_le_trans : Transitive str_le.
Proof.
  intros a b c. unfold str_le. revert b c.
  induction a as [|x a IH]; intros [|y b] [|z c]; cbn; try done.
  rewrite !orb_true_iff, !andb_true_iff, !Z.ltb_lt, !Z.eqb_eq.
  intros [?|[-> ?]] [?|[-> ?]]; [left; lia|by left|by left|].
  right. split; [done|]. by eapply IH.
Qed.

(** [list_dir] lists a directory completely and in order: the result is
    sorted by code points, without repetition, and holds a name exactly when
    the directory has an entry of that name. *)
Theorem list_dir_correct v path cwd names :
  vfs_ok v → list_dir v path cwd = Ok names →
  Sorted str_le names ∧ NoDup names ∧
  ∀ name, name ∈ names ↔ is_Some (view (v_root v) (target v path cwd ++ [name])).
Proof.
  intros Hv H. unfold list_dir in H. apply result_bind_ok in H as (n & Hn & H).
  apply resolve_ok in Hn. destruct n as [| |m ch]; simplify_eq/=.
  pose proof (ok_tree v Hv _ _ Hn) as [Hwf _].
  pose proof (merge_sort_Permutation str_le ch.*1) as Hp.
  split; [apply (Sorted_merge_sort str_le)|]. split; [by rewrite Hp|].
  intros name. rewrite Hp. unfold view. rewrite lookup_path_app, Hn. cbn.
  destruct (dict_get ch name) as [x|] eqn:Ex; cbn.
  - split; [by eexists|]. intros _. apply dict_get_Some_elem in Ex.
    apply list_elem_of_fmap. by exists (name, x).
  - apply dict_get_None in Ex. split; [done|]. by intros [? ?].
Qed.

Lemma list_dir_correct_witness :
  Sorted str_le [lit "null"; lit "urandom"; lit "zero"] ∧
  NoDup [lit "null"; lit "urandom"; lit "zero"] ∧
  ∀ name, name ∈ [lit "null"; lit "urandom"; lit "zero"] ↔
    is_Some (view (v_root create_default_vfs)
      (target create_default_vfs "/dev" "/" ++ [name])).
Proof.
  apply list_dir_correct; [apply default_vfs_ok|]. vm_compute. reflexivity.
Defined.
