(* ===== verification/Lru.v ===== *)
(** * Time-stamped LRU dictionaries

    What the session store and the two tables of the authentication manager
    share: an ordered dictionary whose entries carry the time they were last
    seen, purged by age, refreshed by moving an entry to the end, bounded by
    dropping entries from the front.  [seen] reads the stamp of a value; for
    the session store the value is a reference and [seen] reads the heap.
    With a clock that does not go backwards the dictionary is sorted by stamp
    ([lru_sorted]), so dropping from the front drops the least recently seen. *)

From S2P Require Import Prelude OrdDict.

Section Lru.
Context {K : Type} `{EqDecision K} {V : Type}.
Implicit Types (d : list (K * V)) (seen : V → Z) (t : Z).

(** [while len(d) >= n: d.popitem(last=False)]. *)
Definition popitem_while (n : nat) d : list (K * V) := pop_while (length d) n d.

(** The keys of entries older than [ttl], and their deletion. *)
Definition is_expired seen (ttl now : Z) (v : V) : bool := ttl <? now - seen v.
Definition purge_expired seen (ttl now : Z) d : list (K * V) :=
  dict_purge (is_expired seen ttl now) d.

Definition stamps seen d : list Z := (λ kv, seen kv.2) <$> d.

(** Sorted by stamp, no stamp later than [t]. *)
Definition lru_sorted seen t d : Prop :=
  StronglySorted Z.le (stamps seen d) ∧ Forall (λ s, s ≤ t) (stamps seen d).

Lemma popitem_while_evict n d : (1 ≤ n)%nat → popitem_while n d = evict_to n d.
Proof. intros. by apply pop_while_evict. Qed.

Lemma popitem_while_length n d :
  (1 ≤ n)%nat → (length (popitem_while n d) ≤ n - 1)%nat.
Proof. intros. rewrite popitem_while_evict, evict_to_length by done. lia. Qed.

Lemma popitem_while_wf n d : (1 ≤ n)%nat → dict_wf d → dict_wf (popitem_while n d).
Proof. intros. rewrite popitem_while_evict by done. by apply evict_to_wf. Qed.

Lemma popitem_while_elem n d kv : (1 ≤ n)%nat → kv ∈ popitem_while n d → kv ∈ d.
Proof.
  intros Hn. rewrite popitem_while_evict by done. unfold evict_to.
  intros [i Hi]%list_elem_of_lookup. rewrite lookup_drop in Hi.
  apply list_elem_of_lookup. eauto.
Qed.

Lemma popitem_while_get n d k v :
  (1 ≤ n)%nat → dict_wf d →
  dict_get (popitem_while n d) k = Some v → dict_get d k = Some v.
Proof.
  intros Hn Hd. rewrite popitem_while_evict by done. by apply evict_to_get.
Qed.

(** With room for one more, nothing is dropped. *)
Lemma popitem_while_room n d : (1 ≤ n)%nat → (length d < n)%nat → popitem_while n d = d.
Proof.
  intros. rewrite popitem_while_evict by done. unfold evict_to.
  by replace (S (length d) - n)%nat with 0%nat by lia.
Qed.

(** ** Sortedness *)

Lemma sorted_sub (l l' : list Z) :
  sublist l' l → StronglySorted Z.le l → StronglySorted Z.le l'.
Proof.
  induction 1 as [|x l1 l2 Hs IH|x l1 l2 Hs IH]; intros Hl; [done|..].
  - inversion_clear Hl. constructor; [by apply IH|].
    rewrite Forall_forall in *. intros y Hy. apply H0. by eapply elem_of_sublist.
  - inversion_clear Hl. by apply IH.
Qed.

Lemma lru_sorted_sub seen t d d' :
  sublist d' d → lru_sorted seen t d → lru_sorted seen t d'.
Proof.
  intros Hs [H1 H2]. assert (Hs' : sublist (stamps seen d') (stamps seen d)).
  { unfold stamps. clear H1 H2. induction Hs; cbn; by constructor. }
  split; [by eapply sorted_sub|]. rewrite Forall_forall in *.
  intros x Hx. apply H2. by eapply elem_of_sublist.
Qed.

Lemma lru_sorted_mono seen t t' d : t ≤ t' → lru_sorted seen t d → lru_sorted seen t' d.
Proof.
  intros Ht [H1 H2]. split; [done|]. eapply Forall_impl; [done|]. cbn. lia.
Qed.

Lemma lru_sorted_snoc seen t d k v :
  lru_sorted seen t d → seen v = t → lru_sorted seen t (d ++ [(k, v)]).
Proof.
  intros [H1 H2] Hv. unfold lru_sorted, stamps. rewrite fmap_app. cbn. rewrite Hv.
  fold (stamps seen d). split; cycle 1.
  { apply Forall_app_2; [done|]. constructor; [lia|done]. }
  clear Hv.
  induction (stamps seen d) as [|x l IH]; cbn.
  - by repeat constructor.
  - inversion_clear H1. inversion_clear H2. constructor; [by apply IH|].
    apply Forall_app_2; [done|]. by repeat constructor.
Qed.

Lemma lru_sorted_ext seen seen' t d :
  (∀ kv, kv ∈ d → seen kv.2 = seen' kv.2) → lru_sorted seen t d → lru_sorted seen' t d.
Proof.
  intros Hext. unfold lru_sorted.
  assert (E : stamps seen d = stamps seen' d); [|by rewrite E].
  unfold stamps. apply list_fmap_ext. intros i kv Hi. apply Hext.
  by eapply list_elem_of_lookup_2.
Qed.

Lemma sublist_dict_del d k : sublist (dict_del d k) d.
Proof.
  induction d as [|[k' v'] d IH]; cbn; [done|]. case_decide; by constructor.
Qed.

Lemma sublist_popitem n d : (1 ≤ n)%nat → sublist (popitem_while n d) d.
Proof.
  intros. rewrite popitem_while_evict by done. apply sublist_drop.
Qed.

Lemma sublist_purge seen ttl now d : dict_wf d → sublist (purge_expired seen ttl now d) d.
Proof.
  intros Hd. unfold purge_expired. rewrite dict_purge_filter by done.
  apply sublist_filter.
Qed.

(** What comes first was seen no later than what comes last. *)
Lemma lru_sorted_app_le seen t d1 d2 kv kv' :
  lru_sorted seen t (d1 ++ d2) → kv ∈ d1 → kv' ∈ d2 → seen kv.2 ≤ seen kv'.2.
Proof.
  intros [Hs _] Hin Hin'. unfold stamps in Hs. rewrite fmap_app in Hs.
  revert Hs Hin. induction d1 as [|x l IH]; cbn; [by intros _ ?%not_elem_of_nil|].
  intros Hs Hin. apply StronglySorted_inv in Hs as [Hs Hf].
  apply elem_of_cons in Hin as [->|Hin]; [|by apply IH].
  rewrite Forall_forall in Hf. apply Hf, elem_of_app. right.
  apply list_elem_of_fmap. by exists kv'.
Qed.

(** ** Refreshing an entry: [d[k].last_seen = now; d.move_to_end(k)] *)

Lemma move_to_end_snoc d k v :
  dict_get d k = Some v → move_to_end d k = dict_del d k ++ [(k, v)].
Proof. intros H. unfold move_to_end. by rewrite H. Qed.

Lemma lru_sorted_move seen t d k v :
  lru_sorted seen t (dict_del d k) → dict_get d k = Some v → seen v = t →
  lru_sorted seen t (move_to_end d k).
Proof. intros Hs Hk Hv. rewrite (move_to_end_snoc _ _ v) by done. by apply lru_sorted_snoc. Qed.

Lemma dict_del_alter (f : V → V) d k : dict_del (dict_alter f d k) k = dict_del d k.
Proof.
  induction d as [|[k' v'] d IH]; cbn; [done|].
  case_decide; cbn; [by rewrite decide_True|rewrite decide_False by done; by rewrite IH].
Qed.
End Lru.

(** ** Survival of an entry

    What comes [after] a key in the dictionary was put or refreshed since the
    key was.  While the keys seen since are among a set [X] smaller than the
    bound, dropping from the front does not reach the key. *)
Section Survival.
Context {K : Type} `{Countable K} {V : Type}.

Lemma sublist_keys (d d' : list (K * V)) : sublist d' d → dict_wf d → dict_wf d'.
Proof.
  unfold dict_wf. intros Hs. induction Hs as [|x l1 l2 Hs IH|x l1 l2 Hs IH]; cbn; [done|..];
    intros [Hx Hd]%NoDup_cons; [apply NoDup_cons; split; [|by apply IH]|by apply IH].
  intros [y [Hy Hin]]%list_elem_of_fmap. apply Hx, list_elem_of_fmap.
  exists y. split; [done|]. by eapply elem_of_sublist.
Qed.

Lemma popitem_get_None n (d : list (K * V)) ip :
  (1 ≤ n)%nat → dict_get d ip = None → dict_get (popitem_while n d) ip = None.
Proof.
  intros Hn Hg. rewrite dict_get_None in *. intros [kv [-> Hin]]%list_elem_of_fmap.
  apply Hg, list_elem_of_fmap. exists kv. split; [done|]. by eapply popitem_while_elem.
Qed.

Fixpoint after (d : list (K * V)) (ip : K) : list (K * V) :=
  match d with
  | [] => []
  | (k, _) :: d' => if decide (ip = k) then d' else after d' ip
  end.

Lemma after_sub d ip : sublist (after d ip) d.
Proof.
  induction d as [|[k l] d IH]; cbn; [done|]. case_decide; [by constructor|by constructor].
Qed.

Lemma after_app d1 d2 ip l :
  dict_get d1 ip = Some l → after (d1 ++ d2) ip = after d1 ip ++ d2.
Proof.
  induction d1 as [|[k l'] d1 IH]; cbn; [done|]. by case_decide.
Qed.

Lemma after_snoc_self d ip l : dict_get d ip = None → after (d ++ [(ip, l)]) ip = [].
Proof.
  induction d as [|[k l'] d IH]; cbn; [by rewrite decide_True|]. case_decide; [done|done].
Qed.

Lemma after_del d ip k : ip ≠ k → sublist (after (dict_del d k) ip) (after d ip).
Proof.
  intros Hne. induction d as [|[k' l'] d IH]; cbn; [done|].
  case_decide; subst; [by rewrite decide_False by done|].
  cbn. case_decide; [|done]. apply sublist_dict_del.
Qed.

Lemma after_filter (P : K * V → Prop) `{!∀ x, Decision (P x)} d ip l :
  dict_get d ip = Some l → P (ip, l) → after (filter P d) ip = filter P (after d ip).
Proof.
  induction d as [|[k l'] d IH]; cbn [dict_get after]; [done|].
  rewrite filter_cons. repeat case_decide; intros; simplify_eq; cbn;
    [by rewrite decide_True| |by rewrite decide_False by done; apply IH|by apply IH].
  done.
Qed.

Lemma after_drop j d ip l :
  dict_get d ip = Some l → (j + S (length (after d ip)) ≤ length d)%nat →
  dict_get (drop j d) ip = Some l ∧ after (drop j d) ip = after d ip.
Proof.
  revert d. induction j as [|j IH]; intros d Hg Hj; [done|].
  destruct d as [|[k l'] d]; [done|]. cbn in *.
  case_decide; simplify_eq; cbn in *; [lia|]. apply IH; [done|lia].
Qed.

Lemma lookup_filter_keep (P : K * V → Prop) `{!∀ x, Decision (P x)} d ip l :
  dict_wf d → dict_get d ip = Some l → P (ip, l) → dict_get (filter P d) ip = Some l.
Proof.
  intros Hd Hg HP. apply elem_dict_get.
  - eapply sublist_keys; [apply sublist_filter|done].
  - apply list_elem_of_filter. split; [done|]. by apply dict_get_Some_elem.
Qed.

Lemma sublist_list_to_set (d d' : list (K * V)) :
  sublist d' d → (list_to_set d'.*1 : gset K) ⊆ list_to_set d.*1.
Proof.
  intros Hs x. rewrite !elem_of_list_to_set, !list_elem_of_fmap.
  intros (y & ? & Hy). exists y. split; [done|]. by eapply elem_of_sublist.
Qed.

Lemma list_to_set_length (d : list (K * V)) :
  dict_wf d → length d = size (list_to_set d.*1 : gset K).
Proof. intros Hd. rewrite size_list_to_set by done. by rewrite length_fmap. Qed.

Record kept_at (X : gset K) (k : K) (v : V) (d : list (K * V)) : Prop := KeptAt {
  kept_get : dict_get d k = Some v;
  kept_after : list_to_set (after d k).*1 ⊆ X
}.

Lemma kept_at_mono X X' k v d : X ⊆ X' → kept_at X k v d → kept_at X' k v d.
Proof. intros HX [Hg Ha]. constructor; [done|set_solver]. Qed.

Lemma kept_at_purge X seen ttl now k v d :
  is_expired seen ttl now v = false → dict_wf d → kept_at X k v d →
  kept_at X k v (purge_expired seen ttl now d).
Proof.
  intros Hv Hd [Hg Ha]. unfold purge_expired. rewrite dict_purge_filter by done.
  constructor; [by apply lookup_filter_keep|].
  rewrite (after_filter _ _ _ v) by done. etrans; [|done].
  apply sublist_list_to_set, sublist_filter.
Qed.

Lemma kept_at_del X k k' v d : k ≠ k' → kept_at X k v d → kept_at X k v (dict_del d k').
Proof.
  intros Hne [Hg Ha]. constructor; [by rewrite dict_get_del_ne|].
  etrans; [|done]. by apply sublist_list_to_set, after_del.
Qed.

Lemma kept_at_snoc X k k' v v' d :
  k' ∈ X → kept_at X k v d → kept_at X k v (d ++ [(k', v')]).
Proof.
  intros Hin [Hg Ha]. constructor; [by rewrite dict_get_app, Hg|].
  rewrite (after_app _ _ _ v), fmap_app, list_to_set_app by done. cbn. set_solver.
Qed.

Lemma kept_at_last X k v d : dict_get d k = None → kept_at X k v (d ++ [(k, v)]).
Proof.
  intros Hn. constructor; [by rewrite dict_get_app, Hn; cbn; rewrite decide_True|].
  rewrite after_snoc_self by done. set_solver.
Qed.

Lemma kept_at_move X k k' v v' d :
  dict_wf d → kept_at X k v d → dict_get d k' = Some v' → k = k' ∨ k' ∈ X →
  kept_at X k v (move_to_end d k').
Proof.
  intros Hd Hk Hg' Hin. pose proof (kept_get _ _ _ _ Hk) as Hg.
  rewrite (move_to_end_snoc _ _ v') by done. destruct (decide (k = k')) as [<-|Hne].
  - simplify_eq. by apply kept_at_last, dict_get_del_eq.
  - destruct Hin as [|Hin]; [done|]. by apply kept_at_snoc, kept_at_del.
Qed.

Lemma after_length d k v :
  dict_get d k = Some v → (S (length (after d k)) ≤ length d)%nat.
Proof.
  induction d as [|[k' v'] d IH]; cbn; [done|]. case_decide; [lia|].
  intros Hg. specialize (IH Hg). lia.
Qed.

Lemma kept_at_push X n k k' v v' d :
  (1 ≤ n)%nat → dict_wf d → (length d ≤ n)%nat → kept_at X k v d →
  dict_get d k' = None → k' ∈ X → (size X < n)%nat →
  kept_at X k v (dict_set (popitem_while n d) k' v').
Proof.
  intros Hn Hd Hlen [Hg Ha] Hg' Hin Hsz.
  assert (Hl : (length (after d k) < size X)%nat).
  { pose proof (after_sub d k) as Hsub.
    rewrite list_to_set_length by (by eapply sublist_keys).
    apply subset_size. split; [done|]. intros Hc. specialize (Hc k' Hin).
    apply (sublist_list_to_set _ _ Hsub) in Hc. apply elem_of_list_to_set in Hc.
    by apply dict_get_None in Hg'. }
  pose proof (popitem_get_None n _ _ Hn Hg') as Hnone.
  rewrite dict_set_new by done. rewrite popitem_while_evict by done. unfold evict_to.
  pose proof (after_length d k v Hg).
  destruct (after_drop (S (length d) - n) d k v Hg) as [Hd1 Hd2]; [lia|].
  constructor; [by rewrite dict_get_app, Hd1|].
  rewrite (after_app _ _ _ v), Hd2, fmap_app, list_to_set_app by done. cbn. set_solver.
Qed.
End Survival.

(** ** The invariant of a bounded, stamped table *)
Section Table.
Context {K : Type} `{Countable K} {V : Type}.
Implicit Types (seen : V → Z) (t : Z) (d : list (K * V)).

Record lru_ok (n : nat) seen t d : Prop := LruOk {
  lru_ok_wf : dict_wf d;
  lru_ok_bound : (length d ≤ n)%nat;
  lru_ok_sorted : lru_sorted seen t d
}.

Lemma lru_ok_nil n seen t : lru_ok n seen t [].
Proof.
  constructor; [apply NoDup_nil_2|apply Nat.le_0_l|].
  split; [apply SSorted_nil|apply Forall_nil_2].
Qed.

Lemma lru_ok_sub n seen t d d' : sublist d' d → lru_ok n seen t d → lru_ok n seen t d'.
Proof.
  intros Hs []. constructor; [by eapply sublist_keys| |by eapply lru_sorted_sub].
  apply sublist_length in Hs. lia.
Qed.

Lemma lru_ok_mono n seen t t' d : t ≤ t' → lru_ok n seen t d → lru_ok n seen t' d.
Proof. intros ? []. constructor; [done..|]. by eapply lru_sorted_mono. Qed.

Lemma lru_ok_snoc n seen t d k v :
  lru_ok n seen t d → (length d < n)%nat → dict_get d k = None → seen v = t →
  lru_ok n seen t (d ++ [(k, v)]).
Proof.
  intros [] Hlen Hk Hv. constructor.
  - rewrite <-dict_set_new by done. by apply dict_set_wf.
  - rewrite length_app. cbn. lia.
  - by apply lru_sorted_snoc.
Qed.

Lemma lru_ok_push n seen t d k v :
  (1 ≤ n)%nat → lru_ok n seen t d → dict_get d k = None → seen v = t →
  lru_ok n seen t (dict_set (popitem_while n d) k v).
Proof.
  intros Hn Hd Hk Hv. pose proof (popitem_while_length n d Hn).
  rewrite dict_set_new by by apply popitem_get_None.
  apply lru_ok_snoc; [|lia|by apply popitem_get_None|done].
  eapply lru_ok_sub; [by apply sublist_popitem|done].
Qed.

Lemma lru_ok_del_snoc n seen t d k v0 v :
  lru_ok n seen t d → dict_get d k = Some v0 → seen v = t →
  lru_ok n seen t (dict_del d k ++ [(k, v)]).
Proof.
  intros Hd Hk Hv. pose proof (dict_del_length d k v0 Hk). pose proof (lru_ok_bound _ _ _ _ Hd).
  apply lru_ok_snoc; [|lia|apply dict_get_del_eq, (lru_ok_wf _ _ _ _ Hd)|done].
  eapply lru_ok_sub; [apply sublist_dict_del|done].
Qed.

Lemma refresh_snoc (f : V → V) d k v :
  dict_get d k = Some v →
  move_to_end (dict_alter f d k) k = dict_del d k ++ [(k, f v)].
Proof.
  intros Hk. rewrite (move_to_end_snoc _ _ (f v)).
  - by rewrite dict_del_alter.
  - by rewrite dict_get_alter, decide_True, Hk.
Qed.

Lemma lru_ok_refresh n seen t d k v f :
  lru_ok n seen t d → dict_get d k = Some v → seen (f v) = t →
  lru_ok n seen t (move_to_end (dict_alter f d k) k).
Proof.
  intros Hd Hk Hv. rewrite (refresh_snoc _ _ _ v) by done. by eapply lru_ok_del_snoc.
Qed.

Lemma dict_alter_elem (f : V → V) d k k' v' :
  (k', v') ∈ dict_alter f d k → (k', v') ∈ d ∨ ∃ v, (k', v) ∈ d ∧ v' = f v.
Proof.
  induction d as [|[k0 v0] d IH]; cbn; [auto|].
  case_decide; intros Hin; apply elem_of_cons in Hin as [[= -> ->]|Hin].
  - right. exists v0. split; [by left|done].
  - left. by right.
  - left. by left.
  - destruct (IH Hin) as [?|(v & ? & ?)]; [left; by right|].
    right. exists v. split; [by right|done].
Qed.

Lemma dict_del_snoc d k v : dict_get d k = None → dict_del (d ++ [(k, v)]) k = d.
Proof.
  induction d as [|[k0 v0] d IH]; cbn; [by rewrite decide_True|].
  case_decide; [done|]. intros. by rewrite IH.
Qed.
End Table.
