(* ===== verification/SessionManager.v ===== *)
(** * Per-IP sessions ([session_manager.py])

    The manager's dictionary maps an IP to a reference: the session object is
    shared by every connection of that IP and stays alive, through the
    connections that hold it, after the manager has dropped it.  [sm_heap] is
    the store of session objects, [sm_sessions] the ordered dictionary of
    references.  A clock reading is an integer number of ticks (the code's
    [float] seconds, compared and subtracted exactly); every operation reads
    the clock once, under the lock, so an operation is one atomic step at a
    time [now]. *)

From S2P Require Import Prelude OrdDict Path Vfs HoneypotTree Lru.

Definition DEFAULT_MAX_SESSIONS : Z := 500.
(** In ticks of one second. *)
Definition DEFAULT_TTL_SECONDS : Z := 3600.

Record ip_session := IpSession {
  s_vfs : vfs;
  s_llm_cache : list (str * str);
  s_last_seen : Z;
  s_cwd : str
}.

Record manager := Manager {
  sm_max : nat;
  sm_ttl : Z;
  sm_factory : vfs;                  (* what a call of the factory builds *)
  sm_sessions : list (str * nat);
  sm_heap : gmap nat ip_session;
  sm_next : nat                      (* the next unused reference *)
}.

(** [SessionManager(...)]. *)
Definition session_manager (max_sessions ttl_seconds : Z) (factory : vfs) : result manager :=
  if max_sessions <? 1 then Err (ValueError "max_sessions must be at least 1")
  else if ttl_seconds <? 0 then Err (ValueError "ttl_seconds must be non-negative")
  else Ok (Manager (Z.to_nat max_sessions) ttl_seconds factory [] ∅ 0).

Definition set_last_seen (now : Z) (s : ip_session) : ip_session :=
  IpSession (s_vfs s) (s_llm_cache s) now (s_cwd s).

Definition seen_at (h : gmap nat ip_session) (l : nat) : Z :=
  match h !! l with Some s => s_last_seen s | None => 0 end.

Definition with_sessions (d : list (str * nat)) (m : manager) : manager :=
  Manager (sm_max m) (sm_ttl m) (sm_factory m) d (sm_heap m) (sm_next m).
Definition with_heap (h : gmap nat ip_session) (m : manager) : manager :=
  Manager (sm_max m) (sm_ttl m) (sm_factory m) (sm_sessions m) h (sm_next m).

(** [__len__], [__contains__]. *)
Definition sessions_len (m : manager) : nat := length (sm_sessions m).
Definition sessions_contains (ip : str) (m : manager) : bool := dict_has (sm_sessions m) ip.

Definition _purge_expired_unlocked (now : Z) (m : manager) : manager :=
  with_sessions (purge_expired (seen_at (sm_heap m)) (sm_ttl m) now (sm_sessions m)) m.

(** [get_or_create]: the reference it returns and the manager after it. *)
Definition get_or_create (ip : str) (now : Z) (m0 : manager) : nat * manager :=
  let m := _purge_expired_unlocked now m0 in
  match dict_get (sm_sessions m) ip with
  | Some l =>
      (l, with_sessions (move_to_end (sm_sessions m) ip)
            (with_heap (alter (set_last_seen now) l (sm_heap m)) m))
  | None =>
      let d := popitem_while (sm_max m) (sm_sessions m) in
      let l := sm_next m in
      (l, Manager (sm_max m) (sm_ttl m) (sm_factory m) (dict_set d ip l)
            (<[l := IpSession (sm_factory m) [] now DEFAULT_HOME]> (sm_heap m)) (S l))
  end.

Definition touch_session (ip : str) (now : Z) (m : manager) : manager :=
  match dict_get (sm_sessions m) ip with
  | None => m
  | Some l =>
      with_sessions (move_to_end (sm_sessions m) ip)
        (with_heap (alter (set_last_seen now) l (sm_heap m)) m)
  end.

Definition sweep (now : Z) (m : manager) : Z * manager :=
  let m' := _purge_expired_unlocked now m in
  (Z.of_nat (sessions_len m) - Z.of_nat (sessions_len m'), m').

(** ** Histories *)

(** What the connections do: the manager's methods, and writes of a holder of
    a reference to the fields of its session. *)
Inductive sm_op :=
  | SmGet (ip : str)
  | SmTouch (ip : str)
  | SmSweep
  | SmUse (l : nat) (v : vfs) (cache : list (str * str)) (cwd : str).

Definition use_session (l : nat) (v : vfs) (cache : list (str * str)) (cwd : str)
    (m : manager) : manager :=
  with_heap (alter (λ s, IpSession v cache (s_last_seen s) cwd) l (sm_heap m)) m.

Definition sm_step (now : Z) (op : sm_op) (m : manager) : manager :=
  match op with
  | SmGet ip => (get_or_create ip now m).2
  | SmTouch ip => touch_session ip now m
  | SmSweep => (sweep now m).2
  | SmUse l v cache cwd => use_session l v cache cwd m
  end.

Fixpoint sm_run (ops : list (Z * sm_op)) (m : manager) : manager :=
  match ops with
  | [] => m
  | (now, op) :: ops' => sm_run ops' (sm_step now op m)
  end.

(** [sm_reachable m t]: a manager after a history that ends at time [t]. *)
Inductive sm_reachable : manager → Z → Prop :=
  | sm_init mx ttl f m t : session_manager mx ttl f = Ok m → sm_reachable m t
  | sm_next_step m t now op :
      sm_reachable m t → t ≤ now → sm_reachable (sm_step now op m) now.

(** ** The invariant *)

Record sm_ok (m : manager) (t : Z) : Prop := SmOk {
  ok_max : (1 ≤ sm_max m)%nat;
  ok_keys : dict_wf (sm_sessions m);
  ok_bound : (length (sm_sessions m) ≤ sm_max m)%nat;
  ok_locs : NoDup (sm_sessions m).*2;
  ok_live : ∀ ip l, (ip, l) ∈ sm_sessions m → is_Some (sm_heap m !! l);
  ok_fresh : ∀ l, is_Some (sm_heap m !! l) → (l < sm_next m)%nat;
  ok_sorted : lru_sorted (seen_at (sm_heap m)) t (sm_sessions m)
}.

Lemma seen_at_insert h l s l' :
  seen_at (<[l := s]> h) l' = if decide (l = l') then s_last_seen s else seen_at h l'.
Proof. unfold seen_at. by case_decide; subst; rewrite ?lookup_insert_eq, ?lookup_insert_ne. Qed.

Lemma seen_at_alter f h l l' :
  l ≠ l' → seen_at (alter f l h) l' = seen_at h l'.
Proof. intros. unfold seen_at. by rewrite lookup_alter_ne. Qed.

Lemma seen_at_refresh now h l :
  is_Some (h !! l) → seen_at (alter (set_last_seen now) l h) l = now.
Proof. intros [s Hs]. unfold seen_at. by rewrite lookup_alter, decide_True, Hs. Qed.

Lemma alter_live f h (l l' : nat) :
  is_Some (alter f l h !! l') ↔ is_Some ((h : gmap nat ip_session) !! l').
Proof. rewrite lookup_alter. case_decide; subst; [by rewrite fmap_is_Some|done]. Qed.

Lemma sublist_locs (d d' : list (str * nat)) : sublist d' d → NoDup d.*2 → NoDup d'.*2.
Proof.
  intros Hs. induction Hs as [|x l1 l2 Hs IH|x l1 l2 Hs IH]; cbn; [done|..];
    intros [Hx Hd]%NoDup_cons; [apply NoDup_cons; split; [|by apply IH]|by apply IH].
  intros [y [Hy Hin]]%list_elem_of_fmap. apply Hx, list_elem_of_fmap.
  exists y. split; [done|]. by eapply elem_of_sublist.
Qed.

Lemma loc_inj (d : list (str * nat)) ip ip' l :
  NoDup d.*2 → (ip, l) ∈ d → (ip', l) ∈ d → ip = ip'.
Proof.
  intros Hd [i Hi]%list_elem_of_lookup [j Hj]%list_elem_of_lookup.
  assert (i = j) as <-; [|by simplify_eq].
  by eapply NoDup_lookup; [done|rewrite list_lookup_fmap, Hi|rewrite list_lookup_fmap, Hj].
Qed.

(** Dropping entries keeps the invariant. *)
Lemma sm_ok_sub m t d :
  sublist d (sm_sessions m) → sm_ok m t → sm_ok (with_sessions d m) t.
Proof.
  intros Hs []. constructor; cbn; try done.
  - by eapply sublist_keys.
  - apply sublist_length in Hs. lia.
  - by eapply sublist_locs.
  - intros ip l Hin. eapply ok_live0, elem_of_sublist; done.
  - by eapply lru_sorted_sub.
Qed.

Lemma sm_ok_mono m t t' : t ≤ t' → sm_ok m t → sm_ok m t'.
Proof. intros ? []. constructor; try done. by eapply lru_sorted_mono. Qed.

Lemma sm_ok_purge m t now : sm_ok m t → sm_ok (_purge_expired_unlocked now m) t.
Proof. intros Hm. apply sm_ok_sub; [|done]. by apply sublist_purge, ok_keys with t. Qed.

Lemma dict_del_not_loc d ip l (ip' : str) (l' : nat) :
  dict_wf d → NoDup d.*2 → dict_get d ip = Some l → (ip', l') ∈ dict_del d ip → l ≠ l'.
Proof.
  intros Hk Hl Hg Hin <-. pose proof (dict_del_elem _ _ _ Hin) as Hin'.
  apply dict_get_Some_elem in Hg. assert (ip = ip') as <- by by eapply loc_inj.
  rewrite dict_del_filter in Hin by done. by apply list_elem_of_filter in Hin as [? _].
Qed.

(** Refreshing an entry keeps the invariant. *)
Lemma sm_ok_refresh m now ip l :
  sm_ok m now → dict_get (sm_sessions m) ip = Some l →
  sm_ok (with_sessions (move_to_end (sm_sessions m) ip)
           (with_heap (alter (set_last_seen now) l (sm_heap m)) m)) now.
Proof.
  intros [] Hg. pose proof (dict_get_Some_elem _ _ _ Hg) as Hin.
  constructor; cbn; try done.
  - by apply move_to_end_wf.
  - by rewrite move_to_end_length.
  - by rewrite (fmap_Permutation snd _ _ (move_to_end_perm _ _)).
  - intros ip' l' Hin'. rewrite (move_to_end_perm _ _) in Hin'.
    apply alter_live. by eapply ok_live0.
  - intros l' Hl'. apply ok_fresh0. by apply alter_live in Hl'.
  - eapply lru_sorted_move; [|done|apply seen_at_refresh; by eapply ok_live0].
    eapply lru_sorted_ext; [|by eapply lru_sorted_sub; [apply sublist_dict_del|]].
    intros [ip' l'] Hin'. cbn. symmetry. apply seen_at_alter.
    by eapply dict_del_not_loc.
Qed.

(** A fresh session, put last into a table with room, keeps the invariant. *)
Lemma sm_ok_create m now ip d s :
  sm_ok m now → sublist d (sm_sessions m) → (length d < sm_max m)%nat →
  dict_get d ip = None → s_last_seen s = now →
  sm_ok (Manager (sm_max m) (sm_ttl m) (sm_factory m) (dict_set d ip (sm_next m))
           (<[sm_next m := s]> (sm_heap m)) (S (sm_next m))) now.
Proof.
  intros Hm Hs Hlen Hg Hseen. destruct (sm_ok_sub m now d Hs Hm). destruct Hm.
  assert (Hne : ∀ ip' l', (ip', l') ∈ d → sm_next m ≠ l').
  { intros ip' l' Hin <-. apply ok_live0, ok_fresh0 in Hin. cbn in Hin. lia. }
  constructor; cbn in *; try done.
  - by apply dict_set_wf.
  - rewrite dict_set_new, length_app by done. cbn. lia.
  - rewrite dict_set_new, fmap_app by done. apply NoDup_app. split; [done|]. split.
    + intros l' [[ip' l0] [Hl0 Hin]]%list_elem_of_fmap Heq%list_elem_of_singleton.
      cbn in Hl0, Heq. subst l' l0.
      by eapply Hne.
    + apply NoDup_singleton.
  - intros ip' l'. rewrite dict_set_new by done.
    intros [Hin|[= -> ->]%list_elem_of_singleton]%elem_of_app.
    + rewrite lookup_insert_ne by by eapply Hne. by eapply ok_live0.
    + by rewrite lookup_insert_eq.
  - intros l'. destruct (decide (sm_next m = l')) as [<-|]; [lia|].
    rewrite lookup_insert_ne by done. intros ?%ok_fresh0. lia.
  - rewrite dict_set_new by done.
    apply lru_sorted_snoc; [|by rewrite seen_at_insert, decide_True].
    eapply lru_sorted_ext; [|done]. intros [ip' l'] Hin. cbn.
    rewrite seen_at_insert, decide_False; [done|]. by eapply Hne.
Qed.

Lemma sm_ok_step m t now op :
  sm_ok m t → t ≤ now → sm_ok (sm_step now op m) now.
Proof.
  intros Hm Ht. apply (sm_ok_mono _ _ now) in Hm; [|done].
  destruct op as [ip|ip| |l v cache cwd]; cbn.
  - unfold get_or_create. pose proof (sm_ok_purge m now now Hm) as Hp.
    set (m1 := _purge_expired_unlocked now m) in *.
    destruct (dict_get (sm_sessions m1) ip) as [l|] eqn:E; cbn.
    + by apply (sm_ok_refresh m1).
    + pose proof (ok_max _ _ Hp) as Hmax.
      pose proof (popitem_while_length (sm_max m1) (sm_sessions m1) Hmax) as Hlen.
      apply (sm_ok_create m1); [done|by apply sublist_popitem| |by apply popitem_get_None|done].
      eapply Nat.le_lt_trans; [exact Hlen|]. clear -Hmax. lia.
  - unfold touch_session. destruct (dict_get _ ip) eqn:E; [|done].
    by apply sm_ok_refresh.
  - by apply sm_ok_purge.
  - destruct Hm. constructor; cbn; try done.
    + intros ip' l' ?%ok_live0. by apply alter_live.
    + intros l' ?%alter_live. by apply ok_fresh0.
    + eapply lru_sorted_ext; [|done]. intros [ip' l'] _. cbn.
      unfold seen_at. rewrite lookup_alter. case_decide; subst; [|done].
      by destruct (_ !! l').
Qed.

Lemma sm_reachable_ok m t : sm_reachable m t → sm_ok m t.
Proof.
  induction 1 as [mx ttl f m t H|m t now op _ IH Ht]; [|by eapply sm_ok_step].
  unfold session_manager in H. destruct (mx <? 1) eqn:E; [done|].
  destruct (ttl <? 0); [done|]. injection H as <-.
  constructor; cbn; try (by constructor); try set_solver; try lia.
  - intros l [s Hs]. by rewrite lookup_empty in Hs.
  - split; constructor.
Qed.

(** ** Contents of a session *)

(** What a connection sees of its session. *)
Definition content (s : ip_session) : vfs * list (str * str) * str :=
  (s_vfs s, s_llm_cache s, s_cwd s).
Definition content_at (l : nat) (m : manager) : option (vfs * list (str * str) * str) :=
  content <$> sm_heap m !! l.

(** The last content that the holders of [l] wrote. *)
Fixpoint last_use (l : nat) (ops : list (Z * sm_op))
    (c : option (vfs * list (str * str) * str)) : option (vfs * list (str * str) * str) :=
  match ops with
  | [] => c
  | (_, SmUse l' v cache cwd) :: ops' =>
      last_use l ops' (if decide (l = l') then Some (v, cache, cwd) else c)
  | _ :: ops' => last_use l ops' c
  end.

Lemma content_refresh l l' now h :
  content <$> alter (set_last_seen now) l h !! l' = content <$> (h : gmap nat _) !! l'.
Proof. rewrite lookup_alter. case_decide; subst; [by destruct (_ !! l')|done]. Qed.

Lemma content_step l now op m t :
  sm_ok m t → is_Some (sm_heap m !! l) →
  content_at l (sm_step now op m) = last_use l [(now, op)] (content_at l m).
Proof.
  intros Hm Hl. unfold content_at. destruct op as [ip|ip| |l' v cache cwd]; cbn; [| |done|].
  - unfold get_or_create. case_match; cbn; [by rewrite content_refresh|].
    rewrite lookup_insert_ne; [done|]. apply (ok_fresh _ _ Hm) in Hl. lia.
  - unfold touch_session. case_match; cbn; [by rewrite content_refresh|done].
  - rewrite lookup_alter. destruct Hl as [s Hs]. rewrite Hs.
    repeat case_decide; subst; by rewrite ?Hs.
Qed.

Lemma live_step l now op m : is_Some (sm_heap m !! l) → is_Some (sm_heap (sm_step now op m) !! l).
Proof.
  intros Hl. destruct op as [ip|ip| |l' v cache cwd]; cbn; [| |done|].
  - unfold get_or_create. case_match; cbn; [by apply alter_live|].
    rewrite lookup_insert. by case_decide.
  - unfold touch_session. case_match; cbn; [by apply alter_live|done].
  - by apply alter_live.
Qed.

Lemma last_use_cons l now op ops c :
  last_use l ((now, op) :: ops) c = last_use l ops (last_use l [(now, op)] c).
Proof. by destruct op. Qed.

Lemma content_run l t ops t' m :
  sm_ok m t → timeline t ops t' → is_Some (sm_heap m !! l) →
  content_at l (sm_run ops m) = last_use l ops (content_at l m).
Proof.
  revert t m. induction ops as [|[now op] ops IH]; intros t m Hm Ht Hl; [done|].
  destruct Ht as [Ht Hts]. rewrite last_use_cons, <-(content_step l now op m t) by done.
  cbn [sm_run]. apply (IH now); [by eapply sm_ok_step|done|by apply live_step].
Qed.

(** ** Survival of a session in use *)

(** [ip] is mapped to [l], seen at [t] or later, and everything seen since is
    among [X]. *)
Record kept (X : gset str) (t : Z) (ip : str) (l : nat) (m : manager) : Prop := Kept {
  kept_in : kept_at X ip l (sm_sessions m);
  kept_seen : t ≤ seen_at (sm_heap m) l
}.

Lemma kept_purge X t ip l m now t0 :
  sm_ok m t0 → now - t ≤ sm_ttl m → kept X t ip l m →
  kept X t ip l (_purge_expired_unlocked now m).
Proof.
  intros Hm Hn [Hk Hs]. constructor; [|done]. apply kept_at_purge; [|by eapply ok_keys|done].
  unfold is_expired. apply Z.ltb_ge. lia.
Qed.

(** An IP is found and refreshed. *)
Lemma kept_refresh X t ip ip' l l' m now t0 :
  sm_ok m t0 → t ≤ now → kept X t ip l m → dict_get (sm_sessions m) ip' = Some l' →
  ip = ip' ∨ ip' ∈ X →
  kept X t ip l (with_sessions (move_to_end (sm_sessions m) ip')
    (with_heap (alter (set_last_seen now) l' (sm_heap m)) m)).
Proof.
  intros Hm Ht [Hk Hs] Hg' Hip. pose proof (ok_keys _ _ Hm) as Hw. constructor; cbn.
  - by eapply kept_at_move.
  - unfold seen_at in *. rewrite lookup_alter. case_decide; subst; [|done].
    apply kept_get, dict_get_Some_elem, (ok_live _ _ Hm) in Hk as [s Hl].
    rewrite Hl. cbn. lia.
Qed.

(** Another IP is created, with fewer than [sm_max] IPs in [X]. *)
Lemma kept_create X t ip ip' l m t0 s :
  sm_ok m t0 → kept X t ip l m → dict_get (sm_sessions m) ip' = None →
  ip' ∈ X → (size X < sm_max m)%nat →
  kept X t ip l (Manager (sm_max m) (sm_ttl m) (sm_factory m)
    (dict_set (popitem_while (sm_max m) (sm_sessions m)) ip' (sm_next m))
    (<[sm_next m := s]> (sm_heap m)) (S (sm_next m))).
Proof.
  intros Hm [Hk Hs] Hg' Hip Hsz. constructor; cbn.
  - apply kept_at_push; try done; [by eapply ok_max|by eapply ok_keys|by eapply ok_bound].
  - rewrite seen_at_insert, decide_False; [done|].
    apply kept_get, dict_get_Some_elem, (ok_live _ _ Hm), (ok_fresh _ _ Hm) in Hk. lia.
Qed.

(** The IPs other than [ip] that some operation of the history names. *)
Definition op_ips (op : sm_op) : gset str :=
  match op with SmGet ip | SmTouch ip => {[ ip ]} | _ => ∅ end.
Fixpoint history_ips (ops : list (Z * sm_op)) : gset str :=
  match ops with [] => ∅ | (_, op) :: ops' => op_ips op ∪ history_ips ops' end.
Definition others (ip : str) (ops : list (Z * sm_op)) : gset str :=
  history_ips ops ∖ {[ ip ]}.

Lemma step_config now op m :
  sm_max (sm_step now op m) = sm_max m ∧ sm_ttl (sm_step now op m) = sm_ttl m.
Proof.
  destruct op; cbn; [| |done..].
  - unfold get_or_create. by case_match.
  - unfold touch_session. by case_match.
Qed.

Lemma get_or_create_found X t ip l m now t0 :
  sm_ok m t0 → now - t ≤ sm_ttl m → kept X t ip l m → (get_or_create ip now m).1 = l.
Proof.
  intros Hm Hn Hk. destruct (kept_purge _ _ _ _ _ _ _ Hm Hn Hk) as [[Hg _] _].
  unfold get_or_create. by rewrite Hg.
Qed.

Lemma kept_step X t ip l now op m t0 :
  sm_ok m t0 → t ≤ now → t0 ≤ now → now - t ≤ sm_ttl m → kept X t ip l m →
  op_ips op ∖ {[ ip ]} ⊆ X →
  (size X < sm_max m)%nat → kept X t ip l (sm_step now op m).
Proof.
  intros Hm Ht Ht0 Hn Hk Hop Hsz. destruct op as [ip'|ip'| |l' v cache cwd]; cbn in *.
  - pose proof (sm_ok_purge m t0 now Hm) as Hp.
    pose proof (kept_purge _ _ _ _ _ _ _ Hm Hn Hk) as Hkp.
    unfold get_or_create. set (m1 := _purge_expired_unlocked now m) in *.
    destruct (dict_get (sm_sessions m1) ip') as [l'|] eqn:E; cbn [snd].
    + apply (kept_refresh X t ip ip' l l' m1 now t0); [done..|].
      destruct (decide (ip = ip')); [by left|right; set_solver].
    + apply (kept_create X t ip ip' l m1 t0); [done..| |done].
      assert (ip ≠ ip') by (intros <-; by rewrite (kept_get _ _ _ _ (kept_in _ _ _ _ _ Hkp)) in E).
      set_solver.
  - unfold touch_session. destruct (dict_get (sm_sessions m) ip') as [l'|] eqn:E; [|done].
    apply (kept_refresh X t ip ip' l l' m now t0); [done..|].
    destruct (decide (ip = ip')); [by left|right; set_solver].
  - by eapply kept_purge.
  - destruct Hk as [[Hg Ha] Hs]. constructor; cbn; [done|].
    unfold seen_at in *. rewrite lookup_alter. case_decide; subst; [|done].
    apply dict_get_Some_elem, (ok_live _ _ Hm) in Hg as [s Hl].
    rewrite Hl in *. done.
Qed.

Lemma kept_run X t ip l ops t0 t1 m :
  sm_ok m t0 → t ≤ t0 → timeline t0 ops t1 → t1 - t ≤ sm_ttl m → kept X t ip l m →
  others ip ops ⊆ X → (size X < sm_max m)%nat →
  kept X t ip l (sm_run ops m) ∧ ∃ t2, t2 ≤ t1 ∧ sm_ok (sm_run ops m) t2 ∧
    sm_ttl (sm_run ops m) = sm_ttl m.
Proof.
  revert t0 m. induction ops as [|[now op] ops IH]; intros t0 m Hm Ht Htl Hn Hk Hop Hsz.
  { split; [done|]. exists t0. done. }
  destruct Htl as [Hnow Htl]. destruct (step_config now op m) as [Emax Ettl].
  assert (Hle : now ≤ t1) by by eapply timeline_le.
  unfold others in *. cbn [history_ips] in Hop. cbn [sm_run].
  destruct (IH now (sm_step now op m)) as (Hkr & t2 & Ht2 & Hok & Et).
  - by eapply sm_ok_step.
  - lia.
  - done.
  - by rewrite Ettl.
  - eapply kept_step; [done|lia|done|lia|done|set_solver|done].
  - set_solver.
  - by rewrite Emax.
  - split; [done|]. exists t2. split; [done|]. split; [done|]. congruence.
Qed.

Lemma touch_kept m t0 t ip l :
  sm_ok m t0 → dict_get (sm_sessions m) ip = Some l → kept ∅ t ip l (touch_session ip t m).
Proof.
  intros Hm E. unfold touch_session. rewrite E. constructor; cbn [sm_sessions sm_heap with_sessions with_heap].
  - constructor; [rewrite dict_get_move_to_end; [done|]; apply (ok_keys _ _ Hm)|].
    rewrite (move_to_end_snoc _ _ l) by done. rewrite after_snoc_self; [done|].
    apply dict_get_del_eq, (ok_keys _ _ Hm).
  - rewrite seen_at_refresh; [done|]. by eapply (ok_live _ _ Hm), dict_get_Some_elem.
Qed.

Lemma get_or_create_kept m t0 t ip :
  sm_ok m t0 → t0 ≤ t →
  kept ∅ t ip (get_or_create ip t m).1 (get_or_create ip t m).2.
Proof.
  intros Hm Ht. pose proof (sm_ok_purge m t0 t Hm) as Hp. unfold get_or_create.
  set (m1 := _purge_expired_unlocked t m) in *.
  destruct (dict_get (sm_sessions m1) ip) as [l|] eqn:E; cbn [fst snd].
  - pose proof (touch_kept m1 t0 t ip l Hp E) as Hk. unfold touch_session in Hk. by rewrite E in Hk.
  - pose proof (ok_max _ _ Hp) as Hmax.
    pose proof (popitem_get_None (sm_max m1) _ _ Hmax E) as Hn.
    constructor; cbn [sm_sessions sm_heap]; rewrite ?dict_set_new by done.
    + constructor; [by rewrite dict_get_app, Hn; cbn; rewrite decide_True|].
      by rewrite after_snoc_self.
    + by rewrite seen_at_insert, decide_True.
Qed.

(** ** Theorems *)

(** After any history of operations with a clock that does not go back, the
    session table holds at most [max_sessions] entries, no IP twice, no session
    object under two IPs, only objects that exist, and is ordered by the time
    of last use. *)
Theorem session_table_invariant m t :
  sm_reachable m t →
  (length (sm_sessions m) ≤ sm_max m)%nat ∧ NoDup (sm_sessions m).*1 ∧
  NoDup (sm_sessions m).*2 ∧ (∀ ip l, (ip, l) ∈ sm_sessions m → is_Some (sm_heap m !! l)) ∧
  lru_sorted (seen_at (sm_heap m)) t (sm_sessions m).
Proof. intros []%sm_reachable_ok. done. Qed.

(** C21: A reconnecting client finds its session: after [get_or_create] at time
    [t], and any history of the other operations in which fewer than
    [max_sessions] other IPs occur, [get_or_create] of the same IP no later
    than [t + ttl_seconds] returns the same object, with exactly the
    filesystem, cache and directory that its holders wrote last: no operation
    on another session reaches it. *)
Theorem session_survives m0 t0 t ip l m ops t' m' :
  sm_reachable m0 t0 → t0 ≤ t → get_or_create ip t m0 = (l, m) →
  timeline t ops t' → t' - t ≤ sm_ttl m0 → (size (others ip ops) < sm_max m0)%nat →
  (sm_run ops m) = m' →
  (get_or_create ip t' m').1 = l ∧
  content_at l (get_or_create ip t' m').2 = last_use l ops (content_at l m).
Proof.
  intros Hr Ht Hget Htl Hn Hsz <-. apply sm_reachable_ok in Hr.
  destruct (step_config t (SmGet ip) m0) as [Emax Ettl].
  pose proof (sm_ok_step m0 t0 t (SmGet ip) Hr Ht) as Hm.
  pose proof (get_or_create_kept m0 t0 t ip Hr Ht) as Hk.
  cbn in Emax, Ettl, Hm. rewrite Hget in *. cbn in *.
  destruct (kept_run (others ip ops) t ip l ops t t' m) as (Hkr & t2 & Ht2 & Hok & Et);
    [done|lia|done|lia| |done|lia|].
  { destruct Hk as [[Hg Ha] Hs]. constructor; [|done]. constructor; [done|set_solver]. }
  split; [by eapply (get_or_create_found _ t); [done|lia|done]|].
  assert (Hl : is_Some (sm_heap m !! l)).
  { eapply ok_live; [done|]. apply dict_get_Some_elem. by eapply kept_get, kept_in. }
  assert (Hl' : is_Some (sm_heap (sm_run ops m) !! l)).
  { eapply ok_live; [done|]. by eapply dict_get_Some_elem, kept_get, kept_in. }
  rewrite <-(content_run l t ops t' m) by done.
  exact (content_step l t' (SmGet ip) (sm_run ops m) t2 Hok Hl').
Qed.

(** The entries of [m] that have not expired at [now], in order. *)
Definition live_entries (now : Z) (m : manager) : list (str * nat) :=
  filter (λ kv, now - seen_at (sm_heap m) kv.2 ≤ sm_ttl m) (sm_sessions m).

Lemma purge_live now m t :
  sm_ok m t → sm_sessions (_purge_expired_unlocked now m) = live_entries now m.
Proof.
  intros Hm. cbn. unfold purge_expired. rewrite dict_purge_filter by by eapply ok_keys.
  apply list_filter_iff. intros kv. unfold is_expired. rewrite Z.ltb_ge. done.
Qed.

Lemma live_get now m t ip :
  sm_ok m t →
  dict_get (live_entries now m) ip =
  match dict_get (sm_sessions m) ip with
  | Some l => if now - seen_at (sm_heap m) l <=? sm_ttl m then Some l else None
  | None => None
  end.
Proof.
  intros Hm. rewrite <-(purge_live now m t) by done. cbn. unfold purge_expired.
  rewrite dict_purge_get by by eapply ok_keys. destruct (dict_get _ ip) as [l|]; [|done].
  unfold is_expired. destruct (Z.ltb_spec (sm_ttl m) (now - seen_at (sm_heap m) l));
    destruct (Z.leb_spec (now - seen_at (sm_heap m) l) (sm_ttl m)); done || lia.
Qed.

(** An IP without an unexpired session gets a new object with the factory's
    filesystem, an empty cache and the home directory.  Expired sessions are
    dropped, and at most one unexpired one, only when the table is full of
    them, and then one that was seen no later than any that stays. *)
Theorem new_session_effect m0 t ip now l m :
  sm_reachable m0 t → t ≤ now → get_or_create ip now m0 = (l, m) →
  dict_get (live_entries now m0) ip = None →
  sm_heap m0 !! l = None ∧
  sm_heap m = <[l := IpSession (sm_factory m0) [] now DEFAULT_HOME]> (sm_heap m0) ∧
  ∃ dropped kept, live_entries now m0 = dropped ++ kept ∧
    sm_sessions m = kept ++ [(ip, l)] ∧ (length dropped ≤ 1)%nat ∧
    (dropped ≠ [] → length (live_entries now m0) = sm_max m0) ∧
    (∀ a b, a ∈ dropped → b ∈ kept →
       seen_at (sm_heap m0) a.2 ≤ seen_at (sm_heap m0) b.2).
Proof.
  intros Hr Ht Hget Hnone. apply sm_reachable_ok in Hr as Hm.
  pose proof (sm_ok_purge m0 t now Hm) as [Hmax Hk Hb _ _ _ Hs].
  unfold get_or_create in Hget. rewrite (purge_live now m0 t Hm) in *.
  cbn [sm_max sm_heap _purge_expired_unlocked with_sessions] in *.
  rewrite Hnone in Hget. injection Hget as <- <-. cbn [sm_heap sm_sessions sm_next].
  split; [|split; [done|]].
  { apply eq_None_not_Some. intros H%(ok_fresh _ _ Hm). lia. }
  pose proof (popitem_get_None (sm_max m0) _ _ Hmax Hnone) as Hn.
  rewrite dict_set_new by done. rewrite popitem_while_evict by done. unfold evict_to.
  set (d := live_entries now m0) in *. set (j := (S (length d) - sm_max m0)%nat).
  exists (take j d), (drop j d). rewrite take_drop. split; [done|]. split; [done|].
  split; [rewrite length_take; lia|]. split.
  - intros Hne. destruct (decide (j = 0%nat)) as [E|]; [by rewrite E in Hne|]. lia.
  - intros a b. apply (lru_sorted_app_le _ t). by rewrite take_drop.
Qed.

(** [sweep] removes exactly the sessions that were not seen for more than
    [ttl_seconds], keeps the others in order, returns how many it removed, and
    leaves the session objects themselves alone. *)
Theorem sweep_exact m t now n m' :
  sm_reachable m t → sweep now m = (n, m') →
  sm_sessions m' = live_entries now m ∧ sm_heap m' = sm_heap m ∧
  n = Z.of_nat (length (filter (λ kv, sm_ttl m < now - seen_at (sm_heap m) kv.2)
                          (sm_sessions m))).
Proof.
  intros Hr%sm_reachable_ok [= <- <-]. split; [by apply (purge_live now m t)|]. split; [done|].
  unfold sessions_len. rewrite (purge_live now m t) by done. unfold live_entries.
  induction (sm_sessions m) as [|kv d IH]; [done|]. rewrite !filter_cons.
  cbn [length]. repeat case_decide; cbn [length]; lia.
Qed.

(** ** Witnesses *)

Definition sample_vfs : vfs := vfs_init (_directory "" 493 []) DEFAULT_HOME.
Definition sample_manager : manager := Manager 2 10 sample_vfs [] ∅ 0.
Definition sample_ops : list (Z * sm_op) :=
  [(2, SmGet "10.0.0.2"); (3, SmUse 0 sample_vfs [] "/tmp"); (4, SmTouch "10.0.0.2");
   (11, SmSweep)].

Lemma sample_reachable t : sm_reachable sample_manager t.
Proof. by apply (sm_init 2 10 sample_vfs). Qed.

Lemma session_table_invariant_witness :
  let m := sm_run [(1, SmGet "10.0.0.1"); (2, SmGet "10.0.0.2"); (3, SmGet "10.0.0.3")]
             sample_manager in
  (length (sm_sessions m) ≤ 2)%nat ∧ NoDup (sm_sessions m).*1.
Proof.
  intros m. destruct (session_table_invariant m 3) as (H1 & H2 & _); [|done].
  apply (sm_next_step _ 2); [|lia]. apply (sm_next_step _ 1); [|lia].
  apply (sm_next_step _ 0); [|lia]. apply sample_reachable.
Defined.

Lemma session_survives_witness :
  let m := (get_or_create "10.0.0.1" 1 sample_manager).2 in
  (get_or_create "10.0.0.1" 11 (sm_run sample_ops m)).1 = 0%nat ∧
  content_at 0 (get_or_create "10.0.0.1" 11 (sm_run sample_ops m)).2 =
    Some (sample_vfs, [], lit "/tmp").
Proof.
  intros m. apply (session_survives sample_manager 0 1 "10.0.0.1" 0 m sample_ops 11).
  - apply sample_reachable.
  - lia.
  - reflexivity.
  - cbn. lia.
  - cbn. lia.
  - by vm_compute.
  - reflexivity.
Defined.

Lemma new_session_effect_witness :
  let m0 := sm_run [(1, SmGet "10.0.0.1"); (2, SmGet "10.0.0.2")] sample_manager in
  sm_heap m0 !! 2%nat = None ∧ length (live_entries 3 m0) = 2%nat.
Proof.
  intros m0. split; [|by vm_compute].
  apply (new_session_effect m0 2 "10.0.0.3" 3 2 (get_or_create "10.0.0.3" 3 m0).2).
  - apply (sm_next_step _ 1); [|lia]. apply (sm_next_step _ 0); [|lia]. apply sample_reachable.
  - lia.
  - reflexivity.
  - by vm_compute.
Defined.

Lemma sweep_exact_witness :
  let m0 := sm_run [(1, SmGet "10.0.0.1"); (7, SmGet "10.0.0.2")] sample_manager in
  sm_sessions (sweep 12 m0).2 = [(lit "10.0.0.2", 1%nat)] ∧ (sweep 12 m0).1 = 1.
Proof.
  intros m0. destruct (sweep_exact m0 7 12 1 (sweep 12 m0).2) as (H & _ & Hn).
  - apply (sm_next_step _ 1); [|lia]. apply (sm_next_step _ 0); [|lia]. apply sample_reachable.
  - by vm_compute.
  - split; [|by vm_compute]. by rewrite H; vm_compute.
Defined.

(** Bad settings are refused. *)
Example session_manager_errors :
  session_manager 0 10 sample_vfs = Err (ValueError "max_sessions must be at least 1") ∧
  session_manager 5 (-1) sample_vfs = Err (ValueError "ttl_seconds must be non-negative").
Proof. split; reflexivity. Qed.
