(* ===== verification/Auth.v ===== *)
(** * Login of the decoy account ([auth.py])

    [AuthManager] keeps two time-stamped LRU tables under one lock: the
    password pinned to each IP and the count of recent failures of each IP.
    Every method is one or two critical sections; [pin_section] and
    [decide_login] are those of [validate_login], and a history of concurrent
    calls is a sequence of critical sections ([am_op]) in the order in which
    they take the lock, each with its own reading of the clock (an integer
    number of ticks).  [secrets.choice] is the argument [rnd], the random index. *)

From S2P Require Import Prelude OrdDict Lru SessionManager.

Definition DEFAULT_WEAK_PASSWORDS : list str :=
  [lit "123456"; lit "admin"; lit "password"; lit "toor"; lit "root"; lit "ubuntu"].
Definition ALLOWED_USERNAME : str := "root".
(** In ticks of one second. *)
Definition TARPIT_SECONDS : Z := 2.
Definition DEFAULT_MAX_ATTEMPTS : Z := 3.
Definition DEFAULT_MAX_PINS : Z := 500.
Definition DEFAULT_PIN_TTL_SECONDS : Z := 3600.
Definition DEFAULT_ATTEMPT_TTL_SECONDS : Z := 300.

Record pin_record := PinRecord { p_password : str; p_last_seen : Z }.
Record attempt_record := AttemptRecord { a_count : Z; a_last_seen : Z }.

Record auth_manager := AuthManager {
  am_passwords : list str;
  am_tarpit : Z;
  am_max_attempts : Z;
  am_max_pins : nat;
  am_ttl : Z;
  am_attempt_ttl : Z;
  am_pins : list (str * pin_record);
  am_attempts : list (str * attempt_record)
}.

(** [AuthManager(...)]. *)
Definition auth_manager_init (passwords : list str)
    (tarpit max_attempts max_pins ttl attempt_ttl : Z) : result auth_manager :=
  if decide (passwords = []) then Err (ValueError "password list must not be empty")
  else if max_attempts <? 1 then Err (ValueError "max_attempts must be at least 1")
  else if max_pins <? 1 then Err (ValueError "max_pins must be at least 1")
  else if ttl <? 0 then Err (ValueError "ttl_seconds must be non-negative")
  else if attempt_ttl <? 0 then Err (ValueError "attempt_ttl_seconds must be non-negative")
  else Ok (AuthManager passwords tarpit max_attempts (Z.to_nat max_pins) ttl attempt_ttl [] []).

Definition with_pins (d : list (str * pin_record)) (m : auth_manager) : auth_manager :=
  AuthManager (am_passwords m) (am_tarpit m) (am_max_attempts m) (am_max_pins m)
    (am_ttl m) (am_attempt_ttl m) d (am_attempts m).
Definition with_attempts (d : list (str * attempt_record)) (m : auth_manager) : auth_manager :=
  AuthManager (am_passwords m) (am_tarpit m) (am_max_attempts m) (am_max_pins m)
    (am_ttl m) (am_attempt_ttl m) (am_pins m) d.

(** [__len__], [__contains__]. *)
Definition pins_len (m : auth_manager) : nat := length (am_pins m).
Definition pins_contains (ip : str) (m : auth_manager) : bool := dict_has (am_pins m) ip.

Definition purge_tables (now : Z) (m : auth_manager) : auth_manager :=
  with_attempts (purge_expired a_last_seen (am_attempt_ttl m) now (am_attempts m))
    (with_pins (purge_expired p_last_seen (am_ttl m) now (am_pins m)) m).

(** [secrets.choice(self._passwords)]. *)
Definition choice (rnd : nat) (l : list str) : str := nth (rnd mod length l) l [].

(** [get_or_pin_password]. *)
Definition get_or_pin_password (ip : str) (rnd : nat) (now : Z) (m0 : auth_manager) :
    str * auth_manager :=
  let m := purge_tables now m0 in
  match dict_get (am_pins m) ip with
  | Some pin =>
      (p_password pin,
       with_pins (move_to_end
         (dict_alter (λ p, PinRecord (p_password p) now) (am_pins m) ip) ip) m)
  | None =>
      let d := popitem_while (am_max_pins m) (am_pins m) in
      let password := choice rnd (am_passwords m) in
      (password, with_pins (dict_set d ip (PinRecord password now)) m)
  end.

(** [create_session]: [uuid] is what [uuid4().hex] returns. *)
Definition create_session (ip : str) (rnd : nat) (uuid : str) (now : Z) (m : auth_manager) :
    str * auth_manager :=
  (uuid, (get_or_pin_password ip rnd now m).2).

(** [release_session] ignores its argument. *)
Definition release_session (session_id : str) (m : auth_manager) : auth_manager := m.

Definition locked (m : auth_manager) (r : option attempt_record) : bool :=
  match r with Some r => am_max_attempts m <=? a_count r | None => false end.

Definition is_locked_out (ip : str) (now : Z) (m0 : auth_manager) : bool * auth_manager :=
  let m := purge_tables now m0 in
  (locked m (dict_get (am_attempts m) ip), m).

Definition _register_failure_unlocked (ip : str) (now : Z) (m : auth_manager) :
    Z * auth_manager :=
  let d :=
    match dict_get (am_attempts m) ip with
    | Some _ => am_attempts m
    | None => dict_set (popitem_while (am_max_pins m) (am_attempts m)) ip (AttemptRecord 0 now)
    end in
  let d := dict_alter (λ r, AttemptRecord (a_count r + 1) now) d ip in
  let d := move_to_end d ip in
  (match dict_get d ip with Some r => a_count r | None => 0 end, with_attempts d m).

(** [sweep]. *)
Definition auth_sweep (now : Z) (m : auth_manager) : Z * auth_manager :=
  let m' := purge_tables now m in
  (Z.of_nat (pins_len m) - Z.of_nat (pins_len m'), m').

(** [secrets.compare_digest] on strings: [None] is its [TypeError] on
    characters outside ASCII. *)
Definition is_ascii (s : str) : bool := forallb (λ c, (0 <=? c) && (c <? 128)) s.
Definition compare_digest (a b : str) : option bool :=
  if is_ascii a && is_ascii b then Some (bool_decide (a = b)) else None.

(** The second critical section of [validate_login]: the failure count, whether
    the limit is exceeded, whether the login is accepted. *)
Definition decide_login (ip : str) (success : bool) (now : Z) (m0 : auth_manager) :
    (Z * bool * bool) * auth_manager :=
  let m := purge_tables now m0 in
  let record := dict_get (am_attempts m) ip in
  if locked m record then
    ((match record with Some r => a_count r | None => am_max_attempts m end, true, false), m)
  else if success then ((0, false, true), with_attempts (dict_del (am_attempts m) ip) m)
  else
    let (n, m') := _register_failure_unlocked ip now m in
    ((n, am_max_attempts m <=? n, false), m').

(** What [validate_login] does to the world, in order. *)
Inductive auth_event :=
  | RecordAttempt (session_id client_ip username password : str) (success : bool)
      (attempt_count : Z) (limit_exceeded : bool)
  | TarpitSleep (seconds : Z).

(** The comparison of [validate_login], with the pin it looked up. *)
Definition password_matches (password pinned : str) : bool :=
  match compare_digest password pinned with Some b => b | None => false end.

(** The first critical section: the pin is looked up for [root] only. *)
Definition pin_section (ip username password : str) (rnd : nat) (now : Z) (m : auth_manager) :
    bool * auth_manager :=
  if decide (username = ALLOWED_USERNAME) then
    let (pinned, m') := get_or_pin_password ip rnd now m in
    (password_matches password pinned, m')
  else (false, m).

(** [validate_login], whose two critical sections run at [now1] and [now2]. *)
Definition validate_login (ip session_id username password : str) (rnd : nat)
    (now1 now2 : Z) (m : auth_manager) : result bool * list auth_event * auth_manager :=
  let (success, m1) := pin_section ip username password rnd now1 m in
  let '((count, limit_exceeded, accepted), m2) := decide_login ip success now2 m1 in
  if accepted then
    (Ok true, [RecordAttempt session_id ip username password true count false], m2)
  else
    (if limit_exceeded then Err (AuthAttemptLimitExceeded session_id) else Ok false,
     [RecordAttempt session_id ip username password false count limit_exceeded;
      TarpitSleep (am_tarpit m2)], m2).

(** ** Histories of critical sections *)
Inductive am_op :=
  | AmPin (ip : str) (rnd : nat)
  | AmDecide (ip : str) (success : bool)
  | AmIsLocked (ip : str)
  | AmSweep.

Definition am_step (now : Z) (op : am_op) (m : auth_manager) : auth_manager :=
  match op with
  | AmPin ip rnd => (get_or_pin_password ip rnd now m).2
  | AmDecide ip success => (decide_login ip success now m).2
  | AmIsLocked ip => (is_locked_out ip now m).2
  | AmSweep => (auth_sweep now m).2
  end.

Fixpoint am_run (ops : list (Z * am_op)) (m : auth_manager) : auth_manager :=
  match ops with
  | [] => m
  | (now, op) :: ops' => am_run ops' (am_step now op m)
  end.

Inductive am_reachable : auth_manager → Z → Prop :=
  | am_init pw tarpit ma mp ttl attl m t :
      auth_manager_init pw tarpit ma mp ttl attl = Ok m → am_reachable m t
  | am_next_step m t now op :
      am_reachable m t → t ≤ now → am_reachable (am_step now op m) now.

(** ** The invariant *)

Record am_ok (m : auth_manager) (t : Z) : Prop := AmOk {
  ok_passwords : am_passwords m ≠ [];
  ok_limit : 1 ≤ am_max_attempts m;
  ok_pins_max : (1 ≤ am_max_pins m)%nat;
  ok_pins : lru_ok (am_max_pins m) p_last_seen t (am_pins m);
  ok_attempts : lru_ok (am_max_pins m) a_last_seen t (am_attempts m);
  ok_choice : ∀ ip p, (ip, p) ∈ am_pins m → p_password p ∈ am_passwords m;
  ok_counts : ∀ ip r, (ip, r) ∈ am_attempts m → 1 ≤ a_count r ≤ am_max_attempts m
}.

Lemma choice_elem rnd l : l ≠ [] → choice rnd l ∈ l.
Proof.
  intros Hl. unfold choice. apply list_elem_of_In, nth_In, Nat.mod_upper_bound.
  by destruct l.
Qed.

Lemma am_ok_purge m t now : am_ok m t → am_ok (purge_tables now m) t.
Proof.
  intros []. assert (H1 := ok_pins0). assert (H2 := ok_attempts0).
  apply lru_ok_wf in H1, H2. constructor; cbn; try done.
  - eapply lru_ok_sub; [by apply sublist_purge|done].
  - eapply lru_ok_sub; [by apply sublist_purge|done].
  - intros ip p Hin. eapply ok_choice0, elem_of_sublist; [done|by apply sublist_purge].
  - intros ip p Hin. eapply ok_counts0, elem_of_sublist; [done|by apply sublist_purge].
Qed.

Lemma am_ok_mono m t t' : t ≤ t' → am_ok m t → am_ok m t'.
Proof. intros ? []. constructor; try done; by eapply lru_ok_mono. Qed.

Lemma am_ok_pin ip rnd now m : am_ok m now → am_ok (get_or_pin_password ip rnd now m).2 now.
Proof.
  intros Hm. unfold get_or_pin_password. pose proof (am_ok_purge m now now Hm) as [].
  set (m1 := purge_tables now m) in *. destruct (dict_get (am_pins m1) ip) as [pin|] eqn:E; cbn [snd].
  - constructor; try done; cbn -[m1].
    + by eapply lru_ok_refresh.
    + intros ip' p Hin. rewrite (move_to_end_perm _ _) in Hin.
      apply dict_alter_elem in Hin as [?|(v & Hv & ->)]; [by eapply ok_choice0|].
      cbn. by eapply ok_choice0.
  - constructor; try done; cbn -[m1].
    + by apply lru_ok_push.
    + intros ip' p Hin. apply dict_set_elem in Hin as [Hin|[= -> ->]].
      * eapply ok_choice0, popitem_while_elem; done.
      * cbn -[m1]. by apply choice_elem.
Qed.

(** The table and the count that a failure of [ip] leaves. *)
Definition failures_before (ip : str) (d : list (str * attempt_record)) : Z :=
  match dict_get d ip with Some r => a_count r | None => 0 end.

Lemma register_attempts ip now m :
  dict_wf (am_attempts m) → (1 ≤ am_max_pins m)%nat →
  let r := AttemptRecord (failures_before ip (am_attempts m) + 1) now in
  let d := match dict_get (am_attempts m) ip with
           | Some _ => dict_del (am_attempts m) ip
           | None => popitem_while (am_max_pins m) (am_attempts m)
           end in
  _register_failure_unlocked ip now m = (a_count r, with_attempts (d ++ [(ip, r)]) m).
Proof.
  intros Hd Hn r d. unfold _register_failure_unlocked. subst r d. unfold failures_before.
  destruct (dict_get (am_attempts m) ip) as [r0|] eqn:E.
  - rewrite (move_to_end_snoc _ _ (AttemptRecord (a_count r0 + 1) now))
      by (rewrite dict_get_alter, decide_True, E; done).
    rewrite dict_del_alter, dict_get_app, dict_get_del_eq by done.
    cbn. by rewrite decide_True.
  - pose proof (popitem_get_None (am_max_pins m) _ _ Hn E) as Hnone.
    rewrite dict_set_new by done.
    rewrite (move_to_end_snoc _ _ (AttemptRecord 1 now)).
    2:{ rewrite dict_get_alter, decide_True, dict_get_app, Hnone by done. cbn.
        by rewrite decide_True. }
    rewrite dict_del_alter, dict_get_app, dict_get_del_eq.
    2:{ rewrite <-dict_set_new by done. by apply dict_set_wf, popitem_while_wf. }
    rewrite dict_del_snoc by done. cbn. by rewrite decide_True.
Qed.

Lemma am_ok_register ip now m :
  am_ok m now → locked m (dict_get (am_attempts m) ip) = false →
  am_ok (_register_failure_unlocked ip now m).2 now.
Proof.
  intros Hm Hl. destruct Hm. assert (Hw := ok_attempts0). apply lru_ok_wf in Hw.
  rewrite register_attempts by done. cbn [snd]. constructor; try done; cbn.
  - destruct (dict_get (am_attempts m) ip) as [r|] eqn:E.
    + by eapply lru_ok_del_snoc.
    + rewrite <-dict_set_new by (by apply popitem_get_None). by apply lru_ok_push.
  - intros ip' r Hin. apply elem_of_app in Hin as [Hin|Hin].
    + destruct (dict_get (am_attempts m) ip) eqn:E.
      * eapply ok_counts0, dict_del_elem. done.
      * eapply ok_counts0, popitem_while_elem; done.
    + apply list_elem_of_singleton in Hin. injection Hin as -> ->. cbn.
      unfold failures_before, locked in *.
      destruct (dict_get (am_attempts m) ip) as [r|] eqn:E; [|lia].
      apply dict_get_Some_elem, ok_counts0 in E. lia.
Qed.

Lemma am_ok_step m t now op : am_ok m t → t ≤ now → am_ok (am_step now op m) now.
Proof.
  intros Hm Ht. apply (am_ok_mono _ _ now) in Hm; [|done].
  destruct op as [ip rnd|ip success|ip|]; cbn.
  - by apply am_ok_pin.
  - unfold decide_login. pose proof (am_ok_purge m now now Hm) as Hp.
    set (m1 := purge_tables now m) in *.
    destruct (locked m1 _) eqn:E; [done|]. destruct success; cbn [snd].
    + destruct Hp. constructor; try done; cbn -[m1].
      * eapply lru_ok_sub; [apply sublist_dict_del|done].
      * intros ip' r Hin%dict_del_elem. by eapply ok_counts0.
    + pose proof (am_ok_register ip now m1 Hp E) as H.
      by destruct (_register_failure_unlocked ip now m1).
  - by apply am_ok_purge.
  - by apply am_ok_purge.
Qed.

Lemma am_reachable_ok m t : am_reachable m t → am_ok m t.
Proof.
  induction 1 as [pw tarpit ma mp ttl attl m t H|m t now op _ IH Ht];
    [|by eapply am_ok_step].
  unfold auth_manager_init in H. case_decide; [done|].
  destruct (ma <? 1) eqn:E1; [done|]. destruct (mp <? 1) eqn:E2; [done|].
  destruct (ttl <? 0); [done|]. destruct (attl <? 0); [done|]. injection H as <-.
  constructor; cbn; try done; try lia; try apply lru_ok_nil; set_solver.
Qed.

(** ** One client's failures, as a specification

    The state of one IP is its record, if it has one; a record older than
    [ttl] counts as none. *)
Definition live (ttl now : Z) (st : option attempt_record) : option attempt_record :=
  match st with
  | Some r => if ttl <? now - a_last_seen r then None else Some r
  | None => None
  end.
Definition failures (st : option attempt_record) : Z :=
  match st with Some r => a_count r | None => 0 end.

Definition spec_decide (limit ttl now : Z) (success : bool) (st : option attempt_record) :
    option attempt_record :=
  let st := live ttl now st in
  if limit <=? failures st then st
  else if success then None
  else Some (AttemptRecord (failures st + 1) now).

(** The IPs other than [ip] that a history looks up. *)
Definition am_op_ips (op : am_op) : gset str :=
  match op with AmPin ip _ | AmDecide ip _ => {[ ip ]} | _ => ∅ end.
Fixpoint am_ips (ops : list (Z * am_op)) : gset str :=
  match ops with [] => ∅ | (_, op) :: ops' => am_op_ips op ∪ am_ips ops' end.
Definition am_others (ip : str) (ops : list (Z * am_op)) : gset str := am_ips ops ∖ {[ ip ]}.

(** The decisions of [ip] alone, with no table. *)
Definition spec_step (limit ttl : Z) (ip : str) (now : Z) (op : am_op)
    (st : option attempt_record) : option attempt_record :=
  match op with
  | AmDecide ip' success => if decide (ip = ip') then spec_decide limit ttl now success st else st
  | _ => st
  end.
Fixpoint spec_run (limit ttl : Z) (ip : str) (ops : list (Z * am_op))
    (st : option attempt_record) : option attempt_record :=
  match ops with
  | [] => st
  | (now, op) :: ops' => spec_run limit ttl ip ops' (spec_step limit ttl ip now op st)
  end.

(** [m] holds the record [st] of [ip], and what failed since is among [X]. *)
Definition holds (X : gset str) (ip : str) (t : Z) (st : option attempt_record)
    (m : auth_manager) : Prop :=
  (∃ r, st = Some r ∧ kept_at X ip r (am_attempts m)) ∨
  (dict_get (am_attempts m) ip = None ∧ live (am_attempt_ttl m) t st = None).

(** The same up to a record of [ip] that has expired but is still there. *)
Definition tracks (X : gset str) (ip : str) (t : Z) (st : option attempt_record)
    (m : auth_manager) : Prop :=
  (∃ r, st = Some r ∧ kept_at X ip r (am_attempts m)) ∨
  (live (am_attempt_ttl m) t (dict_get (am_attempts m) ip) = None ∧
   live (am_attempt_ttl m) t st = None).

Lemma holds_tracks X ip t st m : holds X ip t st m → tracks X ip t st m.
Proof. intros [?|[Hn ?]]; [by left|right]. by rewrite Hn. Qed.

Lemma live_mono ttl t t' st : t ≤ t' → live ttl t st = None → live ttl t' st = None.
Proof.
  intros Ht. destruct st as [r|]; [|done]. cbn. repeat case_match; try done. lia.
Qed.

Lemma holds_purge X ip t now st m :
  am_ok m t → t ≤ now → tracks X ip t st m → holds X ip now st (purge_tables now m).
Proof.
  intros Hm Ht. pose proof (lru_ok_wf _ _ _ _ (ok_attempts _ _ Hm)) as Hw.
  intros [(r & -> & Hk)|[Hn Hl]].
  - destruct (is_expired a_last_seen (am_attempt_ttl m) now r) eqn:E.
    + right. cbn. split; [|unfold is_expired in E; by rewrite E].
      unfold purge_expired. rewrite dict_purge_get by done.
      by rewrite (kept_get _ _ _ _ Hk), E.
    + left. exists r. split; [done|]. by apply kept_at_purge.
  - right. cbn. split; [|by eapply live_mono].
    apply (live_mono _ t now) in Hn; [|done].
    unfold purge_expired. rewrite dict_purge_get by done. unfold is_expired.
    destruct (dict_get (am_attempts m) ip) as [r|]; [|done]. cbn in Hn. by destruct (_ <? _).
Qed.

(** After a purge the table shows the live record. *)
Lemma holds_get X ip now st m :
  am_ok m now → holds X ip now st (purge_tables now m) →
  dict_get (am_attempts (purge_tables now m)) ip = live (am_attempt_ttl m) now st.
Proof.
  intros Hm. pose proof (lru_ok_wf _ _ _ _ (ok_attempts _ _ Hm)) as Hw.
  intros [(r & -> & Hk)|[Hn Hl]]; [|by rewrite Hn; cbn in Hl].
  rewrite (kept_get _ _ _ _ Hk). apply kept_get in Hk. cbn in Hk.
  unfold purge_expired in Hk. rewrite dict_purge_get in Hk by done.
  unfold is_expired in Hk. cbn.
  destruct (dict_get (am_attempts m) ip) as [r'|]; [|done].
  destruct (am_attempt_ttl m <? now - a_last_seen r') eqn:E; [done|].
  injection Hk as ->. by rewrite E.
Qed.

Lemma locked_failures m st : 1 ≤ am_max_attempts m →
  locked m st = (am_max_attempts m <=? failures st).
Proof. intros. destruct st; cbn; [done|]. symmetry. apply Z.leb_gt. lia. Qed.

(** A failure of another IP, with fewer than [max_pins] IPs in [X]. *)
Lemma holds_register_other X ip ip' now st m :
  am_ok m now → ip ≠ ip' → ip' ∈ X → (size X < am_max_pins m)%nat → holds X ip now st m →
  holds X ip now st (_register_failure_unlocked ip' now m).2.
Proof.
  intros Hm Hne Hin Hsz. destruct Hm. destruct ok_attempts0 as [Hw Hb _].
  rewrite register_attempts by done. cbn [snd].
  intros [(r & -> & Hk)|[Hn Hl]]; [left|right]; cbn.
  - exists r. split; [done|]. destruct (dict_get (am_attempts m) ip') as [r'|] eqn:E.
    + by apply kept_at_snoc, kept_at_del.
    + rewrite <-dict_set_new by by apply popitem_get_None. by apply kept_at_push.
  - split; [|done]. rewrite dict_get_app. cbn. rewrite decide_False by done.
    destruct (dict_get (am_attempts m) ip').
    + by rewrite dict_get_del_ne, Hn.
    + by rewrite popitem_get_None.
Qed.

Lemma holds_decide X ip ip' success now st m :
  am_ok m now → (ip = ip' ∨ ip' ∈ X) → (size X < am_max_pins m)%nat →
  holds X ip now st (purge_tables now m) →
  holds X ip now
    (spec_step (am_max_attempts m) (am_attempt_ttl m) ip now (AmDecide ip' success) st)
    (decide_login ip' success now m).2.
Proof.
  intros Hm Hin Hsz Hh. pose proof (am_ok_purge m now now Hm) as Hp. cbn [spec_step].
  unfold decide_login. set (m1 := purge_tables now m) in *.
  pose proof (lru_ok_wf _ _ _ _ (ok_attempts _ _ Hp)) as Hw.
  destruct (decide (ip = ip')) as [<-|Hne].
  - pose proof (holds_get X ip now st m Hm Hh) as Hg. fold m1 in Hg. rewrite Hg.
    rewrite locked_failures by apply Hp. unfold spec_decide. fold (am_max_attempts m1).
    change (am_max_attempts m) with (am_max_attempts m1).
    destruct (_ <=? failures _) eqn:El; cbn [snd].
    + destruct Hh as [(r & -> & Hk)|[Hn Hl]]; [left|by right; cbn in *; rewrite Hl].
      rewrite (kept_get _ _ _ _ Hk) in Hg. rewrite <-Hg. eauto.
    + destruct success; cbn [snd].
      * right. split; [by apply dict_get_del_eq|done].
      * rewrite register_attempts by apply Hp || done. left. eexists. split; [done|].
        cbn [snd with_attempts am_attempts]. unfold failures_before. rewrite Hg.
        apply kept_at_last.
        destruct (live _ _ _); [by apply dict_get_del_eq|].
        apply popitem_get_None; [by eapply ok_pins_max|done].
  - destruct Hin as [|Hin]; [done|].
    destruct (locked m1 _); [done|]. destruct success; cbn [snd].
    + destruct Hh as [(r & -> & Hk)|[Hn Hl]]; [left|right].
      * exists r. split; [done|]. by apply kept_at_del.
      * split; [|done]. cbn -[m1]. by rewrite dict_get_del_ne.
    + pose proof (holds_register_other X ip ip' now st m1 Hp Hne Hin Hsz Hh) as H.
      by destruct (_register_failure_unlocked ip' now m1).
Qed.

Lemma am_config now op m :
  let m' := am_step now op m in
  am_max_attempts m' = am_max_attempts m ∧ am_attempt_ttl m' = am_attempt_ttl m ∧
  am_max_pins m' = am_max_pins m ∧ am_ttl m' = am_ttl m ∧ am_passwords m' = am_passwords m.
Proof.
  destruct op as [ip rnd|ip success|ip|]; cbn; [| |done|done].
  - unfold get_or_pin_password. by case_match.
  - unfold decide_login, _register_failure_unlocked. by repeat case_match; simplify_eq/=.
Qed.

Lemma holds_step X ip now op st t m :
  am_ok m t → t ≤ now → am_op_ips op ∖ {[ ip ]} ⊆ X → (size X < am_max_pins m)%nat →
  tracks X ip t st m →
  holds X ip now (spec_step (am_max_attempts m) (am_attempt_ttl m) ip now op st)
    (am_step now op m).
Proof.
  intros Hm Ht Hx Hsz Hh. pose proof (holds_purge X ip t now st m Hm Ht Hh) as Hh'.
  apply (am_ok_mono _ _ now) in Hm; [|done]. destruct op as [ip' rnd|ip' success|ip'|].
  - cbn. unfold get_or_pin_password. case_match; exact Hh'.
  - apply (holds_decide X); [done| |done|done]. cbn in Hx.
    destruct (decide (ip = ip')); [by left|right; set_solver].
  - exact Hh'.
  - exact Hh'.
Qed.

Lemma holds_run X ip ops t t' st m :
  am_ok m t → timeline t ops t' → am_others ip ops ⊆ X → (size X < am_max_pins m)%nat →
  tracks X ip t st m →
  let m' := am_run ops m in
  holds X ip t' (spec_run (am_max_attempts m) (am_attempt_ttl m) ip ops st)
    (purge_tables t' m') ∧ am_ok m' t' ∧ am_attempt_ttl m' = am_attempt_ttl m ∧
  am_max_attempts m' = am_max_attempts m.
Proof.
  unfold am_others. revert t st m. induction ops as [|[now op] ops IH]; intros t st m Hm Ht Hx Hsz Hh.
  - split; [by apply (holds_purge X ip t)|]. split; [by eapply am_ok_mono|done].
  - destruct Ht as [Ht Htl]. destruct (am_config now op m) as (E1 & E2 & E3 & _).
    cbn [spec_run am_run am_ips] in *. rewrite <-E1, <-E2 at 1.
    destruct (IH now (spec_step (am_max_attempts m) (am_attempt_ttl m) ip now op st)
      (am_step now op m)) as (H1 & H2 & H3 & H4).
    + by eapply am_ok_step.
    + done.
    + set_solver.
    + by rewrite E3.
    + apply holds_tracks, (holds_step X ip now op st t); [done|done|set_solver|done|done].
    + split; [done|]. split; [done|]. split; congruence.
Qed.

Lemma purge_attempts_get m t now ip :
  am_ok m t →
  dict_get (am_attempts (purge_tables now m)) ip =
  live (am_attempt_ttl m) now (dict_get (am_attempts m) ip).
Proof.
  intros Hm. cbn. unfold purge_expired.
  rewrite dict_purge_get by apply (lru_ok_wf _ _ _ _ (ok_attempts _ _ Hm)).
  by destruct (dict_get (am_attempts m) ip).
Qed.

Lemma live_live ttl t t' st : t ≤ t' → live ttl t' (live ttl t st) = live ttl t' st.
Proof.
  intros Ht. destruct st as [r|]; [|done]. cbn. case_match; [|done].
  destruct (Z.ltb_spec ttl (t' - a_last_seen r)); [done|]. lia.
Qed.

Lemma spec_run_locked limit ttl ip ops t t' r :
  timeline t ops t' → t' - a_last_seen r ≤ ttl → limit ≤ a_count r →
  spec_run limit ttl ip ops (Some r) = Some r.
Proof.
  revert t. induction ops as [|[now op] ops IH]; intros t Ht Hl Hc; [done|].
  destruct Ht as [Ht Htl]. cbn.
  assert (Hle : now ≤ t') by by eapply timeline_le.
  assert (E : spec_step limit ttl ip now op (Some r) = Some r);
    [|by rewrite E; apply (IH now)].
  destruct op as [|ip' success| |]; cbn; [done| |done..].
  case_decide; [|done]. unfold spec_decide. cbn.
  destruct (Z.ltb_spec ttl (now - a_last_seen r)); [lia|]. cbn.
  by rewrite (proj2 (Z.leb_le limit (a_count r))).
Qed.

(** Where the pin section leaves the manager. *)
Lemma pin_section_run ip u pw rnd now m :
  (pin_section ip u pw rnd now m).2 =
  am_run (if decide (u = ALLOWED_USERNAME) then [(now, AmPin ip rnd)] else []) m.
Proof.
  unfold pin_section. case_decide; [|done]. cbn. by destruct (get_or_pin_password ip rnd now m).
Qed.

Lemma am_ok_run ops t t' m : am_ok m t → timeline t ops t' → am_ok (am_run ops m) t'.
Proof.
  revert t m. induction ops as [|[now op] ops IH]; intros t m Hm; cbn.
  - intros. by eapply am_ok_mono.
  - intros [Ht Htl]. eapply IH; [|done]. by eapply am_ok_step.
Qed.

Lemma am_run_app ops ops' m : am_run (ops ++ ops') m = am_run ops' (am_run ops m).
Proof. revert m. induction ops as [|[now op] ops IH]; intros m; cbn; [done|apply IH]. Qed.

Lemma password_matches_iff pw pinned :
  password_matches pw pinned = true ↔ pw = pinned ∧ is_ascii pw = true.
Proof.
  unfold password_matches, compare_digest. destruct (is_ascii pw) eqn:E; cbn.
  - destruct (is_ascii pinned) eqn:E'; [rewrite bool_decide_eq_true; tauto|].
    split; [done|]. intros [<- _]. congruence.
  - split; [done|]. by intros [_ ?].
Qed.

Lemma pin_section_spec ip u pw rnd t now now2 m success m1 :
  am_ok m t → t ≤ now → now ≤ now2 → pin_section ip u pw rnd now m = (success, m1) →
  (success = true ↔ u = ALLOWED_USERNAME ∧ pw = (get_or_pin_password ip rnd now m).1 ∧
                    is_ascii pw = true) ∧
  am_ok m1 now ∧ am_max_attempts m1 = am_max_attempts m ∧
  am_attempt_ttl m1 = am_attempt_ttl m ∧ am_tarpit m1 = am_tarpit m ∧
  live (am_attempt_ttl m) now2 (dict_get (am_attempts m1) ip) =
  live (am_attempt_ttl m) now2 (dict_get (am_attempts m) ip).
Proof.
  intros Hm Ht Hn E. unfold pin_section in E. case_decide as Hu.
  - pose proof (am_ok_step m t now (AmPin ip rnd) Hm Ht) as Hm1.
    pose proof (am_config now (AmPin ip rnd) m) as (E1 & E2 & _). cbn in Hm1, E1, E2.
    assert (Ha : am_attempts (get_or_pin_password ip rnd now m).2 =
                 am_attempts (purge_tables now m) ∧
                 am_tarpit (get_or_pin_password ip rnd now m).2 = am_tarpit m).
    { unfold get_or_pin_password.
      by destruct (dict_get (am_pins (purge_tables now m)) ip). }
    destruct (get_or_pin_password ip rnd now m) as [pinned m2]. injection E as <- <-.
    cbn [fst snd] in *. destruct Ha as [Ha Hta]. rewrite password_matches_iff.
    split; [tauto|]. do 4 (split; [done|]).
    by rewrite Ha, (purge_attempts_get m t), live_live.
  - injection E as <- <-. split; [split; [done|tauto]|]. split; [by eapply am_ok_mono|done].
Qed.

Lemma decide_login_spec ip success now m :
  am_ok m now →
  let n := failures (live (am_attempt_ttl m) now (dict_get (am_attempts m) ip)) in
  let (res, m') := decide_login ip success now m in
  res = (if am_max_attempts m <=? n then (n, true, false)
         else if success then (0, false, true)
         else (n + 1, am_max_attempts m <=? n + 1, false)) ∧
  failures (dict_get (am_attempts m') ip) =
    (if am_max_attempts m <=? n then n else if success then 0 else n + 1) ∧
  am_tarpit m' = am_tarpit m ∧
  (res.2 = true → dict_get (am_attempts m') ip = None).
Proof.
  intros Hm n. pose proof (am_ok_purge m now now Hm) as Hp.
  pose proof (purge_attempts_get m now now ip Hm) as Hg. unfold decide_login.
  set (m1 := purge_tables now m) in *. rewrite Hg, locked_failures by apply Hp.
  change (am_max_attempts m1) with (am_max_attempts m). fold n.
  pose proof (lru_ok_wf _ _ _ _ (ok_attempts _ _ Hp)) as Hw.
  destruct (am_max_attempts m <=? n) eqn:El.
  - split; [|split; [by rewrite Hg|done]]. subst n. destruct (live _ _ _); [done|].
    cbn in El. pose proof (ok_limit _ _ Hm). lia.
  - destruct success.
    + cbn -[m1]. by rewrite dict_get_del_eq.
    + rewrite register_attempts by apply Hp || done. cbn -[m1].
      unfold failures_before. rewrite Hg. fold (failures (live (am_attempt_ttl m) now
        (dict_get (am_attempts m) ip))). fold n. split; [done|]. split; [|done].
      rewrite dict_get_app. destruct (live _ _ _) eqn:E2.
      * rewrite dict_get_del_eq by done. cbn. by rewrite decide_True.
      * rewrite popitem_get_None; [|by eapply ok_pins_max|done]. cbn. by rewrite decide_True.
Qed.

Lemma live_fresh ttl now r :
  now - a_last_seen r ≤ ttl → live ttl now (Some r) = Some r.
Proof. intros. cbn. destruct (Z.ltb_spec ttl (now - a_last_seen r)); [lia|done]. Qed.

(** The failure of a client that is not locked out registers it now. *)
Lemma registered_kept ip t m :
  am_ok m t → (is_locked_out ip t m).1 = false →
  let '((c, limit, _), m') := decide_login ip false t m in
  (limit = true → am_max_attempts m ≤ c) ∧
  kept_at ∅ ip (AttemptRecord c t) (am_attempts m').
Proof.
  intros Hm Hl. pose proof (am_ok_purge m t t Hm) as Hp. unfold is_locked_out in Hl.
  cbn [fst] in Hl. unfold decide_login. rewrite Hl. set (m1 := purge_tables t m) in *.
  pose proof (lru_ok_wf _ _ _ _ (ok_attempts _ _ Hp)) as Hw.
  rewrite register_attempts by apply Hp || done. cbn -[m1].
  split; [by intros ?%Z.leb_le|]. apply kept_at_last.
  destruct (dict_get (am_attempts m1) ip) eqn:E; [by apply dict_get_del_eq|].
  apply popitem_get_None; [by eapply ok_pins_max|done].
Qed.

(** [ip] is pinned to [pw] since [t], and what was pinned since is among [X]. *)
Definition pinned_since (X : gset str) (t : Z) (ip pw : str) (m : auth_manager) : Prop :=
  ∃ s, t ≤ s ∧ kept_at X ip (PinRecord pw s) (am_pins m).

Lemma pinned_purge X t t0 ip pw now m :
  am_ok m t0 → now - t ≤ am_ttl m → pinned_since X t ip pw m →
  pinned_since X t ip pw (purge_tables now m).
Proof.
  intros Hm Hn (s & Hs & Hk). exists s. split; [done|]. cbn. apply kept_at_purge; [| |done].
  - unfold is_expired. cbn. apply Z.ltb_ge. lia.
  - apply (lru_ok_wf _ _ _ _ (ok_pins _ _ Hm)).
Qed.

Lemma pins_untouched now op m :
  match op with AmPin _ _ => True | _ => am_pins (am_step now op m) = am_pins (purge_tables now m) end.
Proof.
  destruct op as [|ip success| |]; [done| |done|done]. cbn.
  unfold decide_login, _register_failure_unlocked. repeat case_match; by simplify_eq/=.
Qed.

Lemma pinned_step X t t0 ip pw now op m :
  am_ok m t0 → t ≤ now → t0 ≤ now → now - t ≤ am_ttl m → am_op_ips op ∖ {[ ip ]} ⊆ X →
  (size X < am_max_pins m)%nat → pinned_since X t ip pw m →
  pinned_since X t ip pw (am_step now op m).
Proof.
  intros Hm Ht Ht0 Hn Hx Hsz Hk. pose proof (pinned_purge X t t0 ip pw now m Hm Hn Hk) as Hkp.
  pose proof (pins_untouched now op m) as Hop.
  destruct op as [ip' rnd| | |]; [|unfold pinned_since; rewrite Hop; exact Hkp..].
  clear Hop. pose proof (am_ok_purge m t0 now Hm) as Hp. cbn [am_step am_op_ips] in *.
  unfold get_or_pin_password. set (m1 := purge_tables now m) in *.
  pose proof (lru_ok_wf _ _ _ _ (ok_pins _ _ Hp)) as Hw. destruct Hkp as (s & Hs & Hkp).
  destruct (dict_get (am_pins m1) ip') as [pin|] eqn:E; cbn [snd].
  - unfold pinned_since. cbn -[m1]. rewrite (refresh_snoc _ _ _ pin) by done.
    destruct (decide (ip = ip')) as [<-|Hne].
    + exists now. split; [done|]. rewrite (kept_get _ _ _ _ Hkp) in E. injection E as <-.
      by eapply kept_at_last, dict_get_del_eq.
    + exists s. split; [done|]. apply kept_at_snoc; [set_solver|]. by apply kept_at_del.
  - exists s. split; [done|]. cbn -[m1].
    assert (ip ≠ ip') by (intros <-; by rewrite (kept_get _ _ _ _ Hkp) in E).
    apply kept_at_push; try done; [by eapply ok_pins_max| |set_solver].
    apply (lru_ok_bound _ _ _ _ (ok_pins _ _ Hp)).
Qed.

Lemma pinned_run X t t0 ip pw ops t1 m :
  am_ok m t0 → t ≤ t0 → timeline t0 ops t1 → t1 - t ≤ am_ttl m → am_others ip ops ⊆ X →
  (size X < am_max_pins m)%nat → pinned_since X t ip pw m →
  pinned_since X t ip pw (am_run ops m) ∧ am_ttl (am_run ops m) = am_ttl m.
Proof.
  unfold am_others. revert t0 m.
  induction ops as [|[now op] ops IH]; intros t0 m Hm Ht Htl Hn Hx Hsz Hk; [done|].
  destruct Htl as [Hnow Htl]. pose proof (timeline_le _ _ _ Htl).
  destruct (am_config now op m) as (_ & _ & E3 & E4 & _). cbn [am_run am_ips] in *.
  rewrite <-E4. apply (IH now); rewrite ?E3, ?E4; [by eapply am_ok_step|lia|done|done|set_solver|done|].
  apply (pinned_step X t t0); [done|lia|done|lia|set_solver|done|done].
Qed.

Lemma pin_created t0 t ip rnd m :
  am_ok m t0 → t0 ≤ t →
  let (pw, m') := get_or_pin_password ip rnd t m in pinned_since ∅ t ip pw m'.
Proof.
  intros Hm Ht. pose proof (am_ok_purge m t0 t Hm) as Hp. unfold get_or_pin_password.
  set (m1 := purge_tables t m) in *. pose proof (lru_ok_wf _ _ _ _ (ok_pins _ _ Hp)) as Hw.
  destruct (dict_get (am_pins m1) ip) as [pin|] eqn:E; exists t; (split; [done|]); cbn -[m1].
  - rewrite (refresh_snoc _ _ _ pin) by done. by apply kept_at_last, dict_get_del_eq.
  - pose proof (popitem_get_None (am_max_pins m1) _ _ (ok_pins_max _ _ Hp) E).
    rewrite dict_set_new by done. by apply kept_at_last.
Qed.

(** The failure that reaches the limit at [t] is still on record at [now1]. *)
Lemma lock_kept m0 t ip c m ops now1 :
  am_ok m0 t → (is_locked_out ip t m0).1 = false → decide_login ip false t m0 = ((c, true, false), m) →
  timeline t ops now1 → now1 - t ≤ am_attempt_ttl m0 → (size (am_others ip ops) < am_max_pins m0)%nat →
  let m' := am_run ops m in
  am_ok m' now1 ∧ am_max_attempts m0 ≤ c ∧ am_max_attempts m' = am_max_attempts m0 ∧
  am_attempt_ttl m' = am_attempt_ttl m0 ∧
  live (am_attempt_ttl m0) now1 (dict_get (am_attempts m') ip) = Some (AttemptRecord c t).
Proof.
  intros Hr Hnl Hd Htl Hwin Hsz m'.
  pose proof (am_ok_step m0 t t (AmDecide ip false) Hr ltac:(lia)) as Hm.
  destruct (am_config t (AmDecide ip false) m0) as (Ema & Eat & Emp & _).
  pose proof (registered_kept ip t m0 Hr Hnl) as Hk.
  cbn [am_step] in *. rewrite Hd in *. cbn [snd fst] in *. destruct Hk as [Hc Hk].
  specialize (Hc eq_refl).
  destruct (holds_run (am_others ip ops) ip ops t now1 (Some (AttemptRecord c t)) m)
    as (Hh & Hok & Et & Em); [done..|by rewrite Emp| |].
  { left. eexists. split; [done|]. by eapply kept_at_mono; [|done]. }
  rewrite (spec_run_locked _ _ _ _ t now1) in Hh by (done || (cbn; lia)).
  pose proof (holds_get _ _ _ _ _ Hok Hh) as Hg. rewrite (purge_attempts_get _ now1) in Hg by done.
  fold m' in Hok, Et, Em, Hg. rewrite Et, Eat, live_fresh in Hg by (cbn; lia).
  split; [done|]. split; [done|]. split; [congruence|]. split; [congruence|done].
Qed.

(** Then the client is locked out. *)
Lemma locked_out_until m0 t ip c m ops now1 :
  am_ok m0 t → (is_locked_out ip t m0).1 = false → decide_login ip false t m0 = ((c, true, false), m) →
  timeline t ops now1 → now1 - t ≤ am_attempt_ttl m0 → (size (am_others ip ops) < am_max_pins m0)%nat →
  (is_locked_out ip now1 (am_run ops m)).1 = true.
Proof.
  intros Hr Hnl Hd Htl Hwin Hsz.
  destruct (lock_kept m0 t ip c m ops now1 Hr Hnl Hd Htl Hwin Hsz) as (Hok & Hc & Em & Et & Hg).
  unfold is_locked_out. cbn [fst]. rewrite (purge_attempts_get _ now1), Et, Hg by done. unfold locked.
  change (am_max_attempts (purge_tables now1 (am_run ops m))) with (am_max_attempts (am_run ops m)).
  rewrite Em. by apply Z.leb_le.
Qed.

(** ** Theorems *)

(** After any history of concurrent critical sections both tables hold at
    most [max_pins] IPs, none twice, in order of last use; every pinned
    password is one of the configured ones; every failure count is between 1
    and [max_attempts]. *)
Theorem auth_tables_invariant m t :
  am_reachable m t →
  lru_ok (am_max_pins m) p_last_seen t (am_pins m) ∧
  lru_ok (am_max_pins m) a_last_seen t (am_attempts m) ∧
  (∀ ip p, (ip, p) ∈ am_pins m → p_password p ∈ am_passwords m) ∧
  (∀ ip r, (ip, r) ∈ am_attempts m → 1 ≤ a_count r ≤ am_max_attempts m).
Proof. intros []%am_reachable_ok. done. Qed.

(** C35: The failures of a client are counted as if it were alone: while fewer
    than [max_pins] other IPs show up, the record that the table holds for the
    IP is the one that its own logins produce, whatever the interleaving with
    those of other clients, sweeps and lookups. *)
Theorem attempts_refine m t ip ops t' :
  am_reachable m t → live (am_attempt_ttl m) t (dict_get (am_attempts m) ip) = None →
  timeline t ops t' → (size (am_others ip ops) < am_max_pins m)%nat →
  live (am_attempt_ttl m) t' (dict_get (am_attempts (am_run ops m)) ip) =
  live (am_attempt_ttl m) t' (spec_run (am_max_attempts m) (am_attempt_ttl m) ip ops None).
Proof.
  intros Hr%am_reachable_ok Hl Ht Hsz.
  destruct (holds_run (am_others ip ops) ip ops t t' None m) as (Hh & Hm' & Et & Em);
    [done..|by right|].
  pose proof (holds_get _ _ _ _ _ Hm' Hh) as Hg. rewrite Et in Hg. rewrite <-Hg. cbn.
  unfold purge_expired. rewrite dict_purge_get by apply (lru_ok_wf _ _ _ _ (ok_attempts _ _ Hm')).
  rewrite Et. by destruct (dict_get (am_attempts (am_run ops m)) ip).
Qed.

(** C13: A login is accepted exactly for [root] with the password pinned to the
    IP (both ASCII), unless the IP has reached its limit of failures; then its
    record is erased and nothing delays the client.  Otherwise the attempt is
    recorded with the count of failures, one more unless the IP was locked
    already, the client waits in the tarpit, and the answer is [False] below
    the limit and the exception that closes the connection from it on. *)
Theorem login_decision m t ip sid user pw rnd now1 now2 r events m' :
  am_reachable m t → t ≤ now1 → now1 ≤ now2 →
  validate_login ip sid user pw rnd now1 now2 m = (r, events, m') →
  let pinned := (get_or_pin_password ip rnd now1 m).1 in
  let n := failures (live (am_attempt_ttl m) now2 (dict_get (am_attempts m) ip)) in
  let n' := if am_max_attempts m <=? n then n else n + 1 in
  if decide (user = ALLOWED_USERNAME ∧ pw = pinned ∧ is_ascii pw = true ∧
             n < am_max_attempts m)
  then r = Ok true ∧ events = [RecordAttempt sid ip user pw true 0 false] ∧
       dict_get (am_attempts m') ip = None
  else r = (if am_max_attempts m <=? n' then Err (AuthAttemptLimitExceeded sid) else Ok false) ∧
       events = [RecordAttempt sid ip user pw false n' (am_max_attempts m <=? n');
                 TarpitSleep (am_tarpit m)] ∧
       failures (dict_get (am_attempts m') ip) = n'.
Proof.
  intros Hr%am_reachable_ok Ht1 Ht2 Hv pinned n n'. unfold validate_login in Hv.
  destruct (pin_section ip user pw rnd now1 m) as [success m1] eqn:E.
  destruct (pin_section_spec _ _ _ _ _ _ now2 _ _ _ Hr Ht1 Ht2 E)
    as (Hs & Hm1 & Em & Ea & Et & Hg). fold pinned in Hs.
  pose proof (decide_login_spec ip success now2 m1 (am_ok_mono _ _ _ Ht2 Hm1)) as Hd.
  rewrite Em, Ea, Hg in Hd. fold n in Hd.
  destruct (decide_login ip success now2 m1) as [[[count limit] accepted] m2].
  destruct Hd as (Hres & Hf & Et2 & Hdel). rewrite Et in Et2.
  pose proof (Z.leb_le (am_max_attempts m) n) as Hle. subst n'.
  case_decide as Hacc.
  - destruct Hacc as (Hu & Hpw & Hasc & Hlim). destruct success; [|by discriminate (proj2 Hs)].
    destruct (am_max_attempts m <=? n); [lia|]. injection Hres as -> -> ->.
    injection Hv as <- <- <-. auto.
  - destruct (am_max_attempts m <=? n) eqn:El.
    + injection Hres as -> -> ->. injection Hv as <- <- <-. by rewrite El, Et2.
    + destruct success.
      { destruct Hacc, (proj1 Hs eq_refl) as (? & ? & ?). split_and!; [done..|lia]. }
      injection Hres as -> -> ->. injection Hv as <- <- <-. by rewrite Et2.
Qed.

(** C23: A lockout holds: after the failure that reaches the limit at time [t],
    every login of that IP until [t + attempt_ttl_seconds] is answered with the
    exception, the right password included, whatever other clients do in
    between, as long as fewer than [max_pins] other IPs show up: with more, the
    table evicts the record of the failures and the lockout ends early. *)
Theorem lockout_holds m0 t0 t ip c m ops sid user pw rnd now1 now2 :
  am_reachable m0 t0 → t0 ≤ t → (is_locked_out ip t m0).1 = false →
  decide_login ip false t m0 = ((c, true, false), m) →
  timeline t ops now1 → now1 ≤ now2 → now2 - t ≤ am_attempt_ttl m0 →
  (size (am_others ip ops) < am_max_pins m0)%nat →
  (validate_login ip sid user pw rnd now1 now2 (am_run ops m)).1.1 =
  Err (AuthAttemptLimitExceeded sid).
Proof.
  intros Hr%am_reachable_ok Ht Hnl Hd Htl Hn Hwin Hsz.
  apply (am_ok_mono _ _ t) in Hr; [|done].
  destruct (lock_kept m0 t ip c m ops now1 Hr Hnl Hd Htl ltac:(lia) Hsz) as (Hok & Hc & Em & Et & Hg).
  rewrite <-Et in Hg.
  unfold validate_login.
  destruct (pin_section ip user pw rnd now1 (am_run ops m)) as [success m1] eqn:E.
  destruct (pin_section_spec _ _ _ _ now1 _ now2 _ _ _ Hok (Z.le_refl now1) Hn E)
    as (_ & Hm1 & Em1 & Ea1 & _ & Hg1).
  pose proof (decide_login_spec ip success now2 m1 (am_ok_mono _ _ _ Hn Hm1)) as Hdl.
  rewrite Em1, Ea1, Hg1, <-(live_live _ now1 now2), Hg in Hdl by done.
  rewrite (live_fresh _ now2) in Hdl by (rewrite Et; cbn; lia).
  destruct (decide_login ip success now2 m1) as [[[count limit] accepted] m2].
  destruct Hdl as (Hres & _). rewrite Em in Hres. cbn in Hres.
  rewrite (proj2 (Z.leb_le (am_max_attempts m0) c)) in Hres by done. by injection Hres as -> -> ->.
Qed.

(** The password of a client is stable: what [get_or_pin_password] returned
    at [t] it returns again at any time until [t + ttl_seconds], whatever the
    random choices, as long as fewer than [max_pins] other IPs show up in
    between; it is one of the configured passwords. *)
Theorem pin_stable m0 t0 t ip rnd pw m ops t' rnd' :
  am_reachable m0 t0 → t0 ≤ t → get_or_pin_password ip rnd t m0 = (pw, m) →
  timeline t ops t' → t' - t ≤ am_ttl m0 → (size (am_others ip ops) < am_max_pins m0)%nat →
  pw ∈ am_passwords m0 ∧ (get_or_pin_password ip rnd' t' (am_run ops m)).1 = pw.
Proof.
  intros Hr%am_reachable_ok Ht Hget Htl Hn Hsz.
  pose proof (am_ok_step m0 t0 t (AmPin ip rnd) Hr Ht) as Hm.
  destruct (am_config t (AmPin ip rnd) m0) as (_ & _ & E3 & E4 & E5).
  pose proof (pin_created t0 t ip rnd m0 Hr Ht) as Hk.
  cbn [am_step] in *. rewrite Hget in *. cbn [snd] in *.
  assert (Hk' : pinned_since (am_others ip ops) t ip pw m).
  { destruct Hk as (s & ? & Hk). exists s. split; [done|]. by eapply kept_at_mono; [|done]. }
  destruct (pinned_run (am_others ip ops) t t ip pw ops t' m) as [Hkr Et];
    [done|lia|done|by rewrite E4|done|by rewrite E3|done|].
  pose proof (am_ok_run ops t t' m Hm Htl) as Hok. split.
  - destruct Hk as (s & _ & Hk). rewrite <-E5.
    by apply (ok_choice _ _ Hm ip (PinRecord pw s)), dict_get_Some_elem, (kept_get _ _ _ _ Hk).
  - destruct (pinned_purge (am_others ip ops) t t' ip pw t' (am_run ops m)) as (s & _ & Hkp);
      [done|rewrite Et, E4; lia|done|].
    unfold get_or_pin_password. by rewrite (kept_get _ _ _ _ Hkp).
Qed.

(** ** Witnesses *)

Definition sample_auth : auth_manager :=
  AuthManager DEFAULT_WEAK_PASSWORDS TARPIT_SECONDS 3 2 10 5 [] [].
Definition attacker : str := "10.0.0.1".
Definition three_failures : list (Z * am_op) :=
  [(1, AmDecide attacker false); (2, AmDecide "10.0.0.2" false); (3, AmDecide attacker false)].

Lemma sample_auth_reachable t : am_reachable sample_auth t.
Proof. by apply (am_init DEFAULT_WEAK_PASSWORDS TARPIT_SECONDS 3 2 10 5). Qed.

Lemma three_failures_reachable : am_reachable (am_run three_failures sample_auth) 3.
Proof.
  apply (am_next_step _ 2); [|lia]. apply (am_next_step _ 1); [|lia].
  apply (am_next_step _ 0); [|lia]. apply sample_auth_reachable.
Qed.

Lemma auth_tables_invariant_witness :
  lru_ok 2 a_last_seen 3 (am_attempts (am_run three_failures sample_auth)).
Proof.
  exact (proj1 (proj2 (auth_tables_invariant (am_run three_failures sample_auth) 3
    three_failures_reachable))).
Defined.

Lemma attempts_refine_witness :
  live 5 4 (dict_get (am_attempts (am_run three_failures sample_auth)) attacker) =
  Some (AttemptRecord 2 3).
Proof.
  etrans; [apply (attempts_refine sample_auth 0 attacker three_failures 4)|].
  - apply sample_auth_reachable.
  - reflexivity.
  - cbn. lia.
  - by vm_compute.
  - by vm_compute.
Defined.

Lemma login_decision_witness :
  let m := am_run three_failures sample_auth in
  (validate_login attacker "s1" "root" "guess" 0 4 4 m).1 =
  (Err (AuthAttemptLimitExceeded "s1"),
   [RecordAttempt "s1" attacker "root" "guess" false 3 true; TarpitSleep 2]).
Proof.
  intros m. destruct (validate_login attacker "s1" "root" "guess" 0 4 4 m) as [[r ev] m'] eqn:E.
  pose proof (login_decision m 3 attacker "s1" "root" "guess" 0 4 4 r ev m'
    three_failures_reachable ltac:(lia) ltac:(lia) E) as H.
  rewrite decide_False in H by (intros (_ & Hc & _); by vm_compute in Hc).
  destruct H as (-> & -> & _). by vm_compute.
Defined.

Lemma lockout_holds_witness :
  let m := am_run three_failures sample_auth in
  (validate_login attacker "s2" "root" "123456" 0 8 8
     (am_run [(6, AmDecide "10.0.0.3" false)] (decide_login attacker false 4 m).2)).1.1 =
  Err (AuthAttemptLimitExceeded "s2").
Proof.
  intros m. apply (lockout_holds m 3 4 attacker 3).
  - apply three_failures_reachable.
  - lia.
  - by vm_compute.
  - by vm_compute.
  - cbn. lia.
  - lia.
  - by vm_compute.
  - by vm_compute.
Defined.

Lemma pin_stable_witness :
  let m := (get_or_pin_password attacker 3 1 sample_auth).2 in
  (get_or_pin_password attacker 0 11 (am_run [(2, AmPin "10.0.0.2" 1); (9, AmSweep)] m)).1 =
  lit "toor".
Proof.
  intros m. apply (pin_stable sample_auth 0 1 attacker 3 (lit "toor") m).
  - apply sample_auth_reachable.
  - lia.
  - by vm_compute.
  - cbn. lia.
  - cbn. lia.
  - by vm_compute.
Defined.
