(* ===== verification/Proxy.v ===== *)
(** * The PROXY preamble of a connection ([server.py])

    The front-end proxy sends one PROXY v1 line before the SSH bytes.
    [_ProxyPreambleProtocol] buffers what arrives until it can tell, then hands
    the connection over to the SSH library, whose protocol object is outside
    the sources: what it is told is the trace [pp_trace].  Bytes are integers
    0..255, a stream is the sequence of chunks the event loop delivers. *)

From S2P Require Import Prelude PyStr.

Definition crlf : str := [13; 10].
Definition _PROXY_PREFIX : str := "PROXY ".
Definition _PROXY_MAX_LINE : nat := 107.

(** [line.decode("ascii")]. *)
Definition decode_ascii (line : str) : option str :=
  if forallb (λ c, c <? 128) line then Some line else None.

Definition parse_proxy_v1_line (line : str) : option (str * Z) :=
  text ← decode_ascii line;
  let parts := split_on 32 text in
  if bool_decide (length parts < 6)%nat || negb (bool_decide (nth 0 parts [] = lit "PROXY"))
  then None
  else
  let family := nth 1 parts [] in
  if negb (bool_decide (family = lit "TCP4") || bool_decide (family = lit "TCP6")) then None
  else
  let client_ip := nth 2 parts [] in
  if bool_decide (client_ip = []) then None
  else
  client_port ← py_int (nth 4 parts []);
  if (client_port <? 0) || (65535 <? client_port) then None
  else Some (client_ip, client_port).

(** ** [_ProxyPreambleProtocol] *)

(** What the SSH protocol object is told. *)
Inductive inner_event :=
  | InnerMade (client_ip : str)      (* [connection_made], with the context variable *)
  | InnerData (data : str)
  | InnerEof
  | InnerLost
  | InnerPause
  | InnerResume.

Record preamble := Preamble {
  pp_transport : bool;               (* [_transport is not None] *)
  pp_buf : str;
  pp_fallback_ip : str;
  pp_handed_off : bool;
  pp_inner : bool;                   (* [_inner is not None] *)
  pp_trace : list inner_event
}.

Definition preamble_init : preamble := Preamble false [] "unknown" false false [].

Definition pp_tell (e : inner_event) (p : preamble) : preamble :=
  if pp_inner p then
    Preamble (pp_transport p) (pp_buf p) (pp_fallback_ip p) (pp_handed_off p) (pp_inner p)
      (pp_trace p ++ [e])
  else p.

(** [peer]: the address of [get_extra_info("peername")], when it is a tuple. *)
Definition pp_connection_made (peer : option str) (p : preamble) : preamble :=
  Preamble true (pp_buf p)
    (match peer with Some ip => ip | None => pp_fallback_ip p end)
    (pp_handed_off p) (pp_inner p) (pp_trace p).

Definition _complete (client_ip leftover : str) (p : preamble) : preamble :=
  if pp_handed_off p || negb (pp_transport p) then p
  else
    Preamble (pp_transport p) [] (pp_fallback_ip p) true true
      (pp_trace p ++ InnerMade client_ip ::
       if bool_decide (leftover = []) then [] else [InnerData leftover]).

Definition _try_handoff (force : bool) (p : preamble) : preamble :=
  if pp_handed_off p then p
  else
  let buf := pp_buf p in
  if bool_decide (buf = []) then p
  else if negb (startswith buf "P") then _complete (pp_fallback_ip p) buf p
  else if bool_decide (length buf < length _PROXY_PREFIX)%nat then
    if force then _complete (pp_fallback_ip p) buf p else p
  else if negb (startswith buf _PROXY_PREFIX) then _complete (pp_fallback_ip p) buf p
  else
  match find crlf buf with
  | None =>
      if force || bool_decide (_PROXY_MAX_LINE ≤ length buf)%nat
      then _complete (pp_fallback_ip p) buf p else p
  | Some idx =>
      let parsed := parse_proxy_v1_line (take idx buf) in
      let leftover := drop (idx + 2) buf in
      let client_ip := match parsed with Some (ip, _) => ip | None => pp_fallback_ip p end in
      _complete client_ip leftover p
  end.

Definition data_received (data : str) (p : preamble) : preamble :=
  if pp_handed_off p then pp_tell (InnerData data) p
  else
    _try_handoff false
      (Preamble (pp_transport p) (pp_buf p ++ data) (pp_fallback_ip p) (pp_handed_off p)
         (pp_inner p) (pp_trace p)).

Definition eof_received (p : preamble) : preamble :=
  let p1 :=
    if pp_handed_off p then p
    else if bool_decide (pp_buf p ≠ []) then _try_handoff true p
    else if pp_transport p then _complete (pp_fallback_ip p) [] p
    else p in
  pp_tell InnerEof p1.

Definition pp_connection_lost (p : preamble) : preamble := pp_tell InnerLost p.
Definition pause_writing (p : preamble) : preamble := pp_tell InnerPause p.
Definition resume_writing (p : preamble) : preamble := pp_tell InnerResume p.

(** A connection from [peer] that delivers [chunks] and then closes. *)
Definition pp_feed (chunks : list str) (p : preamble) : preamble :=
  fold_left (λ p c, data_received c p) chunks p.
Definition pp_connection (peer : str) (chunks : list str) : preamble :=
  eof_received (pp_feed chunks (pp_connection_made (Some peer) preamble_init)).

(** ** [read_optional_proxy], over a stream reader

    A reader is the list of segments still to arrive; [read n] returns what is
    there, at most [n] bytes, and nothing at the end of the stream. *)
Record proxy_client_info := ProxyClientInfo {
  client_ip : str;
  leftover : str;
  proxied : bool;
  client_port : option Z
}.

Definition reader_read (n : nat) (segs : list str) : str * list str :=
  match segs with
  | [] => ([], [])
  | seg :: rest =>
      if decide (length seg ≤ n)%nat then (seg, rest) else (take n seg, drop n seg :: rest)
  end.

(** The [while] loop; [_PROXY_MAX_LINE] rounds fill the buffer. *)
Fixpoint read_line_loop (fuel : nat) (buf : str) (segs : list str) : str * list str :=
  match fuel with
  | O => (buf, segs)
  | S fuel' =>
      if bool_decide (find crlf buf = None) && bool_decide (length buf < _PROXY_MAX_LINE)%nat
      then
        let (chunk, segs') := reader_read (_PROXY_MAX_LINE - length buf) segs in
        if bool_decide (chunk = []) then (buf, segs')
        else read_line_loop fuel' (buf ++ chunk) segs'
      else (buf, segs)
  end.

Definition read_optional_proxy (fallback_ip : str) (segs : list str) :
    proxy_client_info * list str :=
  let (buf, segs) := reader_read _PROXY_MAX_LINE segs in
  if bool_decide (buf = []) then (ProxyClientInfo fallback_ip [] false None, segs)
  else if negb (startswith buf _PROXY_PREFIX) then
    (ProxyClientInfo fallback_ip buf false None, segs)
  else
    let (buf, segs) := read_line_loop _PROXY_MAX_LINE buf segs in
    match find crlf buf with
    | None => (ProxyClientInfo fallback_ip buf false None, segs)
    | Some idx =>
        let leftover := drop (idx + 2) buf in
        match parse_proxy_v1_line (take idx buf) with
        | None => (ProxyClientInfo fallback_ip leftover true None, segs)
        | Some (ip, port) => (ProxyClientInfo ip leftover true (Some port), segs)
        end
    end.

(** ** Specification

    The client address and the SSH bytes of a whole stream. *)
Definition split_preamble (fallback s : str) : str * str :=
  if startswith s _PROXY_PREFIX then
    match find crlf s with
    | Some i =>
        (match parse_proxy_v1_line (take i s) with Some (ip, _) => ip | None => fallback end,
         drop (i + 2) s)
    | None => (fallback, s)
    end
  else (fallback, s).

(** The header line, when there is one, fits in [_PROXY_MAX_LINE] bytes. *)
Definition header_fits (s : str) : Prop :=
  startswith s _PROXY_PREFIX = true →
  match find crlf s with Some i => (i + 2 ≤ _PROXY_MAX_LINE)%nat | None => True end.

(** The bytes the SSH library receives. *)
Definition inner_bytes (l : list inner_event) : str :=
  concat (omap (λ e, match e with InnerData d => Some d | _ => None end) l).

(** ** One decision *)

(** What [_try_handoff] decides on a buffer: [None] to wait for more. *)
Definition decision (force : bool) (fallback buf : str) : option (str * str) :=
  if bool_decide (buf = []) then None
  else if negb (startswith buf "P") then Some (fallback, buf)
  else if bool_decide (length buf < length _PROXY_PREFIX)%nat then
    if force then Some (fallback, buf) else None
  else if negb (startswith buf _PROXY_PREFIX) then Some (fallback, buf)
  else
  match find crlf buf with
  | None =>
      if force || bool_decide (_PROXY_MAX_LINE ≤ length buf)%nat then Some (fallback, buf) else None
  | Some idx =>
      Some (match parse_proxy_v1_line (take idx buf) with Some (ip, _) => ip | None => fallback end,
            drop (idx + 2) buf)
  end.

Lemma try_handoff_decision force p :
  pp_handed_off p = false →
  _try_handoff force p =
  match decision force (pp_fallback_ip p) (pp_buf p) with
  | Some (ip, rest) => _complete ip rest p
  | None => p
  end.
Proof. intros Hh. unfold _try_handoff, decision. rewrite Hh. by repeat case_match. Qed.

Lemma not_prefix_app b s p :
  b ≠ [] → startswith b (lit "P") = false ∨
           ((length p ≤ length b)%nat ∧ startswith b p = false) →
  lit "P" `prefix_of` p → startswith (b ++ s) p = false.
Proof.
  intros Hb Hor HP. destruct Hor as [H1|[H1 H2]].
  - apply startswith_false. intros Hp. apply startswith_false in H1. apply H1.
    assert (H : lit "P" `prefix_of` b ++ s) by by etrans.
    apply startswith_true in H. rewrite startswith_app_l in H; [by apply startswith_true|].
    destruct b; [done|]. cbn. lia.
  - by rewrite startswith_app_l.
Qed.

Lemma P_prefix : lit "P" `prefix_of` _PROXY_PREFIX.
Proof. by exists (lit "ROXY "). Qed.

(** What is decided on a prefix of the stream is what the whole stream says. *)
Lemma decision_sound fallback b rest ip l :
  decision false fallback b = Some (ip, l) → header_fits (b ++ rest) →
  split_preamble fallback (b ++ rest) = (ip, l ++ rest).
Proof.
  unfold decision, header_fits, split_preamble. intros Hd Hfit.
  destruct (bool_decide (b = [])) eqn:Eb; [done|]. apply bool_decide_eq_false in Eb.
  destruct (startswith b "P") eqn:EP; cbn [negb] in Hd.
  2:{ injection Hd as <- <-. rewrite (not_prefix_app b rest _PROXY_PREFIX); [done|done|by left|].
      apply P_prefix. }
  destruct (bool_decide (length b < length _PROXY_PREFIX)%nat) eqn:El; [done|].
  apply bool_decide_eq_false in El.
  destruct (startswith b _PROXY_PREFIX) eqn:EPP; cbn [negb] in Hd.
  2:{ injection Hd as <- <-. rewrite (not_prefix_app b rest _PROXY_PREFIX);
        [done|done|right; split; [lia|done]|apply P_prefix]. }
  rewrite (startswith_mono _ _ _ EPP) in *. specialize (Hfit eq_refl).
  destruct (find crlf b) as [i|] eqn:Ef.
  - rewrite (find_app _ _ _ _ Ef). injection Hd as <- <-. apply find_bound in Ef. cbn in Ef.
    rewrite take_app_le, drop_app_le by lia. done.
  - destruct (bool_decide _) eqn:Em; cbn in Hd; [|done]. injection Hd as <- <-.
    apply bool_decide_eq_true in Em.
    destruct (find crlf (b ++ rest)) as [i|] eqn:Ef'; [|done].
    apply find_app_inv in Ef'; [congruence|]. cbn. lia.
Qed.

(** At the end of the stream the whole buffer decides. *)
Lemma decision_force fallback b :
  b ≠ [] → decision true fallback b = Some (split_preamble fallback b).
Proof.
  intros Hb. unfold decision, split_preamble. rewrite bool_decide_eq_false_2 by done.
  destruct (startswith b "P") eqn:EP; cbn [negb].
  2:{ pose proof (not_prefix_app b [] _PROXY_PREFIX Hb (or_introl EP) P_prefix) as H.
      rewrite app_nil_r in H. by rewrite H. }
  destruct (bool_decide (length b < length _PROXY_PREFIX)%nat) eqn:El.
  - apply bool_decide_eq_true in El. destruct (startswith b _PROXY_PREFIX) eqn:E; [|done].
    apply startswith_length in E. lia.
  - destruct (startswith b _PROXY_PREFIX); cbn; [|done]. by destruct (find crlf b).
Qed.

(** What a decision to hand over leaves out of the buffer. *)
Definition strips (fallback b ip l : str) : Prop :=
  (ip = fallback ∧ l = b) ∨
  ∃ i, find crlf b = Some i ∧ startswith b _PROXY_PREFIX = true ∧ l = drop (i + 2) b ∧
    ip = match parse_proxy_v1_line (take i b) with Some (ip, _) => ip | None => fallback end.

Lemma decision_strips force fallback b ip l :
  decision force fallback b = Some (ip, l) → strips fallback b ip l.
Proof.
  unfold decision. repeat case_match; intros; simplify_eq; try (by left);
    right; eexists; (split; [done|]); (split; [by apply negb_false_iff|]);
    by rewrite ?H4.
Qed.

(** The protocol after [b] has arrived. *)
Inductive pp_inv (peer b : str) : preamble → Prop :=
  | pp_waiting :
      decision false peer b = None → pp_inv peer b (Preamble true b peer false false [])
  | pp_handed b1 b2 ip l ds :
      b = b1 ++ b2 → decision false peer b1 = Some (ip, l) → concat ds = l ++ b2 →
      pp_inv peer b (Preamble true [] peer true true (InnerMade ip :: map InnerData ds)).

Lemma complete_waiting ip l b peer :
  _complete ip l (Preamble true b peer false false []) =
  Preamble true [] peer true true
    (InnerMade ip :: map InnerData (if bool_decide (l = []) then [] else [l])).
Proof. unfold _complete. by case_bool_decide. Qed.

Lemma complete_concat (l : str) : concat (if bool_decide (l = []) then [] else [l]) = l.
Proof. case_bool_decide as E; [by rewrite E|apply app_nil_r]. Qed.

Lemma data_received_inv peer b c p :
  pp_inv peer b p → pp_inv peer (b ++ c) (data_received c p).
Proof.
  intros [Hd|b1 b2 ip l ds -> Hd Hds]; unfold data_received; cbn [pp_handed_off].
  - rewrite try_handoff_decision by done. cbn [pp_buf pp_fallback_ip].
    destruct (decision false peer (b ++ c)) as [[ip l]|] eqn:E; [|by constructor].
    rewrite complete_waiting.
    eapply (pp_handed _ _ (b ++ c) []); [by rewrite app_nil_r|done|].
    by rewrite complete_concat, app_nil_r.
  - unfold pp_tell. cbn.
    rewrite <-app_assoc. change [InnerData c] with (map InnerData [c]). rewrite <-map_app.
    eapply (pp_handed _ _ b1 (b2 ++ c)); [done|done|].
    by rewrite concat_app, Hds, <-app_assoc; cbn; rewrite app_nil_r.
Qed.

Lemma feed_inv peer b chunks p :
  pp_inv peer b p → pp_inv peer (b ++ concat chunks) (pp_feed chunks p).
Proof.
  revert b p. induction chunks as [|c chunks IH]; intros b p Hp; cbn.
  - by rewrite app_nil_r.
  - rewrite app_assoc. by apply IH, data_received_inv.
Qed.

Lemma connection_inv peer chunks :
  pp_inv peer (concat chunks) (pp_feed chunks (pp_connection_made (Some peer) preamble_init)).
Proof. apply (feed_inv peer []). by constructor. Qed.

Lemma header_prefix b i :
  find crlf b = Some i → startswith b _PROXY_PREFIX = true →
  startswith (take i b ++ crlf) _PROXY_PREFIX = true.
Proof.
  intros Hf Hp. pose proof (find_split _ _ _ Hf) as Hs.
  destruct (decide (length _PROXY_PREFIX ≤ length (take i b ++ crlf))%nat) as [Hl|Hl].
  - rewrite Hs, app_assoc in Hp. by rewrite startswith_app_l in Hp.
  - exfalso. apply find_bound in Hf as Hb. rewrite length_app, length_take in Hl. cbn in Hl, Hb.
    apply startswith_true in Hp as [k Hk].
    assert (H13 : b !! i = Some 13).
    { rewrite Hs, lookup_app_r; rewrite length_take, Nat.min_l by lia; [|done].
      by rewrite Nat.sub_diag. }
    rewrite Hk, lookup_app_l in H13 by (cbn; lia).
    by do 6 (destruct i as [|i]; [discriminate H13|]).
Qed.

(** The trace of a whole connection, and how it was decided. *)
Lemma connection_trace peer chunks :
  ∃ b1 b2 ip l ds, concat chunks = b1 ++ b2 ∧
    pp_trace (pp_connection peer chunks) = InnerMade ip :: map InnerData ds ++ [InnerEof] ∧
    concat ds = l ++ b2 ∧
    (decision false peer b1 = Some (ip, l) ∨
     (b2 = [] ∧ split_preamble peer b1 = (ip, l) ∧ strips peer b1 ip l)).
Proof.
  unfold pp_connection. destruct (connection_inv peer chunks) as [Hd|b1 b2 ip l ds Hb Hd Hds].
  - unfold eof_received. cbn [pp_handed_off pp_buf pp_transport pp_fallback_ip].
    exists (concat chunks), []. rewrite app_nil_r. case_bool_decide as Hne.
    + rewrite try_handoff_decision by done. cbn [pp_fallback_ip pp_buf].
      pose proof (decision_force peer (concat chunks) Hne) as Hf. rewrite Hf.
      destruct (split_preamble peer (concat chunks)) as [ip l]. rewrite complete_waiting.
      eexists ip, l, _. split; [done|]. split; [done|].
      rewrite complete_concat, app_nil_r. split; [done|]. right. split; [done|].
      split; [done|]. by eapply decision_strips.
    + assert (E : concat chunks = []) by by destruct (decide (concat chunks = [])).
      rewrite E. exists peer, [], []. split; [done|]. split; [done|]. split; [done|].
      right. split; [done|]. split; [done|]. by left.
  - exists b1, b2, ip, l, ds. unfold eof_received, pp_tell. cbn. auto.
Qed.

(** ** Theorems *)

(** However the bytes of a connection are cut into chunks, when its header
    line, if it has one, fits in [_PROXY_MAX_LINE] bytes the SSH library is
    told the same client address, given by [split_preamble] on the whole
    stream, and receives exactly the bytes after the header, then the end. *)
Theorem preamble_chunking peer chunks :
  header_fits (concat chunks) →
  ∃ ip ds, pp_trace (pp_connection peer chunks) =
             InnerMade ip :: map InnerData ds ++ [InnerEof] ∧
           split_preamble peer (concat chunks) = (ip, concat ds).
Proof.
  intros Hfit. destruct (connection_trace peer chunks)
    as (b1 & b2 & ip & l & ds & Hb & Ht & Hds & Hdec).
  exists ip, ds. split; [done|]. rewrite Hds, Hb in *. destruct Hdec as [Hdec|(-> & Hsp & _)].
  - by apply decision_sound.
  - by rewrite !app_nil_r.
Qed.

(** No byte is lost, repeated or reordered and the hand-over happens once,
    whatever arrives and however long the header is: the SSH library receives
    the whole stream with the peer address, or the stream without its first
    line, which starts with [PROXY] and ends with the first CRLF, with the
    address in that line (the peer address when the line is malformed). *)
Theorem preamble_conserves peer chunks :
  ∃ ip header ds, pp_trace (pp_connection peer chunks) =
                    InnerMade ip :: map InnerData ds ++ [InnerEof] ∧
    concat chunks = header ++ concat ds ∧
    ((header = [] ∧ ip = peer) ∨
     ∃ line, header = line ++ crlf ∧ find crlf (concat chunks) = Some (length line) ∧
       startswith header _PROXY_PREFIX = true ∧
       ip = match parse_proxy_v1_line line with Some (ip, _) => ip | None => peer end).
Proof.
  destruct (connection_trace peer chunks) as (b1 & b2 & ip & l & ds & Hb & Ht & Hds & Hdec).
  assert (Hs : strips peer b1 ip l).
  { destruct Hdec as [Hdec|(_ & _ & Hs)]; [by eapply decision_strips|done]. }
  rewrite Hb. exists ip. destruct Hs as [[-> ->]|(i & Hf & Hp & -> & ->)].
  - exists [], ds. rewrite Hds. auto.
  - exists (take i b1 ++ crlf), ds. split; [done|]. rewrite Hds.
    pose proof (find_bound _ _ _ Hf) as Hlen. cbn in Hlen.
    rewrite (find_split _ _ _ Hf) at 1. rewrite <-!app_assoc. split; [done|].
    right. exists (take i b1). rewrite length_take, Nat.min_l by lia.
    split; [done|]. split; [by apply find_app|]. split; [|done].
    apply header_prefix; done.
Qed.

(** ** The header line *)

(** [sep.join(words).split(sep)] at known positions. *)
Lemma six_words (l : list str) :
  (6 ≤ length l)%nat →
  l = nth 0 l [] :: nth 1 l [] :: nth 2 l [] :: nth 3 l [] :: nth 4 l [] :: nth 5 l [] :: drop 6 l.
Proof. do 6 (destruct l as [|? l]; [cbn; lia|]). done. Qed.

(** The words of a PROXY v1 header that is accepted with [ip] and [port]. *)
Definition proxy_words (words : list str) (ip : str) (port : Z) : Prop :=
  ∃ family dst sport dport more,
    words = lit "PROXY" :: family :: ip :: dst :: sport :: dport :: more ∧
    (family = lit "TCP4" ∨ family = lit "TCP6") ∧ ip ≠ [] ∧
    py_int sport = Some port ∧ 0 ≤ port ≤ 65535.

Lemma parse_words line ip port :
  parse_proxy_v1_line line = Some (ip, port) ↔
  forallb (λ c, c <? 128) line = true ∧ proxy_words (split_on 32 line) ip port.
Proof.
  unfold parse_proxy_v1_line, decode_ascii. destruct (forallb _ line); cbn [mbind option_bind];
    [|naive_solver]. set (l := split_on 32 line). split.
  - destruct (bool_decide (length l < 6)%nat) eqn:E1; [done|]. apply bool_decide_eq_false in E1.
    case_bool_decide as E2; [|done]. cbn [negb orb].
    destruct (negb _) eqn:E3; [done|]. apply negb_false_iff, orb_true_iff in E3.
    rewrite !bool_decide_eq_true in E3.
    destruct (bool_decide (nth 2 l [] = [])) eqn:E4; [done|]. apply bool_decide_eq_false in E4.
    destruct (py_int _) as [n|] eqn:E5; [|done]. cbn [mbind option_bind].
    destruct (_ || _) eqn:E6; [done|]. intros [= <- <-]. split; [done|].
    apply orb_false_iff in E6 as [E6 E7].
    exists (nth 1 l []), (nth 3 l []), (nth 4 l []), (nth 5 l []), (drop 6 l).
    rewrite <-E2. split; [by apply six_words; lia|]. split_and!; [done|done|done|lia|lia].
  - intros (_ & fam & dst & sport & dport & more & Hl & Hfam & Hip & Hport & Hb).
    rewrite Hl. cbn [nth length]. rewrite bool_decide_eq_false_2 by lia.
    rewrite bool_decide_eq_true_2 by done. cbn [negb orb].
    assert (Hf : bool_decide (fam = lit "TCP4") || bool_decide (fam = lit "TCP6") = true).
    { by rewrite orb_true_iff, !bool_decide_eq_true. }
    rewrite Hf. cbn [negb]. rewrite bool_decide_eq_false_2 by done. rewrite Hport. cbn.
    destruct (Z.ltb_spec port 0), (Z.ltb_spec 65535 port); cbn; try lia. done.
Qed.

(** The line the front end writes for a connection from [src]. *)
Definition proxy_header (family src dst : str) (sport dport : Z) : str :=
  join [32] [lit "PROXY"; family; src; dst; py_str sport; py_str dport].

Lemma ascii_forallb (s : str) :
  forallb (λ c, c <? 128) s = true ↔ Forall (λ c, c < 128) s.
Proof.
  rewrite forallb_forall, Forall_forall. setoid_rewrite Z.ltb_lt.
  by setoid_rewrite list_elem_of_In.
Qed.

(** A header line is accepted exactly when it is ASCII and, split at single
    spaces, has at least six words: [PROXY], [TCP4] or [TCP6], a non-empty
    source address (the client's), any destination, and as source port a
    number that [int()] reads as 0..65535. *)
Theorem parse_proxy_accepts line ip port :
  parse_proxy_v1_line line = Some (ip, port) ↔
  ∃ words, line = join [32] words ∧ Forall (λ w, 32 ∉ w) words ∧
    Forall (λ c, c < 128) line ∧ proxy_words words ip port.
Proof.
  rewrite parse_words, ascii_forallb. split.
  - intros [Ha Hw]. exists (split_on 32 line). split; [by rewrite join_split|].
    split; [apply split_on_pieces|done].
  - intros (words & -> & Hs & Ha & Hw). split; [done|]. rewrite split_join; [done| |done].
    by destruct Hw as (? & ? & ? & ? & ? & -> & _).
Qed.

Lemma py_str_ascii (n : Z) : 0 ≤ n → Forall (λ c, is_digit c = true) (py_str n).
Proof.
  intros Hn. unfold py_str. destruct n as [|p|p]; [by repeat constructor| |lia].
  apply (pretty_digits (Npos p) ""). constructor.
Qed.

Lemma digits_no_space s : Forall (λ c, is_digit c = true) s → 32 ∉ s.
Proof. intros Hs H. rewrite Forall_forall in Hs. by apply Hs in H. Qed.

(** The header the front end writes for a client is read back: from the
    line with the client's address and port the backend gets that address and
    port. *)
Theorem proxy_header_roundtrip family src dst sport dport :
  (family = lit "TCP4" ∨ family = lit "TCP6") → src ≠ [] →
  Forall (λ c, 32 < c < 128) src → Forall (λ c, 32 < c < 128) dst →
  0 ≤ sport ≤ 65535 → 0 ≤ dport ≤ 65535 →
  parse_proxy_v1_line (proxy_header family src dst sport dport) = Some (src, sport).
Proof.
  intros Hf Hne Hsrc Hdst Hs Hd. apply parse_words.
  assert (Hsp : ∀ w : str, Forall (λ c, 32 < c < 128) w → 32 ∉ w).
  { intros w Hw H. rewrite Forall_forall in Hw. apply Hw in H. lia. }
  pose proof (py_str_ascii sport ltac:(lia)) as Hps. pose proof (py_str_ascii dport ltac:(lia)) as Hpd.
  split.
  - assert (Hdig : ∀ w : str, Forall (λ c, is_digit c = true) w → Forall (λ c, c < 128) w).
    { intros w Hw. eapply Forall_impl; [exact Hw|]. unfold is_digit. cbn. lia. }
    assert (Hasc : ∀ w : str, Forall (λ c, 32 < c < 128) w → Forall (λ c, c < 128) w).
    { intros w Hw. eapply Forall_impl; [exact Hw|]. cbn. lia. }
    assert (Hfam : Forall (λ c, c < 128) family).
    { by destruct Hf as [->| ->]; apply ascii_forallb. }
    assert (Hproxy : Forall (λ c, c < 128) (lit "PROXY")) by by apply ascii_forallb.
    assert (H32 : Forall (λ c, c < 128) [32]) by by apply ascii_forallb.
    apply ascii_forallb. unfold proxy_header. cbn [join].
    repeat apply Forall_app_2; auto.
  - unfold proxy_header. rewrite split_join; [|done|].
    + exists family, dst, (py_str sport), (py_str dport), []. split_and!; try done; try lia.
      apply py_int_str; [lia|]. etrans; [apply (py_str_length 5); lia|lia].
    + assert (Hfam : 32 ∉ family) by (destruct Hf as [->| ->]; vm_decide).
      assert (Hproxy : 32 ∉ lit "PROXY") by vm_decide.
      repeat apply Forall_cons_2; try apply Forall_nil_2; auto using digits_no_space.
Qed.

(** ** The stream reader *)

Lemma reader_read_concat n segs :
  (0 < n)%nat → Forall (λ s : str, s ≠ []) segs →
  let (chunk, segs') := reader_read n segs in
  chunk ++ concat segs' = concat segs ∧ Forall (λ s : str, s ≠ []) segs' ∧
  (length chunk ≤ n)%nat ∧ (chunk = [] → segs' = []) ∧
  take (length chunk) (concat segs) = chunk.
Proof.
  intros Hn Hs. destruct Hs as [|seg segs Hseg Hs]; cbn; [by split_and!; try done; lia|].
  case_decide as Hl; cbn.
  - split_and!; try done. by rewrite take_app_length.
  - assert (Hd : drop n seg ≠ []).
    { intros H%(f_equal length). rewrite length_drop in H. cbn in H. lia. }
    assert (Ht : take n seg ≠ []).
    { intros H%(f_equal length). rewrite length_take in H. cbn in H. lia. }
    split_and!; [by rewrite app_assoc, take_drop|by constructor|rewrite length_take; lia|done|].
    rewrite length_take, Nat.min_l by lia. by rewrite take_app_le by lia.
Qed.

(** The loop stops with the line, a full buffer or the end of the stream. *)
Lemma read_line_loop_spec fuel buf segs :
  Forall (λ s : str, s ≠ []) segs → (_PROXY_MAX_LINE ≤ fuel + length buf)%nat →
  let (buf', segs') := read_line_loop fuel buf segs in
  buf' ++ concat segs' = buf ++ concat segs ∧ buf `prefix_of` buf' ∧
  (find crlf buf' ≠ None ∨ (_PROXY_MAX_LINE ≤ length buf')%nat ∨ segs' = []).
Proof.
  revert buf segs. induction fuel as [|fuel IH]; intros buf segs Hs Hf; cbn [read_line_loop].
  { split; [done|]. split; [done|]. right. left. lia. }
  destruct (bool_decide (find crlf buf = None)) eqn:E1; cbn [andb].
  2:{ apply bool_decide_eq_false in E1. auto. }
  destruct (bool_decide (length buf < _PROXY_MAX_LINE)%nat) eqn:E2.
  2:{ apply bool_decide_eq_false in E2. split; [done|]. split; [done|]. right. left. lia. }
  apply bool_decide_eq_true in E2.
  pose proof (reader_read_concat (_PROXY_MAX_LINE - length buf) segs ltac:(lia) Hs) as Hr.
  destruct (reader_read _ segs) as [chunk segs']. destruct Hr as (Hc & Hs' & _ & Hnil & _).
  destruct (bool_decide (chunk = [])) eqn:E3.
  - apply bool_decide_eq_true in E3. subst chunk. rewrite <-Hc. split; [done|].
    split; [done|]. right. right. by apply Hnil.
  - apply bool_decide_eq_false in E3. specialize (IH (buf ++ chunk) segs' Hs').
    destruct (read_line_loop fuel (buf ++ chunk) segs') as [buf' segs2].
    destruct IH as (H1 & H2 & H3).
    { rewrite length_app. destruct chunk; [done|]. cbn. lia. }
    split; [by rewrite H1, <-app_assoc, Hc|]. split; [|done].
    etrans; [|exact H2]. by apply prefix_app_r.
Qed.

(** [read_optional_proxy] terminates and agrees with the protocol object: when
    the header fits and the first segment holds the six bytes that announce
    it, it returns the client address of [split_preamble], and what it has read
    beyond the header followed by what is still to read is the SSH stream. *)
Theorem read_optional_proxy_agrees fallback segs :
  Forall (λ s : str, s ≠ []) segs → header_fits (concat segs) →
  (startswith (concat segs) _PROXY_PREFIX = true → (6 ≤ length (nth 0 segs []))%nat) →
  let (info, rest) := read_optional_proxy fallback segs in
  split_preamble fallback (concat segs) = (client_ip info, leftover info ++ concat rest).
Proof.
  intros Hs Hfit Hfirst. unfold read_optional_proxy, split_preamble, header_fits in *.
  pose proof (reader_read_concat _PROXY_MAX_LINE segs (Nat.lt_0_succ _) Hs) as Hr.
  assert (H6 : startswith (concat segs) _PROXY_PREFIX = true →
    (6 ≤ length (reader_read _PROXY_MAX_LINE segs).1)%nat).
  { intros Hp. specialize (Hfirst Hp). destruct segs as [|seg segs]; [done|].
    cbn [nth reader_read] in *. case_decide; cbn [fst]; [done|].
    rewrite length_take. unfold _PROXY_MAX_LINE. lia. }
  destruct (reader_read _PROXY_MAX_LINE segs) as [buf segs1]. cbn [fst] in H6.
  destruct Hr as (Hc & Hs1 & _ & Hnil & _).
  destruct (bool_decide (buf = [])) eqn:Eb.
  { apply bool_decide_eq_true in Eb. rewrite <-Hc, (Hnil Eb), Eb. done. }
  destruct (startswith buf _PROXY_PREFIX) eqn:Ep; cbn [negb].
  2:{ destruct (startswith (concat segs) _PROXY_PREFIX) eqn:E; [|by rewrite <-Hc].
      rewrite <-Hc, startswith_app_l in E by (cbn; auto). congruence. }
  rewrite <-Hc in *. rewrite (startswith_mono _ _ _ Ep) in *. specialize (Hfit eq_refl).
  pose proof (read_line_loop_spec _PROXY_MAX_LINE buf segs1 Hs1 ltac:(lia)) as Hl.
  destruct (read_line_loop _PROXY_MAX_LINE buf segs1) as [buf' segs2].
  destruct Hl as (H1 & _ & H3). rewrite <-H1 in *.
  destruct (find crlf buf') as [i|] eqn:Ef.
  - rewrite (find_app _ _ _ _ Ef). apply find_bound in Ef. cbn in Ef.
    rewrite take_app_le, drop_app_le by lia.
    by destruct (parse_proxy_v1_line (take i buf')) as [[ip port]|].
  - assert (Hnone : find crlf (buf' ++ concat segs2) = None); [|by rewrite Hnone].
    destruct H3 as [?|[Hlen| ->]]; [done| |by rewrite app_nil_r].
    destruct (find crlf (buf' ++ concat segs2)) as [i|] eqn:E; [|done].
    apply find_app_inv in E; [congruence|]. cbn. lia.
Qed.

(** ** What the limit does not cover *)

Definition long_header : str :=
  lit "PROXY TCP4 10.9.8.7 10.0.0.1 5000 22 " ++ repeat 120 80 ++ crlf.

(** A header longer than [_PROXY_MAX_LINE] is honoured when it arrives in one
    chunk and passed on as SSH bytes when it arrives in two. *)
Example long_header_depends_on_chunking :
  (length long_header = 119)%nat ∧
  pp_trace (pp_connection "192.0.2.1" [long_header]) = [InnerMade "10.9.8.7"; InnerEof] ∧
  pp_trace (pp_connection "192.0.2.1" [take 110 long_header; drop 110 long_header]) =
    [InnerMade "192.0.2.1"; InnerData (take 110 long_header);
     InnerData (drop 110 long_header); InnerEof].
Proof. vm_compute. auto. Qed.

(** [read_optional_proxy] takes a header whose first segment is shorter than
    the word [PROXY] for SSH bytes; the protocol object does not. *)
Example short_first_segment :
  let h := lit "PROXY TCP4 10.9.8.7 10.0.0.1 5000 22" ++ crlf in
  (read_optional_proxy "192.0.2.1" [take 3 h; drop 3 h]).1 =
    ProxyClientInfo "192.0.2.1" "PRO" false None ∧
  pp_trace (pp_connection "192.0.2.1" [take 3 h; drop 3 h]) =
    [InnerMade "10.9.8.7"; InnerEof].
Proof. vm_compute. auto. Qed.

(** ** Witnesses *)

Lemma preamble_chunking_witness :
  let h := lit "PROXY TCP4 10.9.8.7 10.0.0.1 5000 22" ++ crlf ++ lit "SSH-2.0-x" in
  ∃ ip ds, pp_trace (pp_connection "192.0.2.1" [take 3 h; take 20 (drop 3 h); drop 23 h]) =
             InnerMade ip :: map InnerData ds ++ [InnerEof] ∧
           (lit "10.9.8.7", lit "SSH-2.0-x") = (ip, concat ds).
Proof.
  intros h.
  destruct (preamble_chunking "192.0.2.1" [take 3 h; take 20 (drop 3 h); drop 23 h])
    as (ip & ds & H & Hs); [intros _; vm_compute; lia|].
  exists ip, ds. split; [done|]. rewrite <-Hs. by vm_compute.
Defined.

Lemma proxy_header_roundtrip_witness :
  parse_proxy_v1_line (proxy_header "TCP4" "10.9.8.7" "10.0.0.1" 50022 22) =
  Some (lit "10.9.8.7", 50022).
Proof.
  apply (proxy_header_roundtrip "TCP4" "10.9.8.7" "10.0.0.1" 50022 22);
    [by left|done|vm_decide|vm_decide|lia|lia].
Defined.

Lemma read_optional_proxy_agrees_witness :
  let h := lit "PROXY TCP6 ::1 ::2 5000 22" ++ crlf ++ lit "SSH" in
  split_preamble "192.0.2.1" (concat [h]) = (lit "::1", lit "SSH" ++ []).
Proof.
  intros h.
  exact (read_optional_proxy_agrees "192.0.2.1" [h] ltac:(by constructor)
    ltac:(intros _; vm_compute; lia) ltac:(intros _; vm_compute; lia)).
Defined.
