(* ===== verification/Binary64.v ===== *)
(** * The arithmetic of [double]

    A finite number of the IEEE format binary64 is a multiple of 2^-1074, so it
    is written as the integer it is in that unit, subnormal numbers included.
    Every operation is the exact one followed by rounding to 53 significant
    bits, to the nearest and to the even one of two neighbours.  Overflow is not
    modelled: the numbers of the program stay below 2^100.  The examples at the
    end compare the operations with the Standard Library's [SpecFloat]. *)

From Stdlib Require Import SpecFloat.
From S2P Require Import Prelude.

(** One, in units of 2^-1074. *)
Definition unit64 : Z := 2 ^ 1074.

(** The integer nearest to [p / s], the even one of two. *)
Definition half_even (p s : Z) : Z :=
  let (n, rest) := Z.div_eucl p s in
  if 2 * rest <? s then n else if s <? 2 * rest then n + 1 else n + n mod 2.

(** The number nearest to [p / q] units: the last of its 53 bits counts [ulp]. *)
Definition round64 (p q : Z) : Z :=
  let ulp := 2 ^ Z.max 0 (Z.log2 (Z.abs p / q) - 52) in
  half_even p (q * ulp) * ulp.

Definition of_Z64 (n : Z) : Z := round64 (n * unit64) 1.
Definition add64 (x y : Z) : Z := round64 (x + y) 1.
Definition sub64 (x y : Z) : Z := round64 (x - y) 1.
Definition mul64 (x y : Z) : Z := round64 (x * y) unit64.
Definition div64 (x y : Z) : Z := round64 (x * unit64) y.

Lemma unit64_power : unit64 = 2 ^ 1074. Proof. reflexivity. Qed.
Lemma unit64_large : 2 ^ 200 ≤ unit64.
Proof. unfold unit64. apply Z.pow_le_mono_r; lia. Qed.
#[global] Opaque unit64.

(** ** Errors of rounding *)

Lemma half_even_error p s : 0 < s → 2 * Z.abs (half_even p s * s - p) ≤ s.
Proof.
  intros Hs. unfold half_even. pose proof (Z_div_mod p s ltac:(lia)) as E.
  destruct (Z.div_eucl p s) as [n rest]. destruct E as [E Hr]. pose proof (Z.mod_pos_bound n 2 ltac:(lia)) as H2.
  destruct (Z.ltb_spec (2 * rest) s); [lia|]. destruct (Z.ltb_spec s (2 * rest)); [lia|].
  assert (n mod 2 = 0 ∨ n mod 2 = 1) as [-> | ->] by lia; lia.
Qed.
Lemma half_even_nonneg p s : 0 < s → 0 ≤ p → 0 ≤ half_even p s.
Proof.
  intros Hs Hp. unfold half_even. pose proof (Z.div_pos p s Hp Hs) as Hn. unfold Z.div in Hn.
  destruct (Z.div_eucl p s) as [n rest]. pose proof (Z.mod_pos_bound n 2 ltac:(lia)). repeat case_match; lia.
Qed.
Lemma half_even_exact n s : 0 < s → half_even (n * s) s = n.
Proof.
  intros Hs. unfold half_even. pose proof (Z.div_mul n s ltac:(lia)) as Hn. pose proof (Z.mod_mul n s ltac:(lia)) as Hrest.
  unfold Z.div, Z.modulo in Hn, Hrest. destruct (Z.div_eucl (n * s) s). subst. by destruct (Z.ltb_spec (2 * 0) s); [|lia].
Qed.

Lemma ulp_pos k : 0 < 2 ^ Z.max 0 k.
Proof. apply Z.pow_pos_nonneg; lia. Qed.

(** The relative error is at most 2^-53, or half a unit. *)
Lemma round64_error p q : 0 < q → Z.abs (round64 p q * q - p) * 2 ^ 53 ≤ Z.abs p + q * 2 ^ 52.
Proof.
  intros Hq. unfold round64. cbv zeta. set (a := Z.abs p / q). set (ulp := 2 ^ Z.max 0 (Z.log2 a - 52)).
  assert (Hu : 0 < ulp) by apply ulp_pos. pose proof (half_even_error p (q * ulp) ltac:(nia)) as He.
  replace (half_even p (q * ulp) * ulp * q - p) with (half_even p (q * ulp) * (q * ulp) - p) by lia.
  assert (Hulp : q * ulp * 2 ^ 52 ≤ Z.abs p + q * 2 ^ 52); [|lia].
  subst ulp. destruct (Z.le_gt_cases (Z.log2 a) 52) as [Hs|Hl].
  - rewrite Z.max_l by lia. lia.
  - rewrite Z.max_r by lia. assert (Ha : 0 < a) by (destruct (Z.le_gt_cases a 0); [rewrite Z.log2_nonpos in Hl; lia|done]).
    assert (2 ^ (Z.log2 a - 52) * 2 ^ 52 ≤ a).
    { rewrite <-Z.pow_add_r by lia. replace (Z.log2 a - 52 + 52) with (Z.log2 a) by lia. by apply Z.log2_spec. }
    pose proof (Z.mul_div_le (Z.abs p) q Hq). fold a in H0. nia.
Qed.
Lemma round64_nonneg p q : 0 < q → 0 ≤ p → 0 ≤ round64 p q.
Proof.
  intros Hq Hp. unfold round64. cbv zeta. set (ulp := 2 ^ _). assert (0 < ulp) by apply ulp_pos.
  pose proof (half_even_nonneg p (q * ulp) ltac:(nia) Hp). nia.
Qed.
(** From above, of a number that is not negative. *)
Lemma round64_le p q : 0 < q → 0 ≤ p → round64 p q * q * 2 ^ 53 ≤ p * (2 ^ 53 + 1) + q * 2 ^ 52.
Proof. intros Hq Hp. pose proof (round64_error p q Hq). lia. Qed.

(** An integer of 53 bits is a number. *)
Lemma of_Z64_exact n : 0 ≤ n < 2 ^ 53 → of_Z64 n = n * unit64.
Proof.
  intros [Hn Hlt]. unfold of_Z64, round64. cbv zeta. rewrite Z.div_1_r, Z.mul_1_l.
  destruct (Z.eq_dec n 0) as [->|Hne]; [done|].
  assert (Hlog : Z.log2 (Z.abs (n * unit64)) = Z.log2 n + 1074).
  { pose proof unit64_large. rewrite Z.abs_eq by nia. rewrite unit64_power, (Z.add_comm _ 1074). apply Z.log2_mul_pow2; lia. }
  rewrite Hlog. assert (Hl : Z.log2 n < 53) by (apply Z.log2_lt_pow2; lia). pose proof (Z.log2_nonneg n).
  rewrite Z.max_r by lia. set (k := Z.log2 n + 1074 - 52).
  assert (Eu : unit64 = 2 ^ (1074 - k) * 2 ^ k).
  { rewrite unit64_power, <-Z.pow_add_r by lia. by replace (1074 - k + k) with 1074 by lia. }
  rewrite Eu, Z.mul_assoc. rewrite half_even_exact; [done|]. apply Z.pow_pos_nonneg; lia.
Qed.

(** ** Beside [SpecFloat] *)

Definition of_spec (x : spec_float) : option Z :=
  match x with
  | S754_zero _ => Some 0
  | S754_finite sign m e =>
      Some ((if sign then -1 else 1) * (Zpos m * 2 ^ (e + 1074)))
  | _ => None
  end.
Definition spec_Z (n : Z) : spec_float := binary_normalize 53 1024 n 0 false.

(** [tokens + ns / 10^9 * rate - 1], as both compute it. *)
Definition sample_spec (tokens ns rate : Z) : option Z :=
  of_spec (SFsub 53 1024 (SFadd 53 1024 (spec_Z tokens)
    (SFmul 53 1024 (SFdiv 53 1024 (spec_Z ns) (spec_Z (10 ^ 9))) (spec_Z rate))) (spec_Z 1)).
Definition sample_64 (tokens ns rate : Z) : Z :=
  sub64 (add64 (of_Z64 tokens) (mul64 (div64 (of_Z64 ns) (of_Z64 (10 ^ 9))) (of_Z64 rate))) (of_Z64 1).

Example agrees_with_SpecFloat :
  forallb (λ x, bool_decide (sample_spec x.1.1 x.1.2 x.2 = Some (sample_64 x.1.1 x.1.2 x.2)))
    [(0, 0, 5); (7, 1, 1); (0, 333333333, 3); (2, 30000000007, 33333331); (33333331, 12345678901234567, 4294967295);
     (1, 9007199254740993, 1); (4294967295, 6005143, 33333331); (0, 999999999, 1); (3, 1000000001, 7)] = true.
Proof. vm_compute. reflexivity. Qed.

(** Rounding happens: 2^53 + 1 is no number, and three times a third is one. *)
Example thirds_round :
  of_Z64 9007199254740993 = of_Z64 9007199254740992 ∧ mul64 (div64 (of_Z64 1) (of_Z64 3)) (of_Z64 3) = of_Z64 1.
Proof. split; vm_compute; reflexivity. Qed.
