(* ===== verification/RateLimit.v ===== *)
(** * The rate limiter of the front-end proxy ([proxy/src/rate_limiter.cpp])

    A bounded number of connections, a bounded number of them per address, and
    a bucket of tokens per address that refills with time.  A connection that
    was admitted holds a [Lease], whose destructor gives its place back.  The
    arithmetic of [double] is an interface, since most of what is proved does not
    depend on it; [binary64] is that of the machine, with its rounding
    ([Binary64]), and the rate is proved of it.  Times are the nanoseconds of
    the steady clock. *)

From S2P Require Import Prelude Binary64.

Definition kSweepInterval : Z := 5 * 10 ^ 9.
Definition kStaleTtl : Z := 30 * 10 ^ 9.

(** The operations of [double] that are used. *)
Class Double := {
  dbl : Type;
  d_of : Z → dbl;                      (* [static_cast<double>] *)
  d_seconds : Z → dbl;                 (* [duration<double>], of nanoseconds *)
  d_add : dbl → dbl → dbl;
  d_sub : dbl → dbl → dbl;
  d_mul : dbl → dbl → dbl;
  d_lt : dbl → dbl → bool
}.

Section Limiter.
Context `{Double}.

Record ip_entry := IpEntry {
  e_active : Z;
  e_tokens : dbl;
  e_last_refill : Z;
  e_last_seen : Z
}.

Record rate_limiter := RateLimiter {
  rl_max_connections : Z;
  rl_max_per_ip : Z;
  rl_tokens_max : dbl;
  rl_refill_per_sec : dbl;
  rl_active_global : Z;
  rl_last_sweep : Z;
  rl_entries : gmap str ip_entry
}.

Definition limiter_init (max_connections max_per_ip rate_limit rate_burst : Z) : rate_limiter :=
  RateLimiter max_connections max_per_ip (d_of rate_burst) (d_of rate_limit) 0 0 ∅.

Definition with_entries (active : Z) (entries : gmap str ip_entry) (r : rate_limiter) : rate_limiter :=
  RateLimiter (rl_max_connections r) (rl_max_per_ip r) (rl_tokens_max r) (rl_refill_per_sec r)
    active (rl_last_sweep r) entries.

(** [refill] *)
Definition refill (e : ip_entry) (now : Z) (r : rate_limiter) : ip_entry :=
  let elapsed := d_seconds (now - e_last_refill e) in
  let elapsed_sec := if d_lt elapsed (d_of 0) then d_of 0 else elapsed in
  let tokens := d_add (e_tokens e) (d_mul elapsed_sec (rl_refill_per_sec r)) in
  IpEntry (e_active e) (if d_lt (rl_tokens_max r) tokens then rl_tokens_max r else tokens) now (e_last_seen e).

(** [release] *)
Definition release (ip : str) (now : Z) (r : rate_limiter) : rate_limiter :=
  let active := if 0 <? rl_active_global r then rl_active_global r - 1 else rl_active_global r in
  match rl_entries r !! ip with
  | None => with_entries active (rl_entries r) r
  | Some e =>
      let e' := IpEntry (if 0 <? e_active e then e_active e - 1 else e_active e) (e_tokens e)
                  (e_last_refill e) now in
      with_entries active (<[ip := e']> (rl_entries r)) r
  end.

(** A [Lease]: the address it holds a place for, nothing once it was moved
    from.  [drop_lease] is the destructor, [assign_lease] the assignment. *)
Definition lease := option str.
Definition drop_lease (l : lease) (now : Z) (r : rate_limiter) : rate_limiter :=
  match l with Some ip => release ip now r | None => r end.
Definition assign_lease (target source : lease) (now : Z) (r : rate_limiter) : lease * rate_limiter :=
  (source, drop_lease target now r).

(** [try_admit]: [out] is the lease assigned to, [later] when it is. *)
Definition try_admit (ip : str) (now later : Z) (out : lease) (r : rate_limiter) : bool * lease * rate_limiter :=
  if rl_max_connections r <=? rl_active_global r then (false, out, r)
  else
    let entry := match rl_entries r !! ip with
                 | None => IpEntry 0 (rl_tokens_max r) now now
                 | Some e => refill e now r
                 end in
    let entry := IpEntry (e_active entry) (e_tokens entry) (e_last_refill entry) now in
    if (rl_max_per_ip r <=? e_active entry) || d_lt (e_tokens entry) (d_of 1)
    then (false, out, with_entries (rl_active_global r) (<[ip := entry]> (rl_entries r)) r)
    else
      let entry := IpEntry (e_active entry + 1) (d_sub (e_tokens entry) (d_of 1))
                     (e_last_refill entry) (e_last_seen entry) in
      let r := with_entries (rl_active_global r + 1) (<[ip := entry]> (rl_entries r)) r in
      let (out, r) := assign_lease out (Some ip) later r in
      (true, out, r).

(** [sweep_stale]: the entries that stay. *)
Definition fresh (now : Z) (e : ip_entry) : bool :=
  negb ((e_active e =? 0) && (kStaleTtl <=? now - e_last_seen e)).
Definition sweep_stale (now : Z) (r : rate_limiter) : rate_limiter :=
  with_entries (rl_active_global r) (filter (λ kv, fresh now kv.2) (rl_entries r)) r.
Definition maybe_sweep (now : Z) (r : rate_limiter) : rate_limiter :=
  if negb (rl_last_sweep r =? 0) && (now - rl_last_sweep r <? kSweepInterval) then r
  else
    sweep_stale now
      (RateLimiter (rl_max_connections r) (rl_max_per_ip r) (rl_tokens_max r) (rl_refill_per_sec r)
         (rl_active_global r) now (rl_entries r)).

(** ** Histories: [held] are the leases that live *)

Inductive limiter_op := Admit (ip : str) | Drop (i : nat) | Sweep.

Definition limiter_step (now : Z) (op : limiter_op) (st : rate_limiter * list str) : rate_limiter * list str :=
  let (r, held) := st in
  match op with
  | Admit ip => match try_admit ip now now None r with
                | (true, _, r) => (r, held ++ [ip])
                | (false, _, r) => (r, held)
                end
  | Drop i => match held !! i with Some ip => (release ip now r, delete i held) | None => st end
  | Sweep => (maybe_sweep now r, held)
  end.
Fixpoint limiter_run (ops : list (Z * limiter_op)) (st : rate_limiter * list str) : rate_limiter * list str :=
  match ops with [] => st | (now, op) :: rest => limiter_run rest (limiter_step now op st) end.

(** ** The counters *)

Definition holds (ip : str) (held : list str) : Z := Z.of_nat (length (filter (λ x, x = ip) held)).
Definition active_of (ip : str) (r : rate_limiter) : Z :=
  match rl_entries r !! ip with Some e => e_active e | None => 0 end.

Record limiter_ok (r : rate_limiter) (held : list str) : Prop := {
  lo_global : rl_active_global r = Z.of_nat (length held);
  lo_active : ∀ ip, active_of ip r = holds ip held;
  lo_max : Z.of_nat (length held) ≤ Z.max 0 (rl_max_connections r);
  lo_per_ip : ∀ ip, holds ip held ≤ Z.max 0 (rl_max_per_ip r) }.

Lemma holds_nonneg ip held : 0 ≤ holds ip held. Proof. unfold holds. lia. Qed.
Lemma holds_app ip held held' : holds ip (held ++ held') = holds ip held + holds ip held'.
Proof. unfold holds. rewrite filter_app, length_app. lia. Qed.
Lemma holds_one ip x : holds ip [x] = if decide (x = ip) then 1 else 0.
Proof. unfold holds. rewrite filter_cons. by case_decide. Qed.
Lemma holds_perm ip held held' : held ≡ₚ held' → holds ip held = holds ip held'.
Proof. intros E. unfold holds. by rewrite E. Qed.
Lemma holds_cons ip x held : holds ip (x :: held) = (if decide (x = ip) then 1 else 0) + holds ip held.
Proof. by rewrite <-holds_one, <-holds_app. Qed.

Lemma active_insert ip ip' e r active :
  active_of ip (with_entries active (<[ip' := e]> (rl_entries r)) r) =
  if decide (ip' = ip) then e_active e else active_of ip r.
Proof. unfold active_of. cbn. rewrite lookup_insert. by case_decide. Qed.

Lemma release_ok ip now r held held' :
  limiter_ok r held → held ≡ₚ ip :: held' → limiter_ok (release ip now r) held'.
Proof.
  intros [Hg Ha Hm Hp] E. pose proof (Permutation_length E) as Hlen. cbn [length] in Hlen.
  assert (Hh : ∀ x, holds x held = (if decide (ip = x) then 1 else 0) + holds x held').
  { intros x. rewrite (holds_perm x _ _ E). apply holds_cons. }
  assert (Hself : holds ip held = 1 + holds ip held') by (rewrite Hh; by case_decide).
  pose proof (holds_nonneg ip held') as Hpos. pose proof (Ha ip) as Haip. unfold active_of in Haip.
  unfold release. destruct (Z.ltb_spec 0 (rl_active_global r)); [|lia].
  destruct (rl_entries r !! ip) as [e|] eqn:Ee; [|lia]. destruct (Z.ltb_spec 0 (e_active e)); [|lia]. split; cbn.
  - lia.
  - intros x. rewrite active_insert, Ha, Hh. cbn. case_decide; subst; lia.
  - lia.
  - intros x. specialize (Hp x). rewrite Hh in Hp. case_decide; lia.
Qed.

(** An entry is touched without a lease being given. *)
Lemma touch_entry_ok ip e active r held :
  limiter_ok r held → active = rl_active_global r → e_active e = active_of ip r →
  limiter_ok (with_entries active (<[ip := e]> (rl_entries r)) r) held.
Proof.
  intros [Hg Ha Hm Hp] -> He. split; [done| |done|done]. intros x. rewrite active_insert. case_decide; [subst; by rewrite He|done].
Qed.

Lemma refill_active e now r : e_active (refill e now r) = e_active e. Proof. done. Qed.
Lemma entry_active ip now r :
  e_active (match rl_entries r !! ip with None => IpEntry 0 (rl_tokens_max r) now now | Some e => refill e now r end)
  = active_of ip r.
Proof. unfold active_of. by destruct (rl_entries r !! ip). Qed.

Lemma limiter_ok_perm r held held' : held ≡ₚ held' → limiter_ok r held → limiter_ok r held'.
Proof.
  intros E [Hg Ha Hm Hp]. split; [by rewrite <-E| |by rewrite <-E|]; intros x; by rewrite <-(holds_perm x _ _ E).
Qed.

(** The leases that live: [rest] and the one in [out]. *)
Lemma try_admit_ok ip now later out r rest :
  limiter_ok r (option_list out ++ rest) →
  let '(ok, out', r') := try_admit ip now later out r in
  limiter_ok r' (option_list out' ++ rest) ∧ out' = if ok : bool then Some ip else out.
Proof.
  intros Hok. unfold try_admit. destruct (Z.leb_spec (rl_max_connections r) (rl_active_global r)) as [|Hlt]; [done|].
  cbv zeta. set (e := match rl_entries r !! ip with None => _ | Some _ => _ end).
  assert (He : e_active e = active_of ip r) by apply entry_active. clearbody e.
  destruct ((rl_max_per_ip r <=? _) || _) eqn:Eb; [by split; [apply touch_entry_ok|]|].
  cbn in Eb. apply orb_false_iff in Eb as [Hper%Z.leb_gt _]. cbn [e_active e_tokens e_last_refill e_last_seen].
  set (e' := IpEntry (e_active e + 1) _ _ _). cbn [assign_lease]. split; [|done]. pose proof Hok as [Hg Ha Hm Hp].
  assert (Hnew : limiter_ok (with_entries (rl_active_global r + 1) (<[ip := e']> (rl_entries r)) r)
    (ip :: option_list out ++ rest)).
  { split; cbn [rl_active_global rl_max_connections rl_max_per_ip with_entries length].
    - lia.
    - intros x. rewrite active_insert, holds_cons, <-Ha. case_decide; [subst; cbn; lia|done].
    - lia.
    - intros x. rewrite holds_cons. specialize (Hp x). pose proof (Ha x). case_decide; [subst; lia|lia]. }
  destruct out as [x|]; cbn [drop_lease option_list app] in *; [|done].
  apply (release_ok x later _ _ _ Hnew). apply Permutation_swap.
Qed.

Lemma sweep_ok now r held : limiter_ok r held → limiter_ok (maybe_sweep now r) held.
Proof.
  intros Hok. unfold maybe_sweep. destruct (_ && _); [done|]. destruct Hok as [Hg Ha Hm Hp]. split; [done| |done|done].
  intros x. rewrite <-Ha. unfold active_of. cbn [sweep_stale with_entries rl_entries].
  destruct (filter _ (rl_entries r) !! x) as [e|] eqn:E.
  - apply map_lookup_filter_Some in E as [-> _]. done.
  - apply map_lookup_filter_None in E as [->|E]; [done|]. destruct (rl_entries r !! x) as [e|] eqn:Ex; [|done].
    specialize (E e eq_refl). cbn in E. unfold fresh in E. by destruct (Z.eqb_spec (e_active e) 0).
Qed.

Lemma limiter_ok_step now op r held :
  limiter_ok r held → let (r', held') := limiter_step now op (r, held) in limiter_ok r' held'.
Proof.
  intros Hok. destruct op as [ip|i|]; cbn [limiter_step].
  - pose proof (try_admit_ok ip now now None r held Hok) as H1. destruct (try_admit _ _ _ _ _) as [[[|] out] r'];
      destruct H1 as [H1 ->]; [|done]. eapply limiter_ok_perm; [|exact H1]. cbn. by rewrite Permutation_app_comm.
  - destruct (held !! i) as [ip|] eqn:E; [|done]. eapply release_ok; [exact Hok|]. by apply delete_Permutation.
  - by apply sweep_ok.
Qed.
Lemma limiter_ok_run ops : ∀ r held,
  limiter_ok r held → let (r', held') := limiter_run ops (r, held) in limiter_ok r' held'.
Proof.
  induction ops as [|[now op] ops IH]; intros r held Hok; [done|]. cbn [limiter_run].
  pose proof (limiter_ok_step now op r held Hok) as H1. destruct (limiter_step now op (r, held)) as [r1 held1]. by apply IH.
Qed.
Lemma limiter_ok_init max per limit burst : limiter_ok (limiter_init max per limit burst) [].
Proof. split; [done|done|apply Z.le_max_l|intros ip; apply Z.le_max_l]. Qed.

Lemma holds_in ip held : ip ∈ held → 0 < holds ip held.
Proof.
  intros Hin. unfold holds. assert (ip ∈ filter (λ x, x = ip) held) by by apply list_elem_of_filter.
  destruct (filter _ held); [by apply not_elem_of_nil in H0|cbn; lia].
Qed.

(** The limits never change. *)
Definition same_config (r r' : rate_limiter) : Prop :=
  rl_max_connections r' = rl_max_connections r ∧ rl_max_per_ip r' = rl_max_per_ip r ∧
  rl_tokens_max r' = rl_tokens_max r ∧ rl_refill_per_sec r' = rl_refill_per_sec r.
Lemma release_config ip now r : same_config r (release ip now r).
Proof. unfold release. by destruct (rl_entries r !! ip). Qed.
Lemma limiter_step_config now op r held : same_config r (limiter_step now op (r, held)).1.
Proof.
  destruct op as [ip|i|]; cbn [limiter_step].
  - unfold try_admit. destruct (_ <=? _); [done|]. cbv zeta. destruct (_ || _); done.
  - destruct (held !! i); [apply release_config|done].
  - cbn [fst]. unfold maybe_sweep. by destruct (_ && _).
Qed.
Lemma limiter_run_config ops : ∀ r held, let (r', _) := limiter_run ops (r, held) in same_config r r'.
Proof.
  induction ops as [|[now op] ops IH]; intros r held; [done|]. cbn [limiter_run].
  pose proof (limiter_step_config now op r held) as Hs. destruct (limiter_step now op (r, held)) as [r1 held1].
  specialize (IH r1 held1). destruct (limiter_run ops (r1, held1)) as [r2 held2]. unfold same_config in *. cbn [fst] in Hs.
  intuition congruence.
Qed.
End Limiter.

(** Every place is accounted for: whatever connections are admitted, closed
    and swept, in any order and with any arithmetic of the tokens, the limiter's
    counters are the numbers of leases that live, in total and for each address;
    so the limits hold, and no address with a connection is forgotten. *)
Theorem leases_are_counted `{Double} max per limit burst ops :
  0 ≤ max → 0 ≤ per →
  let (r, held) := limiter_run ops (limiter_init max per limit burst, []) in
  rl_active_global r = Z.of_nat (length held) ∧ Z.of_nat (length held) ≤ max ∧
  ∀ ip, active_of ip r = holds ip held ∧ holds ip held ≤ per ∧ (ip ∈ held → is_Some (rl_entries r !! ip)).
Proof.
  intros Hmax Hper. pose proof (limiter_ok_run ops _ _ (limiter_ok_init max per limit burst)) as Hok.
  pose proof (limiter_run_config ops (limiter_init max per limit burst) []) as Hc.
  destruct (limiter_run _ _) as [r held]. destruct Hc as (Em & Ep & _ & _). cbn in Em, Ep. destruct Hok as [Hg Ha Hm Hp].
  split; [done|]. split; [lia|]. intros ip. specialize (Ha ip). specialize (Hp ip). split; [done|]. split; [lia|].
  intros Hin. unfold active_of in Ha. destruct (rl_entries r !! ip) as [e|]; [done|].
  pose proof (holds_in ip held Hin). lia.
Qed.

(** ** The rate *)

(** The arithmetic of the machine.  Nanoseconds become seconds as
    [duration_cast] makes them: the count is converted, then divided. *)
Definition binary64 : Double := {|
  dbl := Z;
  d_of := of_Z64;
  d_seconds := λ ns, div64 (of_Z64 ns) (of_Z64 (10 ^ 9));
  d_add := add64;
  d_sub := sub64;
  d_mul := mul64;
  d_lt := Z.ltb |}.

(** Four roundings make a refill; together they give at most seven times 2^-53
    of the burst, when the bucket is not full. *)
Lemma refill_rounding rate burst tokens ns :
  0 ≤ rate < 2 ^ 32 → 0 ≤ tokens → 0 ≤ ns →
  tokens * 10 ^ 9 + ns * rate * unit64 < burst * unit64 * 10 ^ 9 →
  let seconds := div64 (of_Z64 ns) (of_Z64 (10 ^ 9)) in
  (add64 tokens (mul64 seconds (rate * unit64)) * 10 ^ 9 - (tokens * 10 ^ 9 + ns * rate * unit64)) * 2 ^ 53
    ≤ 7 * (burst * unit64 * 10 ^ 9).
Proof.
  intros Hrate Htok Hns Hroom. cbv zeta. rewrite (of_Z64_exact (10 ^ 9)) by lia. pose proof unit64_large as HU.
  assert (Hw : 0 ≤ ns * rate * unit64) by nia. assert (Hb : unit64 ≤ burst * unit64).
  { assert (0 < burst); [|nia]. destruct (Z.le_gt_cases burst 0); [|done]. assert (burst * unit64 ≤ 0) by nia. lia. }
  unfold of_Z64. set (x1 := round64 (ns * unit64) 1).
  assert (H1 : x1 * 2 ^ 53 ≤ ns * unit64 * (2 ^ 53 + 1) + 2 ^ 52).
  { pose proof (round64_le (ns * unit64) 1 ltac:(lia) ltac:(nia)) as H. fold x1 in H. lia. }
  assert (P1 : 0 ≤ x1) by (apply round64_nonneg; nia). clearbody x1. unfold div64.
  set (x2 := round64 (x1 * unit64) (10 ^ 9 * unit64)).
  assert (H2 : x2 * 10 ^ 9 * 2 ^ 53 ≤ x1 * (2 ^ 53 + 1) + 10 ^ 9 * 2 ^ 52).
  { pose proof (round64_le (x1 * unit64) (10 ^ 9 * unit64) ltac:(lia) ltac:(nia)) as H. fold x2 in H.
    apply (Z.mul_le_mono_pos_r _ _ unit64); lia. }
  assert (P2 : 0 ≤ x2) by (apply round64_nonneg; nia). clearbody x2. unfold mul64.
  set (x3 := round64 (x2 * (rate * unit64)) unit64).
  assert (H3 : x3 * 2 ^ 53 ≤ x2 * rate * (2 ^ 53 + 1) + 2 ^ 52).
  { pose proof (round64_le (x2 * (rate * unit64)) unit64 ltac:(lia) ltac:(nia)) as H. fold x3 in H.
    apply (Z.mul_le_mono_pos_r _ _ unit64); lia. }
  assert (P3 : 0 ≤ x3) by (apply round64_nonneg; nia). clearbody x3. unfold add64.
  set (x4 := round64 (tokens + x3) 1).
  assert (H4 : x4 * 2 ^ 53 ≤ (tokens + x3) * (2 ^ 53 + 1) + 2 ^ 52).
  { pose proof (round64_le (tokens + x3) 1 ltac:(lia) ltac:(lia)) as H. fold x4 in H. lia. }
  clearbody x4.
  apply (Z.mul_le_mono_nonneg_r _ _ rate) in H1, H2; [|lia..]. set (y1 := x1 * rate) in *. set (y2 := x2 * rate) in *.
  replace (x1 * 2 ^ 53 * rate) with (y1 * 2 ^ 53) in H1 by lia.
  replace (x2 * 10 ^ 9 * 2 ^ 53 * rate) with (y2 * 10 ^ 9 * 2 ^ 53) in H2 by lia.
  replace ((x1 * (2 ^ 53 + 1) + 10 ^ 9 * 2 ^ 52) * rate) with (y1 * (2 ^ 53 + 1) + 10 ^ 9 * 2 ^ 52 * rate) in H2 by lia.
  set (w := ns * rate * unit64) in *.
  replace ((ns * unit64 * (2 ^ 53 + 1) + 2 ^ 52) * rate) with (w * (2 ^ 53 + 1) + 2 ^ 52 * rate) in H1 by lia.
  clearbody w y1 y2. set (bu := burst * unit64) in *. clearbody bu. lia.
Qed.

Section Rate.
#[local] Existing Instance binary64.
Variables rate burst : Z.
Hypothesis rate_range : 0 ≤ rate < 2 ^ 32.
Hypothesis burst_bound : 0 ≤ burst ≤ 30 * rate.

Definition configured (r : rate_limiter) : Prop :=
  rl_tokens_max r = burst * unit64 ∧ rl_refill_per_sec r = rate * unit64.

(** A full bucket, and the tokens an address could spend at [t] if nothing were
    rounded: in billionths of [unit64]. *)
Definition full : Z := burst * unit64 * 10 ^ 9.
Definition entry_credit (e : ip_entry) (t : Z) : Z :=
  Z.min full ((e_tokens e : Z) * 10 ^ 9 + (t - e_last_refill e) * rate * unit64).
Definition credit (ip : str) (t : Z) (r : rate_limiter) : Z :=
  match rl_entries r !! ip with Some e => entry_credit e t | None => full end.

(** Buckets in order at [t]. *)
Definition entry_rated (t : Z) (e : ip_entry) : Prop :=
  0 ≤ (e_tokens e : Z) ≤ burst * unit64 ∧ e_last_refill e ≤ e_last_seen e ≤ t.
Definition rated (t : Z) (r : rate_limiter) : Prop := ∀ ip e, rl_entries r !! ip = Some e → entry_rated t e.

Lemma refill_credit e now r :
  configured r → entry_rated now e →
  let e' := refill e now r in
  ((e_tokens e' : Z) * 10 ^ 9 - entry_credit e now) * 2 ^ 53 ≤ 7 * full ∧
  e_last_refill e' = now ∧ 0 ≤ (e_tokens e' : Z) ≤ burst * unit64.
Proof using burst_bound rate_range.
  intros [Emax Erate] [Ht Hl]. unfold refill, entry_credit, full. cbv zeta. pose proof unit64_large as HU.
  cbn [e_tokens e_last_refill d_lt d_of d_seconds d_mul d_add binary64]. rewrite Emax, Erate.
  pose proof (of_Z64_exact 0 ltac:(lia)) as E0. rewrite Z.mul_0_l in E0. rewrite E0.
  set (ns := now - e_last_refill e). assert (Hns : 0 ≤ ns) by lia. set (sec := div64 _ _).
  assert (Hsec : 0 ≤ sec).
  { unfold sec, div64. rewrite (of_Z64_exact (10 ^ 9)) by lia. apply round64_nonneg; [lia|].
    apply Z.mul_nonneg_nonneg; [|lia]. unfold of_Z64. apply round64_nonneg; nia. }
  destruct (Z.ltb_spec sec 0) as [|_]; [lia|].
  pose proof (refill_rounding rate burst (e_tokens e) ns rate_range ltac:(lia) Hns) as Hround. cbv zeta in Hround.
  fold sec in Hround. set (tok := add64 _ _) in *. assert (Htok : 0 ≤ tok).
  { unfold tok, add64, mul64. apply round64_nonneg; [lia|]. assert (0 ≤ round64 (sec * (rate * unit64)) unit64); [|lia].
    apply round64_nonneg; [lia|]. apply Z.mul_nonneg_nonneg; [done|]. nia. }
  assert (Hfull : 0 ≤ burst * unit64) by nia. set (bu := burst * unit64) in *. set (w := ns * rate * unit64) in *.
  clearbody tok bu w. split_and!; [|done|destruct (Z.ltb_spec bu tok); lia..]. cbn [e_tokens].
  destruct (Z.le_gt_cases (bu * 10 ^ 9) ((e_tokens e : Z) * 10 ^ 9 + w)) as [Hle|Hroom].
  - rewrite Z.min_l by done. destruct (Z.ltb_spec bu tok); lia.
  - rewrite Z.min_r by lia. specialize (Hround Hroom). destruct (Z.ltb_spec bu tok); lia.
Qed.

Lemma credit_later ip t now r : rated t r → t ≤ now → credit ip now r ≤ credit ip t r + rate * unit64 * (now - t).
Proof using burst_bound rate_range.
  intros Hr Ht. unfold credit. pose proof unit64_large. assert (0 ≤ rate * unit64 * (now - t)) by (apply Z.mul_nonneg_nonneg; nia).
  destruct (rl_entries r !! ip) as [e|]; [unfold entry_credit; lia|lia].
Qed.
Lemma credit_bound ip t r : credit ip t r ≤ full.
Proof using Type. unfold credit, entry_credit. destruct (rl_entries r !! ip); lia. Qed.
Lemma credit_nonneg ip t r : rated t r → 0 ≤ credit ip t r.
Proof using burst_bound rate_range.
  intros Hr. pose proof unit64_large. assert (0 ≤ full) by (unfold full; nia). unfold credit.
  destruct (rl_entries r !! ip) as [e|] eqn:E; [|done]. destruct (Hr ip e E) as [? ?]. unfold entry_credit.
  assert (0 ≤ (t - e_last_refill e) * rate * unit64) by (apply Z.mul_nonneg_nonneg; nia). lia.
Qed.

Lemma rated_insert ip e t active r :
  rated t r → entry_rated t e → rated t (with_entries active (<[ip := e]> (rl_entries r)) r).
Proof using Type. intros Hr He ip' e' [H'| ->]%lookup_insert_cases; [by eapply Hr|done]. Qed.
Lemma credit_insert ip ip' e t active r :
  credit ip t (with_entries active (<[ip' := e]> (rl_entries r)) r) =
  if decide (ip' = ip) then entry_credit e t else credit ip t r.
Proof using Type. unfold credit. cbn [rl_entries with_entries]. rewrite lookup_insert. by case_decide. Qed.
Lemma rated_later t now r : t ≤ now → rated t r → rated now r.
Proof using Type. intros Ht Hr ip e He. destruct (Hr ip e He). split; [done|lia]. Qed.

(** What an operation at [now] leaves for [ip], with the tokens it spent: the
    [k] attempts of [ip] in it may have rounded a 2^-50th of the burst up. *)
Definition spends (now : Z) (ip : str) (n k : Z) (r r' : rate_limiter) : Prop :=
  rated now r' ∧ (n * (unit64 * 10 ^ 9) + credit ip now r' - credit ip now r) * 2 ^ 50 ≤ k * full.
Lemma spends_nothing ip now r r' : rl_entries r' = rl_entries r → rated now r → spends now ip 0 0 r r'.
Proof using Type. intros E Hr. unfold spends, rated, credit. rewrite E. split; [done|lia]. Qed.

Lemma release_spends ip ip' now r : rated now r → spends now ip 0 0 r (release ip' now r).
Proof using Type.
  intros Hr. unfold release. destruct (rl_entries r !! ip') as [e|] eqn:E; [|by apply spends_nothing].
  destruct (Hr ip' e E) as [Ht Hl]. split; [apply rated_insert; [done|]; split; [done|cbn; lia]|].
  rewrite credit_insert. case_decide; [|lia]. subst. unfold credit. rewrite E. unfold entry_credit. cbn. lia.
Qed.
Lemma sweep_spends ip now r : rated now r → spends now ip 0 0 r (maybe_sweep now r).
Proof using burst_bound rate_range.
  intros Hr. unfold maybe_sweep. destruct (_ && _); [by apply spends_nothing|]. split.
  - intros x e. cbn [sweep_stale with_entries rl_entries]. intros [He _]%map_lookup_filter_Some. by eapply Hr.
  - unfold credit. cbn [sweep_stale with_entries rl_entries]. destruct (filter _ (rl_entries r) !! ip) as [e|] eqn:E.
    + apply map_lookup_filter_Some in E as [-> _]. lia.
    + destruct (rl_entries r !! ip) as [e|] eqn:Ex; [|lia].
      apply map_lookup_filter_None in E as [E|E]; [congruence|]. specialize (E e Ex). cbn in E.
      destruct (fresh now e) eqn:Ef; [by destruct E|]. unfold fresh in Ef. apply negb_false_iff in Ef.
      apply andb_prop in Ef as [_ Hstale%Z.leb_le]. destruct (Hr ip e Ex) as [Ht Hl].
      unfold entry_credit, full, kStaleTtl in *. pose proof unit64_large.
      assert (30 * 10 ^ 9 * rate * unit64 ≤ (now - e_last_refill e) * rate * unit64) by (apply Z.mul_le_mono_nonneg_r; nia).
      assert (burst * unit64 ≤ 30 * rate * unit64) by (apply Z.mul_le_mono_nonneg_r; lia). lia.
Qed.
(** A token is taken from a bucket that has one. *)
Lemma take_rounding tokens :
  unit64 ≤ tokens ≤ burst * unit64 →
  0 ≤ sub64 tokens (of_Z64 1) ≤ burst * unit64 ∧
  (sub64 tokens (of_Z64 1) * 10 ^ 9 - (tokens - unit64) * 10 ^ 9) * 2 ^ 53 ≤ full.
Proof using burst_bound rate_range.
  intros Ht. pose proof unit64_large as HU. assert (burst * unit64 ≤ 2 ^ 37 * unit64) by (apply Z.mul_le_mono_nonneg_r; lia).
  rewrite (of_Z64_exact 1), Z.mul_1_l by lia. unfold sub64, full.
  set (x := round64 _ 1). assert (0 ≤ x) by (apply round64_nonneg; lia).
  pose proof (round64_le (tokens - unit64) 1 ltac:(lia) ltac:(lia)) as H1. fold x in H1. clearbody x. split; lia.
Qed.
Lemma admit_spends ip ip' now r :
  configured r → rated now r →
  let '(ok, _, r') := try_admit ip' now now None r in
  spends now ip (if (ok : bool) && bool_decide (ip' = ip) then 1 else 0) (if bool_decide (ip' = ip) then 1 else 0) r r'.
Proof using burst_bound rate_range.
  intros Hc Hr. pose proof unit64_large as HU. assert (Hf : 0 ≤ full) by (unfold full; nia).
  unfold try_admit. destruct (_ <=? _); [split; [done|]; cbn [andb]; case_bool_decide; lia|]. cbv zeta.
  set (e := match rl_entries r !! ip' with None => _ | Some _ => _ end).
  assert (He : ((e_tokens e : Z) * 10 ^ 9 - credit ip' now r) * 2 ^ 53 ≤ 7 * full ∧ e_last_refill e = now ∧
               0 ≤ (e_tokens e : Z) ≤ burst * unit64).
  { unfold e, credit. destruct (rl_entries r !! ip') as [e0|] eqn:E0; [by apply refill_credit; [|apply (Hr ip')]|].
    destruct Hc as [Emax _]. cbn. rewrite Emax. unfold full in *. split_and!; [lia|done|nia|lia]. }
  destruct He as (Etok & Eref & Erange). clearbody e. destruct (_ || _) eqn:Eb.
  - cbn [andb]. split; [apply rated_insert; [done|]; split; cbn; lia|]. rewrite credit_insert.
    case_decide; [rewrite bool_decide_eq_true_2 by done|rewrite bool_decide_eq_false_2 by done; lia].
    subst. unfold entry_credit. cbn [e_tokens e_last_refill]. lia.
  - apply orb_false_iff in Eb as [_ Htok]. cbn [e_tokens d_lt d_of binary64] in Htok. apply Z.ltb_ge in Htok.
    pose proof (of_Z64_exact 1 ltac:(lia)) as E1.
    destruct (take_rounding (e_tokens e)) as [Hrange Htake]; [rewrite E1 in Htok; lia|]. cbn [assign_lease drop_lease]. split.
    + apply rated_insert; [done|]. split; cbn; lia.
    + rewrite credit_insert. cbn [andb].
      case_decide; [rewrite bool_decide_eq_true_2 by done|rewrite bool_decide_eq_false_2 by done; lia].
      subst. unfold entry_credit. cbn [e_tokens e_last_refill d_sub d_of binary64]. lia.
Qed.

(** How often [ip] is admitted by [ops]. *)
Definition admits (now : Z) (op : limiter_op) (ip : str) (r : rate_limiter) : Z :=
  match op with
  | Admit ip' => let '(ok, _, _) := try_admit ip' now now None r in
                 if (ok : bool) && bool_decide (ip' = ip) then 1 else 0
  | _ => 0
  end.
Fixpoint admissions (ip : str) (ops : list (Z * limiter_op)) (st : rate_limiter * list str) : Z :=
  match ops with
  | [] => 0
  | (now, op) :: rest => admits now op ip st.1 + admissions ip rest (limiter_step now op st)
  end.

(** How often it tries. *)
Definition tries (op : limiter_op) (ip : str) : Z :=
  match op with Admit ip' => if bool_decide (ip' = ip) then 1 else 0 | _ => 0 end.
Definition attempts (ip : str) (ops : list (Z * limiter_op)) : Z := foldr (λ x n, tries x.2 ip + n) 0 ops.

Lemma step_spends ip now op r held :
  configured r → rated now r → spends now ip (admits now op ip r) (tries op ip) r (limiter_step now op (r, held)).1.
Proof using burst_bound rate_range.
  intros Hc Hr. destruct op as [ip'|i|]; cbn [limiter_step admits tries].
  - pose proof (admit_spends ip ip' now r Hc Hr) as Hs. by destruct (try_admit _ _ _ _ _) as [[[|] out] r'].
  - destruct (held !! i); [by apply release_spends|by apply spends_nothing].
  - by apply sweep_spends.
Qed.
Lemma config_kept r r' : same_config r r' → configured r → configured r'.
Proof using Type. intros (_ & _ & E1 & E2) [H1 H2]. split; congruence. Qed.

Lemma run_spends ip ops : ∀ t t' r held,
  configured r → rated t r → timeline t ops t' →
  let r' := (limiter_run ops (r, held)).1 in
  configured r' ∧ rated t' r' ∧
  (admissions ip ops (r, held) * (unit64 * 10 ^ 9) + credit ip t' r' - credit ip t r - rate * unit64 * (t' - t)) * 2 ^ 50
    ≤ attempts ip ops * full.
Proof using burst_bound rate_range.
  induction ops as [|[now op] ops IH]; intros t t' r held Hc Hr Htl; cbn [limiter_run admissions attempts foldr timeline fst snd] in *.
  - split; [done|]. split; [by eapply rated_later|]. pose proof (credit_later ip t t' r Hr Htl). lia.
  - destruct Htl as [Ht Htl]. pose proof (credit_later ip t now r Hr Ht) as Hlater.
    destruct (step_spends ip now op r held Hc (rated_later _ _ _ Ht Hr)) as [Hr1 Hspent].
    pose proof (config_kept _ _ (limiter_step_config now op r held) Hc) as Hc1.
    destruct (limiter_step now op (r, held)) as [r1 held1]. cbn [fst] in *.
    destruct (IH now t' r1 held1 Hc1 Hr1 Htl) as (Hc' & Hr' & Hle). split; [done|]. split; [done|].
    change (foldr _ 0 ops) with (attempts ip ops). lia.
Qed.
End Rate.

(** C32: The rate is kept, in the rounded arithmetic of [double]: in any stretch
    of time, whatever happened before and whatever is admitted, closed and swept
    meanwhile, an address is admitted no more often than the burst and what the
    rate allows for that time, but for what rounding gives away: at most a
    2^-50th of the burst each time it tries.  (Something must be allowed for:
    [refill_rounds_up].)  The burst must refill within the time an idle entry is kept, 30 seconds: with a
    larger one sweeping an entry is a refund ([sweep_refunds]). *)
Theorem admissions_are_rated max per rate burst before ops t0 t1 ip :
  rate < 2 ^ 32 → 0 ≤ burst < 2 ^ 32 → burst ≤ 30 * rate → timeline 0 before t0 → timeline t0 ops t1 →
  admissions ip ops (limiter_run before (@limiter_init binary64 max per rate burst, [])) * 10 ^ 9
    ≤ burst * 10 ^ 9 + rate * (t1 - t0) + attempts ip ops * (burst * 10 ^ 9) / 2 ^ 50.
Proof.
  intros Hrate Hburst Hb Hbefore Hops. assert (Hr0 : 0 ≤ rate < 2 ^ 32) by lia. assert (Hb0 : 0 ≤ burst ≤ 30 * rate) by lia.
  destruct (run_spends rate burst Hr0 Hb0 ip before 0 t0 (@limiter_init binary64 max per rate burst) []) as (Hc & Hr & _);
    [split; apply of_Z64_exact; lia|by intros x e He|done|].
  destruct (limiter_run before _) as [r held].
  destruct (run_spends rate burst Hr0 Hb0 ip ops t0 t1 r held Hc Hr Hops) as (_ & Hr' & Hle).
  pose proof (credit_bound rate burst ip t0 r). pose proof (credit_nonneg rate burst Hr0 Hb0 ip t1 _ Hr').
  pose proof unit64_large. unfold full in *. set (n := admissions _ _ _) in *.
  assert (Hdiv : (n * 10 ^ 9 - burst * 10 ^ 9 - rate * (t1 - t0)) * 2 ^ 50 ≤ attempts ip ops * (burst * 10 ^ 9)).
  { apply (Z.mul_le_mono_pos_r _ _ unit64); lia. }
  pose proof (Z.div_le_lower_bound _ (2 ^ 50) _ ltac:(lia) ltac:(rewrite Z.mul_comm; exact Hdiv)). lia.
Qed.

(** ** Witnesses *)

Definition sample_limiter_ops : list (Z * limiter_op) :=
  [(0, Admit (lit "198.51.100.7")); (5, Admit (lit "198.51.100.7")); (7, Admit (lit "198.51.100.7"));
   (8, Drop 0); (9, Admit (lit "203.0.113.9")); (40 * 10 ^ 9, Sweep); (41 * 10 ^ 9, Admit (lit "198.51.100.7"))].

Lemma leases_are_counted_witness :
  let (r, held) := limiter_run sample_limiter_ops (@limiter_init binary64 3 2 1 2, []) in
  length held = 3%nat ∧ rl_active_global r = 3 ∧ Z.of_nat (length held) ≤ 3 ∧
  ∀ ip, active_of ip r = holds ip held ∧ holds ip held ≤ 2 ∧ (ip ∈ held → is_Some (rl_entries r !! ip)).
Proof.
  destruct (limiter_run sample_limiter_ops (@limiter_init binary64 3 2 1 2, [])) as [r held] eqn:E.
  pose proof (@leases_are_counted binary64 3 2 1 2 sample_limiter_ops) as Ht. rewrite E in Ht.
  assert (Hlen : length held = 3%nat) by (change (length (r, held).2 = 3%nat); rewrite <-E; vm_compute; reflexivity).
  destruct Ht as (H1 & H2 & H3); [lia|lia|]. split; [exact Hlen|]. split; [rewrite H1, Hlen; reflexivity|]. by split.
Defined.

Lemma admissions_are_rated_witness :
  let ops := [(50 * 10 ^ 9, Admit (lit "198.51.100.7")); (50 * 10 ^ 9 + 1, Admit (lit "198.51.100.7"));
              (50 * 10 ^ 9 + 2, Admit (lit "198.51.100.7"))] in
  admissions (lit "198.51.100.7") ops (limiter_run sample_limiter_ops (@limiter_init binary64 9 9 1 2, [])) = 2 ∧
  admissions (lit "198.51.100.7") ops (limiter_run sample_limiter_ops (@limiter_init binary64 9 9 1 2, [])) * 10 ^ 9
    ≤ 2 * 10 ^ 9 + 1 * (51 * 10 ^ 9 - 45 * 10 ^ 9) + attempts (lit "198.51.100.7") ops * (2 * 10 ^ 9) / 2 ^ 50.
Proof.
  intros ops. split; [vm_compute; reflexivity|].
  apply (admissions_are_rated 9 9 1 2 sample_limiter_ops ops (45 * 10 ^ 9) (51 * 10 ^ 9) (lit "198.51.100.7"));
    [lia|lia|lia|cbn; lia|cbn; lia].
Defined.

(** A refill can be rounded up to a token that is not yet earned. *)
Example refill_rounds_up :
  300000003 * 33333333 < 10000000 * 10 ^ 9 ∧
  let r := @limiter_init binary64 9 9 33333333 33333333 in
  e_tokens (refill (@IpEntry binary64 0 (of_Z64 0) 0 0) 300000003 r) = of_Z64 10000000.
Proof. split; [lia|vm_compute; reflexivity]. Qed.

(** With a burst above 30 seconds of the rate, an entry that is swept comes back
    full: 32 at once, and 32 again half a minute later. *)
Example sweep_refunds :
  let burst := repeat (0, Admit (lit "198.51.100.7")) 32 in
  let close := repeat (0, Drop 0) 32 in
  let again := repeat (30 * 10 ^ 9, Admit (lit "198.51.100.7")) 32 in
  admissions (lit "198.51.100.7") (burst ++ close ++ (30 * 10 ^ 9, Sweep) :: again)
    (@limiter_init binary64 1000 1000 1 32, []) = 64.
Proof. vm_compute. reflexivity. Qed.
