(* ===== verification/Relay.v ===== *)
(** * The front-end proxy ([proxy/src/proxy_server.cpp])

    Every TCP connection that the rate limiter admits is relayed to the SSH
    backend: what one side sends is written to the other, or buffered while the
    other cannot take it, behind the PROXY line that names the client.  The
    calls of the kernel are answered by the environment: an event comes with
    the answers to the calls it leads to ([answers]; a list that is used up
    means [EAGAIN], or success).  The [wire] of a session is what passed
    through its two sockets.

    A handler works on the session of its event: [Live] while
    [find_session] finds it.  Buffers are byte strings with a head. *)

From S2P Require Import Prelude PyStr RateLimit.

Definition kMaxBufferBytes : Z := 64 * 1024.
Definition kReadChunk : Z := 16 * 1024.
Definition kCompactThreshold : Z := 8 * 1024.
Definition kTokenListen : Z := 0.
Definition kTokenWakeup : Z := 1.

(** The bits of [<sys/epoll.h>]. *)
Definition EPOLLIN : Z := 1.
Definition EPOLLOUT : Z := 4.
Definition EPOLLERR : Z := 8.
Definition EPOLLHUP : Z := 16.
Definition EPOLLRDHUP : Z := 8192.
Definition has_bits (events mask : Z) : bool := negb (Z.land events mask =? 0).
Definition kHangupEvents : Z := Z.lor (Z.lor EPOLLERR EPOLLHUP) EPOLLRDHUP.

Inductive errno := EAGAIN | EINTR | ENOTCONN | EINVAL | EOTHER.
#[export] Instance errno_eq_dec : EqDecision errno.
Proof. solve_decision. Defined.

(** ** Sessions *)

Inductive session_state := Connecting | Established | Closing.
#[export] Instance session_state_eq_dec : EqDecision session_state.
Proof. solve_decision. Defined.
Inductive socket_role := SClient | SBackend.
#[export] Instance socket_role_eq_dec : EqDecision socket_role.
Proof. solve_decision. Defined.
Definition role_value (r : socket_role) : Z := match r with SClient => 0 | SBackend => 1 end.
Definition peer_of (r : socket_role) : socket_role := match r with SClient => SBackend | SBackend => SClient end.

(** [session_token], a 64-bit integer, and its inverse. *)
Definition session_token (id : Z) (role : socket_role) : Z :=
  Z.lor (Z.shiftl id 2 mod 2 ^ 64) (role_value role + 2).
Definition decode_session_token (token : Z) : option (Z * socket_role) :=
  if token <? 2 then None
  else
    let tag := Z.land token 3 in
    if negb (tag =? 2) && negb (tag =? 3) then None
    else
      let id := Z.shiftr token 2 in
      if id =? 0 then None else Some (id, if tag =? 2 then SClient else SBackend).

Record buffer := Buffer { b_bytes : str; b_head : Z }.
Definition empty_buffer : buffer := Buffer [] 0.
Definition size (s : str) : Z := Z.of_nat (length s).
Definition pending_size (b : buffer) : Z := size (b_bytes b) - b_head b.
(** The bytes still to be written. *)
Definition pending (b : buffer) : str := drop (Z.to_nat (b_head b)) (b_bytes b).
Definition compact_buf (b : buffer) : buffer :=
  if b_head b =? 0 then b
  else if size (b_bytes b) <=? b_head b then empty_buffer
  else Buffer (pending b) 0.
Definition consume_buf (b : buffer) (nbytes : Z) : buffer :=
  let b := Buffer (b_bytes b) (b_head b + nbytes) in
  if size (b_bytes b) <=? b_head b then empty_buffer
  else if kCompactThreshold <=? b_head b then compact_buf b else b.
Definition append_buf (b : buffer) (bytes : str) : buffer := Buffer (b_bytes b ++ bytes) (b_head b).

Record proxy_session := ProxySession {
  ps_to_backend : buffer;
  ps_to_client : buffer;
  ps_state : session_state;
  ps_client_read_eof : bool;
  ps_backend_read_eof : bool;
  ps_client_wr_shutdown : bool;
  ps_backend_wr_shutdown : bool;
  ps_client_events : Z;
  ps_backend_events : Z;
  ps_lease : lease;
  ps_proxy_header : str
}.

Definition out_buf (s : proxy_session) (dest : socket_role) : buffer :=
  match dest with SBackend => ps_to_backend s | SClient => ps_to_client s end.
Definition has_read_eof (s : proxy_session) (role : socket_role) : bool :=
  match role with SClient => ps_client_read_eof s | SBackend => ps_backend_read_eof s end.
Definition wr_shutdown (s : proxy_session) (role : socket_role) : bool :=
  match role with SClient => ps_client_wr_shutdown s | SBackend => ps_backend_wr_shutdown s end.
Definition watched (s : proxy_session) (role : socket_role) : Z :=
  match role with SClient => ps_client_events s | SBackend => ps_backend_events s end.

Definition set_out_buf (dest : socket_role) (b : buffer) (s : proxy_session) : proxy_session :=
  ProxySession (match dest with SBackend => b | SClient => ps_to_backend s end)
    (match dest with SClient => b | SBackend => ps_to_client s end) (ps_state s)
    (ps_client_read_eof s) (ps_backend_read_eof s) (ps_client_wr_shutdown s) (ps_backend_wr_shutdown s)
    (ps_client_events s) (ps_backend_events s) (ps_lease s) (ps_proxy_header s).
Definition set_read_eof (role : socket_role) (s : proxy_session) : proxy_session :=
  ProxySession (ps_to_backend s) (ps_to_client s) Closing
    (match role with SClient => true | SBackend => ps_client_read_eof s end)
    (match role with SBackend => true | SClient => ps_backend_read_eof s end)
    (ps_client_wr_shutdown s) (ps_backend_wr_shutdown s)
    (ps_client_events s) (ps_backend_events s) (ps_lease s) (ps_proxy_header s).
Definition set_wr_shutdown (role : socket_role) (s : proxy_session) : proxy_session :=
  ProxySession (ps_to_backend s) (ps_to_client s) (ps_state s) (ps_client_read_eof s) (ps_backend_read_eof s)
    (match role with SClient => true | SBackend => ps_client_wr_shutdown s end)
    (match role with SBackend => true | SClient => ps_backend_wr_shutdown s end)
    (ps_client_events s) (ps_backend_events s) (ps_lease s) (ps_proxy_header s).
Definition set_events (client backend : Z) (s : proxy_session) : proxy_session :=
  ProxySession (ps_to_backend s) (ps_to_client s) (ps_state s) (ps_client_read_eof s) (ps_backend_read_eof s)
    (ps_client_wr_shutdown s) (ps_backend_wr_shutdown s) client backend (ps_lease s) (ps_proxy_header s).

(** [inject_proxy_header], with the state [finish_connect] and [spawn_session]
    give the session. *)
Definition inject_proxy_header (s : proxy_session) : proxy_session :=
  let b := ps_to_backend s in
  let head := Z.to_nat (b_head b) in
  let bytes := take head (b_bytes b) ++ ps_proxy_header s ++ drop head (b_bytes b) in
  if bool_decide (ps_proxy_header s = []) then s
  else
    ProxySession (Buffer bytes (b_head b)) (ps_to_client s) (ps_state s)
      (ps_client_read_eof s) (ps_backend_read_eof s) (ps_client_wr_shutdown s) (ps_backend_wr_shutdown s)
      (ps_client_events s) (ps_backend_events s) (ps_lease s) [].
Definition established (s : proxy_session) : proxy_session :=
  ProxySession (ps_to_backend s) (ps_to_client s) Established
    (ps_client_read_eof s) (ps_backend_read_eof s) (ps_client_wr_shutdown s) (ps_backend_wr_shutdown s)
    (ps_client_events s) (ps_backend_events s) (ps_lease s) (ps_proxy_header s).

Definition is_connecting (s : proxy_session) : bool := bool_decide (ps_state s = Connecting).

(** [desired_events] *)
Definition desired_events (s : proxy_session) (role : socket_role) : Z :=
  let outgoing := pending_size (out_buf s role) in
  let incoming_cap := pending_size (out_buf s (peer_of role)) in
  let opening := is_connecting s && bool_decide (role = SBackend) in
  let events := if (0 <? outgoing) || opening then Z.lor kHangupEvents EPOLLOUT else kHangupEvents in
  if opening then Z.lor events EPOLLIN
  else if negb (is_connecting s) && negb (has_read_eof s role) && (incoming_cap <? kMaxBufferBytes)
  then Z.lor events EPOLLIN else events.

(** ** What the kernel answers *)

Inductive recv_answer := RecvBytes (bytes : str) | RecvErr (e : errno).   (* no bytes: the end *)
Inductive send_answer := SentBytes (n : Z) | SendErr (e : errno).
Record answers := Answers {
  an_sends : list send_answer;
  an_shutdowns : list (option errno);
  an_watches : list bool              (* [epoll_ctl] succeeds *)
}.

(** What passed through the sockets of a session. *)
Record wire := Wire {
  w_from_client : str;
  w_to_backend : str;
  w_from_backend : str;
  w_to_client : str
}.
Definition empty_wire : wire := Wire [] [] [] [].
Definition w_from (w : wire) (r : socket_role) : str :=
  match r with SClient => w_from_client w | SBackend => w_from_backend w end.
Definition w_to (w : wire) (r : socket_role) : str :=
  match r with SClient => w_to_client w | SBackend => w_to_backend w end.
Definition wire_recv (r : socket_role) (bytes : str) (w : wire) : wire :=
  match r with
  | SClient => Wire (w_from_client w ++ bytes) (w_to_backend w) (w_from_backend w) (w_to_client w)
  | SBackend => Wire (w_from_client w) (w_to_backend w) (w_from_backend w ++ bytes) (w_to_client w)
  end.
Definition wire_send (r : socket_role) (bytes : str) (w : wire) : wire :=
  match r with
  | SClient => Wire (w_from_client w) (w_to_backend w) (w_from_backend w) (w_to_client w ++ bytes)
  | SBackend => Wire (w_from_client w) (w_to_backend w ++ bytes) (w_from_backend w) (w_to_client w)
  end.

(** The session of the event: destroyed by [maybe_complete], or otherwise. *)
Inductive slot := Live (s : proxy_session) | Gone (complete : bool).
Record relay := Relay { rs_slot : slot; rs_answers : answers; rs_wire : wire }.

Definition is_live (h : relay) : bool := match rs_slot h with Live _ => true | Gone _ => false end.
Definition destroy_session (complete : bool) (h : relay) : relay :=
  Relay (Gone complete) (rs_answers h) (rs_wire h).
Definition set_live (s : proxy_session) (h : relay) : relay := Relay (Live s) (rs_answers h) (rs_wire h).

(** ** Watching *)

Definition next_watch (an : answers) : bool * answers :=
  match an_watches an with
  | [] => (true, an)
  | ok :: rest => (ok, Answers (an_sends an) (an_shutdowns an) rest)
  end.
(** [set_watch]: what it returns and leaves in [current]. *)
Definition set_watch (events current : Z) (an : answers) : bool * Z * answers :=
  if (current =? events) && negb (current =? 0) then (true, current, an)
  else let (ok, an) := next_watch an in (ok, if ok then events else current, an).
Definition refresh_events (s : proxy_session) (an : answers) : proxy_session * answers :=
  let '(_, client, an) := set_watch (desired_events s SClient) (ps_client_events s) an in
  let s := set_events client (ps_backend_events s) s in
  let '(_, backend, an) := set_watch (desired_events s SBackend) (ps_backend_events s) an in
  (set_events (ps_client_events s) backend s, an).
Definition refresh (h : relay) : relay :=
  match rs_slot h with
  | Live s => let (s, an) := refresh_events s (rs_answers h) in Relay (Live s) an (rs_wire h)
  | Gone _ => h
  end.

(** ** Writing *)

(** How a loop of [send]s ends: all written, the socket full, an error. *)
Inductive send_end := SendDone | SendBlocked | SendFailed.

(** The loop of [flush_write]; the last component is what was written. *)
Fixpoint flush_loop (sends : list send_answer) (b : buffer) (sent : str) :
    send_end * list send_answer * buffer * str :=
  if 0 <? pending_size b then
    match sends with
    | [] => (SendBlocked, [], b, sent)
    | SendErr EAGAIN :: rest => (SendBlocked, rest, b, sent)
    | SendErr EINTR :: rest => flush_loop rest b sent
    | SendErr _ :: rest => (SendFailed, rest, b, sent)
    | SentBytes n :: rest =>
        let n := Z.max 0 (Z.min n (pending_size b)) in
        if n =? 0 then (SendBlocked, rest, b, sent)
        else flush_loop rest (consume_buf b n) (sent ++ take (Z.to_nat n) (pending b))
    end
  else (SendDone, sends, b, sent).

(** The loop of [pump_read] on a chunk: what is left of it. *)
Fixpoint send_loop (sends : list send_answer) (chunk : str) (sent : str) :
    send_end * list send_answer * str * str :=
  if bool_decide (chunk = []) then (SendDone, sends, chunk, sent)
  else
    match sends with
    | [] => (SendBlocked, [], chunk, sent)
    | SendErr EAGAIN :: rest => (SendBlocked, rest, chunk, sent)
    | SendErr EINTR :: rest => send_loop rest chunk sent
    | SendErr _ :: rest => (SendFailed, rest, chunk, sent)
    | SentBytes n :: rest =>
        let n := Z.max 0 (Z.min n (size chunk)) in
        if n =? 0 then (SendBlocked, rest, chunk, sent)
        else send_loop rest (drop (Z.to_nat n) chunk) (sent ++ take (Z.to_nat n) chunk)
    end.

Definition with_sends (sends : list send_answer) (an : answers) : answers :=
  Answers sends (an_shutdowns an) (an_watches an).
Definition next_shutdown (an : answers) : option errno * answers :=
  match an_shutdowns an with
  | [] => (None, an)
  | e :: rest => (e, Answers (an_sends an) rest (an_watches an))
  end.

Definition maybe_complete (h : relay) : relay :=
  match rs_slot h with
  | Gone _ => h
  | Live s =>
      if negb (ps_client_read_eof s) || negb (ps_backend_read_eof s) then h
      else if negb (pending_size (ps_to_backend s) =? 0) || negb (pending_size (ps_to_client s) =? 0) then h
      else destroy_session true h
  end.

(** [flush_write] *)
Definition flush_write (dest : socket_role) (h : relay) : bool * relay :=
  match rs_slot h with
  | Gone _ => (false, h)
  | Live s =>
      let '(e, sends, b, sent) := flush_loop (an_sends (rs_answers h)) (out_buf s dest) [] in
      let s := set_out_buf dest b s in
      let h := Relay (Live s) (with_sends sends (rs_answers h)) (wire_send dest sent (rs_wire h)) in
      match e with
      | SendBlocked => (true, refresh h)
      | SendFailed => (false, destroy_session false h)
      | SendDone =>
          let h := refresh h in
          match rs_slot h with
          | Gone _ => (false, h)
          | Live s =>
              if has_read_eof s (peer_of dest) && (pending_size (out_buf s dest) =? 0) && negb (wr_shutdown s dest) then
                match next_shutdown (rs_answers h) with
                | (Some e, an) =>
                    if bool_decide (e = ENOTCONN) || bool_decide (e = EINVAL)
                    then let h := maybe_complete (Relay (Live (set_wr_shutdown dest s)) an (rs_wire h)) in (is_live h, h)
                    else (false, destroy_session false (Relay (Live s) an (rs_wire h)))
                | (None, an) =>
                    let h := maybe_complete (Relay (Live (set_wr_shutdown dest s)) an (rs_wire h)) in (is_live h, h)
                end
              else let h := maybe_complete h in (is_live h, h)
          end
      end
  end.

(** [on_read_eof] *)
Definition on_read_eof (src : socket_role) (h : relay) : relay :=
  match rs_slot h with
  | Gone _ => h
  | Live s =>
      if has_read_eof s src then maybe_complete h
      else
        let (ok, h) := flush_write (peer_of src) (set_live (set_read_eof src s) h) in
        if ok then maybe_complete (refresh h) else h
  end.

(** ** Reading *)

(** The loop of [pump_read]. *)
Fixpoint pump_loop (src : socket_role) (recvs : list recv_answer) (h : relay) : bool * relay :=
  match rs_slot h with
  | Gone _ => (false, h)
  | Live s =>
      let dest := peer_of src in
      let b := out_buf s dest in
      if kMaxBufferBytes <=? pending_size b then (true, refresh h)
      else
        let want := Z.min (kMaxBufferBytes - pending_size b) kReadChunk in
        match recvs with
        | [] => (true, refresh h)
        | RecvErr EAGAIN :: _ => (true, refresh h)
        | RecvErr EINTR :: rest => pump_loop src rest h
        | RecvErr _ :: _ => (false, destroy_session false h)
        | RecvBytes bytes :: rest =>
            let chunk := take (Z.to_nat want) bytes in
            if bool_decide (chunk = []) then let h := on_read_eof src h in (is_live h, h)
            else
              let h := Relay (Live s) (rs_answers h) (wire_recv src chunk (rs_wire h)) in
              if pending_size b =? 0 then
                match send_loop (an_sends (rs_answers h)) chunk [] with
                | (SendFailed, sends, _, sent) =>
                    (false, destroy_session false
                       (Relay (Live s) (with_sends sends (rs_answers h)) (wire_send dest sent (rs_wire h))))
                | (_, sends, unsent, sent) =>
                    pump_loop src rest
                      (refresh (Relay (Live (set_out_buf dest (append_buf b unsent) s))
                         (with_sends sends (rs_answers h)) (wire_send dest sent (rs_wire h))))
                end
              else
                pump_loop src rest (refresh (set_live (set_out_buf dest (append_buf b chunk) s) h))
        end
  end.
Definition pump_read (src : socket_role) (recvs : list recv_answer) (h : relay) : bool * relay :=
  match rs_slot h with
  | Gone _ => (false, h)
  | Live s =>
      if is_connecting s || has_read_eof s src then (true, h) else pump_loop src recvs h
  end.

(** ** Events *)

(** [finish_connect]; [so_error]: [getsockopt] fails or reports an error. *)
Definition finish_connect (so_error : bool) (h : relay) : bool * relay :=
  match rs_slot h with
  | Gone _ => (false, h)
  | Live s =>
      if so_error then (false, destroy_session false h)
      else (true, refresh (set_live (inject_proxy_header (established s)) h))
  end.

(** The end of [handle_session_event], of a session that may be read. *)
Definition transfer_event (role : socket_role) (events : Z) (recvs : list recv_answer) (h : relay) : relay :=
  if has_bits events EPOLLERR then destroy_session false h
  else
    let (ok, h) := if has_bits events EPOLLOUT then flush_write role h else (true, h) in
    if ok then
      let (ok, h) := if has_bits events (Z.lor EPOLLIN EPOLLRDHUP) then pump_read role recvs h else (true, h) in
      if ok then if has_bits events EPOLLHUP then on_read_eof role h else h
      else h
    else h.

Definition handle_session_event (role : socket_role) (events : Z) (so_error : bool) (recvs : list recv_answer)
    (h : relay) : relay :=
  match rs_slot h with
  | Gone _ => h
  | Live s =>
      if is_connecting s && has_bits events (Z.lor EPOLLERR EPOLLHUP) then destroy_session false h
      else if is_connecting s && bool_decide (role = SBackend) && has_bits events EPOLLOUT then
        let (ok, h) := finish_connect so_error h in
        if ok then transfer_event role events recvs h else h
      else transfer_event role events recvs h
  end.
