(* ===== verification/RelayProps.v ===== *)
(** * The proxy relays faithfully

    What the invariant of a session says, over any answers of the kernel: the
    bytes written to either side and those waiting are exactly the bytes read
    from the other, behind the PROXY line; the buffers are bounded; a side that
    has ended is shut down as soon as its last byte is written; the socket is
    watched for what the session waits for. *)

From S2P Require Import Prelude PyStr RateLimit Relay.

(** ** Buffers *)

Definition buffer_ok (b : buffer) : Prop := 0 ≤ b_head b ≤ size (b_bytes b).

Lemma size_app s t : size (s ++ t) = size s + size t. Proof. unfold size. rewrite length_app. lia. Qed.
Lemma size_nil s : size s ≤ 0 → s = []. Proof. unfold size. destruct s; [done|cbn; lia]. Qed.
Lemma size_nonneg s : 0 ≤ size s. Proof. unfold size. lia. Qed.
Lemma size_pending b : buffer_ok b → size (pending b) = pending_size b.
Proof. unfold buffer_ok, pending, pending_size, size. intros Hb. rewrite length_drop. lia. Qed.
Lemma pending_nil b : buffer_ok b → pending b = [] ↔ pending_size b = 0.
Proof.
  intros Hb. rewrite <-size_pending by done. split; [by intros ->|]. intros E. apply size_nil. lia.
Qed.
Lemma empty_ok : buffer_ok empty_buffer. Proof. done. Qed.
Lemma append_ok b s : buffer_ok b → buffer_ok (append_buf b s) ∧ pending (append_buf b s) = pending b ++ s.
Proof.
  unfold buffer_ok, pending. cbn. rewrite size_app. intros Hb. pose proof (size_nonneg s). split; [lia|].
  unfold size in Hb. by rewrite drop_app_le by lia.
Qed.
Lemma consume_ok b n : buffer_ok b → 0 ≤ n ≤ pending_size b →
  buffer_ok (consume_buf b n) ∧ pending (consume_buf b n) = drop (Z.to_nat n) (pending b).
Proof.
  intros Hb Hn. assert (Hd : drop (Z.to_nat (b_head b + n)) (b_bytes b) = drop (Z.to_nat n) (pending b)).
  { unfold pending, buffer_ok in *. rewrite drop_drop. f_equal. lia. }
  unfold consume_buf. cbn [b_bytes b_head]. destruct (Z.leb_spec (size (b_bytes b)) (b_head b + n)) as [Hall|Hsome].
  { split; [apply empty_ok|]. rewrite <-Hd. unfold size in Hall. by rewrite drop_ge by lia. }
  unfold buffer_ok, pending_size in *. destruct (Z.leb_spec kCompactThreshold (b_head b + n)); [|by split; [cbn; lia|]].
  unfold compact_buf. cbn [b_bytes b_head]. destruct (Z.eqb_spec (b_head b + n) 0); [by split; [cbn; lia|]|].
  destruct (Z.leb_spec (size (b_bytes b)) (b_head b + n)); [lia|]. split; [|exact Hd]. cbn [b_head b_bytes].
  pose proof (size_nonneg (pending (Buffer (b_bytes b) (b_head b + n)))). lia.
Qed.

(** ** The loops of [send] *)

Lemma flush_loop_spec sends : ∀ b sent, buffer_ok b →
  let '(e, _, b', sent') := flush_loop sends b sent in
  buffer_ok b' ∧ sent' ++ pending b' = sent ++ pending b ∧ pending_size b' ≤ pending_size b ∧
  match e with SendDone => pending b' = [] | SendBlocked => pending b' ≠ [] | SendFailed => True end.
Proof.
  assert (Hblock : ∀ b sent, buffer_ok b → 0 < pending_size b →
    buffer_ok b ∧ sent ++ pending b = sent ++ pending b ∧ pending_size b ≤ pending_size b ∧ pending b ≠ []).
  { intros b sent Hb Hp. split_and!; [done|done|lia|]. intros E%pending_nil; [lia|done]. }
  assert (Hdone : ∀ b sent, buffer_ok b → pending_size b ≤ 0 →
    buffer_ok b ∧ sent ++ pending b = sent ++ pending b ∧ pending_size b ≤ pending_size b ∧ pending b = []).
  { intros b sent Hb Hp. split_and!; [done|done|lia|]. apply size_nil. by rewrite size_pending. }
  induction sends as [|a sends IH]; intros b sent Hb; cbn [flush_loop];
    (destruct (Z.ltb_spec 0 (pending_size b)) as [Hp|Hp]; [|by apply Hdone]); [by apply Hblock|].
  pose proof (Hblock b sent Hb Hp) as Hblk. destruct a as [n|[]]; [|exact Hblk|by apply IH|naive_solver..].
  set (k := Z.max 0 (Z.min n (pending_size b))). destruct (Z.eqb_spec k 0); [exact Hblk|].
  assert (Hk : 0 ≤ k ≤ pending_size b) by lia. destruct (consume_ok b k Hb Hk) as [Hb' Hpend].
  specialize (IH (consume_buf b k) (sent ++ take (Z.to_nat k) (pending b)) Hb').
  destruct (flush_loop sends _ _) as [[[e rest] b'] sent']. destruct IH as (H1 & H2 & H3 & H4).
  split; [done|]. split; [|split; [|done]].
  - rewrite H2, Hpend, <-app_assoc. by rewrite take_drop.
  - assert (Hle : pending_size (consume_buf b k) ≤ pending_size b); [|lia].
    rewrite <-!size_pending by done. rewrite Hpend. unfold size. rewrite length_drop. lia.
Qed.
Lemma send_loop_spec sends : ∀ chunk sent,
  let '(e, _, rest, sent') := send_loop sends chunk sent in
  sent' ++ rest = sent ++ chunk ∧ size rest ≤ size chunk.
Proof.
  induction sends as [|a sends IH]; intros chunk sent; cbn; case_bool_decide; try done.
  destruct a as [n|[]]; try done; [|by apply IH].
  set (k := Z.max 0 (Z.min n (size chunk))). destruct (Z.eqb_spec k 0); [done|].
  specialize (IH (drop (Z.to_nat k) chunk) (sent ++ take (Z.to_nat k) chunk)).
  destruct (send_loop sends _ _) as [[[e rest] left_] sent']. destruct IH as [H1 H2]. split.
  - rewrite H1, <-app_assoc. by rewrite take_drop.
  - unfold size in *. rewrite length_drop in H2. lia.
Qed.

(** ** What every step keeps *)

(** A property of sessions that no assignment of a handler changes. *)
Class Kept (P : proxy_session → Prop) : Prop := {
  kept_out_buf : ∀ dest b s, P s → P (set_out_buf dest b s);
  kept_events : ∀ c b s, P s → P (set_events c b s);
  kept_read_eof : ∀ src s, P s → P (set_read_eof src s);
  kept_shutdown : ∀ dest s, P s → P (set_wr_shutdown dest s);
  kept_connect : ∀ s, P s → P (inject_proxy_header (established s)) }.

Section Kept.
Context (P : proxy_session → Prop) {KP : Kept P}.

Definition carries (h : relay) : Prop := match rs_slot h with Live s => P s | Gone _ => True end.

Lemma refresh_kept h : carries h → carries (refresh h).
Proof using KP.
  unfold refresh, carries, refresh_events. destruct (rs_slot h) as [s|c] eqn:Es; [|by rewrite Es].
  destruct (set_watch _ _ _) as [[ok1 c1] an1]. destruct (set_watch _ _ an1) as [[ok2 c2] an2].
  intros Hp. by apply kept_events, kept_events.
Qed.
Lemma complete_kept h : carries h → carries (maybe_complete h).
Proof using Type. unfold maybe_complete. intros Hn. destruct (rs_slot h); [|done]. by repeat case_match. Qed.
Lemma flush_kept dest h : carries h → carries (flush_write dest h).2.
Proof using KP.
  intros Hn. unfold flush_write. destruct (rs_slot h) as [s|c] eqn:Es; [|done].
  destruct (flush_loop _ _ _) as [[[e sends] b] sent]. cbv zeta. set (h1 := Relay _ _ _).
  assert (H1 : carries (refresh h1)).
  { apply refresh_kept. unfold carries in *. rewrite Es in Hn. by apply kept_out_buf. }
  destruct e; [|done|done]. destruct (rs_slot (refresh h1)) as [s2|c] eqn:E2; [|done].
  assert (H2 : P s2) by (unfold carries in H1; by rewrite E2 in H1).
  pose proof (kept_shutdown dest s2 H2) as H3.
  destruct (_ && _ && _); [|by apply complete_kept].
  destruct (next_shutdown _) as [[e|] an]; [|by apply complete_kept]. destruct (_ || _); [by apply complete_kept|done].
Qed.
Lemma eof_kept src h : carries h → carries (on_read_eof src h).
Proof using KP.
  intros Hn. unfold on_read_eof. destruct (rs_slot h) as [s|c] eqn:Es; [|done].
  destruct (has_read_eof s src); [by apply complete_kept|].
  assert (Hp : P (set_read_eof src s)) by (unfold carries in Hn; rewrite Es in Hn; by apply kept_read_eof).
  pose proof (flush_kept (peer_of src) (set_live (set_read_eof src s) h) Hp) as Hf.
  destruct (flush_write _ _) as [[] h']; [|exact Hf]. by apply complete_kept, refresh_kept.
Qed.
Lemma pump_loop_kept src recvs : ∀ h, carries h → carries (pump_loop src recvs h).2.
Proof using KP.
  induction recvs as [|a recvs IH]; intros h Hn; cbn [pump_loop]; destruct (rs_slot h) as [s|c] eqn:Es; try done;
    (destruct (_ <=? _); [by apply refresh_kept|]); [by apply refresh_kept|].
  assert (Hst : P s) by (unfold carries in Hn; by rewrite Es in Hn).
  destruct a as [bytes|[]]; try done; [|by apply refresh_kept|by apply IH]. case_bool_decide; [by apply eof_kept|].
  cbv zeta. destruct (_ =? _).
  - destruct (send_loop _ _ _) as [[[[] sends] unsent] sent]; try done; by apply IH, refresh_kept, kept_out_buf.
  - by apply IH, refresh_kept, kept_out_buf.
Qed.
Lemma pump_read_kept src recvs h : carries h → carries (pump_read src recvs h).2.
Proof using KP.
  intros Hn. unfold pump_read. destruct (rs_slot h); [|done]. destruct (_ || _); [done|by apply pump_loop_kept].
Qed.
Lemma transfer_kept role events recvs h : carries h → carries (transfer_event role events recvs h).
Proof using KP.
  intros Hn. unfold transfer_event. destruct (has_bits events EPOLLERR); [done|].
  assert (H1 : carries (if has_bits events EPOLLOUT then flush_write role h else (true, h)).2).
  { destruct (has_bits events EPOLLOUT); [by apply flush_kept|done]. }
  destruct (if has_bits events EPOLLOUT then _ else _) as [[] h1]; cbn [snd] in H1; [|done].
  assert (H2 : carries (if has_bits events (Z.lor EPOLLIN EPOLLRDHUP) then pump_read role recvs h1 else (true, h1)).2).
  { destruct (has_bits _ (Z.lor _ _)); [by apply pump_read_kept|done]. }
  destruct (if has_bits events (Z.lor EPOLLIN EPOLLRDHUP) then _ else _) as [[] h2]; cbn [snd] in H2; [|done].
  destruct (has_bits events EPOLLHUP); [by apply eof_kept|done].
Qed.
Lemma handle_kept role events so_error recvs h :
  carries h → carries (handle_session_event role events so_error recvs h).
Proof using KP.
  intros Hn. unfold handle_session_event. destruct (rs_slot h) as [s|c] eqn:Es; [|done].
  destruct (_ && has_bits events (Z.lor _ _)); [done|]. destruct (_ && _ && _); [|by apply transfer_kept].
  unfold finish_connect. rewrite Es. destruct so_error; [done|]. apply transfer_kept, refresh_kept.
  unfold carries in *. rewrite Es in Hn. by apply kept_connect.
Qed.
End Kept.

#[export] Instance connected_kept : Kept (λ s, ps_state s ≠ Connecting).
Proof. split; try done. intros s _. unfold inject_proxy_header. by case_bool_decide. Qed.
#[export] Instance lease_kept l : Kept (λ s, ps_lease s = l).
Proof. split; try done. intros s Hs. unfold inject_proxy_header. by case_bool_decide. Qed.

(** ** A session that has nothing left to do is not there *)

Definition unfinished (s : proxy_session) : Prop :=
  ¬ (∀ r, has_read_eof s r = true ∧ pending_size (out_buf s r) = 0).
Abbreviation ends := (carries unfinished).

Lemma unfinished_pending s r : 0 < pending_size (out_buf s r) → unfinished s.
Proof. intros Hp Hall. destruct (Hall r). lia. Qed.
Lemma unfinished_open s r : has_read_eof s r = false → unfinished s.
Proof. intros He Hall. destruct (Hall r). congruence. Qed.

Lemma refresh_ends h : ends h → ends (refresh h).
Proof.
  unfold refresh, carries, refresh_events. destruct (rs_slot h) as [s|c] eqn:Es; [|by rewrite Es].
  destruct (set_watch _ _ _) as [[ok1 c1] an1]. by destruct (set_watch _ _ an1) as [[ok2 c2] an2].
Qed.
Lemma complete_ends h : ends (maybe_complete h).
Proof.
  unfold maybe_complete, carries. destruct (rs_slot h) as [s|c] eqn:Es; [|by rewrite Es].
  destruct (ps_client_read_eof s) eqn:Ec; cbn [negb orb]; [|by rewrite Es; apply (unfinished_open s SClient)].
  destruct (ps_backend_read_eof s) eqn:Eb; cbn [negb orb]; [|by rewrite Es; apply (unfinished_open s SBackend)].
  destruct (Z.eqb_spec (pending_size (ps_to_backend s)) 0) as [E1|E1]; cbn [negb orb];
    [destruct (Z.eqb_spec (pending_size (ps_to_client s)) 0) as [E2|E2]; [done|]|]; cbn [negb]; rewrite Es; intros Hall;
    [by destruct (Hall SClient)|by destruct (Hall SBackend)].
Qed.
Lemma flush_blocked sends : ∀ b sent,
  let '(e, _, b', _) := flush_loop sends b sent in e = SendBlocked → 0 < pending_size b'.
Proof.
  induction sends as [|a sends IH]; intros b sent; cbn [flush_loop]; destruct (Z.ltb_spec 0 (pending_size b)) as [Hp|Hp]; try done.
  destruct a as [n|[]]; try done; [|by apply IH]. cbv zeta. destruct (_ =? _); [done|apply IH].
Qed.
Lemma flush_ends dest h : ends (flush_write dest h).2.
Proof.
  unfold flush_write. destruct (rs_slot h) as [s|c] eqn:Es; [|by unfold carries; cbn; rewrite Es].
  pose proof (flush_blocked (an_sends (rs_answers h)) (out_buf s dest) []) as Hb.
  destruct (flush_loop _ _ _) as [[[e sends] b] sent]. cbv zeta. destruct e; [| |done].
  - set (h1 := Relay _ _ _). destruct (rs_slot (refresh h1)) as [s2|c] eqn:E2; [|by unfold carries; cbn [snd]; rewrite E2].
    destruct (_ && _ && _); [|apply complete_ends].
    destruct (next_shutdown _) as [[e|] an]; [|apply complete_ends]. destruct (_ || _); [apply complete_ends|done].
  - apply refresh_ends, (unfinished_pending _ dest). destruct dest; by apply Hb.
Qed.
Lemma eof_ends src h : ends (on_read_eof src h).
Proof.
  unfold on_read_eof. destruct (rs_slot h) as [s|c] eqn:Es; [|by unfold carries; rewrite Es].
  destruct (has_read_eof s src); [apply complete_ends|].
  pose proof (flush_ends (peer_of src) (set_live (set_read_eof src s) h)) as Hf.
  destruct (flush_write _ _) as [[] h']; [apply complete_ends|exact Hf].
Qed.

(** [src] can still send. *)
Definition sending (src : socket_role) : relay → Prop := carries (λ s, has_read_eof s src = false).
Lemma sending_ends src h : sending src h → ends h.
Proof. unfold sending, carries. destruct (rs_slot h); [apply unfinished_open|done]. Qed.
Lemma refresh_sending src h : sending src h → sending src (refresh h).
Proof.
  unfold refresh, sending, carries, refresh_events. destruct (rs_slot h) as [s|c] eqn:Es; [|by rewrite Es].
  destruct (set_watch _ _ _) as [[ok1 c1] an1]. destruct (set_watch _ _ an1) as [[ok2 c2] an2]. by destruct src.
Qed.
Lemma pump_loop_ends src recvs : ∀ h, sending src h → ends (pump_loop src recvs h).2.
Proof.
  induction recvs as [|a recvs IH]; intros h Hs; pose proof (sending_ends src h Hs) as He; cbn [pump_loop];
    destruct (rs_slot h) as [s|c] eqn:Es; try done; (destruct (_ <=? _); [by apply refresh_ends|]); [by apply refresh_ends|].
  assert (Hso : has_read_eof s src = false) by (unfold sending, carries in Hs; by rewrite Es in Hs).
  assert (Hbuf : ∀ b an w, sending src (refresh (Relay (Live (set_out_buf (peer_of src) b s)) an w))).
  { intros b an w. apply refresh_sending. by destruct src. }
  destruct a as [bytes|[]]; try done; [|by apply refresh_ends|by apply IH]. cbv zeta. case_bool_decide; [apply eof_ends|].
  destruct (_ =? _); [|apply IH, Hbuf].
  by destruct (send_loop _ _ _) as [[[[] sends] unsent] sent]; [apply IH, Hbuf|apply IH, Hbuf|].
Qed.
Lemma pump_read_ends src recvs h : ends h → ends (pump_read src recvs h).2.
Proof.
  intros He. unfold pump_read. destruct (rs_slot h) as [s|c] eqn:Es; [|done]. destruct (_ || _) eqn:Eb; [done|].
  apply pump_loop_ends. unfold sending, carries. rewrite Es. by apply orb_false_iff in Eb as [_ ?].
Qed.
Lemma transfer_ends role events recvs h : ends h → ends (transfer_event role events recvs h).
Proof.
  intros He. unfold transfer_event. destruct (has_bits events EPOLLERR); [done|].
  assert (H1 : ends (if has_bits events EPOLLOUT then flush_write role h else (true, h)).2).
  { destruct (has_bits events EPOLLOUT); [apply flush_ends|done]. }
  destruct (if has_bits events EPOLLOUT then _ else _) as [[] h1]; cbn [snd] in H1; [|done].
  assert (H2 : ends (if has_bits events (Z.lor EPOLLIN EPOLLRDHUP) then pump_read role recvs h1 else (true, h1)).2).
  { destruct (has_bits _ (Z.lor _ _)); [by apply pump_read_ends|done]. }
  destruct (if has_bits events (Z.lor EPOLLIN EPOLLRDHUP) then _ else _) as [[] h2]; cbn [snd] in H2; [|done].
  destruct (has_bits events EPOLLHUP); [apply eof_ends|done].
Qed.
(** A session that is opened has both sides open. *)
Lemma handle_ends role events so_error recvs h :
  carries (λ s, ps_state s = Connecting → has_read_eof s role = false) h → ends h →
  ends (handle_session_event role events so_error recvs h).
Proof.
  intros Ho He. unfold handle_session_event. destruct (rs_slot h) as [s|c] eqn:Es; [|by unfold carries; rewrite Es].
  destruct (_ && has_bits events (Z.lor _ _)); [done|]. destruct (_ && _ && _) eqn:Eb; [|by apply transfer_ends].
  unfold finish_connect. rewrite Es. destruct so_error; [done|]. apply transfer_ends, refresh_ends.
  unfold carries in Ho. rewrite Es in Ho. apply andb_prop in Eb as [[Hc%bool_decide_eq_true _]%andb_prop _].
  apply (unfinished_open _ role). rewrite <-(Ho Hc). cbn. unfold inject_proxy_header. case_bool_decide; by destruct role.
Qed.

(** ** What has passed is not undone *)

Definition grew (w w' : wire) : Prop := ∀ r, w_from w r `prefix_of` w_from w' r ∧ w_to w r `prefix_of` w_to w' r.
#[export] Instance grew_pre : PreOrder grew.
Proof.
  split; [done|]. intros w1 w2 w3 H1 H2 r. destruct (H1 r) as [? ?], (H2 r) as [? ?]. split; by etrans.
Qed.
Lemma grew_recv r bytes w : grew w (wire_recv r bytes w).
Proof. intros [|]; destruct r; split; cbn; done || by apply prefix_app_r. Qed.
Lemma grew_send r bytes w : grew w (wire_send r bytes w).
Proof. intros [|]; destruct r; split; cbn; done || by apply prefix_app_r. Qed.

Lemma refresh_wire h : rs_wire (refresh h) = rs_wire h.
Proof. unfold refresh. destruct (rs_slot h); [|done]. by destruct (refresh_events _ _). Qed.
Lemma complete_wire h : rs_wire (maybe_complete h) = rs_wire h.
Proof. unfold maybe_complete. destruct (rs_slot h); [|done]. by repeat case_match. Qed.
Lemma flush_grew dest h : grew (rs_wire h) (rs_wire (flush_write dest h).2).
Proof.
  unfold flush_write. destruct (rs_slot h) as [s|c]; [|done]. destruct (flush_loop _ _ _) as [[[e sends] b] sent].
  cbv zeta. set (h1 := Relay _ _ _). assert (H1 : grew (rs_wire h) (rs_wire (refresh h1))).
  { rewrite refresh_wire. apply grew_send. }
  destruct e; [|exact H1|apply grew_send]. destruct (rs_slot (refresh h1)) as [s2|c]; [|exact H1].
  destruct (_ && _ && _); [|cbn [snd]; by rewrite complete_wire].
  destruct (next_shutdown _) as [[e|] an]; [destruct (_ || _)|]; cbn [snd]; rewrite ?complete_wire; exact H1.
Qed.
Lemma eof_grew src h : grew (rs_wire h) (rs_wire (on_read_eof src h)).
Proof.
  unfold on_read_eof. destruct (rs_slot h) as [s|c]; [|done]. destruct (has_read_eof s src); [by rewrite complete_wire|].
  pose proof (flush_grew (peer_of src) (set_live (set_read_eof src s) h)) as Hf.
  destruct (flush_write _ _) as [[] h']; [by rewrite complete_wire, refresh_wire|exact Hf].
Qed.
Lemma pump_loop_grew src recvs : ∀ h, grew (rs_wire h) (rs_wire (pump_loop src recvs h).2).
Proof.
  assert (Hre : ∀ h, grew (rs_wire h) (rs_wire (true, refresh h).2)) by (intros h; cbn [snd]; by rewrite refresh_wire).
  induction recvs as [|a recvs IH]; intros h; cbn [pump_loop]; destruct (rs_slot h) as [s|c]; try done;
    (destruct (_ <=? _); [by apply Hre|]); [by apply Hre|].
  assert (Hgo : ∀ h', grew (rs_wire h) (rs_wire h') → grew (rs_wire h) (rs_wire (pump_loop src recvs (refresh h')).2)).
  { intros h' Hg. etransitivity; [|apply IH]. by rewrite refresh_wire. }
  destruct a as [bytes|[]]; [|by apply Hre|by apply IH|done..]. cbv zeta. case_bool_decide; [apply eof_grew|].
  assert (Hrs : ∀ chunk dest sent, grew (rs_wire h) (wire_send dest sent (wire_recv src chunk (rs_wire h)))).
  { intros chunk dest sent. etransitivity; [apply grew_recv|apply grew_send]. }
  destruct (_ =? _); [|apply Hgo, grew_recv].
  destruct (send_loop _ _ _) as [[[[] sends] unsent] sent]; [apply Hgo, Hrs|apply Hgo, Hrs|apply Hrs].
Qed.
Lemma transfer_grew role events recvs h : grew (rs_wire h) (rs_wire (transfer_event role events recvs h)).
Proof.
  unfold transfer_event. destruct (has_bits events EPOLLERR); [done|].
  assert (H1 : grew (rs_wire h) (rs_wire (if has_bits events EPOLLOUT then flush_write role h else (true, h)).2)).
  { destruct (has_bits events EPOLLOUT); [apply flush_grew|done]. }
  destruct (if has_bits events EPOLLOUT then _ else _) as [[] h1]; cbn [snd] in H1; [|done].
  assert (H2 : grew (rs_wire h1) (rs_wire (if has_bits events (Z.lor EPOLLIN EPOLLRDHUP) then pump_read role recvs h1 else (true, h1)).2)).
  { destruct (has_bits _ (Z.lor _ _)); [|done]. unfold pump_read. destruct (rs_slot h1); [|done].
    destruct (_ || _); [done|apply pump_loop_grew]. }
  destruct (if has_bits events (Z.lor EPOLLIN EPOLLRDHUP) then _ else _) as [[] h2]; cbn [snd] in H2; [|by etransitivity].
  destruct (has_bits events EPOLLHUP); [|by etransitivity]. etransitivity; [exact H1|]. etransitivity; [exact H2|apply eof_grew].
Qed.
Lemma handle_grew role events so_error recvs h : grew (rs_wire h) (rs_wire (handle_session_event role events so_error recvs h)).
Proof.
  unfold handle_session_event. destruct (rs_slot h) as [s|c] eqn:Es; [|done]. destruct (_ && has_bits events (Z.lor _ _)); [done|].
  destruct (_ && _ && _); [|apply transfer_grew]. unfold finish_connect. rewrite Es. destruct so_error; [done|].
  etransitivity; [|apply transfer_grew]. by rewrite refresh_wire.
Qed.

(** ** Sessions *)

Section Session.
(** The PROXY line, and whether [epoll_ctl] always succeeds. *)
Context (H : str) (fine : bool).

Definition ahead (r : socket_role) : str := match r with SBackend => H | SClient => [] end.

Record live_ok (s : proxy_session) (w : wire) : Prop := {
  lv_bufs : ∀ r, buffer_ok (out_buf s r);
  lv_open : ps_state s = Connecting →
    ps_proxy_header s = H ∧ (∀ r, out_buf s r = empty_buffer ∧ has_read_eof s r = false ∧ wr_shutdown s r = false) ∧ w = empty_wire;
  lv_header : ps_state s ≠ Connecting → ps_proxy_header s = [];
  lv_flow : ps_state s ≠ Connecting → ∀ r, w_to w r ++ pending (out_buf s r) = ahead r ++ w_from w (peer_of r);
  lv_size : ∀ r, pending_size (out_buf s r) ≤ Z.max kMaxBufferBytes (size H);
  lv_shut : ∀ r, wr_shutdown s r = true → has_read_eof s (peer_of r) = true ∧ pending (out_buf s r) = [] }.

(** The end of one side has been passed on. *)
Definition settled (s : proxy_session) (r : socket_role) : Prop :=
  has_read_eof s (peer_of r) = true → pending (out_buf s r) = [] → wr_shutdown s r = true.
Definition armed (s : proxy_session) : Prop := ∀ r, watched s r = desired_events s r.

Definition session_good (s : proxy_session) (w : wire) : Prop :=
  live_ok s w ∧ (∀ r, settled s r) ∧ (fine = true → armed s).
Definition complete (w : wire) : Prop := ∀ r, w_to w r = ahead r ++ w_from w (peer_of r).
Definition in_order (w : wire) : Prop := ∀ r, w_to w r `prefix_of` ahead r ++ w_from w (peer_of r).
Definition watch_ok (an : answers) : Prop := fine = true → Forall (λ ok, ok = true) (an_watches an).

Definition relay_good (h : relay) : Prop :=
  watch_ok (rs_answers h) ∧
  match rs_slot h with
  | Live s => session_good s (rs_wire h)
  | Gone true => complete (rs_wire h)
  | Gone false => in_order (rs_wire h)
  end.

Lemma live_in_order s w : live_ok s w → in_order w.
Proof.
  intros Hl r. destruct (decide (ps_state s = Connecting)) as [E|E].
  - destruct (lv_open _ _ Hl E) as (_ & _ & ->). destruct r; apply prefix_nil.
  - rewrite <-(lv_flow _ _ Hl E r). by apply prefix_app_r.
Qed.
Lemma destroy_good s h : live_ok s (rs_wire h) → watch_ok (rs_answers h) → relay_good (destroy_session false h).
Proof. intros Hl Hw. split; [exact Hw|]. by eapply live_in_order. Qed.

(** *** Watching *)

Lemma set_watch_spec events current an :
  watch_ok an → let '(_, current', an') := set_watch events current an in
  watch_ok an' ∧ (fine = true → current' = events) ∧ an_sends an' = an_sends an ∧ an_shutdowns an' = an_shutdowns an.
Proof.
  intros Hw. unfold set_watch. destruct (_ && _) eqn:Eb.
  { apply andb_prop in Eb as [->%Z.eqb_eq _]. done. }
  unfold next_watch. destruct (an_watches an) as [|ok rest] eqn:E; [done|]. unfold watch_ok in *. rewrite E in Hw. split.
  - intros Hf. by apply (Forall_inv_tail (Hw Hf)).
  - split; [|done]. intros Hf. by rewrite (Forall_inv (Hw Hf)).
Qed.

Lemma desired_set_events c b s r : desired_events (set_events c b s) r = desired_events s r.
Proof. done. Qed.

(** [refresh_events] changes what is watched only, and brings it up to date. *)
Lemma refresh_spec h s :
  rs_slot h = Live s → watch_ok (rs_answers h) →
  ∃ c b an, refresh h = Relay (Live (set_events c b s)) an (rs_wire h) ∧ watch_ok an ∧
    (fine = true → armed (set_events c b s)).
Proof.
  intros Es Hw. unfold refresh, refresh_events. rewrite Es.
  pose proof (set_watch_spec (desired_events s SClient) (ps_client_events s) (rs_answers h) Hw) as H1.
  destruct (set_watch _ _ _) as [[ok1 c] an1]. destruct H1 as (Hw1 & Hc & _ & _). cbn [ps_backend_events set_events].
  pose proof (set_watch_spec (desired_events (set_events c (ps_backend_events s) s) SBackend) (ps_backend_events s) an1 Hw1) as H2.
  destruct (set_watch _ _ an1) as [[ok2 b] an2]. destruct H2 as (Hw2 & Hb & _ & _).
  exists c, b, an2. split; [done|]. split; [done|]. intros Hf [|]; [exact (Hc Hf)|exact (Hb Hf)].
Qed.
Lemma live_set_events c b s w : live_ok s w → live_ok (set_events c b s) w.
Proof. intros []. split; done. Qed.
Lemma settled_set_events c b s r : settled s r → settled (set_events c b s) r.
Proof. done. Qed.

(** After a refresh a session of which the rest is in order is good. *)
Lemma refresh_good h s :
  rs_slot h = Live s → watch_ok (rs_answers h) → live_ok s (rs_wire h) → (∀ r, settled s r) → relay_good (refresh h).
Proof.
  intros Es Hw Hl Hs. destruct (refresh_spec h s Es Hw) as (c & b & an & -> & Hw' & Ha). split; [done|].
  split; [by apply live_set_events|]. split; [|exact Ha]. intros r. apply settled_set_events, Hs.
Qed.

Lemma maybe_complete_good h : relay_good h → relay_good (maybe_complete h).
Proof.
  intros Hg. unfold maybe_complete. destruct (rs_slot h) as [s|] eqn:Es; [|done].
  destruct (negb _ || negb _) eqn:Ee; [done|]. destruct (negb (pending_size _ =? 0) || _) eqn:Ep; [done|].
  pose proof Hg as [Hw Hg']. rewrite Es in Hg'. destruct Hg' as (Hl & _ & _). split; [exact Hw|]. cbn.
  apply orb_false_iff in Ee as [Hc%negb_false_iff Hb%negb_false_iff].
  apply orb_false_iff in Ep as [Hpb%negb_false_iff%Z.eqb_eq Hpc%negb_false_iff%Z.eqb_eq].
  assert (Hst : ps_state s ≠ Connecting).
  { intros E. destruct (lv_open _ _ Hl E) as (_ & Hr & _). destruct (Hr SClient) as (_ & He & _). cbn in He. congruence. }
  intros r. rewrite <-(lv_flow _ _ Hl Hst r). replace (pending (out_buf s r)) with (@nil Z); [by rewrite app_nil_r|].
  symmetry. apply pending_nil; [apply (lv_bufs _ _ Hl)|]. by destruct r.
Qed.

(** *** Writing *)

Lemma set_out_buf_live dest b sent s w :
  live_ok s w → ps_state s ≠ Connecting → buffer_ok b → sent ++ pending b = pending (out_buf s dest) →
  pending_size b ≤ pending_size (out_buf s dest) → live_ok (set_out_buf dest b s) (wire_send dest sent w).
Proof.
  intros Hl Hst Hb E Hle. split.
  - intros r. destruct r, dest; try done; apply (lv_bufs _ _ Hl SClient) || apply (lv_bufs _ _ Hl SBackend).
  - done.
  - apply (lv_header _ _ Hl).
  - intros _ r. pose proof (lv_flow _ _ Hl Hst r) as Hf. destruct r, dest; cbn in *; try done; by rewrite <-app_assoc, E.
  - intros r. pose proof (lv_size _ _ Hl r). destruct r, dest; cbn in *; try done; lia.
  - intros r Hr. destruct (lv_shut _ _ Hl r) as [He Hp]; [by destruct r, dest|]. split; [by destruct r, dest|].
    destruct r, dest; cbn in *; try done; rewrite Hp in E; by apply app_nil in E as [_ ?].
Qed.

Lemma set_out_buf_same dest s : set_out_buf dest (out_buf s dest) s = s.
Proof. by destruct s, dest. Qed.
Lemma wire_send_nothing dest w : wire_send dest [] w = w.
Proof. destruct w, dest; cbn; by rewrite app_nil_r. Qed.
Lemma flush_empty sends : flush_loop sends empty_buffer [] = (SendDone, sends, empty_buffer, []).
Proof. by destruct sends. Qed.
Lemma settled_out_buf dest b s : settled s (peer_of dest) → settled (set_out_buf dest b s) (peer_of dest).
Proof. by destruct dest. Qed.

(** What [flush_write] has done when its loop ends. *)
Lemma flush_loop_live dest sends s w e sends' b sent :
  live_ok s w → flush_loop sends (out_buf s dest) [] = (e, sends', b, sent) →
  live_ok (set_out_buf dest b s) (wire_send dest sent w) ∧
  match e with SendDone => pending b = [] | SendBlocked => pending b ≠ [] | SendFailed => True end.
Proof.
  intros Hl E. pose proof (flush_loop_spec sends (out_buf s dest) [] (lv_bufs _ _ Hl dest)) as Hf. rewrite E in Hf.
  destruct Hf as (Hb & Hp & Hle & He). split; [|done]. destruct (decide (ps_state s = Connecting)) as [Hst|Hst].
  - destruct (lv_open _ _ Hl Hst) as (_ & Hr & _). destruct (Hr dest) as (Eb & _ & _).
    rewrite Eb, flush_empty in E. injection E as <- <- <- <-. by rewrite <-Eb, set_out_buf_same, wire_send_nothing.
  - by apply set_out_buf_live.
Qed.

Lemma shutdown_good dest s w an :
  live_ok s w → watch_ok an → settled s (peer_of dest) → (fine = true → armed s) →
  has_read_eof s (peer_of dest) = true → pending (out_buf s dest) = [] →
  relay_good (Relay (Live (set_wr_shutdown dest s)) an w).
Proof.
  intros Hl Hw Hs Ha He Hp. split; [done|]. cbn [rs_slot rs_wire]. split; [|split].
  - split; try apply Hl.
    + intros Hst. destruct (lv_open _ _ Hl Hst) as (_ & Hr & _). destruct (Hr (peer_of dest)) as (_ & He' & _). congruence.
    + intros r Hr. destruct (decide (r = dest)) as [->|Hne]; [by split; [destruct dest|]|].
      apply (lv_shut _ _ Hl). by destruct r, dest.
  - intros r. destruct (decide (r = dest)) as [->|Hne]; [by destruct dest|]. intros E1 E2.
    assert (r = peer_of dest) as -> by by destruct r, dest. specialize (Hs E1 E2). by destruct dest.
  - exact Ha.
Qed.

Lemma next_shutdown_watch an e an' : next_shutdown an = (e, an') → watch_ok an → watch_ok an'.
Proof. unfold next_shutdown. destruct (an_shutdowns an); by intros [= <- <-]. Qed.

Lemma flush_write_good dest h s :
  rs_slot h = Live s → watch_ok (rs_answers h) → live_ok s (rs_wire h) → settled s (peer_of dest) →
  relay_good (flush_write dest h).2.
Proof.
  intros Es Hw Hl Hs. unfold flush_write. rewrite Es.
  destruct (flush_loop _ _ _) as [[[e sends] b] sent] eqn:Ef. apply (flush_loop_live dest _ s (rs_wire h)) in Ef as [Hl1 He]; [|done].
  cbv zeta. set (s1 := set_out_buf dest b s) in *. set (h1 := Relay (Live s1) _ _).
  assert (Hs1 : settled s1 (peer_of dest)) by by apply settled_out_buf.
  assert (Hb1 : out_buf s1 dest = b) by by unfold s1; destruct dest.
  destruct e.
  - destruct (refresh_spec h1 s1 eq_refl Hw) as (c & bb & an & -> & Hw2 & Ha). cbn [rs_slot rs_answers rs_wire].
    set (s2 := set_events c bb s1) in *. assert (Hl2 : live_ok s2 (rs_wire h1)) by by apply live_set_events.
    assert (Hp2 : pending (out_buf s2 dest) = []) by (unfold s2; by destruct dest).
    destruct (_ && _ && _) eqn:Eb.
    + apply andb_prop in Eb as [[Heof _]%andb_prop _].
      assert (Hgood : ∀ an', watch_ok an' → relay_good (maybe_complete (Relay (Live (set_wr_shutdown dest s2)) an' (rs_wire h1)))).
      { intros an' Hw'. by apply maybe_complete_good, shutdown_good. }
      destruct (next_shutdown an) as [[e|] an'] eqn:En; apply next_shutdown_watch in En; try done; [|by apply Hgood].
      destruct (_ || _); [by apply Hgood|]. by apply (destroy_good s2).
    + apply maybe_complete_good. split; [done|]. split; [done|]. split; [|done]. intros r.
      destruct (decide (r = dest)) as [->|Hne]; [|by assert (r = peer_of dest) as -> by by destruct r, dest].
      intros E1 E2. rewrite E1 in Eb. apply (pending_nil _ (lv_bufs _ _ Hl2 dest)) in E2. rewrite E2 in Eb.
      cbn in Eb. by apply negb_false_iff in Eb.
  - apply (refresh_good h1 s1); try done. intros r.
    destruct (decide (r = dest)) as [->|Hne]; [intros _ E; by rewrite Hb1 in E|].
    by assert (r = peer_of dest) as -> by by destruct r, dest.
  - by apply (destroy_good s1).
Qed.

Lemma read_eof_live src s w : live_ok s w → ps_state s ≠ Connecting → live_ok (set_read_eof src s) w.
Proof.
  intros Hl Hst. split; try apply Hl; try done.
  - intros _. by apply (lv_header _ _ Hl).
  - intros _. by apply (lv_flow _ _ Hl).
  - intros r Hr. destruct (lv_shut _ _ Hl r Hr) as [He Hp]. split; [|done]. destruct r, src; cbn in *; done.
Qed.

Definition not_connecting : relay → Prop := carries (λ s, ps_state s ≠ Connecting).

Lemma refresh_keeps_good h : relay_good h → relay_good (refresh h).
Proof.
  intros Hg. pose proof Hg as [Hw Hg']. destruct (rs_slot h) as [s|c] eqn:Es; [|by unfold refresh; rewrite Es].
  destruct Hg' as (Hl & Hs & _). by apply (refresh_good h s).
Qed.
Lemma on_read_eof_good src h : relay_good h → not_connecting h → relay_good (on_read_eof src h).
Proof.
  intros Hg Hn. unfold on_read_eof, not_connecting, carries in *. destruct (rs_slot h) as [s|] eqn:Es; [|done].
  destruct (has_read_eof s src) eqn:Ee; [by apply maybe_complete_good|].
  pose proof Hg as [Hw Hg']. rewrite Es in Hg'. destruct Hg' as (Hl & Hs & _).
  pose proof (flush_write_good (peer_of src) (set_live (set_read_eof src s) h) (set_read_eof src s) eq_refl Hw
    (read_eof_live src s _ Hl Hn)) as Hf.
  destruct (flush_write _ _) as [ok h']. assert (Hg' : relay_good h').
  { apply Hf. intros E1 E2. by destruct src; apply Hs. }
  destruct ok; [by apply maybe_complete_good, refresh_keeps_good|done].
Qed.

(** *** Reading *)

Lemma receive_live src chunk sent rest s w :
  let dest := peer_of src in
  live_ok s w → ps_state s ≠ Connecting → has_read_eof s src = false → sent ++ rest = chunk →
  (pending (out_buf s dest) = [] ∨ sent = []) → size chunk ≤ kMaxBufferBytes - pending_size (out_buf s dest) →
  live_ok (set_out_buf dest (append_buf (out_buf s dest) rest) s) (wire_send dest sent (wire_recv src chunk w)).
Proof.
  intros dest Hl Hst He <- Hor Hsz. destruct (append_ok (out_buf s dest) rest (lv_bufs _ _ Hl dest)) as [Hb Hp].
  split.
  - intros r. destruct (decide (r = dest)) as [->|Hne]; [by destruct src|].
    pose proof (lv_bufs _ _ Hl r). by destruct r, src.
  - done.
  - intros _. by apply (lv_header _ _ Hl).
  - intros _ r. pose proof (lv_flow _ _ Hl Hst r) as Hf. destruct (decide (r = dest)) as [->|Hne].
    + assert (E : w_to w dest ++ sent ++ pending (append_buf (out_buf s dest) rest) = ahead dest ++ w_from w src ++ sent ++ rest).
      { rewrite Hp. replace (w_from w src) with (w_from w (peer_of dest)) by by destruct src.
        rewrite (app_assoc (ahead dest)), <-Hf. destruct Hor as [->| ->]; cbn; by rewrite ?app_nil_r, <-?app_assoc. }
      destruct src; cbn in *; by rewrite <-?app_assoc.
    + by destruct r, src.
  - intros r. destruct (decide (r = dest)) as [->|Hne]; [|pose proof (lv_size _ _ Hl r); by destruct r, src].
    replace (out_buf (set_out_buf dest _ s) dest) with (append_buf (out_buf s dest) rest) by by destruct src.
    rewrite <-size_pending, Hp, size_app, size_pending by (done || apply (lv_bufs _ _ Hl dest)).
    rewrite size_app in Hsz. pose proof (size_nonneg sent). lia.
  - intros r Hr. destruct (lv_shut _ _ Hl r) as [He' Hp']; [by destruct r, src|].
    destruct (decide (r = dest)) as [->|Hne]; [by destruct src; cbn in *; congruence|]. by destruct r, src.
Qed.

(** The side [src] of the session can still be read. *)
Definition readable (src : socket_role) (h : relay) : Prop :=
  match rs_slot h with Live s => ps_state s ≠ Connecting ∧ has_read_eof s src = false | Gone _ => True end.

Lemma received_good src chunk sent rest s an w :
  let dest := peer_of src in
  session_good s w → ps_state s ≠ Connecting → has_read_eof s src = false → watch_ok an → sent ++ rest = chunk →
  (pending (out_buf s dest) = [] ∨ sent = []) → size chunk ≤ kMaxBufferBytes - pending_size (out_buf s dest) →
  let h := Relay (Live (set_out_buf dest (append_buf (out_buf s dest) rest) s)) an (wire_send dest sent (wire_recv src chunk w)) in
  relay_good (refresh h) ∧ readable src (refresh h) ∧ relay_good (destroy_session false h).
Proof.
  intros dest (Hl & Hs & _) Hst He Hw E Hor Hsz h.
  pose proof (receive_live src chunk sent rest s w Hl Hst He E Hor Hsz) as Hl'. fold dest in Hl'.
  set (s' := set_out_buf dest _ s) in *. split; [|split].
  - apply (refresh_good h s'); try done. intros r. destruct (decide (r = dest)) as [->|Hne].
    + intros E1 _. unfold s', dest in E1. destruct src; cbn in *; congruence.
    + destruct r, src; try done; [exact (Hs SClient)|exact (Hs SBackend)].
  - destruct (refresh_spec h s' eq_refl Hw) as (c & b & an' & -> & _ & _). by destruct src.
  - by apply (destroy_good s').
Qed.

Lemma destroyed_good h : relay_good h → relay_good (destroy_session false h).
Proof.
  intros [Hw Hg]. split; [done|]. cbn. destruct (rs_slot h) as [s|[]]; [by apply live_in_order with s, Hg| |done].
  intros r. by rewrite Hg.
Qed.

Lemma pump_loop_good src recvs : ∀ h, relay_good h → readable src h → relay_good (pump_loop src recvs h).2.
Proof.
  induction recvs as [|a recvs IH]; intros h Hg Hr; cbn [pump_loop]; destruct (rs_slot h) as [s|c] eqn:Es; try done;
    (destruct (_ <=? _) eqn:Efull; [by apply refresh_keeps_good|]); [by apply refresh_keeps_good|].
  apply Z.leb_gt in Efull. unfold readable in Hr. rewrite Es in Hr. destruct Hr as [Hst He].
  pose proof Hg as [Hw Hg']. rewrite Es in Hg'. destruct a as [bytes|[]]; try (by apply destroyed_good).
  2: by apply refresh_keeps_good.
  2: by apply IH; [|unfold readable; rewrite Es].
  set (chunk := take _ bytes). case_bool_decide as Ec.
  { cbn [snd]. apply on_read_eof_good; [done|]. unfold not_connecting, carries. by rewrite Es. }
  assert (Hsz : size chunk ≤ kMaxBufferBytes - pending_size (out_buf s (peer_of src))).
  { unfold chunk, size. rewrite length_take. lia. }
  cbn [rs_answers rs_wire]. destruct (Z.eqb_spec (pending_size (out_buf s (peer_of src))) 0) as [Ep|Ep].
  - apply pending_nil in Ep; [|apply Hg']. pose proof (send_loop_spec (an_sends (rs_answers h)) chunk []) as Hsend.
    destruct (send_loop _ _ _) as [[[e sends] unsent] sent]. destruct Hsend as [Hsent _]. cbn [app] in Hsent.
    destruct (received_good src chunk sent unsent s (with_sends sends (rs_answers h)) (rs_wire h)) as (H1 & H2 & H3); auto.
    destruct e; [by apply IH|by apply IH|exact H3].
  - destruct (received_good src chunk [] chunk s (rs_answers h) (rs_wire h)) as (H1 & H2 & _); auto.
    rewrite wire_send_nothing in *. by apply IH.
Qed.
Lemma pump_read_good src recvs h : relay_good h → relay_good (pump_read src recvs h).2.
Proof.
  intros Hg. unfold pump_read. destruct (rs_slot h) as [s|c] eqn:Es; [|done]. destruct (_ || _) eqn:Eb; [done|].
  apply pump_loop_good; [done|]. unfold readable. rewrite Es. apply orb_false_iff in Eb as [Hc He].
  split; [|done]. by apply bool_decide_eq_false in Hc.
Qed.

(** ** Events *)

Lemma has_bits_lor events a b : has_bits events (Z.lor a b) = has_bits events a || has_bits events b.
Proof.
  unfold has_bits. rewrite Z.land_lor_distr_r. destruct (Z.eqb_spec (Z.land events a) 0) as [->|Ha].
  - by rewrite Z.lor_0_l.
  - cbn. apply negb_true_iff, Z.eqb_neq. intros E. by apply Z.lor_eq_0_iff in E as [? _].
Qed.

Lemma transfer_good role events recvs h :
  relay_good h → (has_bits events EPOLLHUP = true → not_connecting h) → relay_good (transfer_event role events recvs h).
Proof.
  intros Hg Hn. unfold transfer_event. destruct (has_bits events EPOLLERR); [by apply destroyed_good|].
  set (out := if has_bits events EPOLLOUT then flush_write role h else (true, h)).
  assert (H1 : relay_good out.2 ∧ (has_bits events EPOLLHUP = true → not_connecting out.2)).
  { unfold out. destruct (has_bits events EPOLLOUT); [|done]. split; [|intros Hh; by apply (flush_kept _), Hn].
    destruct (rs_slot h) as [s|c] eqn:Es; [|by unfold flush_write; rewrite Es].
    pose proof Hg as [Hw Hg']. rewrite Es in Hg'. destruct Hg' as (Hl & Hs & _). by apply (flush_write_good role h s). }
  destruct out as [[] h1]; destruct H1 as [Hg1 Hn1]; cbn [snd] in *; [|done].
  set (inp := if has_bits events (Z.lor EPOLLIN EPOLLRDHUP) then pump_read role recvs h1 else (true, h1)).
  assert (H2 : relay_good inp.2 ∧ (has_bits events EPOLLHUP = true → not_connecting inp.2)).
  { unfold inp. destruct (has_bits _ (Z.lor _ _)); [|done]. split; [by apply pump_read_good|intros Hh; by apply (pump_read_kept _), Hn1]. }
  destruct inp as [[] h2]; destruct H2 as [Hg2 Hn2]; cbn [snd] in *; [|done].
  destruct (has_bits events EPOLLHUP); [|done]. apply on_read_eof_good; auto.
Qed.

Lemma connect_live s w : live_ok s w → ps_state s = Connecting → live_ok (inject_proxy_header (established s)) w.
Proof.
  intros Hl Hst. destruct (lv_open _ _ Hl Hst) as (Eh & Hr & ->). destruct (Hr SBackend) as (Eb & _ & _).
  destruct (Hr SClient) as (Ec & _ & _). cbn in Eb, Ec. unfold inject_proxy_header. cbn [ps_proxy_header established ps_to_backend].
  rewrite Eb, Eh. cbn [b_head b_bytes empty_buffer]. change (Z.to_nat 0) with 0%nat. cbn [take drop]. rewrite app_nil_r. cbn [app].
  assert (Hsh : ∀ r, wr_shutdown s r = false) by (intros r; apply Hr).
  case_bool_decide as E.
  - split; try done; try apply Hl.
    + intros _. cbn. by rewrite Eh, E.
    + intros _ [|]; cbn; rewrite ?Eb, ?Ec, ?E; done.
  - split; try done.
    + intros [|]; [cbn [out_buf ps_to_client established]; rewrite Ec; apply empty_ok|]. split; [done|apply size_nonneg].
    + intros _ [|]; cbn; rewrite ?Ec; [done|]. by rewrite app_nil_r.
    + pose proof (size_nonneg H). intros [|]; cbn [out_buf ps_to_client ps_to_backend established]; [rewrite Ec|];
      unfold pending_size; cbn [b_bytes b_head empty_buffer]; [change (size []) with 0|]; lia.
    + intros r Hr'. specialize (Hsh r). by destruct r; cbn in *; congruence.
Qed.

Lemma handle_session_event_good role events so_error recvs h :
  relay_good h → relay_good (handle_session_event role events so_error recvs h).
Proof.
  intros Hg. unfold handle_session_event. destruct (rs_slot h) as [s|c] eqn:Es; [|done].
  destruct (is_connecting s) eqn:Ec; cbn [andb].
  2:{ apply transfer_good; [done|]. intros _. unfold not_connecting, carries. rewrite Es. by apply bool_decide_eq_false in Ec. }
  destruct (has_bits events (Z.lor EPOLLERR EPOLLHUP)) eqn:Eh; [by apply destroyed_good|].
  rewrite has_bits_lor in Eh. apply orb_false_iff in Eh as [_ Eh].
  assert (Hplain : ∀ h, relay_good h → relay_good (transfer_event role events recvs h)).
  { intros h' Hg'. apply transfer_good; [done|]. rewrite Eh. discriminate. }
  destruct (_ && _); [|by apply Hplain]. unfold finish_connect. rewrite Es. destruct so_error; [by apply destroyed_good|].
  apply Hplain. pose proof Hg as [Hw Hg']. rewrite Es in Hg'. destruct Hg' as (Hl & Hs & _). apply bool_decide_eq_true in Ec.
  apply (refresh_good (set_live (inject_proxy_header (established s)) h) (inject_proxy_header (established s)));
    [done|exact Hw|by apply connect_live|].
  intros r. destruct (lv_open _ _ Hl Ec) as (_ & Hr & _). destruct (Hr (peer_of r)) as (_ & He & _).
  intros E1. unfold inject_proxy_header in E1. destruct r; case_bool_decide; cbn in *; congruence.
Qed.

(** ** Progress *)

(** What the session waits for, and is told of: a socket that can be written, or
    read into a buffer with room. *)
Definition progress (s : proxy_session) (r : socket_role) : Prop :=
  has_bits (watched s r) EPOLLOUT = true ∧ (pending (out_buf s r) ≠ [] ∨ ps_state s = Connecting) ∨
  has_bits (watched s r) EPOLLIN = true ∧ has_read_eof s r = false ∧ pending_size (out_buf s (peer_of r)) < kMaxBufferBytes.

Lemma live_progress s w : live_ok s w → armed s → unfinished s → ∃ r, progress s r.
Proof.
  intros Hl Ha Hu. unfold progress.
  destruct (decide (ps_state s = Connecting)) as [Hc|Hc].
  { exists SBackend. left. split; [|by right]. rewrite Ha. unfold desired_events, is_connecting. by rewrite bool_decide_eq_true_2, orb_true_r. }
  assert (Hconn : is_connecting s = false) by by apply bool_decide_eq_false_2.
  assert (Hout : ∀ r, pending_size (out_buf s r) ≠ 0 → has_bits (watched s r) EPOLLOUT = true ∧ pending (out_buf s r) ≠ []).
  { intros r Hp. pose proof (lv_bufs _ _ Hl r) as Hb. split.
    - rewrite Ha. unfold desired_events. rewrite Hconn. unfold buffer_ok, pending_size in *.
      destruct (Z.ltb_spec 0 (size (b_bytes (out_buf s r)) - b_head (out_buf s r))); [|lia]. cbn [orb andb].
      by destruct (_ && _).
    - by rewrite pending_nil. }
  destruct (decide (pending_size (out_buf s SClient) = 0)) as [E1|E1]; [|exists SClient; left; destruct (Hout SClient E1); auto].
  destruct (decide (pending_size (out_buf s SBackend) = 0)) as [E2|E2]; [|exists SBackend; left; destruct (Hout SBackend E2); auto].
  assert (Hin : ∀ r, has_read_eof s r = false → has_bits (watched s r) EPOLLIN = true).
  { intros r He. rewrite Ha. unfold desired_events. rewrite Hconn, He. by destruct r; cbn [peer_of]; rewrite E1, E2. }
  destruct (has_read_eof s SClient) eqn:Ec; [|exists SClient; right; cbn [peer_of]; rewrite E2; by split; [apply Hin|]].
  destruct (has_read_eof s SBackend) eqn:Eb; [|exists SBackend; right; cbn [peer_of]; rewrite E1; by split; [apply Hin|]].
  exfalso. apply Hu. by intros [|].
Qed.
End Session.

(** A side that has ended stays watched for its end, which the kernel reports
    again and again, and the handler does nothing about it: the event loop does
    not sleep while a session is half closed. *)
Theorem half_closed_spins s r so_error recvs an w :
  ps_state s ≠ Connecting → has_read_eof s r = true →
  has_bits (desired_events s r) EPOLLRDHUP = true ∧
  handle_session_event r EPOLLRDHUP so_error recvs (Relay (Live s) an w) = Relay (Live s) an w.
Proof.
  intros Hst He. assert (Hc : is_connecting s = false) by by apply bool_decide_eq_false_2. split.
  - unfold desired_events. rewrite Hc, He. cbn [andb orb negb]. by destruct (_ || _).
  - unfold handle_session_event. cbn [rs_slot]. rewrite Hc. cbn [andb]. unfold transfer_event, pump_read.
    change (has_bits EPOLLRDHUP EPOLLERR) with false. change (has_bits EPOLLRDHUP EPOLLOUT) with false.
    change (has_bits EPOLLRDHUP (Z.lor EPOLLIN EPOLLRDHUP)) with true. cbn [rs_slot]. by rewrite He, orb_true_r.
Qed.
