(* ===== verification/ProxyServer.v ===== *)
(** * The event loop of the front-end proxy ([proxy/src/proxy_server.cpp])

    [accept_ready] asks the limiter for a lease, connects to the backend and
    starts a session; [handle_event] runs the handlers of [Relay.v] on the
    session its token names; [proxy_step] is one turn of [run] seen from here.
    A session that was destroyed keeps its place in the table, as [Gone], with
    what passed through its sockets: [find_session] does not find it. *)

From S2P Require Import Prelude PyStr RateLimit Relay RelayProps.

(** ** Addresses *)

(** [sockaddr_storage]: an address in network order and a 16-bit port. *)
Inductive sockaddr :=
  | SockInet (addr : str) (port : Z)
  | SockInet6 (addr : str) (port : Z)
  | SockOther.
Inductive family := AF_UNSPEC | AF_INET | AF_INET6.
#[export] Instance family_eq_dec : EqDecision family.
Proof. solve_decision. Defined.

(** [inet_ntop], [None] for a null pointer. *)
Class Inet := {
  inet_ntop4 : str → option str;
  inet_ntop6 : str → option str
}.

(** [IN6_IS_ADDR_V4MAPPED]: ten zeroes and two bytes 255. *)
Definition v4_mapped (addr : str) : bool := bool_decide (take 12 addr = repeat 0 10 ++ [255; 255]).

Definition effective_family (a : sockaddr) : family :=
  match a with
  | SockInet _ _ => AF_INET
  | SockInet6 addr _ => if v4_mapped addr then AF_INET else AF_INET6
  | SockOther => AF_UNSPEC
  end.
Definition sock_port (a : sockaddr) : Z :=
  match a with SockInet _ port | SockInet6 _ port => port mod 2 ^ 16 | SockOther => 0 end.

Section Server.
Context `{Double} `{Inet}.

Definition peer_ip (a : sockaddr) : str :=
  default (lit "unknown")
    match a with
    | SockInet addr _ => inet_ntop4 addr
    | SockInet6 addr _ => if v4_mapped addr then inet_ntop4 (drop 12 addr) else inet_ntop6 addr
    | SockOther => None
    end.

Definition format_proxy_v1 (src dst : sockaddr) : str :=
  let src_ip := peer_ip src in
  let dst_ip := peer_ip dst in
  if bool_decide (src_ip = lit "unknown") || bool_decide (dst_ip = lit "unknown") then lit "PROXY UNKNOWN" ++ [13; 10]
  else
    let line family :=
      lit "PROXY " ++ family ++ lit " " ++ src_ip ++ lit " " ++ dst_ip ++ lit " " ++
      py_str (sock_port src) ++ lit " " ++ py_str (sock_port dst) ++ [13; 10] in
    if bool_decide (effective_family src = AF_INET) && bool_decide (effective_family dst = AF_INET)
    then line (lit "TCP4")
    else if bool_decide (effective_family src = AF_INET6) && bool_decide (effective_family dst = AF_INET6)
    then line (lit "TCP6")
    else lit "PROXY UNKNOWN" ++ [13; 10].

(** [local]: what [getsockname] gives. *)
Definition make_proxy_v1_header (local : option sockaddr) (client_addr : sockaddr) : str :=
  match local with None => lit "PROXY UNKNOWN" ++ [13; 10] | Some dst => format_proxy_v1 client_addr dst end.

(** ** The server *)

(** A session and what passed through it; [cn_header] is its PROXY line. *)
Record channel := Channel { cn_header : str; cn_slot : slot; cn_wire : wire }.

Record proxy_server := ProxyServer {
  px_send_proxy_protocol : bool;
  px_next_session_id : Z;
  px_rate_limiter : rate_limiter;
  px_sessions : gmap Z channel
}.
Definition proxy_init (send_proxy_protocol : bool) (max_connections max_per_ip rate_limit rate_burst : Z) : proxy_server :=
  ProxyServer send_proxy_protocol 1 (limiter_init max_connections max_per_ip rate_limit rate_burst) ∅.

Definition with_limiter (r : rate_limiter) (p : proxy_server) : proxy_server :=
  ProxyServer (px_send_proxy_protocol p) (px_next_session_id p) r (px_sessions p).

Definition find_session (id : Z) (p : proxy_server) : option proxy_session :=
  match px_sessions p !! id with Some (Channel _ (Live s) _) => Some s | _ => None end.

(** The session [spawn_session] builds. *)
Definition new_session (is_established : bool) (l : lease) (header : str) : proxy_session :=
  let s := ProxySession empty_buffer empty_buffer (if is_established then Established else Connecting)
             false false false false 0 0 l header in
  if is_established then inject_proxy_header s else s.

(** [spawn_session]; [backend] is what [open_backend] gives: connected already,
    under way, or nothing. *)
Definition spawn_session (now later : Z) (client_ip header : str) (backend : option bool) (watches : list bool)
    (p : proxy_server) : bool * proxy_server :=
  match try_admit client_ip now later None (px_rate_limiter p) with
  | (false, l, r) => (false, with_limiter (drop_lease l later r) p)
  | (true, l, r) =>
      match backend with
      | None => (false, with_limiter (drop_lease l later r) p)
      | Some is_established =>
          let s := new_session is_established l header in
          let id := px_next_session_id p in
          let fail := (false, ProxyServer (px_send_proxy_protocol p) (id + 1) (drop_lease l later r) (px_sessions p)) in
          let '(ok1, client, an) := set_watch (desired_events s SClient) 0 (Answers [] [] watches) in
          if negb ok1 then fail
          else
            let s := set_events client 0 s in
            let '(ok2, backend, _) := set_watch (desired_events s SBackend) 0 an in
            if negb ok2 then fail
            else
              (true, ProxyServer (px_send_proxy_protocol p) (id + 1) r
                 (<[id := Channel header (Live (set_events client backend s)) empty_wire]> (px_sessions p)))
      end
  end.

(** What [accept4] gives, with the answers to the calls that follow. *)
Inductive accept_answer :=
  | Accepted (addr : sockaddr) (local : option sockaddr) (backend : option bool) (watches : list bool)
  | AcceptErr (e : errno).

Fixpoint accept_ready (now later : Z) (accepts : list accept_answer) (p : proxy_server) : proxy_server :=
  match accepts with
  | [] => p                                   (* EAGAIN *)
  | AcceptErr EINTR :: rest => accept_ready now later rest p
  | AcceptErr _ :: _ => p
  | Accepted addr local backend watches :: rest =>
      let header := if px_send_proxy_protocol p then make_proxy_v1_header local addr else [] in
      let (_, p) := spawn_session now later (peer_ip addr) header backend watches p in
      accept_ready now later rest p
  end.

(** What the calls of one event are answered. *)
Record event_answers := EventAnswers {
  ev_accepts : list accept_answer;
  ev_so_error : bool;
  ev_recvs : list recv_answer;
  ev_answers : answers
}.

(** An event of a session: the handlers, and its erasure. *)
Definition session_event (later id : Z) (role : socket_role) (events : Z) (ans : event_answers) (p : proxy_server) :
    proxy_server :=
  match px_sessions p !! id with
  | None => p
  | Some c =>
      let h := handle_session_event role events (ev_so_error ans) (ev_recvs ans)
                 (Relay (cn_slot c) (ev_answers ans) (cn_wire c)) in
      let l := match cn_slot c, rs_slot h with Live s, Gone _ => ps_lease s | _, _ => None end in
      ProxyServer (px_send_proxy_protocol p) (px_next_session_id p) (drop_lease l later (px_rate_limiter p))
        (<[id := Channel (cn_header c) (rs_slot h) (rs_wire h)]> (px_sessions p))
  end.

Definition handle_event (now later token events : Z) (ans : event_answers) (p : proxy_server) : proxy_server :=
  if token =? kTokenWakeup then p
  else if token =? kTokenListen then
    if has_bits events EPOLLIN then accept_ready now later (ev_accepts ans) p else p
  else
    match decode_session_token token with
    | None => p
    | Some (id, role) => session_event later id role events ans p
    end.

(** One step of [run]: an event, or the sweep behind a batch of them. *)
Inductive proxy_event := EpollEvent (token events later : Z) (ans : event_answers) | BatchEnd.
Definition proxy_step (now : Z) (ev : proxy_event) (p : proxy_server) : proxy_server :=
  match ev with
  | EpollEvent token events later ans => handle_event now later token events ans p
  | BatchEnd => with_limiter (maybe_sweep now (px_rate_limiter p)) p
  end.
Fixpoint proxy_run (evs : list (Z * proxy_event)) (p : proxy_server) : proxy_server :=
  match evs with [] => p | (now, ev) :: rest => proxy_run rest (proxy_step now ev p) end.

(** ** The invariant *)

(** The leases of the sessions that live. *)
Definition slot_lease (sl : slot) : lease := match sl with Live s => ps_lease s | Gone _ => None end.
Definition leases (m : gmap Z channel) : list str := omap (λ kv, slot_lease (cn_slot kv.2)) (map_to_list m).

Lemma omap_perm {A B} (f : A → option B) l l' : l ≡ₚ l' → omap f l ≡ₚ omap f l'.
Proof. intros E. by rewrite E. Qed.
Lemma omap_head {A B} (f : A → option B) x l : omap f (x :: l) = option_list (f x) ++ omap f l.
Proof. cbn. by destruct (f x). Qed.
Lemma leases_present m id c : m !! id = Some c → leases m ≡ₚ option_list (slot_lease (cn_slot c)) ++ leases (delete id m).
Proof. intros Hm. unfold leases. by rewrite <-(map_to_list_delete m id c Hm), omap_head. Qed.
Lemma leases_insert m id c :
  leases (<[id := c]> m) ≡ₚ option_list (slot_lease (cn_slot c)) ++ leases (delete id m).
Proof.
  rewrite (leases_present (<[id := c]> m) id c) by apply lookup_insert_eq. by rewrite delete_insert_eq.
Qed.
End Server.
