(* ===== verification/ProxyServerProps.v ===== *)
(** * The invariant of the front-end proxy

    Over any history of the event loop and any answers of the kernel: the
    leases of the sessions that live are the limiter's, and every session, alive
    or not, has relayed faithfully. *)

From S2P Require Import Prelude PyStr RateLimit Relay RelayProps ProxyServer.

Section Invariant.
Context `{Double} `{Inet}.

(** The PROXY line of a connection from [addr], if there is to be one. *)
Definition header_of (send : bool) (local : option sockaddr) (addr : sockaddr) : str :=
  if send then make_proxy_v1_header local addr else [].

(** A session announces, and is counted under, the address it was accepted
    from. *)
Definition accepted (send : bool) (c : channel) : Prop :=
  ∃ addr local, cn_header c = header_of send local addr ∧
    ∀ s, cn_slot c = Live s → ps_lease s = Some (peer_ip addr).

Definition relayed (fine : bool) (c : channel) : Prop :=
  match cn_slot c with
  | Live s => session_good (cn_header c) fine s (cn_wire c)
  | Gone true => complete (cn_header c) (cn_wire c)
  | Gone false => in_order (cn_header c) (cn_wire c)
  end.

Record proxy_ok (fine : bool) (p : proxy_server) : Prop := {
  po_limiter : limiter_ok (px_rate_limiter p) (leases (px_sessions p));
  po_next : 0 < px_next_session_id p;
  po_ids : ∀ id, is_Some (px_sessions p !! id) → 0 < id < px_next_session_id p;
  po_accepted : ∀ id c, px_sessions p !! id = Some c → accepted (px_send_proxy_protocol p) c;
  po_channels : ∀ id c, px_sessions p !! id = Some c → relayed fine c;
  po_unfinished : ∀ id c s, px_sessions p !! id = Some c → cn_slot c = Live s → unfinished s }.

(** No [epoll_ctl] fails. *)
Definition answers_fine (ans : event_answers) : Prop := Forall (λ ok, ok = true) (an_watches (ev_answers ans)).
Definition event_fine (ev : proxy_event) : Prop :=
  match ev with EpollEvent _ _ _ ans => answers_fine ans | BatchEnd => True end.

Lemma drop_lease_ok l now r rest :
  limiter_ok r (option_list l ++ rest) → limiter_ok (drop_lease l now r) rest.
Proof. destruct l as [ip|]; cbn; [|done]. intros Hok. by eapply release_ok. Qed.

(** ** A new session *)

Lemma new_session_live is_established l header : live_ok header (new_session is_established l header) empty_wire.
Proof.
  assert (Hnew : live_ok header (new_session false l header) empty_wire).
  { split; cbn; try done; [by intros []|intros _; split; [done|by split; [intros []|]]| |by intros []].
    intros r. transitivity 0; [by destruct r|]. apply Z.max_le_iff. by left. }
  destruct is_established; [|done]. by apply (connect_live header (new_session false l header)).
Qed.
Lemma new_session_shape is_established l header :
  let s := new_session is_established l header in
  ps_lease s = l ∧ ∀ r, has_read_eof s r = false.
Proof. destruct is_established; cbn; [|by split; [|intros []]]. unfold inject_proxy_header. by case_bool_decide; split; try intros []. Qed.

Lemma set_watch_new events watches ok current an :
  set_watch events 0 (Answers [] [] watches) = (ok, current, an) → ok = true → current = events ∧ an_sends an = [] ∧ an_shutdowns an = [].
Proof.
  unfold set_watch. rewrite andb_false_r. unfold next_watch. cbn. destruct watches as [|w rest]; intros [= <- <- <-]; [done|by intros ->].
Qed.

Lemma spawn_ok fine now later addr local backend watches p :
  let send := px_send_proxy_protocol p in
  proxy_ok fine p → proxy_ok fine (spawn_session now later (peer_ip addr) (header_of send local addr) backend watches p).2.
Proof.
  intros send Hp. pose proof Hp as [Hlim Hnext Hids Hacc Hch Hunf]. unfold spawn_session.
  assert (Hmade : ∃ addr' local', header_of send local addr = header_of send local' addr' ∧ peer_ip addr = peer_ip addr') by by exists addr, local.
  revert Hmade. generalize (header_of send local addr) as header, (peer_ip addr) as ip. intros header ip Hmade.
  pose proof (try_admit_ok ip now later None (px_rate_limiter p) (leases (px_sessions p)) Hlim) as Ha.
  destruct (try_admit _ _ _ _ _) as [[ok l] r]. destruct Ha as [Hl ->].
  assert (Hdrop : proxy_ok fine (with_limiter (drop_lease (if ok then Some ip else None) later r) p)).
  { split; [by apply drop_lease_ok|done..]. }
  destruct ok; [|exact Hdrop]. destruct backend as [is_established|]; [|exact Hdrop]. cbv zeta.
  set (id := px_next_session_id p) in *. set (s := new_session is_established (Some ip) header).
  assert (Hfail : proxy_ok fine (ProxyServer (px_send_proxy_protocol p) (id + 1) (drop_lease (Some ip) later r) (px_sessions p))).
  { split; cbn [px_rate_limiter px_sessions px_next_session_id]; [by apply drop_lease_ok|lia| |done|done|done].
    intros j Hj. specialize (Hids j Hj). lia. }
  destruct (set_watch (desired_events s SClient) 0 _) as [[[] client] an] eqn:E1; [|exact Hfail]. cbn [negb].
  apply set_watch_new in E1 as (-> & Ean1 & Ean2); [|done].
  set (s1 := set_events (desired_events s SClient) 0 s).
  destruct (set_watch (desired_events s1 SBackend) 0 an) as [[[] backend] an2] eqn:E2; [|exact Hfail]. cbn [negb snd].
  destruct an as [sends shuts wts]. cbn in Ean1, Ean2. subst sends shuts. apply set_watch_new in E2 as (-> & _ & _); [|done].
  destruct (new_session_shape is_established (Some ip) header) as [Els Heof]. fold s in Els, Heof.
  assert (Hfresh : px_sessions p !! id = None).
  { destruct (px_sessions p !! id) as [c|] eqn:E; [|done]. pose proof (Hids id (ex_intro _ c E)). lia. }
  split; cbn [px_rate_limiter px_sessions px_next_session_id].
  - eapply limiter_ok_perm; [|exact Hl]. rewrite leases_insert, delete_id by done. cbn [cn_slot slot_lease].
    change (ps_lease (set_events _ _ s1)) with (ps_lease s). by rewrite Els.
  - lia.
  - intros j. rewrite lookup_insert. case_decide as E; [subst j; lia|]. intros Hj. specialize (Hids j Hj). lia.
  - intros j c [Hj| ->]%lookup_insert_cases; [by apply (Hacc j)|]. destruct Hmade as (addr' & local' & Eh & Eip).
    exists addr', local'. split; [exact Eh|]. intros s' [= <-]. rewrite <-Eip. exact Els.
  - intros j c [Hj| ->]%lookup_insert_cases; [by apply (Hch j)|]. unfold relayed. cbn [cn_slot cn_header cn_wire].
    split; [apply live_set_events, live_set_events, new_session_live|]. split; [|by intros _ []].
    intros role E. specialize (Heof (peer_of role)). change (has_read_eof s (peer_of role) = true) in E. congruence.
  - intros j c s' [Hj| ->]%lookup_insert_cases; [by apply (Hunf j)|]. intros [= <-].
    apply (unfinished_open _ SClient). exact (Heof SClient).
Qed.

Lemma accept_ok fine now later accepts : ∀ p, proxy_ok fine p → proxy_ok fine (accept_ready now later accepts p).
Proof.
  induction accepts as [|a accepts IH]; intros p Hp; cbn [accept_ready]; [done|].
  destruct a as [addr local backend watches|[]]; try done; [|by apply IH]. cbv zeta.
  pose proof (spawn_ok fine now later addr local backend watches p Hp) as Hs. unfold header_of in Hs.
  destruct (spawn_session _ _ _ _ _ _ _) as [ok p1]. by apply IH.
Qed.

(** ** An event of a session *)

Lemma session_event_ok fine later id role events ans p :
  (fine = true → answers_fine ans) → proxy_ok fine p → proxy_ok fine (session_event later id role events ans p).
Proof.
  intros Hfine [Hlim Hnext Hids Hacc Hch Hunf]. unfold session_event. destruct (px_sessions p !! id) as [c|] eqn:Ec; [|done].
  cbv zeta. set (h0 := Relay (cn_slot c) (ev_answers ans) (cn_wire c)).
  set (h := handle_session_event role events (ev_so_error ans) (ev_recvs ans) h0).
  pose proof (Hch id c Ec) as Hc. unfold relayed in Hc.
  assert (Hg : relay_good (cn_header c) fine h).
  { apply handle_session_event_good. split; [exact Hfine|]. cbn. by destruct (cn_slot c) as [s|[]]. }
  assert (Hlease : ∀ s, cn_slot c = Live s → carries (λ s', ps_lease s' = ps_lease s) h).
  { intros s Es. apply handle_kept; [apply _|]. unfold carries, h0. cbn. by rewrite Es. }
  assert (Hdead : ∀ b, cn_slot c = Gone b → rs_slot h = Gone b).
  { intros b Es. unfold h, handle_session_event, h0. cbn. by rewrite Es. }
  pose proof (leases_present (px_sessions p) id c Ec) as Hpres.
  destruct Hg as [_ Hg]. split; cbn [px_rate_limiter px_sessions px_next_session_id px_send_proxy_protocol]; [|done| | | |].
  - eapply limiter_ok_perm; [symmetry; apply leases_insert|]. cbn [cn_slot].
    apply (limiter_ok_perm _ _ _ Hpres) in Hlim. destruct (cn_slot c) as [s|b] eqn:Es.
    + specialize (Hlease s eq_refl). unfold carries in Hlease. cbn [slot_lease] in Hlim.
      destruct (rs_slot h) as [s'|b']; cbn [slot_lease drop_lease]; [by rewrite Hlease|]. by apply drop_lease_ok.
    + rewrite (Hdead b eq_refl). exact Hlim.
  - intros j. rewrite lookup_insert. case_decide as E; [subst j; intros _; apply Hids; by exists c|apply Hids].
  - intros j c' [Hj| ->]%lookup_insert_cases; [by apply (Hacc j)|].
    destruct (Hacc id c Ec) as (addr & local & Eh & El). exists addr, local. split; [exact Eh|]. cbn [cn_slot].
    intros s' Es'. destruct (cn_slot c) as [s|b]; [|by specialize (Hdead b eq_refl); congruence].
    specialize (Hlease s eq_refl). unfold carries in Hlease. rewrite Es' in Hlease. rewrite Hlease. by apply El.
  - intros j c' [Hj| ->]%lookup_insert_cases; [by apply (Hch j)|]. unfold relayed. cbn [cn_slot cn_header cn_wire].
    by destruct (rs_slot h) as [s'|[]].
  - intros j c' s' [Hj| ->]%lookup_insert_cases; [by apply (Hunf j)|]. cbn [cn_slot]. intros Es'.
    assert (He : carries unfinished h).
    { apply handle_ends; unfold carries, h0; cbn [rs_slot]; destruct (cn_slot c) as [s|b] eqn:Es; try done; [|by apply (Hunf id c)].
      intros Hst. destruct Hc as (Hl & _). by destruct (lv_open _ _ _ Hl Hst) as (_ & Hr & _); apply Hr. }
    unfold carries in He. by rewrite Es' in He.
Qed.

Lemma proxy_step_ok fine now ev p : (fine = true → event_fine ev) → proxy_ok fine p → proxy_ok fine (proxy_step now ev p).
Proof.
  intros Hf Hp. destruct ev as [token events later ans|]; cbn [proxy_step].
  - unfold handle_event. destruct (_ =? _); [done|]. destruct (_ =? _).
    + destruct (has_bits events EPOLLIN); [by apply accept_ok|done].
    + destruct (decode_session_token token) as [[id role]|]; [by apply session_event_ok|done].
  - destruct Hp. split; [by apply sweep_ok|done..].
Qed.
Lemma proxy_run_ok fine evs : ∀ p,
  (fine = true → Forall (λ e, event_fine e.2) evs) → proxy_ok fine p → proxy_ok fine (proxy_run evs p).
Proof.
  induction evs as [|[now ev] evs IH]; intros p Hf Hp; [done|]. cbn. apply IH.
  - intros E. apply (Forall_inv_tail (Hf E)).
  - apply proxy_step_ok; [|done]. intros E. apply (Forall_inv (Hf E)).
Qed.
Lemma proxy_init_ok fine send max per limit burst : proxy_ok fine (proxy_init send max per limit burst).
Proof.
  split; cbn [proxy_init px_rate_limiter px_sessions px_next_session_id].
  - unfold leases. rewrite map_to_list_empty. apply limiter_ok_init.
  - lia.
  - intros id [c Hc]. by rewrite lookup_empty in Hc.
  - intros id c Hc. by rewrite lookup_empty in Hc.
  - intros id c Hc. by rewrite lookup_empty in Hc.
  - intros id c s Hc. by rewrite lookup_empty in Hc.
Qed.

(** The configuration never changes. *)
Definition same_server (p p' : proxy_server) : Prop :=
  px_send_proxy_protocol p' = px_send_proxy_protocol p ∧ same_config (px_rate_limiter p) (px_rate_limiter p').
#[local] Instance same_server_pre : PreOrder same_server.
Proof. split; [done|]. intros p1 p2 p3 [E1 H1] [E2 H2]. split; [congruence|]. unfold same_config in *. intuition congruence. Qed.

Lemma drop_config l now r : same_config r (drop_lease l now r).
Proof. destruct l; [apply release_config|done]. Qed.
Lemma same_config_trans r1 r2 r3 : same_config r1 r2 → same_config r2 r3 → same_config r1 r3.
Proof. unfold same_config. intuition congruence. Qed.
Lemma admit_config ip now later r : same_config r (try_admit ip now later None r).2.
Proof. unfold try_admit. destruct (_ <=? _); [done|]. cbv zeta. by destruct (_ || _). Qed.
Lemma spawn_config now later ip header backend watches p :
  same_server p (spawn_session now later ip header backend watches p).2.
Proof.
  unfold spawn_session. pose proof (admit_config ip now later (px_rate_limiter p)) as Hc.
  destruct (try_admit _ _ _ _ _) as [[ok l] r]; cbn [snd] in Hc.
  pose proof (same_config_trans _ _ _ Hc (drop_config l later r)) as Hd.
  destruct ok; [|by split]. destruct backend as [e|]; [|by split]. cbv zeta.
  destruct (set_watch _ _ _) as [[[] c] an]; cbn [negb]; [|by split].
  by destruct (set_watch _ _ an) as [[[] c'] an']; split.
Qed.
Lemma accept_config now later accepts : ∀ p, same_server p (accept_ready now later accepts p).
Proof.
  induction accepts as [|a accepts IH]; intros p; cbn [accept_ready]; [done|].
  destruct a as [addr local backend watches|[]]; try apply IH; try done. cbv zeta.
  pose proof (spawn_config now later (peer_ip addr)
    (if px_send_proxy_protocol p then make_proxy_v1_header local addr else []) backend watches p) as Hs.
  destruct (spawn_session _ _ _ _ _ _ _) as [ok p1]. etransitivity; [exact Hs|apply IH].
Qed.
Lemma proxy_step_config now ev p : same_server p (proxy_step now ev p).
Proof.
  destruct ev as [token events later ans|]; cbn [proxy_step].
  - unfold handle_event. destruct (_ =? _); [done|]. destruct (_ =? _).
    + destruct (has_bits events EPOLLIN); [apply accept_config|done].
    + destruct (decode_session_token token) as [[id role]|]; [|done]. unfold session_event.
      destruct (px_sessions p !! id); [|done]. split; [done|apply drop_config].
  - split; [done|]. cbn. unfold maybe_sweep. by destruct (_ && _).
Qed.
Lemma proxy_run_config evs : ∀ p, same_server p (proxy_run evs p).
Proof.
  induction evs as [|[now ev] evs IH]; intros p; [done|]. etransitivity; [apply proxy_step_config|apply IH].
Qed.

(** ** No session is forgotten *)

Definition continues (p p' : proxy_server) : Prop :=
  ∀ id c, px_sessions p !! id = Some c →
    ∃ c', px_sessions p' !! id = Some c' ∧ cn_header c' = cn_header c ∧ grew (cn_wire c) (cn_wire c').
#[export] Instance continues_pre : PreOrder continues.
Proof.
  split; [intros p id c Hc; by exists c|]. intros p1 p2 p3 H1 H2 id c Hc.
  destruct (H1 id c Hc) as (c2 & Hc2 & Eh2 & Hg2). destruct (H2 id c2 Hc2) as (c3 & Hc3 & Eh3 & Hg3).
  exists c3. split; [done|]. split; [congruence|]. by etransitivity.
Qed.

Lemma continues_same p p' : px_sessions p' = px_sessions p → continues p p'.
Proof. intros E id c Hc. exists c. by rewrite E. Qed.
Lemma spawn_continues fine now later ip header backend watches p :
  proxy_ok fine p → continues p (spawn_session now later ip header backend watches p).2.
Proof.
  intros Hp. unfold spawn_session. destruct (try_admit _ _ _ _ _) as [[[] l] r]; [|by apply continues_same].
  destruct backend as [e|]; [|by apply continues_same]. cbv zeta. destruct (set_watch _ _ _) as [[[] c] an]; [|by apply continues_same]. cbn [negb].
  destruct (set_watch _ _ an) as [[[] c'] an']; [|by apply continues_same]. cbn [negb snd]. intros id ch Hid. exists ch. split; [|done].
  cbn [px_sessions]. rewrite lookup_insert_ne; [done|]. intros <-. pose proof (po_ids _ _ Hp _ (ex_intro _ ch Hid)). lia.
Qed.
Lemma accept_continues fine now later accepts : ∀ p, proxy_ok fine p → continues p (accept_ready now later accepts p).
Proof.
  induction accepts as [|a accepts IH]; intros p Hp; cbn [accept_ready]; [done|].
  destruct a as [addr local backend watches|[]]; try done; [|by apply IH]. cbv zeta.
  pose proof (spawn_ok fine now later addr local backend watches p Hp) as Hs. unfold header_of in Hs.
  pose proof (spawn_continues fine now later (peer_ip addr)
    (if px_send_proxy_protocol p then make_proxy_v1_header local addr else []) backend watches p Hp) as Hc.
  destruct (spawn_session _ _ _ _ _ _ _) as [ok p1]. etransitivity; [exact Hc|by apply IH].
Qed.
Lemma proxy_step_continues fine now ev p : proxy_ok fine p → continues p (proxy_step now ev p).
Proof.
  intros Hp. destruct ev as [token events later ans|]; cbn [proxy_step]; [|by apply continues_same]. unfold handle_event.
  destruct (_ =? _); [done|]. destruct (_ =? _); [destruct (has_bits events EPOLLIN); [by eapply accept_continues|done]|].
  destruct (decode_session_token token) as [[id role]|]; [|done]. unfold session_event.
  destruct (px_sessions p !! id) as [c|] eqn:Ec; [|done]. cbv zeta. intros j cj Hj. cbn [px_sessions].
  destruct (decide (id = j)) as [<-|Hne]; [|exists cj; by rewrite lookup_insert_ne].
  rewrite lookup_insert_eq. eexists. split; [done|]. assert (cj = c) as -> by congruence. split; [done|]. cbn [cn_wire].
  apply (handle_grew role events _ _ (Relay (cn_slot c) (ev_answers ans) (cn_wire c))).
Qed.

(** ** The sessions and their leases *)

Definition live_channels (p : proxy_server) : list (Z * channel) :=
  List.filter (λ kv, match cn_slot kv.2 with Live _ => true | Gone _ => false end) (map_to_list (px_sessions p)).

Lemma live_leases fine p : proxy_ok fine p → length (live_channels p) = length (leases (px_sessions p)).
Proof.
  intros Hp. unfold live_channels, leases.
  assert (Hl : ∀ kv, kv ∈ map_to_list (px_sessions p) → ∀ s, cn_slot kv.2 = Live s → is_Some (ps_lease s)).
  { intros [id c] Hin%elem_of_map_to_list s Es. destruct (po_accepted _ _ Hp id c Hin) as (addr & local & _ & El).
    exists (peer_ip addr). by apply El. }
  revert Hl. induction (map_to_list (px_sessions p)) as [|kv l IH]; intros Hl; [done|].
  rewrite omap_head, length_app, <-IH by (intros; eapply Hl; [by right|done]). cbn [List.filter].
  destruct (cn_slot kv.2) as [s|b] eqn:Es; [|done]. destruct (Hl kv ltac:(left) s Es) as [ip Eip]. cbn. by rewrite Eip.
Qed.

(** An event reaches the session its token was made for, and no other. *)
Lemma session_token_sum id role : 0 < id < 2 ^ 62 → session_token id role = 4 * id + (role_value role + 2).
Proof.
  intros Hid. unfold session_token. rewrite Z.shiftl_mul_pow2, Z.mod_small by lia.
  assert (Hland : Z.land (id * 2 ^ 2) (role_value role + 2) = 0).
  { apply Z.bits_inj'. intros n Hn. rewrite Z.land_spec, Z.bits_0. destruct (Z.lt_ge_cases n 2).
    - by rewrite Z.mul_pow2_bits_low by lia.
    - assert (Hlog : Z.log2 (role_value role + 2) = 1) by by destruct role.
      rewrite (Z.bits_above_log2 (role_value role + 2)) by (destruct role; cbn [role_value] in *; lia). apply andb_false_r. }
  rewrite <-Z.lxor_lor, <-Z.add_nocarry_lxor by done. lia.
Qed.
Lemma token_decodes id role : 0 < id < 2 ^ 62 → decode_session_token (session_token id role) = Some (id, role).
Proof.
  intros Hid. rewrite session_token_sum by done. unfold decode_session_token.
  assert (Hr : 0 <= role_value role <= 1) by by destruct role.
  assert (Em : Z.land (4 * id + (role_value role + 2)) 3 = role_value role + 2).
  { change 3 with (Z.ones 2). rewrite Z.land_ones by lia. symmetry. apply (Z.mod_unique _ _ id); [lia|]. lia. }
  assert (Ed : Z.shiftr (4 * id + (role_value role + 2)) 2 = id).
  { rewrite Z.shiftr_div_pow2 by lia. symmetry. apply (Z.div_unique _ _ _ (role_value role + 2)); lia. }
  destruct (Z.ltb_spec (4 * id + (role_value role + 2)) 2); [lia|]. rewrite Em, Ed.
  destruct (Z.eqb_spec id 0); [lia|]. by destruct role.
Qed.
Lemma session_event_reached now later id role events ans p :
  0 < id < 2 ^ 62 → handle_event now later (session_token id role) events ans p = session_event later id role events ans p.
Proof.
  intros Hid. unfold handle_event. rewrite token_decodes by done. rewrite session_token_sum by done.
  assert (0 <= role_value role <= 1) by by destruct role. unfold kTokenWakeup, kTokenListen.
  by destruct (Z.eqb_spec (4 * id + (role_value role + 2)) 1), (Z.eqb_spec (4 * id + (role_value role + 2)) 0); try lia.
Qed.

(** ** The theorems *)

Lemma run_invariant fine send max per limit burst evs :
  (fine = true → Forall (λ e, event_fine e.2) evs) →
  let p := proxy_run evs (proxy_init send max per limit burst) in
  proxy_ok fine p ∧ px_send_proxy_protocol p = send ∧ same_config (limiter_init max per limit burst) (px_rate_limiter p).
Proof.
  intros Hf p. split; [by apply proxy_run_ok, proxy_init_ok|]. apply (proxy_run_config evs (proxy_init send max per limit burst)).
Qed.

(** C26: The limits hold at the front door: over any history of the event loop
    and any answers of the kernel, no more sessions live than the configured
    maximum, and no more of one address than its own; the limiter counts the
    sessions that live exactly, all of them and by address, so that no place is
    lost or given back twice on any path (a refused or failed connection, a failed
    registration, every way a session ends). *)
Theorem proxy_limits_hold evs send max per limit burst :
  0 ≤ max → 0 ≤ per →
  let p := proxy_run evs (proxy_init send max per limit burst) in
  let live := Z.of_nat (length (live_channels p)) in
  live ≤ max ∧ rl_active_global (px_rate_limiter p) = live ∧
  ∀ ip, holds ip (leases (px_sessions p)) ≤ per ∧ active_of ip (px_rate_limiter p) = holds ip (leases (px_sessions p)).
Proof.
  intros Hmax Hper p live. destruct (run_invariant false send max per limit burst evs) as (Hp & _ & Em & Ep & _); [done|].
  fold p in Hp, Em, Ep. pose proof (po_limiter _ _ Hp) as [Hg Ha Hm Hi].
  unfold live. rewrite (live_leases _ _ Hp). rewrite Em in Hm. cbn in Hm.
  split; [lia|]. split; [done|]. intros ip. split; [|apply Ha]. specialize (Hi ip). rewrite Ep in Hi. cbn in Hi. lia.
Qed.

(** C18: The proxy relays faithfully: after any history, however the kernel cuts
    reads and writes, and whatever fails, what was written to either side of a
    session is a prefix of what was read from the other, behind the PROXY line that names
    the accepted address.  While the session lives nothing is lost: what was not
    written yet waits in its buffer, which stays bounded; a side is shut down
    exactly when the other has ended and its last byte is written; and, when
    [epoll_ctl] does not fail, each socket is watched for what the session waits
    for, and there is always such a socket, so that no session is stuck.
    A session that ends in order has passed on every byte it read. *)
Theorem relay_is_faithful evs send max per limit burst id c :
  px_sessions (proxy_run evs (proxy_init send max per limit burst)) !! id = Some c →
  (∃ addr local, cn_header c = header_of send local addr) ∧
  in_order (cn_header c) (cn_wire c) ∧
  match cn_slot c with
  | Live s =>
      (ps_state s ≠ Connecting → ∀ r,
         w_to (cn_wire c) r ++ pending (out_buf s r) = ahead (cn_header c) r ++ w_from (cn_wire c) (peer_of r)) ∧
      (∀ r, pending_size (out_buf s r) ≤ Z.max kMaxBufferBytes (size (cn_header c))) ∧
      (∀ r, wr_shutdown s r = true ↔ has_read_eof s (peer_of r) = true ∧ pending (out_buf s r) = []) ∧
      (Forall (λ e, event_fine e.2) evs → (∀ r, watched s r = desired_events s r) ∧ ∃ r, progress s r)
  | Gone true => ∀ r, w_to (cn_wire c) r = ahead (cn_header c) r ++ w_from (cn_wire c) (peer_of r)
  | Gone false => True
  end.
Proof.
  intros Hc. destruct (run_invariant false send max per limit burst evs) as (Hp & Hs & _); [done|].
  destruct (po_accepted _ _ Hp id c Hc) as (addr & local & Eh & _). pose proof (po_channels _ _ Hp id c Hc) as Hr.
  split; [rewrite <-Hs; by exists addr, local|]. unfold relayed in Hr. destruct (cn_slot c) as [s|[]] eqn:Es; [|by split; [intros r; rewrite Hr|]|done].
  destruct Hr as (Hl & Hset & _). split; [by apply (live_in_order _ s)|]. split; [apply Hl|]. split; [apply Hl|]. split.
  - intros r. split; [apply Hl|]. intros [He Hpd]. by apply Hset.
  - intros Hf. destruct (run_invariant true send max per limit burst evs) as (Hp' & _); [done|].
    pose proof (po_channels _ _ Hp' id c Hc) as Hr. unfold relayed in Hr. rewrite Es in Hr. destruct Hr as (_ & _ & Ha).
    split; [by apply Ha|]. apply (live_progress (cn_header c) s (cn_wire c)); [done|by apply Ha|by apply (po_unfinished _ _ Hp id c)].
Qed.
End Invariant.

(** ** Witnesses *)

(** Dotted quads, and no IPv6. *)
Definition dotted (b : str) : option str :=
  match b with
  | [w; x; y; z] => if forallb (λ c, (0 <=? c) && (c <? 256)) b then Some (join (lit ".") (map py_str b)) else None
  | _ => None
  end.
Definition sample_inet : Inet := {| inet_ntop4 := dotted; inet_ntop6 _ := None |}.
(** One visitor, whose connection is refused the second time. *)
Definition sample_client : sockaddr := SockInet [198; 51; 100; 7] 50022.
Definition sample_local : option sockaddr := Some (SockInet [10; 0; 0; 1] 22).
Definition no_answers : event_answers := EventAnswers [] false [] (Answers [] [] []).
Definition sample_token (r : socket_role) : Z := session_token 1 r.
Definition accepting (n : nat) : event_answers :=
  EventAnswers (repeat (Accepted sample_client sample_local (Some false) []) n) false [] (Answers [] [] []).
(** Both connections come at once; the backend answers; the client speaks, and
    the backend takes four bytes at first. *)
Definition sample_session : list (Z * proxy_event) :=
  [(0, EpollEvent kTokenListen EPOLLIN 0 (accepting 2));
   (1, EpollEvent (sample_token SBackend) EPOLLOUT 1 (EventAnswers [] false [] (Answers [SentBytes 1000] [] [])));
   (2, EpollEvent (sample_token SClient) EPOLLIN 2
         (EventAnswers [] false [RecvBytes (lit "SSH-2.0-x"); RecvErr EAGAIN] (Answers [SentBytes 4] [] [])))].

Lemma proxy_limits_hold_witness :
  let p := @proxy_run binary64 sample_inet sample_session (@proxy_init binary64 true 10 1 5 5) in
  length (live_channels p) = 1%nat ∧ Z.of_nat (length (live_channels p)) ≤ 10 ∧
  holds (lit "198.51.100.7") (leases (px_sessions p)) ≤ 1.
Proof.
  intros p. destruct (@proxy_limits_hold binary64 sample_inet sample_session true 10 1 5 5) as (H1 & _ & H3); [lia|lia|].
  split; [vm_compute; reflexivity|]. split; [exact H1|]. apply (H3 (lit "198.51.100.7")).
Defined.

Lemma relay_is_faithful_witness :
  let p := @proxy_run binary64 sample_inet sample_session (@proxy_init binary64 true 10 1 5 5) in
  ∃ c s, px_sessions p !! 1 = Some c ∧ cn_slot c = Live s ∧
    w_to_backend (cn_wire c) = lit "PROXY TCP4 198.51.100.7 10.0.0.1 50022 22" ++ [13; 10] ++ lit "SSH-" ∧
    w_to_backend (cn_wire c) ++ pending (ps_to_backend s) = cn_header c ++ w_from_client (cn_wire c) ∧
    watched s SBackend = desired_events s SBackend.
Proof.
  intros p. destruct (px_sessions p !! 1) as [c|] eqn:Ec; [|vm_compute in Ec; discriminate Ec].
  pose proof (@relay_is_faithful binary64 sample_inet sample_session true 10 1 5 5 1 c Ec) as (_ & _ & Hlive).
  assert (E : (λ c, (match cn_slot c with Live s => Some (ps_state s) | _ => None end, w_to_backend (cn_wire c))) <$> px_sessions p !! 1 =
    Some (Some Established, lit "PROXY TCP4 198.51.100.7 10.0.0.1 50022 22" ++ [13; 10] ++ lit "SSH-")) by (vm_compute; reflexivity).
  rewrite Ec in E. cbn [fmap option_fmap option_map] in E. apply (inj Some) in E.
  apply pair_equal_spec in E as [E1 E2]. destruct (cn_slot c) as [s|] eqn:Es; [|discriminate E1]. apply (inj Some) in E1.
  destruct Hlive as (Hflow & _ & _ & Harm). exists c, s. split; [reflexivity|]. split; [exact Es|]. split; [exact E2|].
  split; [apply (Hflow ltac:(rewrite E1; discriminate) SBackend)|]. apply (proj1 (Harm ltac:(repeat constructor))).
Defined.

(** [EPOLLHUP] ends a side at once, although [pump_read] may have stopped at the
    bound of the buffer: the client has sent its end, the backend writes five
    chunks and closes, the client takes nothing at first.  The fifth chunk is
    never read, and the session ends in order without it. *)
Definition long_output : list recv_answer := repeat (RecvBytes (repeat 120 (Z.to_nat kReadChunk))) 5.
Definition hung_up : list (Z * proxy_event) :=
  [(0, EpollEvent kTokenListen EPOLLIN 0 (accepting 1));
   (1, EpollEvent (sample_token SBackend) EPOLLOUT 1 no_answers);
   (2, EpollEvent (sample_token SClient) (Z.lor EPOLLIN EPOLLRDHUP) 2 (EventAnswers [] false [RecvBytes []] (Answers [SentBytes 1000] [] [])));
   (3, EpollEvent (sample_token SBackend) (Z.lor EPOLLIN (Z.lor EPOLLRDHUP EPOLLHUP)) 3
         (EventAnswers [] false long_output (Answers [SendErr EAGAIN] [] [])));
   (4, EpollEvent (sample_token SClient) EPOLLOUT 4 (EventAnswers [] false [] (Answers [SentBytes (2 ^ 20)] [] [])))].
Example hangup_truncates :
  (λ c, (match cn_slot c with Gone b => b | Live _ => false end, size (w_to_client (cn_wire c)))) <$>
    px_sessions (@proxy_run binary64 sample_inet hung_up (@proxy_init binary64 false 10 1 5 5)) !! 1 = Some (true, 65536).
Proof. vm_compute. reflexivity. Qed.
