(* ===== verification/Options.v ===== *)
(** * The command line of the front-end proxy ([proxy/src/main.cpp])

    [main] reads its options with [strtoul], fills in a [ProxyConfig], and
    constructs the server of [ProxyServer.v] with it; [Lifecycle.v] is what
    follows. *)

From S2P Require Import Prelude PyStr Proxy RateLimit Relay RelayProps ProxyServer ProxyServerProps.

#[local] Arguments lit : simpl never.

(** ** Numbers *)

Definition ULONG_MAX : Z := 2 ^ 64 - 1.
(** [isspace] of the C locale. *)
Definition c_space (c : Z) : bool := ((9 <=? c) && (c <=? 13)) || (c =? 32).

(** [std::strtoul] with base ten: the value, whether [errno] is set, and the text
    behind the number; nothing when there are no digits, and [end == text].  A
    negative number wraps around. *)
Definition strtoul (text : str) : option (Z * bool * str) :=
  let (sign, s) := int_sign (drop_while c_space text) in
  let (ds, rest) := span is_digit s in
  if bool_decide (ds = []) then None
  else
    let v := digits_value 0 ds in
    if ULONG_MAX <? v then Some (ULONG_MAX, true, rest) else Some (sign * v mod 2 ^ 64, false, rest).

Definition parse_positive (max : Z) (text : str) : option Z :=
  if bool_decide (text = []) then None
  else
    match strtoul text with
    | Some (value, erange, rest) =>
        if erange || bool_decide (rest ≠ []) || (value =? 0) || (max <? value) then None else Some value
    | None => None
    end.
Definition parse_port (text : str) : option Z := parse_positive 65535 text.
Definition parse_positive_size (text : str) : option Z := parse_positive ULONG_MAX text.
Definition parse_positive_u32 (text : str) : option Z := parse_positive (2 ^ 32 - 1) text.

(** ** Options *)

Record proxy_config := ProxyConfig {
  bind_host : str;
  bind_port : Z;
  backend_host : str;
  backend_port : Z;
  max_connections : Z;
  max_per_ip : Z;
  rate_limit : Z;
  rate_burst : Z;
  send_proxy_protocol : bool
}.
Definition default_config : proxy_config :=
  ProxyConfig (lit "0.0.0.0") 2200 (lit "127.0.0.1") 2222 1000 5 10 15 true.

Definition set_bind_port (v : Z) (c : proxy_config) : proxy_config :=
  ProxyConfig (bind_host c) v (backend_host c) (backend_port c) (max_connections c) (max_per_ip c) (rate_limit c)
    (rate_burst c) (send_proxy_protocol c).
Definition set_backend_port (v : Z) (c : proxy_config) : proxy_config :=
  ProxyConfig (bind_host c) (bind_port c) (backend_host c) v (max_connections c) (max_per_ip c) (rate_limit c)
    (rate_burst c) (send_proxy_protocol c).
Definition set_backend_host (v : str) (c : proxy_config) : proxy_config :=
  ProxyConfig (bind_host c) (bind_port c) v (backend_port c) (max_connections c) (max_per_ip c) (rate_limit c)
    (rate_burst c) (send_proxy_protocol c).
Definition set_max_connections (v : Z) (c : proxy_config) : proxy_config :=
  ProxyConfig (bind_host c) (bind_port c) (backend_host c) (backend_port c) v (max_per_ip c) (rate_limit c)
    (rate_burst c) (send_proxy_protocol c).
Definition set_max_per_ip (v : Z) (c : proxy_config) : proxy_config :=
  ProxyConfig (bind_host c) (bind_port c) (backend_host c) (backend_port c) (max_connections c) v (rate_limit c)
    (rate_burst c) (send_proxy_protocol c).
Definition set_rate_limit (v : Z) (c : proxy_config) : proxy_config :=
  ProxyConfig (bind_host c) (bind_port c) (backend_host c) (backend_port c) (max_connections c) (max_per_ip c) v
    (rate_burst c) (send_proxy_protocol c).
Definition set_rate_burst (v : Z) (c : proxy_config) : proxy_config :=
  ProxyConfig (bind_host c) (bind_port c) (backend_host c) (backend_port c) (max_connections c) (max_per_ip c)
    (rate_limit c) v (send_proxy_protocol c).
Definition set_send_proxy (v : bool) (c : proxy_config) : proxy_config :=
  ProxyConfig (bind_host c) (bind_port c) (backend_host c) (backend_port c) (max_connections c) (max_per_ip c)
    (rate_limit c) (rate_burst c) v.

Definition number (parse : str → option Z) (set : Z → proxy_config → proxy_config) (value : str) (c : proxy_config) :
    option proxy_config :=
  (λ v, set v c) <$> parse value.
(** What an option with a value does; [None]: [arg] is not one. *)
Definition value_option (arg : str) : option (str → proxy_config → option proxy_config) :=
  if bool_decide (arg = lit "-l" ∨ arg = lit "--listen-port") then Some (number parse_port set_bind_port)
  else if bool_decide (arg = lit "-b" ∨ arg = lit "--backend-port") then Some (number parse_port set_backend_port)
  else if bool_decide (arg = lit "-h" ∨ arg = lit "--backend-host") then
    Some (λ value c, if bool_decide (value = []) then None else Some (set_backend_host value c))
  else if bool_decide (arg = lit "--max-connections") then Some (number parse_positive_size set_max_connections)
  else if bool_decide (arg = lit "--max-per-ip") then Some (number parse_positive_size set_max_per_ip)
  else if bool_decide (arg = lit "--rate-limit") then Some (number parse_positive_u32 set_rate_limit)
  else if bool_decide (arg = lit "--rate-burst") then Some (number parse_positive_u32 set_rate_burst)
  else None.

Inductive parsed := Exit (status : Z) | Config (c : proxy_config) (dry_run : bool).

(** The loop over the arguments. *)
Fixpoint parse_args (args : list str) (c : proxy_config) (dry_run : bool) : parsed :=
  match args with
  | [] => Config c dry_run
  | arg :: rest =>
      if bool_decide (arg = lit "--help") then Exit 0
      else if bool_decide (arg = lit "--dry-run") then parse_args rest c true
      else
        match value_option arg with
        | Some set =>
            match rest with
            | [] => Exit 2                        (* missing argument *)
            | value :: rest => match set value c with Some c => parse_args rest c dry_run | None => Exit 2 end
            end
        | None =>
            if bool_decide (arg = lit "--send-proxy-protocol") then parse_args rest (set_send_proxy true c) dry_run
            else if bool_decide (arg = lit "--no-send-proxy-protocol") then parse_args rest (set_send_proxy false c) dry_run
            else Exit 2
        end
  end.

(** The server that is constructed with [c]. *)
Definition server_of `{Double} (c : proxy_config) : proxy_server :=
  proxy_init (send_proxy_protocol c) (max_connections c) (max_per_ip c) (rate_limit c) (rate_burst c).

(** ** What is accepted *)

Definition config_ok (c : proxy_config) : Prop :=
  0 < bind_port c ≤ 65535 ∧ backend_host c ≠ [] ∧ 0 < backend_port c ≤ 65535 ∧
  0 < max_connections c ≤ ULONG_MAX ∧ 0 < max_per_ip c ≤ ULONG_MAX ∧
  0 < rate_limit c ≤ 2 ^ 32 - 1 ∧ 0 < rate_burst c ≤ 2 ^ 32 - 1.

Lemma parse_positive_range max text v : parse_positive max text = Some v → 0 < v ≤ max.
Proof.
  unfold parse_positive, strtoul. case_bool_decide; [done|]. destruct (int_sign _) as [sign s].
  destruct (span is_digit s) as [ds rest]. case_bool_decide; [done|]. cbv zeta. destruct (ULONG_MAX <? _); [done|].
  set (w := _ mod _). assert (0 ≤ w) by (apply Z.mod_pos_bound; lia). cbn [orb].
  destruct (bool_decide (rest ≠ [])); [done|]. cbn [orb]. destruct (Z.eqb_spec w 0); [done|]. cbn [orb].
  destruct (Z.ltb_spec max w); [done|]. intros <-%(inj Some). lia.
Qed.

Lemma span_all s : Forall (λ c, is_digit c = true) s → span is_digit s = (s, []).
Proof. induction 1 as [|c s Hc _ IH]; [done|]. cbn. by rewrite Hc, IH. Qed.

(** A number in range, written in decimal, is read back. *)
Lemma parse_positive_str max v : 0 < v ≤ max → max ≤ ULONG_MAX → parse_positive max (py_str v) = Some v.
Proof.
  intros Hv Hmax. pose proof (py_str_ascii v ltac:(lia)) as Hd.
  assert (Hval : digits_value 0 (py_str v) = v).
  { destruct v as [|p|p]; [lia| |lia]. pose proof (int_digits_pretty (Npos p) "" eq_refl) as E.
    assert (Hne : lit (pretty.pretty_N_go (Npos p) "") ≠ []).
    { intros E0. by rewrite E0 in E. }
    rewrite int_digits_value in E; [|by apply pretty_digits; constructor|by left]. cbn [lit int_digits] in E.
    apply (inj Some) in E. exact E. }
  assert (Hsp : drop_while c_space (py_str v) = py_str v).
  { apply drop_while_none. eapply Forall_impl; [exact Hd|]. unfold is_digit, c_space. cbn. lia. }
  destruct (py_str v) as [|d ds] eqn:Ev; [by rewrite <-Hval in Hv; cbn in Hv; lia|].
  assert (Hsign : int_sign (d :: ds) = (1, d :: ds)).
  { pose proof (Forall_inv Hd) as Hc. unfold is_digit in Hc. unfold int_sign.
    destruct (Z.eqb_spec d 43), (Z.eqb_spec d 45); try lia. done. }
  unfold parse_positive, strtoul. rewrite Hsp, Hsign, span_all, Hval by done. cbv zeta.
  rewrite !bool_decide_eq_false_2 by done. destruct (Z.ltb_spec ULONG_MAX v); [lia|].
  assert (Em : 1 * v mod 2 ^ 64 = v) by (rewrite Z.mul_1_l; apply Z.mod_small; unfold ULONG_MAX in *; lia).
  rewrite Em. cbn [orb]. rewrite bool_decide_eq_false_2 by auto. cbn [orb].
  destruct (Z.eqb_spec v 0); [lia|]. cbn [orb]. by destruct (Z.ltb_spec max v); [lia|].
Qed.

Lemma number_range max set value c c' :
  number (parse_positive max) set value c = Some c' → ∃ v, 0 < v ≤ max ∧ c' = set v c.
Proof.
  unfold number. destruct (parse_positive max value) as [v|] eqn:E; [|done]. intros <-%(inj Some).
  exists v. split; [by eapply parse_positive_range|done].
Qed.

Lemma value_option_ok arg set value c c' : value_option arg = Some set → config_ok c → set value c = Some c' → config_ok c'.
Proof.
  intros Hset Hc Hc'. unfold value_option in Hset. unfold parse_port, parse_positive_size, parse_positive_u32 in Hset.
  repeat (destruct (bool_decide _) in Hset; [apply (inj Some) in Hset as <-|]); [..|done];
    try (apply number_range in Hc' as (v & Hv & ->); unfold config_ok in *; cbn; intuition; fail).
  cbv beta in Hc'. case_bool_decide; [done|]. apply (inj Some) in Hc' as <-. unfold config_ok in *. cbn. intuition.
Qed.
Lemma parse_args_ok args : ∀ c dry c' dry', parse_args args c dry = Config c' dry' → config_ok c → config_ok c'.
Proof.
  induction (Nat.lt_wf_0_projected (@length str) args) as [args _ IH]. intros c dry c' dry' Hp Hc.
  destruct args as [|arg rest]; cbn [parse_args] in Hp; [by injection Hp as <- _|].
  assert (Hrest : ∀ c1 dry1, config_ok c1 → parse_args rest c1 dry1 = Config c' dry' → config_ok c').
  { intros c1 dry1 Hc1 Hp1. by apply (IH rest ltac:(cbn; lia) _ _ _ _ Hp1). }
  case_bool_decide; [done|]. case_bool_decide; [by eapply Hrest|].
  destruct (value_option arg) as [set|] eqn:Es.
  - destruct rest as [|value rest]; [done|]. destruct (set value c) as [c1|] eqn:E1; [|done].
    apply (IH rest ltac:(cbn; lia) _ _ _ _ Hp). by eapply value_option_ok.
  - by repeat (case_bool_decide; [by eapply Hrest; [|exact Hp]|]).
Qed.

(** The options that say [c]. *)
Definition render_options (c : proxy_config) (dry_run : bool) : list str :=
  [lit "--listen-port"; py_str (bind_port c); lit "-h"; backend_host c; lit "-b"; py_str (backend_port c);
   lit "--max-connections"; py_str (max_connections c); lit "--max-per-ip"; py_str (max_per_ip c);
   lit "--rate-limit"; py_str (rate_limit c); lit "--rate-burst"; py_str (rate_burst c);
   if send_proxy_protocol c then lit "--send-proxy-protocol" else lit "--no-send-proxy-protocol"] ++
  if dry_run then [lit "--dry-run"] else [].

Lemma parse_value arg value rest c dry c' set :
  value_option arg = Some set → bool_decide (arg = lit "--help") = false → bool_decide (arg = lit "--dry-run") = false →
  set value c = Some c' → parse_args (arg :: value :: rest) c dry = parse_args rest c' dry.
Proof. intros Hs H1 H2 Hc. cbn [parse_args]. by rewrite H1, H2, Hs, Hc. Qed.
Lemma number_str (parse : str → option Z) set v c : parse (py_str v) = Some v → number parse set (py_str v) c = Some (set v c).
Proof. unfold number. by intros ->. Qed.

(** The options mean what they say: a configuration the proxy starts with has
    ports, limits and rates of their types' range and never zero, so the limits of the
    server apply; and every such configuration can be asked for: the options that name it, in
    decimal, give it. *)
Theorem options_are_read args c dry :
  (parse_args args default_config false = Config c dry → config_ok c) ∧
  (config_ok c → bind_host c = bind_host default_config →
   parse_args (render_options c dry) default_config false = Config c dry).
Proof.
  split; [intros Hp; apply (parse_args_ok _ _ _ _ _ Hp); by vm_compute|].
  intros (H1 & H2 & H3 & H4 & H5 & H6 & H7) Eh. unfold render_options. cbn [app].
  assert (Hn : ∀ max set v c, 0 < v ≤ max → max ≤ ULONG_MAX → number (parse_positive max) set (py_str v) c = Some (set v c)).
  { intros. apply number_str. by apply parse_positive_str. }
  erewrite parse_value; [|reflexivity..|by apply Hn].
  erewrite parse_value; [|reflexivity..|cbv beta; by rewrite bool_decide_eq_false_2].
  do 5 (erewrite parse_value; [|reflexivity..|by apply Hn]).
  destruct c as [host bp bh bkp mc mp rl rb send]. cbn in Eh. subst host. by destruct send, dry.
Qed.

(** ** Witness *)

Definition sample_args : list str :=
  [lit "-l"; lit "2300"; lit "--max-per-ip"; lit " 7"; lit "--no-send-proxy-protocol"].
Definition sample_config : proxy_config :=
  ProxyConfig (lit "0.0.0.0") 2300 (lit "127.0.0.1") 2222 1000 7 10 15 false.

Lemma options_are_read_witness :
  config_ok sample_config ∧ parse_args (render_options sample_config true) default_config false = Config sample_config true.
Proof.
  assert (Hok : config_ok sample_config).
  { apply (options_are_read sample_args sample_config false). vm_compute. reflexivity. }
  split; [exact Hok|]. by apply (options_are_read [] sample_config true).
Defined.

(** A negative number is accepted, and stands for a large one. *)
Example negative_limit :
  parse_args [lit "--max-connections"; lit "-1"] default_config false =
  Config (set_max_connections ULONG_MAX default_config) false.
Proof. vm_compute. reflexivity. Qed.
Example negative_port : parse_port (lit "-18446744073709551615") = Some 1.
Proof. vm_compute. reflexivity. Qed.
