(* ===== verification/Lifecycle.v ===== *)
(** * The life of the proxy process ([main], [init], [run], [stop], [teardown])

    [main] sets up the listening socket, installs the signal handlers, publishes
    the server to them and calls [run], which serves batches of events until
    [running_] is cleared.  A signal may arrive between any two of these steps. *)

From S2P Require Import Prelude PyStr RateLimit Relay RelayProps ProxyServer ProxyServerProps Options.

(** Where the process is: [AtWait] and [AtEpoll] are the head and the body of
    the loop of [run]. *)
Inductive process_phase :=
  | AtInit (dry_run : bool) | AtHandlers | AtPublish | AtRun | AtSetup | AtCheck | AtWait | AtEpoll | AtReturn
  | Exited (status : Z) | Killed.

(** What [epoll_wait] gives: at most [kMaxEpollEvents] events, handled at the
    times that come with them, or an error. *)
Definition kMaxEpollEvents : nat := 64.
Record epoll_answer := EpollAnswer { ep_now : Z; ep_token : Z; ep_events : Z; ep_later : Z; ep_answers : event_answers }.
Inductive wait_answer := Batch (l : list epoll_answer) (swept : Z) | WaitErr (e : errno).

(** The answers of a step: whether the call it makes succeeds, what
    [epoll_wait] gives, and the time of a teardown. *)
Record outcome := Outcome { oc_ok : bool; oc_wait : wait_answer; oc_now : Z }.

Section Life.
Context `{Double} `{Inet}.

Record process := Process {
  pr_phase : process_phase;
  pr_server : proxy_server;
  pr_listening : bool;
  pr_running : bool;
  pr_handlers : bool;
  pr_published : bool
}.
Definition start (c : proxy_config) (dry_run : bool) : process :=
  Process (AtInit dry_run) (server_of c) false false false false.

Definition at_phase (ph : process_phase) (p : process) : process :=
  Process ph (pr_server p) (pr_listening p) (pr_running p) (pr_handlers p) (pr_published p).
Definition set_running (b : bool) (p : process) : process :=
  Process (pr_phase p) (pr_server p) (pr_listening p) b (pr_handlers p) (pr_published p).

(** [teardown]: clearing the table destroys the sessions, and their leases. *)
Definition teardown (now : Z) (s : proxy_server) : proxy_server :=
  ProxyServer (px_send_proxy_protocol s) (px_next_session_id s)
    (foldr (λ ip r, release ip now r) (px_rate_limiter s) (leases (px_sessions s))) ∅.
Definition torn_down (now : Z) (p : process) : process :=
  Process (pr_phase p) (teardown now (pr_server p)) false (pr_running p) (pr_handlers p) (pr_published p).

(** A batch of [run], and the sweep behind it. *)
Definition batch_events (l : list epoll_answer) (swept : Z) : list (Z * proxy_event) :=
  map (λ e, (ep_now e, EpollEvent (ep_token e) (ep_events e) (ep_later e) (ep_answers e))) (take kMaxEpollEvents l)
    ++ [(swept, BatchEnd)].

(** The end of [run]. *)
Definition run_ends (now : Z) (p : process) : process := at_phase AtReturn (torn_down now (set_running false p)).

(** The next step of the process. *)
Definition proc_step (o : outcome) (p : process) : process :=
  match pr_phase p with
  | AtInit dry_run =>
      if negb (oc_ok o) then at_phase (Exited 1) p
      else
        let p := Process (pr_phase p) (pr_server p) true (pr_running p) (pr_handlers p) (pr_published p) in
        if dry_run then at_phase (Exited 0) (torn_down (oc_now o) p) else at_phase AtHandlers p
  | AtHandlers =>
      if oc_ok o then Process AtPublish (pr_server p) (pr_listening p) (pr_running p) true (pr_published p)
      else at_phase (Exited 1) (torn_down (oc_now o) p)
  | AtPublish => Process AtRun (pr_server p) (pr_listening p) (pr_running p) (pr_handlers p) true
  | AtRun => if pr_listening p then at_phase AtSetup (set_running true p) else at_phase AtReturn p
  | AtSetup => if oc_ok o then at_phase AtCheck p else at_phase AtReturn (set_running false p)
  | AtCheck => if pr_running p then at_phase AtWait p else at_phase AtReturn (torn_down (oc_now o) p)
  | AtWait => if pr_running p then at_phase AtEpoll p else run_ends (oc_now o) p
  | AtEpoll =>
      match oc_wait o with
      | WaitErr EINTR => at_phase AtWait p
      | WaitErr _ => run_ends (oc_now o) p
      | Batch l swept =>
          Process AtWait (proxy_run (batch_events l swept) (pr_server p)) (pr_listening p) (pr_running p)
            (pr_handlers p) (pr_published p)
      end
  | AtReturn => Process (Exited 0) (teardown (oc_now o) (pr_server p)) false (pr_running p) (pr_handlers p) false
  | Exited _ | Killed => p
  end.

(** SIGTERM or SIGINT: [handle_signal] and [stop], once they are installed. *)
Definition signal (p : process) : process :=
  match pr_phase p with
  | Exited _ | Killed => p
  | _ =>
      if negb (pr_handlers p) then at_phase Killed p
      else if pr_published p then set_running false p else p
  end.

Inductive life_event := Tick (o : outcome) | Signal.
Definition life_step (ev : life_event) (p : process) : process :=
  match ev with Tick o => proc_step o p | Signal => signal p end.
Fixpoint life (evs : list life_event) (p : process) : process :=
  match evs with [] => p | ev :: rest => life rest (life_step ev p) end.
Definition is_tick (ev : life_event) : bool := match ev with Tick _ => true | Signal => false end.
Definition ticks (evs : list life_event) : nat := length (List.filter is_tick evs).

(** ** The invariant *)

(** No session lives, and no place is taken. *)
Definition closed (s : proxy_server) : Prop := px_sessions s = ∅ ∧ rl_active_global (px_rate_limiter s) = 0.

Lemma release_all now held : ∀ r rest,
  limiter_ok r (held ++ rest) → limiter_ok (foldr (λ ip r, release ip now r) r held) rest.
Proof.
  induction held as [|ip held IH]; intros r rest Hok; [done|]. cbn [foldr].
  apply (release_ok _ _ _ (ip :: rest) rest); [|done]. apply IH. eapply limiter_ok_perm; [|exact Hok]. apply Permutation_middle.
Qed.
Lemma teardown_ok fine now s : proxy_ok fine s → proxy_ok fine (teardown now s) ∧ closed (teardown now s).
Proof.
  intros [Hlim Hnext _ _ _ _]. assert (Hl : limiter_ok (px_rate_limiter (teardown now s)) []).
  { apply release_all. by rewrite app_nil_r. }
  split; [|split; [done|apply Hl]]. split; cbn [teardown px_sessions]; [|done|..].
  - unfold leases. by rewrite map_to_list_empty.
  - intros id [c Hc]. by rewrite lookup_empty in Hc.
  - intros id c Hc. by rewrite lookup_empty in Hc.
  - intros id c Hc. by rewrite lookup_empty in Hc.
  - intros id c s' Hc. by rewrite lookup_empty in Hc.
Qed.

Definition serving (ph : process_phase) : bool := match ph with AtSetup | AtCheck | AtWait | AtEpoll => true | _ => false end.

Record life_ok (p : process) : Prop := {
  lf_server : proxy_ok false (pr_server p);
  lf_published : pr_phase p = AtRun ∨ serving (pr_phase p) = true → pr_handlers p = true ∧ pr_published p = true;
  lf_handlers : pr_phase p = AtPublish → pr_handlers p = true;
  lf_closed : pr_phase p = Exited 0 → closed (pr_server p) }.

Lemma tick_ok o p : life_ok p → life_ok (proc_step o p).
Proof.
  intros Hok. pose proof Hok as [Hs Hp Hh Hc]. destruct (teardown_ok false (oc_now o) (pr_server p) Hs) as [Ht Htc].
  assert (Hend : life_ok (run_ends (oc_now o) p)) by by split; cbn; [|intros [|]| |].
  unfold proc_step. destruct (pr_phase p) eqn:Eph; try done.
  - destruct (oc_ok o); [|by split; cbn; [|intros [|]| |]]. destruct dry_run; by split; cbn; [|intros [|]| |].
  - destruct (oc_ok o); by split; cbn; [|intros [|]| |].
  - split; cbn; [done|by rewrite (Hh eq_refl)|done|done].
  - destruct (Hp (or_introl eq_refl)) as [H1 H2]. destruct (pr_listening p); by split; cbn; [|intros _| |].
  - destruct (Hp (or_intror eq_refl)) as [H1 H2]. destruct (oc_ok o); by split; cbn; [|intros _| |].
  - destruct (Hp (or_intror eq_refl)) as [H1 H2]. destruct (pr_running p); split; cbn; done || by intros [|].
  - destruct (Hp (or_intror eq_refl)) as [H1 H2]. destruct (pr_running p); [by split; cbn|done].
  - destruct (Hp (or_intror eq_refl)) as [H1 H2]. destruct (oc_wait o) as [l swept|[]]; [|exact Hend|by split; cbn|exact Hend..].
    split; cbn; try done. by apply proxy_run_ok.
  - split; cbn; [done|by intros [|]|done|done].
Qed.
Lemma signal_ok p : life_ok p → life_ok (signal p).
Proof.
  intros Hok. pose proof Hok as [Hs Hp Hh Hc]. unfold signal. destruct (pr_phase p) eqn:Eph; try done;
    (destruct (pr_handlers p) eqn:Eh; [destruct (pr_published p) eqn:Epub; [|done]|]);
    split; cbn; rewrite ?Eph, ?Eh, ?Epub; try done; by intros [|].
Qed.
Lemma life_run_ok evs : ∀ p, life_ok p → life_ok (life evs p).
Proof. induction evs as [|[o|] evs IH]; intros p Hok; [done|by apply IH, tick_ok|by apply IH, signal_ok]. Qed.
Lemma start_ok c dry_run : life_ok (start c dry_run).
Proof. split; cbn; [apply proxy_init_ok|by intros [|]|done|done]. Qed.

(** ** Stopping *)

(** The steps that are left once [running_] is cleared. *)
Definition remaining (ph : process_phase) : option nat :=
  match ph with
  | AtSetup | AtEpoll => Some 3%nat
  | AtCheck | AtWait => Some 2%nat
  | AtReturn => Some 1%nat
  | Exited 0 => Some 0%nat
  | _ => None
  end.
Definition stopping (n : nat) (p : process) : Prop :=
  pr_running p = false ∧ pr_handlers p = true ∧ ∃ k, remaining (pr_phase p) = Some k ∧ (k ≤ n)%nat.

Lemma tick_stopping o n p : stopping n p → stopping (pred n) (proc_step o p).
Proof.
  intros (Hr & Hh & k & Hk & Hn). unfold proc_step, stopping.
  destruct (pr_phase p) as [| | | | | | | | |[]|] eqn:E; try done; injection Hk as <-; rewrite ?Hr;
    repeat case_match; cbn; rewrite ?E; (split; [done|]); (split; [done|]); eexists; (split; [done|]); lia.
Qed.
Lemma signal_stopping n p : stopping n p → stopping n (signal p).
Proof.
  intros (Hr & Hh & k & Hk & Hn). unfold signal. destruct (pr_phase p) as [| | | | | | | | |[]|] eqn:E; try done;
    rewrite ?Hh; cbn [negb]; destruct (pr_published p); (split; [done|]); (split; [done|]); exists k; cbn; by rewrite E.
Qed.
Lemma life_stopping evs : ∀ n p, stopping n p → stopping (n - ticks evs) (life evs p).
Proof.
  induction evs as [|[o|] evs IH]; intros n p Hs.
  - by rewrite Nat.sub_0_r.
  - replace (n - ticks (Tick o :: evs))%nat with (pred n - ticks evs)%nat by (unfold ticks; cbn; lia).
    by apply IH, tick_stopping.
  - by apply IH, signal_stopping.
Qed.

(** C31: The proxy stops when it is told to: a signal that arrives while it serves,
    that is from the moment [run] has set [running_], ends the process in order within
    three of its steps, whatever [epoll_wait] gives and whatever signals follow;
    no session lives then, and every place of the limiter was given back. *)
Theorem stop_is_heard c dry_run before after :
  let p := life before (start c dry_run) in
  serving (pr_phase p) = true → (3 ≤ ticks after)%nat →
  let p' := life after (signal p) in
  pr_phase p' = Exited 0 ∧ px_sessions (pr_server p') = ∅ ∧ rl_active_global (px_rate_limiter (pr_server p')) = 0.
Proof.
  intros p Hsv Hn p'. assert (Hp : life_ok p) by by apply life_run_ok, start_ok.
  destruct (lf_published _ Hp (or_intror Hsv)) as [Hh Hpub].
  assert (Hst : stopping 3 (signal p)).
  { unfold signal, stopping. rewrite Hh, Hpub. destruct (pr_phase p) eqn:E; try done; cbn; rewrite E; eauto with lia. }
  apply (life_stopping after) in Hst as (_ & _ & k & Hk & Hle). fold p' in Hk.
  assert (Hex : pr_phase p' = Exited 0).
  { destruct (pr_phase p') as [| | | | | | | | |[]|]; try done; injection Hk as <-; lia. }
  split; [done|]. by apply (lf_closed p'); [apply life_run_ok, signal_ok|].
Qed.
End Life.

(** ** Witness *)

Definition fine_outcome (l : list epoll_answer) : outcome := Outcome true (Batch l 9) 9.
Definition first_visit : list epoll_answer := [EpollAnswer 1 kTokenListen EPOLLIN 1 (accepting 1)].
(** A visitor is served, and the process told to stop. *)
Definition served : list life_event :=
  map Tick [fine_outcome []; fine_outcome []; fine_outcome []; fine_outcome []; fine_outcome []; fine_outcome [];
            fine_outcome []; fine_outcome first_visit].

Lemma stop_is_heard_witness :
  let p := @life binary64 sample_inet served (@start binary64 default_config false) in
  let p' := @life binary64 sample_inet (map Tick [fine_outcome []; fine_outcome []; fine_outcome []]) (signal p) in
  rl_active_global (px_rate_limiter (pr_server p)) = 1 ∧ pr_phase p' = Exited 0 ∧
  rl_active_global (px_rate_limiter (pr_server p')) = 0.
Proof.
  intros p p'. assert (Hsv : serving (pr_phase p) = true) by (vm_compute; reflexivity).
  destruct (@stop_is_heard binary64 sample_inet default_config false served
    (map Tick [fine_outcome []; fine_outcome []; fine_outcome []]) Hsv) as (H1 & _ & H3); [vm_compute; lia|].
  split; [vm_compute; reflexivity|]. split; [exact H1|exact H3].
Defined.

(** A signal between [g_server.store] and the first line of [run] is lost:
    [run] sets [running_] without looking at it. *)
Example early_stop_lost :
  let ready := map Tick [fine_outcome []; fine_outcome []; fine_outcome []] in
  let serve n := map Tick (repeat (fine_outcome []) n) in
  map (λ n, pr_phase (@life binary64 sample_inet (ready ++ [Signal] ++ serve n) (@start binary64 default_config false))) [3; 103; 203]%nat =
  [AtWait; AtWait; AtWait].
Proof. vm_compute. reflexivity. Qed.
