(* ===== verification/Terminal.v ===== *)
(** * Terminal output ([server.py])

    What the SSH channel is sent: every line ending becomes CR LF
    ([normalize_crlf]), and the last line is completed when asked for
    ([_channel_write]). *)

From S2P Require Import Prelude PyStr.

Definition normalize_crlf (text : str) : str :=
  if bool_decide (text = []) then []
  else
  let unix := replace (replace text [13; 10] [10]) [13] [10] in
  let trailing := endswith unix [10] in
  let body := if trailing then take (length unix - 1) unix else unix in
  let converted := replace body [10] [13; 10] in
  if trailing then converted ++ [13; 10] else converted.

(** [_channel_write] on a stream with a [write] method: what is written, if
    anything. *)
Definition _channel_write (text : str) (complete : bool) : option str :=
  if bool_decide (text = []) then None
  else
  let payload := if complete && negb (endswith text [10]) then text ++ [10] else text in
  Some (normalize_crlf payload).

(** ** Specification *)

(** Line endings in the Unix convention. *)
Fixpoint to_unix (s : str) : str :=
  match s with
  | [] => []
  | c :: s' =>
      if c =? 13 then
        10 :: match s' with
              | d :: s'' => if d =? 10 then to_unix s'' else to_unix s'
              | [] => []
              end
      else c :: to_unix s'
  end.

Definition to_crlf (s : str) : str := flat_map (λ c, if c =? 10 then [13; 10] else [c]) s.

(** Every CR is followed by LF and every LF preceded by CR. *)
Fixpoint crlf_only (s : str) : bool :=
  match s with
  | [] => true
  | c :: s' =>
      if c =? 13 then match s' with d :: s'' => (d =? 10) && crlf_only s'' | [] => false end
      else negb (c =? 10) && crlf_only s'
  end.

(** Induction that may look at two characters. *)
Lemma str_ind2 (P : str → Prop) :
  P [] → (∀ c, P [c]) → (∀ c d s, P (d :: s) → P s → P (c :: d :: s)) → ∀ s, P s.
Proof.
  intros H0 H1 H2. assert (H : ∀ s, P s ∧ ∀ c, P (c :: s)); [|intros s; apply H].
  induction s as [|c s [IH1 IH2]]; [auto|]. split; [apply IH2|]. intros d. auto.
Qed.

Lemma replace_char a new s :
  replace s [a] new = flat_map (λ c, if c =? a then new else [c]) s.
Proof.
  unfold replace. induction s as [|c s IH]; [done|]. cbn [replace_aux flat_map length Nat.sub].
  unfold startswith. rewrite !IH. destruct (Z.eqb_spec c a) as [->|Hc].
  - rewrite bool_decide_eq_true_2; [done|]. by exists s.
  - rewrite bool_decide_eq_false_2; [done|]. by intros [k [= <- _]].
Qed.

Lemma startswith_crlf c s :
  startswith (c :: s) [13; 10] =
  (c =? 13) && match s with d :: _ => d =? 10 | [] => false end.
Proof.
  apply eq_true_iff_eq. rewrite startswith_true, andb_true_iff, Z.eqb_eq. split.
  - intros [k Hk]. injection Hk as -> ->. done.
  - intros [-> H]. destruct s as [|d s]; [done|]. apply Z.eqb_eq in H as ->. by exists s.
Qed.

Lemma replace_crlf_cons c s :
  replace (c :: s) [13; 10] [10] =
  if (c =? 13) && match s with d :: _ => d =? 10 | [] => false end
  then 10 :: replace (tail s) [13; 10] [10] else c :: replace s [13; 10] [10].
Proof.
  unfold replace. cbn [replace_aux]. rewrite startswith_crlf.
  destruct (c =? 13); [|done]. by destruct s as [|d s]; [|destruct (d =? 10)].
Qed.

Lemma unix_lines s : replace (replace s [13; 10] [10]) [13] [10] = to_unix s.
Proof.
  rewrite replace_char. induction s as [|c|c d s IH1 IH2] using str_ind2; [done|..];
    rewrite replace_crlf_cons.
  - rewrite andb_false_r. cbn. by destruct (c =? 13).
  - cbn [tail]. change (to_unix (c :: d :: s)) with
      (if c =? 13 then 10 :: if d =? 10 then to_unix s else to_unix (d :: s)
       else c :: to_unix (d :: s)).
    destruct (c =? 13) eqn:Ec; cbn [andb].
    + destruct (d =? 10); cbn [flat_map]; [by rewrite IH2|]. by rewrite Ec, IH1.
    + cbn [flat_map]. by rewrite Ec, IH1.
Qed.

Lemma to_crlf_app s t : to_crlf (s ++ t) = to_crlf s ++ to_crlf t.
Proof. apply flat_map_app. Qed.

Lemma to_unix_no_cr s : 13 ∉ to_unix s.
Proof.
  induction s as [|c|c d s IH1 IH2] using str_ind2.
  - apply not_elem_of_nil.
  - cbn. destruct (Z.eqb_spec c 13); apply not_elem_of_cons; (split; [done|apply not_elem_of_nil]).
  - change (to_unix (c :: d :: s)) with
      (if c =? 13 then 10 :: if d =? 10 then to_unix s else to_unix (d :: s)
       else c :: to_unix (d :: s)).
    destruct (Z.eqb_spec c 13); [destruct (d =? 10)|]; apply not_elem_of_cons; done.
Qed.

(** The function is: Unix line endings, each then written as CR LF. *)
Lemma normalize_to_crlf s : normalize_crlf s = to_crlf (to_unix s).
Proof.
  unfold normalize_crlf. case_bool_decide as Es; [by subst|]. cbn zeta.
  rewrite unix_lines. generalize (to_unix s) as u. clear. intros u.
  destruct (endswith u [10]) eqn:E; [|by rewrite replace_char].
  unfold endswith in E. apply bool_decide_eq_true in E as [k ->].
  rewrite length_app, Nat.add_sub, take_app_length, replace_char, to_crlf_app. done.
Qed.

Lemma crlf_only_to_crlf u : 13 ∉ u → crlf_only (to_crlf u) = true.
Proof.
  induction u as [|c u IH]; [done|]. intros [Hc Hu]%not_elem_of_cons. cbn.
  destruct (c =? 10) eqn:E; cbn [app crlf_only].
  - by apply IH.
  - rewrite E, (proj2 (Z.eqb_neq c 13)) by done. by apply IH.
Qed.

Lemma to_unix_to_crlf u : 13 ∉ u → to_unix (to_crlf u) = u.
Proof.
  induction u as [|c u IH]; [done|]. intros [Hc Hu]%not_elem_of_cons.
  change (to_crlf (c :: u)) with ((if c =? 10 then [13; 10] else [c]) ++ to_crlf u).
  destruct (Z.eqb_spec c 10) as [->|Hn]; cbn [app to_unix].
  - cbn. by rewrite IH.
  - rewrite (proj2 (Z.eqb_neq c 13)) by done. by rewrite IH.
Qed.

Lemma to_crlf_crlf_only s : crlf_only s = true → to_crlf (to_unix s) = s.
Proof.
  induction s as [|c|c d s IH1 IH2] using str_ind2; [done|..].
  - cbn. destruct (c =? 13) eqn:E1; [done|]. cbn. by destruct (c =? 10).
  - change (to_unix (c :: d :: s)) with
      (if c =? 13 then 10 :: if d =? 10 then to_unix s else to_unix (d :: s)
       else c :: to_unix (d :: s)).
    change (crlf_only (c :: d :: s)) with
      (if c =? 13 then (d =? 10) && crlf_only s else negb (c =? 10) && crlf_only (d :: s)).
    destruct (Z.eqb_spec c 13) as [->|Hc]; intros [H1 H2]%andb_true_iff.
    + apply Z.eqb_eq in H1 as ->. cbn. by rewrite <-(IH2 H2) at 2.
    + change (to_crlf (c :: to_unix (d :: s))) with
        ((if c =? 10 then [13; 10] else [c]) ++ to_crlf (to_unix (d :: s))).
      apply negb_true_iff in H1. by rewrite H1, (IH1 H2).
Qed.

(** ** Theorems *)

(** The text sent to a terminal says the same lines as the text the shell
    produced, with every line ending as CR LF: no bare CR and no bare LF is
    left, nothing else is changed or added, and sending it through again
    changes nothing. *)
Theorem normalize_crlf_spec text :
  to_unix (normalize_crlf text) = to_unix text ∧
  crlf_only (normalize_crlf text) = true ∧
  normalize_crlf (normalize_crlf text) = normalize_crlf text ∧
  (crlf_only text = true → normalize_crlf text = text).
Proof.
  rewrite !normalize_to_crlf. pose proof (to_unix_no_cr text) as Hn.
  split_and!.
  - by apply to_unix_to_crlf.
  - by apply crlf_only_to_crlf.
  - by rewrite to_unix_to_crlf.
  - by apply to_crlf_crlf_only.
Qed.
