(* ===== verification/ShellParse.v ===== *)
(** * Parsing a command line ([shell.py], [shlex])

    Splitting a line into statements, conditionals and pipeline stages outside
    quotes, [shlex.split] in POSIX mode (the state machine of the standard
    library's [read_token], as the program configures it: whitespace splits,
    no comment characters), redirections, and the small parsers of wrapper
    commands, [wget] and [curl]. *)

From S2P Require Import Prelude PyStr.

Definition backslash : Z := 92.
Definition squote : Z := 39.
Definition dquote : Z := 34.

(** ** [_split_operators] *)

(** The longest operator first, as the code sorts them (stably). *)
Fixpoint insert_len (op : str) (l : list str) : list str :=
  match l with
  | [] => [op]
  | x :: l' => if (length x <? length op)%nat then op :: l else x :: insert_len op l'
  end.
Definition sort_len (ops : list str) : list str := fold_left (λ l op, insert_len op l) ops [].

(** [for sep in seps: if line.startswith(sep, index)]. *)
Fixpoint match_op (seps : list str) (line : str) : option str :=
  match seps with
  | [] => None
  | sep :: seps' => if startswith line sep then Some sep else match_op seps' line
  end.

(** [command = "".join(buf).strip(); if command: fragments.append(...)]; the
    buffer is kept in reverse. *)
Definition emit (incoming buf : str) : list (str * str) :=
  let command := strip (reverse buf) in
  if bool_decide (command = []) then [] else [(incoming, command)].

(** The [while] loop; [skip] counts the characters of an operator still to be
    passed over. *)
Fixpoint split_loop (seps : list str) (skip : nat) (incoming buf : str)
    (quote : option Z) (line : str) : list (str * str) :=
  match line with
  | [] => emit incoming buf
  | c :: rest =>
      match skip with
      | S k => split_loop seps k incoming buf quote rest
      | O =>
          match quote with
          | Some q =>
              split_loop seps 0 incoming (c :: buf) (if c =? q then None else quote) rest
          | None =>
              if c =? backslash then
                match rest with
                | d :: rest' => split_loop seps 0 incoming (d :: c :: buf) None rest'
                | [] => emit incoming (c :: buf)
                end
              else if (c =? squote) || (c =? dquote) then
                split_loop seps 0 incoming (c :: buf) (Some c) rest
              else
                match match_op seps line with
                | Some sep =>
                    emit incoming buf ++ split_loop seps (length sep - 1) sep [] None rest
                | None => split_loop seps 0 incoming (c :: buf) None rest
                end
          end
      end
  end.

Definition _split_operators (line : str) (operators : list str) : list (str * str) :=
  split_loop (sort_len operators) 0 [] [] None line.

Definition split_statements (line : str) : list str :=
  map snd (_split_operators line [lit ";"]).

Record chain_segment := ChainSegment { seg_command : str; seg_operator : str }.

Definition split_conditionals (line : str) : list chain_segment :=
  map (λ p, ChainSegment p.2 p.1) (_split_operators line [lit "&&"; lit "||"]).

(** ** [split_pipeline] *)

Definition emit_stage (buf : str) : list str :=
  let stage := strip (reverse buf) in
  if bool_decide (stage = []) then [] else [stage].

Fixpoint pipeline_loop (buf : str) (quote : option Z) (line : str) : list str :=
  match line with
  | [] => emit_stage buf
  | c :: rest =>
      match quote with
      | Some q => pipeline_loop (c :: buf) (if c =? q then None else quote) rest
      | None =>
          if c =? backslash then
            match rest with
            | d :: rest' => pipeline_loop (d :: c :: buf) None rest'
            | [] => emit_stage (c :: buf)
            end
          else if (c =? squote) || (c =? dquote) then pipeline_loop (c :: buf) (Some c) rest
          else if (c =? 124) && negb (match rest with d :: _ => d =? 124 | [] => false end)
          then emit_stage buf ++ pipeline_loop [] None rest
          else pipeline_loop (c :: buf) None rest
      end
  end.

Definition split_pipeline (line : str) : list str := pipeline_loop [] None line.

(** ** [shlex.split(line, posix=True)] *)

(** The states of [read_token]: between tokens, in a word, in a quote, after
    a backslash (with the state to go back to). *)
Inductive lex_state :=
  | LexBlank
  | LexWord
  | LexQuote (q : Z)
  | LexEscape (in_quote : bool).

(** The blanks of [shlex]. *)
Definition lex_blank (c : Z) : bool := (c =? 32) || (c =? 9) || (c =? 13) || (c =? 10).

(** [tok] is the current token in reverse, [quoted] whether a quote was seen. *)
Fixpoint lex_loop (st : lex_state) (quoted : bool) (tok : str) (line : str) :
    result (list str) :=
  match line with
  | [] =>
      match st with
      | LexBlank => Ok []
      | LexWord => if bool_decide (tok ≠ []) || quoted then Ok [reverse tok] else Ok []
      | LexQuote _ => Err (ValueError "No closing quotation")
      | LexEscape _ => Err (ValueError "No escaped character")
      end
  | c :: rest =>
      match st with
      | LexBlank =>
          if lex_blank c then lex_loop LexBlank false [] rest
          else if c =? backslash then lex_loop (LexEscape false) false [] rest
          else if (c =? squote) || (c =? dquote) then lex_loop (LexQuote c) false [] rest
          else lex_loop LexWord false [c] rest
      | LexWord =>
          if lex_blank c then
            if bool_decide (tok ≠ []) || quoted
            then tl ← lex_loop LexBlank false [] rest; Ok (reverse tok :: tl)
            else lex_loop LexBlank quoted [] rest
          else if (c =? squote) || (c =? dquote) then lex_loop (LexQuote c) quoted tok rest
          else if c =? backslash then lex_loop (LexEscape false) quoted tok rest
          else lex_loop LexWord quoted (c :: tok) rest
      | LexQuote q =>
          if c =? q then lex_loop LexWord true tok rest
          else if (c =? backslash) && (q =? dquote) then lex_loop (LexEscape true) true tok rest
          else lex_loop (LexQuote q) true (c :: tok) rest
      | LexEscape in_quote =>
          let tok :=
            if in_quote && negb (c =? backslash) && negb (c =? dquote)
            then c :: backslash :: tok else c :: tok in
          lex_loop (if in_quote then LexQuote dquote else LexWord) quoted tok rest
      end
  end.

Definition shlex_split (line : str) : result (list str) := lex_loop LexBlank false [] line.

(** ** Redirections *)

Definition _STDERR_REDIRECTS : list str := [lit "2>&1"; lit "2>/dev/null"].

(** [_parse_redirection]: the command words, the last target of standard output
    and whether it is appended to. *)
Fixpoint redirection_loop (command : list str) (redirect_path : option str) (append : bool)
    (tokens : list str) : result (list str * option str * bool) :=
  match tokens with
  | [] => Ok (reverse command, redirect_path, append)
  | token :: rest =>
      if bool_decide (token = lit "2>" ∧ rest ≠ []) then
        match rest with
        | _ :: rest' => redirection_loop command redirect_path append rest'
        | [] => Ok (reverse command, redirect_path, append)
        end
      else if bool_decide (token ∈ _STDERR_REDIRECTS) || startswith token "2>" then
        redirection_loop command redirect_path append rest
      else if bool_decide (token = lit ">") || bool_decide (token = lit ">>") then
        match rest with
        | [] => Err (ValueError "bash: syntax error near unexpected token `newline'")
        | path :: rest' =>
            redirection_loop command (Some path) (bool_decide (token = lit ">>")) rest'
        end
      else redirection_loop (token :: command) redirect_path append rest
  end.

Definition _parse_redirection (tokens : list str) : result (list str * option str * bool) :=
  redirection_loop [] None false tokens.

(** ** Command names, wrappers and scripts *)

Definition _SYSTEM_BIN_PREFIXES : list str := [lit "/usr/bin/"; lit "/sbin/"; lit "/bin/"].

Definition slash_in (s : str) : bool := contains s 47.

Fixpoint strip_prefixes (prefixes : list str) (command : str) : str :=
  match prefixes with
  | [] => command
  | prefix :: more =>
      if startswith command prefix then
        let rest := drop (length prefix) command in
        if bool_decide (rest ≠ []) && negb (slash_in rest) then rest
        else strip_prefixes more command
      else strip_prefixes more command
  end.
Definition _strip_system_prefix (command : str) : str :=
  strip_prefixes _SYSTEM_BIN_PREFIXES command.

Definition _is_explicit_path (command : str) : bool := slash_in command.

Fixpoint _extract_shell_c (tokens : list str) : option str :=
  match tokens with
  | [] => None
  | token :: rest =>
      match rest with
      | next :: _ => if bool_decide (token = lit "-c") then Some next else _extract_shell_c rest
      | [] => None
      end
  end.

Fixpoint _shell_script_operand (args : list str) : option str :=
  match args with
  | [] => None
  | arg :: rest => if startswith arg "-" then _shell_script_operand rest else Some arg
  end.

Definition _ELF_MAGIC : str := 127 :: lit "ELF".

Definition _is_binary_script (content : str) : bool :=
  startswith content _ELF_MAGIC ||
  existsb (λ code, ((code <? 32) && negb (contains [9; 10; 13] code)) || (code =? 127)) content.

(** ** [wget] and [curl] operands *)

Fixpoint wget_loop (url output_path : option str) (args : list str) : option str * option str :=
  match args with
  | [] => (url, output_path)
  | arg :: rest =>
      if bool_decide (arg = lit "-O") || bool_decide (arg = lit "--output-document") then
        match rest with
        | next :: rest' => wget_loop url (Some next) rest'
        | [] => (url, output_path)
        end
      else if startswith arg "--output-document=" then
        wget_loop url (Some (split_once_tail 61 arg)) rest
      else if startswith arg "-" && bool_decide (arg ≠ lit "-") then
        wget_loop url output_path rest
      else wget_loop (match url with None => Some arg | Some _ => url end) output_path rest
  end.
Definition _parse_wget_args (args : list str) : option str * option str :=
  wget_loop None None args.

Record curl_args := CurlArgs {
  curl_url : option str;
  curl_output : option str;
  curl_remote_name : bool;
  curl_silent : bool
}.

Fixpoint curl_loop (st : curl_args) (args : list str) : curl_args :=
  let set_silent := CurlArgs (curl_url st) (curl_output st) (curl_remote_name st) true in
  let set_output o := CurlArgs (curl_url st) (Some o) (curl_remote_name st) (curl_silent st) in
  match args with
  | [] => st
  | arg :: rest =>
      if bool_decide (arg ∈ [lit "-s"; lit "--silent"; lit "-sS"]) then curl_loop set_silent rest
      else if bool_decide (arg ∈ [lit "-O"; lit "--remote-name"]) then
        curl_loop (CurlArgs (curl_url st) (curl_output st) true (curl_silent st)) rest
      else if bool_decide (arg ∈ [lit "-o"; lit "--output"]) then
        match rest with
        | next :: rest' => curl_loop (set_output next) rest'
        | [] => st
        end
      else if startswith arg "--output=" then curl_loop (set_output (split_once_tail 61 arg)) rest
      else if startswith arg "-o" && bool_decide (arg ≠ lit "-o") then
        curl_loop (set_output (drop 2 arg)) rest
      else if startswith arg "-" && bool_decide (arg ≠ lit "-") then
        let flags := drop 1 arg in
        curl_loop
          (CurlArgs (curl_url st) (curl_output st) (curl_remote_name st || contains flags 79)
             (curl_silent st || contains flags 115)) rest
      else
        curl_loop
          (CurlArgs (match curl_url st with None => Some arg | Some _ => curl_url st end)
             (curl_output st) (curl_remote_name st) (curl_silent st)) rest
  end.
Definition _parse_curl_args (args : list str) : curl_args :=
  curl_loop (CurlArgs None None false false) args.

(** The letters of the short options; a list that may repeat them stands for
    the set. *)
Definition _short_flags (args : list str) : str :=
  concat (omap (λ arg,
    if startswith arg "--" || bool_decide (arg = lit "-") then None
    else if startswith arg "-" then Some (drop 1 arg) else None) args).
