(* ===== verification/ShellParseProps.v ===== *)
(** * Parsing undoes printing

    A command line built from words that are quoted, commands joined by pipes,
    conditionals and semicolons is taken apart by the parser into exactly that
    structure: nothing inside quotes is ever syntax.  [scan] is the property of
    a text that makes this compositional: every quote closed, no operator
    outside quotes. *)

From S2P Require Import Prelude PyStr ShellParse.

(** ** Stripping *)

Definition trimmed (w : str) : Prop :=
  (∃ c w', w = c :: w' ∧ is_space c = false) ∧ (∃ c w', w = w' ++ [c] ∧ is_space c = false).

Lemma drop_while_app p a b :
  Forall (λ c, p c = true) a → drop_while p (a ++ b) = drop_while p b.
Proof. by induction 1 as [|c a Hc Ha IH]; cbn; [|rewrite Hc]. Qed.

Lemma strip_trimmed a w b :
  Forall (λ c, is_space c = true) a → Forall (λ c, is_space c = true) b → trimmed w →
  strip (a ++ w ++ b) = w.
Proof.
  intros Ha Hb [(c & w1 & Hc & Hcs) (d & w2 & Hd & Hds)].
  unfold strip, strip_by, lstrip_by, rstrip_by. rewrite drop_while_app by done.
  assert (E : drop_while is_space (w ++ b) = w ++ b) by (rewrite Hc; cbn; by rewrite Hcs).
  rewrite E, reverse_app, drop_while_app by by apply Forall_reverse.
  assert (E' : drop_while is_space (reverse w) = reverse w).
  { rewrite Hd, reverse_app. cbn. by rewrite Hds. }
  by rewrite E', reverse_involutive.
Qed.

Lemma trimmed_app a m b : trimmed a → trimmed b → trimmed (a ++ m ++ b).
Proof.
  intros [(c & a' & -> & Hc) _] [_ (d & b' & -> & Hd)]. split.
  - by exists c, (a' ++ m ++ b' ++ [d]).
  - exists d, ((c :: a') ++ m ++ b'). by rewrite <-!app_assoc.
Qed.

(** ** Scanning *)

(** Operators that a blank cuts off. *)
Definition seps_ok (seps : list str) : Prop :=
  Forall (λ op : str,
    op ≠ [] ∧ (32 ∉ op) ∧ (squote ∉ op) ∧ (dquote ∉ op) ∧ (backslash ∉ op)) seps.

Fixpoint scan (seps : list str) (quote : option Z) (line : str) : bool :=
  match line with
  | [] => match quote with None => true | Some _ => false end
  | c :: rest =>
      match quote with
      | Some q => scan seps (if c =? q then None else quote) rest
      | None =>
          if c =? backslash then
            match rest with _ :: rest' => scan seps None rest' | [] => false end
          else if (c =? squote) || (c =? dquote) then scan seps (Some c) rest
          else match match_op seps line with Some _ => false | None => scan seps None rest end
      end
  end.

Lemma startswith_cut op a b :
  32 ∉ op → startswith (a ++ 32 :: b) op = startswith a op.
Proof.
  intros Hop. apply bool_decide_ext. split; [|by intros; apply prefix_app_r].
  revert op Hop. induction a as [|c a IH]; intros op Hop [k Hk].
  - destruct op as [|d op]; [apply prefix_nil|]. injection Hk as <- _.
    by apply not_elem_of_cons in Hop as [? _].
  - destruct op as [|d op]; [apply prefix_nil|]. injection Hk as -> Hk.
    apply not_elem_of_cons in Hop as [_ Hop]. apply prefix_cons, IH; [done|by exists k].
Qed.

Lemma match_op_cut seps a b :
  seps_ok seps → match_op seps (a ++ 32 :: b) = match_op seps a.
Proof.
  intros Hs. induction Hs as [|op seps (Hne & H32 & _) Hs IH]; [done|]. cbn [match_op].
  rewrite startswith_cut by done. by rewrite IH.
Qed.

Lemma match_op_blank seps b : seps_ok seps → match_op seps (32 :: b) = None.
Proof.
  intros Hs. change (32 :: b) with ([] ++ 32 :: b). rewrite match_op_cut by done.
  induction Hs as [|op seps (Hne & _) Hs IH]; [done|]. cbn [match_op].
  destruct op as [|d op]; [done|]. exact IH.
Qed.

(** Induction over a line one or two characters at a time. *)
Lemma line_ind (P : str → Prop) :
  P [] → (∀ c s, P s → (∀ d s', s = d :: s' → P s') → P (c :: s)) → ∀ s, P s.
Proof.
  intros H0 H1. assert (H : ∀ s, P s ∧ ∀ d s', s = d :: s' → P s'); [|intros s; apply H].
  induction s as [|c s [IH1 IH2]]; [split; [done|by intros]|].
  split; [by apply H1|]. by intros d s' [= -> ->].
Qed.

(** A closed text is passed over, into the buffer. *)
Lemma split_loop_scan seps inc w : ∀ quote buf rest,
  seps_ok seps → scan seps quote w = true →
  split_loop seps 0 inc buf quote (w ++ 32 :: rest) =
  split_loop seps 0 inc (32 :: reverse w ++ buf) None rest.
Proof.
  induction w as [|c w IH IH2] using line_ind; intros quote buf rest Hs Hw.
  - cbn in Hw. destruct quote; [done|]. cbn [app split_loop].
    change ((32 =? backslash)) with false. change ((32 =? squote) || (32 =? dquote)) with false.
    by rewrite match_op_blank.
  - cbn [scan] in Hw. cbn [app split_loop]. rewrite reverse_cons, <-app_assoc. cbn [app].
    destruct quote as [q|]; [by apply IH|]. destruct (c =? backslash) eqn:Eb.
    { destruct w as [|d w]; [done|]. cbn [app]. rewrite (IH2 d w eq_refl) by done.
      by rewrite reverse_cons, <-app_assoc. }
    destruct ((c =? squote) || (c =? dquote)); [by apply IH|].
    change (c :: w ++ 32 :: rest) with ((c :: w) ++ 32 :: rest).
    rewrite match_op_cut by done. destruct (match_op seps (c :: w)); [done|]. by apply IH.
Qed.

Lemma split_loop_scan_end seps inc w : ∀ quote buf,
  scan seps quote w = true → split_loop seps 0 inc buf quote w = emit inc (reverse w ++ buf).
Proof.
  induction w as [|c w IH IH2] using line_ind; intros quote buf Hw; [done|].
  cbn [scan] in Hw. cbn [split_loop]. rewrite reverse_cons, <-app_assoc. cbn [app].
  destruct quote as [q|]; [by apply IH|]. destruct (c =? backslash) eqn:Eb.
  { destruct w as [|d w]; [done|]. rewrite (IH2 d w eq_refl) by done.
    by rewrite reverse_cons, <-app_assoc. }
  destruct ((c =? squote) || (c =? dquote)); [by apply IH|].
  destruct (match_op seps (c :: w)); [done|]. by apply IH.
Qed.

Lemma split_loop_skip seps inc op : ∀ buf quote rest,
  split_loop seps (length op) inc buf quote (op ++ rest) =
  split_loop seps 0 inc buf quote rest.
Proof.
  induction op as [|c op IH]; intros buf quote rest; [done|]. cbn [length app split_loop].
  apply IH.
Qed.

(** An operator ends the fragment. *)
Lemma split_loop_op seps inc buf op rest :
  seps_ok seps → match_op seps op = Some op → op ∈ seps →
  split_loop seps 0 inc buf None (op ++ 32 :: rest) =
  emit inc buf ++ split_loop seps 0 op [32] None rest.
Proof.
  intros Hs Hm Hin. assert (Hop := Hin). unfold seps_ok in Hs. rewrite Forall_forall in Hs.
  apply Hs in Hop as (Hne & _ & Hsq & Hdq & Hbs). rewrite <-Forall_forall in Hs.
  destruct op as [|c op]; [done|].
  apply not_elem_of_cons in Hsq as [Hsq _], Hdq as [Hdq _], Hbs as [Hbs _].
  cbn [app split_loop]. rewrite (proj2 (Z.eqb_neq c backslash)) by done.
  rewrite (proj2 (Z.eqb_neq c squote)), (proj2 (Z.eqb_neq c dquote)) by done. cbn [orb].
  change (c :: op ++ 32 :: rest) with ((c :: op) ++ 32 :: rest).
  rewrite match_op_cut, Hm by done. f_equal.
  replace (length (c :: op) - 1)%nat with (length op) by (cbn; lia).
  rewrite split_loop_skip. exact (split_loop_scan seps (c :: op) [] None [] rest Hs eq_refl).
Qed.

Lemma emit_trimmed inc a w b :
  Forall (λ c, is_space c = true) a → Forall (λ c, is_space c = true) b → trimmed w →
  emit inc (reverse b ++ reverse w ++ reverse a) = [(inc, w)].
Proof.
  intros Ha Hb Hw. unfold emit. rewrite !reverse_app, !reverse_involutive, <-app_assoc.
  rewrite strip_trimmed by done. rewrite bool_decide_eq_false_2; [done|].
  destruct Hw as [(c & w' & -> & _) _]. done.
Qed.

(** ** Splitting a chain of fragments *)

Definition chain_text (frags : list (str * str)) : str :=
  concat (map (λ f : str * str, 32 :: f.1 ++ 32 :: f.2) frags).

Definition frag_ok (seps : list str) (w : str) : Prop := scan seps None w = true ∧ trimmed w.
Definition link_ok (seps : list str) (f : str * str) : Prop :=
  f.1 ∈ seps ∧ match_op seps f.1 = Some f.1 ∧ frag_ok seps f.2.

Lemma split_loop_chain seps frags : ∀ inc a w,
  seps_ok seps → Forall (λ c, is_space c = true) a → frag_ok seps w →
  Forall (link_ok seps) frags →
  split_loop seps 0 inc (reverse a) None (w ++ chain_text frags) = (inc, w) :: frags.
Proof.
  induction frags as [|[op w'] frags IH]; intros inc a w Hs Ha [Hw Ht] Hf.
  - unfold chain_text. cbn. rewrite app_nil_r, split_loop_scan_end by done.
    apply (emit_trimmed inc a w []); [done|constructor|done].
  - apply Forall_cons in Hf as [(Hin & Hm & Hok) Hf]. cbn in Hin, Hm, Hok.
    change (chain_text ((op, w') :: frags)) with (32 :: (op ++ 32 :: w') ++ chain_text frags).
    rewrite split_loop_scan by done. rewrite <-app_assoc. cbn [app].
    rewrite split_loop_op by done.
    assert (E : emit inc (32 :: reverse w ++ reverse a) = [(inc, w)])
      by (apply (emit_trimmed inc a w [32]); [done|by repeat constructor|done]).
    rewrite E. cbn [app]. f_equal.
    apply (IH op [32] w'); [done|by repeat constructor|done|done].
Qed.

Lemma emit_stage_emit inc buf : emit_stage buf = map snd (emit inc buf).
Proof. unfold emit_stage, emit. by case_bool_decide. Qed.

Lemma startswith_bar c s : startswith (c :: s) (lit "|") = (c =? 124).
Proof.
  apply eq_true_iff_eq. rewrite startswith_true, Z.eqb_eq. split.
  - by intros [k [= -> _]].
  - intros ->. by exists s.
Qed.

Lemma startswith_bar2 c s :
  startswith (c :: s) (lit "||") = (c =? 124) && match s with d :: _ => d =? 124 | [] => false end.
Proof.
  apply eq_true_iff_eq. rewrite startswith_true, andb_true_iff, Z.eqb_eq. split.
  - by intros [k [= -> ->]].
  - intros [-> H]. destruct s as [|d s]; [done|]. apply Z.eqb_eq in H as ->. by exists s.
Qed.

(** [split_pipeline] is splitting on [|] where no [||] is left. *)
Lemma pipeline_split line : ∀ inc buf quote,
  scan [lit "||"] quote line = true →
  pipeline_loop buf quote line = map snd (split_loop [lit "|"] 0 inc buf quote line).
Proof.
  induction line as [|c line IH IH2] using line_ind; intros inc buf quote Hw;
    [apply emit_stage_emit|].
  cbn [scan] in Hw. cbn [pipeline_loop split_loop].
  destruct quote as [q|]; [by apply IH|]. destruct (c =? backslash).
  { destruct line as [|d line]; [done|]. by apply (IH2 d line eq_refl). }
  destruct ((c =? squote) || (c =? dquote)); [by apply IH|].
  cbn [match_op] in Hw |- *. rewrite startswith_bar2 in Hw. rewrite startswith_bar.
  destruct (c =? 124); cbn [andb] in *; [|by apply IH].
  destruct (match line with d :: _ => d =? 124 | [] => false end); [done|]. cbn [negb].
  rewrite map_app, <-emit_stage_emit. f_equal. by apply IH.
Qed.

(** ** Quoting *)

(** A word in single quotes; a single quote of the word goes between double
    quotes. *)
Definition quote_char (c : Z) : str :=
  if c =? squote then [squote; dquote; squote; dquote; squote] else [c].
Definition sh_quote (w : str) : str := squote :: flat_map quote_char w ++ [squote].

Lemma scan_quoted seps w rest :
  scan seps (Some squote) (flat_map quote_char w ++ squote :: rest) = scan seps None rest.
Proof.
  induction w as [|c w IH]; [done|]. cbn [flat_map]. rewrite <-app_assoc. unfold quote_char at 1.
  destruct (c =? squote) eqn:E; [exact IH|]. cbn [app scan]. by rewrite E.
Qed.

Lemma scan_sh_quote seps w : scan seps None (sh_quote w) = true.
Proof. exact (scan_quoted seps w []). Qed.

Lemma lex_quoted w tok rest :
  lex_loop (LexQuote squote) true tok (flat_map quote_char w ++ squote :: rest) =
  lex_loop LexWord true (reverse w ++ tok) rest.
Proof.
  revert tok. induction w as [|c w IH]; intros tok; [done|].
  cbn [flat_map]. rewrite <-app_assoc, reverse_cons, <-app_assoc. unfold quote_char at 1.
  destruct (Z.eqb_spec c squote) as [->|Hc]; [exact (IH (squote :: tok))|].
  cbn [app lex_loop]. rewrite (proj2 (Z.eqb_neq c squote)) by done.
  change (squote =? dquote) with false. rewrite andb_false_r. apply IH.
Qed.

(** The flag does not matter once a quote has closed. *)
Lemma lex_quoted_flag q b tok rest :
  rest ≠ [] → lex_loop (LexQuote q) b tok rest = lex_loop (LexQuote q) true tok rest.
Proof. by destruct rest. Qed.

Lemma lex_sh_quote w rest :
  lex_loop LexBlank false [] (sh_quote w ++ rest) = lex_loop LexWord true (reverse w) rest.
Proof.
  unfold sh_quote. cbn [app lex_loop]. rewrite <-app_assoc. cbn [app].
  change (lex_blank squote) with false. cbn match. change (squote =? backslash) with false.
  cbn match. cbn [Z.eqb orb]. change ((squote =? squote) || (squote =? dquote)) with true.
  cbn match. rewrite lex_quoted_flag by by destruct w; cbn; [|unfold quote_char; case_match].
  by rewrite lex_quoted, app_nil_r.
Qed.

(** A simple command: quoted words between blanks. *)
Definition cmd_text (ws : list str) : str := join [32] (map sh_quote ws).

Lemma lex_cmd_text ws : shlex_split (cmd_text ws) = Ok ws.
Proof.
  unfold shlex_split, cmd_text. induction ws as [|w ws IH]; [done|].
  destruct ws as [|w' ws].
  - cbn [map join]. rewrite <-(app_nil_r (sh_quote w)), lex_sh_quote. cbn [lex_loop].
    by rewrite orb_true_r, reverse_involutive.
  - change (join [32] (map sh_quote (w :: w' :: ws))) with
      (sh_quote w ++ 32 :: join [32] (map sh_quote (w' :: ws))).
    rewrite lex_sh_quote. cbn [lex_loop]. change (lex_blank 32) with true. cbn match.
    rewrite orb_true_r, IH. cbn. by rewrite reverse_involutive.
Qed.

(** ** Scanning printed text *)

Lemma scan_app seps a b : ∀ quote,
  seps_ok seps → scan seps quote a = true →
  scan seps quote (a ++ 32 :: b) = scan seps None b.
Proof.
  induction a as [|c a IH IH2] using line_ind; intros quote Hs Ha.
  - cbn in Ha. destruct quote; [done|]. cbn [app scan]. by rewrite match_op_blank.
  - cbn [scan] in Ha. cbn [app scan]. destruct quote as [q|]; [by apply IH|].
    destruct (c =? backslash); [destruct a as [|d a]; [done|]; by apply (IH2 d a eq_refl)|].
    destruct ((c =? squote) || (c =? dquote)); [by apply IH|].
    change (c :: a ++ 32 :: b) with ((c :: a) ++ 32 :: b). rewrite match_op_cut by done.
    destruct (match_op seps (c :: a)); [done|]. by apply IH.
Qed.

Lemma scan_cmd_text seps ws : seps_ok seps → scan seps None (cmd_text ws) = true.
Proof.
  intros Hs. unfold cmd_text. induction ws as [|w ws IH]; [done|].
  destruct ws as [|w' ws]; [apply scan_sh_quote|].
  change (join [32] (map sh_quote (w :: w' :: ws))) with
    (sh_quote w ++ 32 :: join [32] (map sh_quote (w' :: ws))).
  rewrite scan_app by (done || apply scan_sh_quote). exact IH.
Qed.

(** A chain of links scans when its parts do and its operators are not among
    the separators looked for. *)
Lemma scan_chain seps w frags :
  seps_ok seps → scan seps None w = true →
  Forall (λ f : str * str, scan seps None f.1 = true ∧ scan seps None f.2 = true) frags →
  scan seps None (w ++ chain_text frags) = true.
Proof.
  intros Hs Hw Hf. revert w Hw. induction Hf as [|[op w'] frags [Hop Hw'] Hf IH]; intros w Hw.
  - unfold chain_text. cbn. by rewrite app_nil_r.
  - change (chain_text ((op, w') :: frags)) with (32 :: (op ++ 32 :: w') ++ chain_text frags).
    rewrite scan_app by done. rewrite <-app_assoc. cbn [app]. rewrite scan_app by done.
    by apply IH.
Qed.

Lemma trimmed_quote w : trimmed (sh_quote w).
Proof.
  split; [by exists squote, (flat_map quote_char w ++ [squote])|].
  by exists squote, (squote :: flat_map quote_char w).
Qed.

Lemma trimmed_cmd ws : ws ≠ [] → trimmed (cmd_text ws).
Proof.
  unfold cmd_text. induction ws as [|w ws IH]; [done|]. intros _.
  destruct ws as [|w' ws]; [apply trimmed_quote|].
  change (join [32] (map sh_quote (w :: w' :: ws))) with
    (sh_quote w ++ [32] ++ join [32] (map sh_quote (w' :: ws))).
  apply trimmed_app; [apply trimmed_quote|by apply IH].
Qed.

Lemma trimmed_chain w frags :
  trimmed w → Forall (λ f : str * str, trimmed f.2) frags → trimmed (w ++ chain_text frags).
Proof.
  intros Hw Hf. revert w Hw. induction Hf as [|[op w'] frags Hw' Hf IH]; intros w Hw.
  - unfold chain_text. cbn. by rewrite app_nil_r.
  - cbn in Hw'. assert (E : w ++ chain_text ((op, w') :: frags) =
      (w ++ (32 :: op ++ [32]) ++ w') ++ chain_text frags).
    { unfold chain_text. cbn. by rewrite <-!app_assoc; cbn; rewrite <-!app_assoc. }
    rewrite E. apply IH. by apply trimmed_app.
Qed.

(** ** Programs *)

Abbreviation command := (list str).
Abbreviation pipeline := (list command).
(** Pipelines with the operator in front of each ([""] for the first). *)
Abbreviation statement := (list (str * pipeline)).

Definition pipe_text (p : pipeline) : str :=
  match p with
  | [] => []
  | c :: cs => cmd_text c ++ chain_text (map (λ c, (lit "|", cmd_text c)) cs)
  end.
Definition stmt_text (st : statement) : str :=
  match st with
  | [] => []
  | (_, p) :: links => pipe_text p ++ chain_text (map (λ l : str * pipeline, (l.1, pipe_text l.2)) links)
  end.
Definition prog_text (prog : list statement) : str :=
  match prog with
  | [] => []
  | st :: sts => stmt_text st ++ chain_text (map (λ st, (lit ";", stmt_text st)) sts)
  end.

Definition pipe_wf (p : pipeline) : Prop := p ≠ [] ∧ Forall (λ c : command, c ≠ []) p.
Definition link_wf (l : str * pipeline) : Prop :=
  (l.1 = lit "&&" ∨ l.1 = lit "||") ∧ pipe_wf l.2.
Definition stmt_wf (st : statement) : Prop :=
  match st with [] => False | (op, p) :: links => op = [] ∧ pipe_wf p ∧ Forall link_wf links end.

(** How [execute] takes a line apart. *)
Definition parse_line (line : str) : list (list (str * list (result command))) :=
  map (λ st, map (λ seg, (seg_operator seg, map shlex_split (split_pipeline (seg_command seg))))
               (split_conditionals st))
    (split_statements (strip line)).

Definition seps_and_or : list str := [lit "&&"; lit "||"].

Lemma seps_ok_decide seps :
  forallb (λ op : str, bool_decide (op ≠ [] ∧ 32 ∉ op) &&
    bool_decide ((squote ∉ op) ∧ (dquote ∉ op) ∧ (backslash ∉ op))) seps = true → seps_ok seps.
Proof.
  unfold seps_ok. rewrite forallb_forall, Forall_forall. intros H op Hop%list_elem_of_In.
  apply H, andb_true_iff in Hop as [H1 H2]. apply bool_decide_eq_true in H1, H2. tauto.
Qed.
Lemma seps_semi : seps_ok [lit ";"]. Proof. by apply seps_ok_decide. Qed.
Lemma seps_bar : seps_ok [lit "|"]. Proof. by apply seps_ok_decide. Qed.
Lemma seps_bar2 : seps_ok [lit "||"]. Proof. by apply seps_ok_decide. Qed.
Lemma seps_cond : seps_ok seps_and_or. Proof. by apply seps_ok_decide. Qed.
#[local] Hint Resolve seps_semi seps_bar seps_bar2 seps_cond : core.

Lemma Forall_map_iff {A B} (f : A → B) (P : B → Prop) l :
  Forall P (map f l) ↔ Forall (λ x, P (f x)) l.
Proof. apply Forall_fmap. Qed.

Lemma pipe_scan seps p :
  seps_ok seps → scan seps None (lit "|") = true → scan seps None (pipe_text p) = true.
Proof.
  intros Hs Hbar. destruct p as [|c cs]; [done|]. apply scan_chain; [done|by apply scan_cmd_text|].
  apply Forall_map_iff, Forall_forall. intros c' _. cbn. split; [done|by apply scan_cmd_text].
Qed.

Lemma pipe_trimmed p : pipe_wf p → trimmed (pipe_text p).
Proof.
  intros [Hne Hp]. destruct Hp as [|c cs Hc Hcs]; [done|]. apply trimmed_chain; [by apply trimmed_cmd|].
  apply Forall_map_iff. eapply Forall_impl; [done|]. cbn. apply trimmed_cmd.
Qed.

Lemma stmt_scan seps st :
  seps_ok seps → scan seps None (lit "|") = true → scan seps None (lit "&&") = true →
  scan seps None (lit "||") = true → stmt_wf st → scan seps None (stmt_text st) = true.
Proof.
  intros Hs Hbar Hand Hor Hst. destruct st as [|[op p] links]; [done|].
  destruct Hst as (_ & _ & Hl). apply scan_chain; [done|by apply pipe_scan|].
  apply Forall_map_iff. eapply Forall_impl; [done|]. intros [op' p'] [[Ho|Ho] _]; cbn in *;
    subst; (split; [done|by apply pipe_scan]).
Qed.

Lemma stmt_trimmed st : stmt_wf st → trimmed (stmt_text st).
Proof.
  intros Hst. destruct st as [|[op p] links]; [done|]. destruct Hst as (_ & Hp & Hl).
  apply trimmed_chain; [by apply pipe_trimmed|].
  apply Forall_map_iff. eapply Forall_impl; [done|]. intros [op' p'] [_ Hp']. by apply pipe_trimmed.
Qed.

Lemma split_pipe p : pipe_wf p → split_pipeline (pipe_text p) = map cmd_text p.
Proof.
  intros [Hne Hp]. unfold split_pipeline.
  rewrite (pipeline_split (pipe_text p) []) by by apply pipe_scan.
  destruct Hp as [|c cs Hc Hcs]; [done|]. cbn [pipe_text].
  pose proof (split_loop_chain [lit "|"] (map (λ c, (lit "|", cmd_text c)) cs) [] [] (cmd_text c)) as H.
  change (reverse (@nil Z)) with (@nil Z) in H. rewrite H; [|done|constructor|split; [by apply scan_cmd_text|by apply trimmed_cmd]|].
  - cbn. f_equal. rewrite map_map. done.
  - apply Forall_map_iff. eapply Forall_impl; [done|]. intros c' Hc'. cbn.
    split; [by left|]. split; [done|]. split; [by apply scan_cmd_text|by apply trimmed_cmd].
Qed.

Lemma split_stmt st :
  stmt_wf st →
  split_conditionals (stmt_text st) = map (λ l : str * pipeline, ChainSegment (pipe_text l.2) l.1) st.
Proof.
  intros Hst. destruct st as [|[op p] links]; [done|]. destruct Hst as (-> & Hp & Hl).
  unfold split_conditionals, _split_operators.
  change (sort_len [lit "&&"; lit "||"]) with seps_and_or. cbn [stmt_text].
  pose proof (split_loop_chain seps_and_or
    (map (λ l : str * pipeline, (l.1, pipe_text l.2)) links) [] [] (pipe_text p)) as H.
  change (reverse (@nil Z)) with (@nil Z) in H.
  rewrite H; [|done|constructor|split; [by apply pipe_scan|by apply pipe_trimmed]|].
  - cbn. f_equal. rewrite map_map. done.
  - apply Forall_map_iff. eapply Forall_impl; [done|]. intros [op' p'] [Hop Hp']. cbn in *.
    split; [destruct Hop as [->| ->]; [by left|by right; left]|].
    split; [by destruct Hop as [->| ->]|]. split; [by apply pipe_scan|by apply pipe_trimmed].
Qed.

Lemma split_prog st sts :
  Forall stmt_wf (st :: sts) → split_statements (strip (prog_text (st :: sts))) = map stmt_text (st :: sts).
Proof.
  intros [Hst Hsts]%Forall_cons. unfold split_statements, _split_operators.
  change (sort_len [lit ";"]) with [lit ";"].
  assert (Ht : trimmed (prog_text (st :: sts))).
  { apply trimmed_chain; [by apply stmt_trimmed|]. apply Forall_map_iff.
    eapply Forall_impl; [done|]. apply stmt_trimmed. }
  pose proof (strip_trimmed [] (prog_text (st :: sts)) [] ltac:(constructor) ltac:(constructor) Ht) as E.
  rewrite app_nil_r in E. cbn [app] in E. rewrite E. cbn [prog_text].
  pose proof (split_loop_chain [lit ";"] (map (λ st, (lit ";", stmt_text st)) sts) [] []
    (stmt_text st)) as H. change (reverse (@nil Z)) with (@nil Z) in H.
  rewrite H; [|done|constructor|split; [by apply stmt_scan|by apply stmt_trimmed]|].
  - cbn. f_equal. rewrite map_map. done.
  - apply Forall_map_iff. eapply Forall_impl; [done|]. intros st' Hst'. cbn.
    split; [by left|]. split; [done|]. split; [by apply stmt_scan|by apply stmt_trimmed].
Qed.

(** ** Theorems *)

(** C27: Printing a program, every word quoted, and taking the line apart as
    [execute] does (statements, then conditionals, then pipeline stages, then
    [shlex] words) gives the program back, whatever text the words hold:
    quotes, operators, blanks, backslashes and line ends inside a quoted word
    never become syntax. *)
Theorem parse_print prog :
  prog ≠ [] → Forall stmt_wf prog →
  parse_line (prog_text prog) =
  map (map (λ l : str * pipeline, (l.1, map Ok l.2))) prog.
Proof.
  intros Hne Hp. destruct prog as [|st sts]; [done|]. unfold parse_line.
  rewrite split_prog by done. rewrite map_map. apply map_ext_Forall.
  eapply Forall_impl; [exact Hp|]. intros st' Hst'. cbn. rewrite split_stmt by done.
  rewrite map_map. apply map_ext_Forall. cbn.
  assert (Hpipes : Forall (λ l : str * pipeline, pipe_wf l.2) st').
  { destruct st' as [|[op p] links]; [done|]. destruct Hst' as (_ & Hpp & Hl).
    constructor; [done|]. eapply Forall_impl; [done|]. by intros ? [_ ?]. }
  eapply Forall_impl; [exact Hpipes|]. intros [op p] Hpp. cbn in *.
  rewrite split_pipe, map_map by done. f_equal. apply map_ext. apply lex_cmd_text.
Qed.

Lemma parse_print_witness :
  let prog := [[([], [[lit "echo"; lit "a;b || c"]; [lit "cat"]]); (lit "&&", [[lit "echo"; lit "it's"]])];
               [([], [[lit "rm"; lit "x y"]])]] in
  parse_line (prog_text prog) = map (map (λ l : str * pipeline, (l.1, map Ok l.2))) prog.
Proof.
  apply parse_print; [done|].
  assert (Hp : ∀ p : pipeline, p ≠ [] → Forall (λ c : command, c ≠ []) p → pipe_wf p) by done.
  apply Forall_cons_2; [|apply Forall_cons_2; [|apply Forall_nil_2]].
  - split; [done|]. split; [apply Hp; [done|by repeat constructor]|].
    apply Forall_cons_2; [|apply Forall_nil_2]. split; [by left|].
    apply Hp; [done|by repeat constructor].
  - split; [done|]. split; [apply Hp; [done|by repeat constructor]|apply Forall_nil_2].
Defined.

(** ** Redirections *)

(** What the tokens of a simple command are: a word, a redirection of standard
    output, of standard error with its target, or one written as one token. *)
Inductive redir_item :=
  | RWord (w : str)
  | ROut (append : bool) (path : str)
  | RErr (path : str)
  | RErrToken (t : str).

Definition item_tokens (it : redir_item) : list str :=
  match it with
  | RWord w => [w]
  | ROut append path => [if append then lit ">>" else lit ">"; path]
  | RErr path => [lit "2>"; path]
  | RErrToken t => [t]
  end.
Definition item_ok (it : redir_item) : bool :=
  match it with
  | RWord w => negb (startswith w "2>") && negb (bool_decide (w = lit ">"))
               && negb (bool_decide (w = lit ">>"))
  | RErrToken t => startswith t "2>" && negb (bool_decide (t = lit "2>"))
  | _ => true
  end.
Definition items_tokens (items : list redir_item) : list str := concat (map item_tokens items).
Definition items_words (items : list redir_item) : list str :=
  omap (λ it, match it with RWord w => Some w | _ => None end) items.
(** The last redirection of standard output counts. *)
Definition items_out (items : list redir_item) (out : option str * bool) : option str * bool :=
  fold_left (λ o it, match it with ROut append path => (Some path, append) | _ => o end) items out.

Definition syntax_error : pyexc :=
  ValueError "bash: syntax error near unexpected token `newline'".

Definition redirection_outcome (command : list str) (out : option str * bool)
    (tokens : list str) (r : result (list str * option str * bool)) : Prop :=
  ∃ items, forallb item_ok items = true ∧
    ((∃ dangling, (dangling = [] ∨ dangling = [lit "2>"]) ∧
        tokens = items_tokens items ++ dangling ∧
        r = Ok (reverse command ++ items_words items, (items_out items out).1, (items_out items out).2)) ∨
     (∃ op, (op = lit ">" ∨ op = lit ">>") ∧ tokens = items_tokens items ++ [op] ∧
        r = Err syntax_error)).

Lemma outcome_cons command out it tokens r :
  item_ok it = true →
  redirection_outcome
    (match it with RWord w => w :: command | _ => command end)
    (match it with ROut append path => (Some path, append) | _ => out end) tokens r →
  redirection_outcome command out (item_tokens it ++ tokens) r.
Proof.
  intros Hit (items & Hok & H). exists (it :: items). split; [by cbn; rewrite Hit, Hok|].
  unfold items_tokens in *. cbn [map concat]. destruct H as [(d & Hd & -> & ->)|(op & Hop & -> & ->)].
  - left. exists d. split; [done|]. split; [by rewrite app_assoc|].
    destruct it; [by rewrite reverse_cons, <-app_assoc|done..].
  - right. exists op. split; [done|]. split; [by rewrite app_assoc|done].
Qed.

Lemma stderr_startswith t : t ∈ _STDERR_REDIRECTS → startswith t "2>" = true.
Proof. unfold _STDERR_REDIRECTS. intros H. repeat (apply elem_of_cons in H as [->|H]; [done|]).
  by apply not_elem_of_nil in H. Qed.

(** Induction that may drop one or two tokens. *)
Lemma token_ind (P : list str → Prop) :
  P [] → (∀ t ts, P ts → (∀ u us, ts = u :: us → P us) → P (t :: ts)) → ∀ ts, P ts.
Proof.
  intros H0 H1. assert (H : ∀ ts, P ts ∧ ∀ u us, ts = u :: us → P us); [|intros ts; apply H].
  induction ts as [|t ts [IH1 IH2]]; [split; [done|by intros]|].
  split; [by apply H1|]. by intros u us [= -> ->].
Qed.

Lemma redirection_loop_spec tokens : ∀ command path append,
  redirection_outcome command (path, append) tokens
    (redirection_loop command path append tokens).
Proof.
  induction tokens as [|t ts IH IH2] using token_ind; intros command path append.
  { exists []. split; [done|]. left. exists []. split; [by left|]. split; [done|].
    by cbn; rewrite app_nil_r. }
  cbn [redirection_loop]. destruct (bool_decide (t = lit "2>" ∧ ts ≠ [])) eqn:E1.
  - apply bool_decide_eq_true in E1 as [-> Hne]. destruct ts as [|u us]; [done|].
    exact (outcome_cons command (path, append) (RErr u) us _ eq_refl (IH2 u us eq_refl _ _ _)).
  - apply bool_decide_eq_false in E1.
    destruct (bool_decide (t ∈ _STDERR_REDIRECTS) || startswith t "2>") eqn:E2.
    + assert (Ht : startswith t "2>" = true).
      { apply orb_true_iff in E2 as [E2|E2]; [|done].
        apply bool_decide_eq_true in E2. by apply stderr_startswith. }
      destruct (decide (t = lit "2>")) as [->|Hne].
      * destruct ts as [|u us]; [|by destruct E1]. exists []. split; [done|]. left.
        exists [lit "2>"]. split; [by right|]. split; [done|]. by cbn; rewrite app_nil_r.
      * apply (outcome_cons command (path, append) (RErrToken t) ts); [|apply IH].
        unfold item_ok. by rewrite Ht, bool_decide_eq_false_2.
    + apply orb_false_iff in E2 as [_ E2].
      destruct (bool_decide (t = lit ">") || bool_decide (t = lit ">>")) eqn:E3.
      * rewrite orb_true_iff, !bool_decide_eq_true in E3. destruct ts as [|u us].
        { exists []. split; [done|]. right. exists t. done. }
        assert (Hit : item_tokens (ROut (bool_decide (t = lit ">>")) u) = [t; u]).
        { destruct E3 as [->| ->]; reflexivity. }
        pose proof (outcome_cons command (path, append) (ROut (bool_decide (t = lit ">>")) u) us _
          eq_refl (IH2 u us eq_refl _ _ _)) as H. by rewrite Hit in H.
      * apply orb_false_iff in E3 as [E3 E4].
        apply (outcome_cons command (path, append) (RWord t) ts); [|apply IH].
        unfold item_ok. by rewrite E2, E3, E4.
Qed.

(** [_parse_redirection] reads the tokens of a command as words and
    redirections in any order: it returns the words in order and the target
    and mode of the last redirection of standard output; redirections of
    standard error are dropped (with their target, and one that has none).  It
    fails exactly when the last token is a redirection without a target. *)
Theorem parse_redirection_spec tokens :
  ∃ items, forallb item_ok items = true ∧
    ((∃ dangling, (dangling = [] ∨ dangling = [lit "2>"]) ∧
        tokens = items_tokens items ++ dangling ∧
        _parse_redirection tokens =
          Ok (items_words items, (items_out items (None, false)).1,
              (items_out items (None, false)).2)) ∨
     (∃ op, (op = lit ">" ∨ op = lit ">>") ∧ tokens = items_tokens items ++ [op] ∧
        _parse_redirection tokens = Err syntax_error)).
Proof. exact (redirection_loop_spec tokens [] None false). Qed.

(** ** Where the splitters and [shlex] part company *)

(** [split_pipeline] does cut a [||], which [split_conditionals] removes first. *)
Example pipeline_cuts_or : split_pipeline "a || b" = [lit "a |"; lit "b"].
Proof. by vm_compute. Qed.

(** In double quotes [shlex] honours a backslash, the splitters do not. *)
Example escaped_quote_splits :
  let line := lit "echo " ++ dq ++ lit "a\" ++ dq ++ lit ";b" ++ dq in
  shlex_split line = Ok [lit "echo"; lit "a" ++ dq ++ lit ";b"] ∧
  split_statements line = [lit "echo " ++ dq ++ lit "a\" ++ dq; lit "b" ++ dq].
Proof. by vm_compute. Qed.

(** Stripping a fragment removes a blank that was escaped. *)
Example escaped_blank_stripped :
  split_statements "echo a\ ; pwd" = [lit "echo a\"; lit "pwd"] ∧
  shlex_split "echo a\" = Err (ValueError "No escaped character").
Proof. by vm_compute. Qed.
