(* ===== verification/Regex.v ===== *)
(** * Regular expressions used by the program

    The patterns of the sources need literals, classes, optional parts,
    alternatives, a starred class, word boundaries and the start anchor.
    [rx_match] is Python's matching without captures: [prev] is the character
    before the position, the continuation says whether the rest may match.
    The Unicode tables behind [\w] and [str.isalpha] beyond ASCII are the
    class [Unicode]. *)

From S2P Require Import Prelude PyStr.

Class Unicode := {
  uni_word : Z → bool;    (* [\w] on a code point from 128 on *)
  uni_alpha : Z → bool    (* [isalpha] on a code point from 128 on *)
}.

Definition is_letter (c : Z) : bool := is_lower c || is_upper c.
Definition is_word_char `{Unicode} (c : Z) : bool :=
  if c <? 128 then is_letter c || is_digit c || (c =? 95) else uni_word c.
Definition is_alpha_char `{Unicode} (c : Z) : bool :=
  if c <? 128 then is_letter c else uni_alpha c.

(** A letter of the pattern under [re.IGNORECASE]: the characters whose lower
    case is that letter, and those [re] counts as equivalent. *)
Definition ci_char (p c : Z) : bool :=
  (c =? p) || (is_lower p && (c =? p - 32))
  || ((p =? 105) && ((c =? 304) || (c =? 305)))
  || ((p =? 115) && (c =? 383)) || ((p =? 107) && (c =? 8490)).

Inductive rx : Type :=
  | REps
  | RClass (p : Z → bool)
  | RSeq (a b : rx)
  | RAlt (a b : rx)
  | ROpt (a : rx)
  | RStar (p : Z → bool)
  | RWordB
  | RStart.

Definition word_at `{Unicode} (prev : option Z) : bool :=
  match prev with Some c => is_word_char c | None => false end.

Section Match.
Context `{Unicode}.

Fixpoint star_match (p : Z → bool) (prev : option Z) (s : str)
    (k : option Z → str → bool) : bool :=
  k prev s || match s with c :: s' => p c && star_match p (Some c) s' k | [] => false end.

Fixpoint rx_match (r : rx) (prev : option Z) (s : str) (k : option Z → str → bool) : bool :=
  match r with
  | REps => k prev s
  | RClass p => match s with c :: s' => p c && k (Some c) s' | [] => false end
  | RSeq a b => rx_match a prev s (λ prev' s', rx_match b prev' s' k)
  | RAlt a b => rx_match a prev s k || rx_match b prev s k
  | ROpt a => rx_match a prev s k || k prev s
  | RStar p => star_match p prev s k
  | RWordB => negb (Bool.eqb (word_at prev) (word_at (head s))) && k prev s
  | RStart => match prev with None => k prev s | Some _ => false end
  end.

(** [pattern.search(s)]. *)
Fixpoint rx_search_from (r : rx) (prev : option Z) (s : str) : bool :=
  rx_match r prev s (λ _ _, true) ||
  match s with c :: s' => rx_search_from r (Some c) s' | [] => false end.
Definition rx_search (r : rx) (s : str) : bool := rx_search_from r None s.
End Match.

(** Literal text, ignoring case. *)
Definition rx_lit (s : str) : rx := fold_right (λ c r, RSeq (RClass (ci_char c)) r) REps s.
Definition rx_cat (l : list rx) : rx := fold_right RSeq REps l.
Definition rx_any (cs : str) : rx := RClass (contains cs).
