(* ===== verification/Json.v ===== *)
(** * JSON ([json.dumps], [json.loads])

    What the program uses of the [json] module: writing objects of strings,
    lists of strings and integers with [ensure_ascii=True], and reading any
    document as [json.loads] does (strict strings, surrogate pairs joined,
    [NaN] and infinities accepted, the last of repeated keys kept). *)

From S2P Require Import Prelude PyStr OrdDict.

Inductive json :=
  | JNull
  | JBool (b : bool)
  | JInt (n : Z)
  | JFloat (text : str)              (* its value is never looked at *)
  | JStr (s : str)
  | JList (l : list json)
  | JObj (d : list (str * json)).

(** ** Writing *)

Definition hex_digit (n : Z) : Z := if n <? 10 then 48 + n else 87 + n.
Definition hex4 (n : Z) : str :=
  [hex_digit (n / 4096 mod 16); hex_digit (n / 256 mod 16);
   hex_digit (n / 16 mod 16); hex_digit (n mod 16)].
Definition u_escape (n : Z) : str := 92 :: 117 :: hex4 n.

Definition escape_char (c : Z) : str :=
  if c =? 34 then [92; 34] else if c =? 92 then [92; 92]
  else if c =? 10 then [92; 110] else if c =? 13 then [92; 114]
  else if c =? 9 then [92; 116] else if c =? 12 then [92; 102] else if c =? 8 then [92; 98]
  else if (32 <=? c) && (c <? 127) then [c]
  else if c <? 65536 then u_escape c
  else
    let n := c - 65536 in
    u_escape (55296 + n / 1024 mod 1024) ++ u_escape (56320 + n mod 1024).

Definition dump_str (s : str) : str := 34 :: flat_map escape_char s ++ [34].
Definition dump_list (sep : str) (l : list str) : str := 91 :: join sep (map dump_str l) ++ [93].

(** ** Reading *)

Definition json_blank (c : Z) : bool := (c =? 32) || (c =? 9) || (c =? 10) || (c =? 13).
Definition skip_blank (s : str) : str := drop_while json_blank s.

Definition hex_value (c : Z) : option Z :=
  if is_digit c then Some (c - 48)
  else if (97 <=? c) && (c <=? 102) then Some (c - 87)
  else if (65 <=? c) && (c <=? 70) then Some (c - 55) else None.
Definition read_hex4 (s : str) : option (Z * str) :=
  match s with
  | a :: b :: c :: d :: rest =>
      a ← hex_value a; b ← hex_value b; c ← hex_value c; d ← hex_value d;
      Some (a * 4096 + b * 256 + c * 16 + d, rest)
  | _ => None
  end.

Definition is_high (n : Z) : bool := (55296 <=? n) && (n <=? 56319).
Definition is_low (n : Z) : bool := (56320 <=? n) && (n <=? 57343).

Definition simple_escape (c : Z) : option Z :=
  if c =? 34 then Some 34 else if c =? 92 then Some 92 else if c =? 47 then Some 47
  else if c =? 98 then Some 8 else if c =? 102 then Some 12 else if c =? 110 then Some 10
  else if c =? 114 then Some 13 else if c =? 116 then Some 9 else None.

(** The character of a [\u] escape, joined with a low surrogate that follows. *)
Definition read_unicode (s : str) : option (Z * str) :=
  '(n, rest) ← read_hex4 s;
  if is_high n then
    match rest with
    | b :: u :: rest' =>
        if (b =? 92) && (u =? 117) then
          match read_hex4 rest' with
          | Some (n2, rest2) =>
              if is_low n2 then Some (65536 + (n - 55296) * 1024 + (n2 - 56320), rest2)
              else Some (n, rest)
          | None => None
          end
        else Some (n, rest)
    | _ => Some (n, rest)
    end
  else Some (n, rest).

(** The rest of a string after its opening quote. *)
Fixpoint read_string (fuel : nat) (acc s : str) : option (str * str) :=
  match fuel with
  | O => None
  | S fuel =>
      match s with
      | [] => None
      | c :: rest =>
          if c =? 34 then Some (reverse acc, rest)
          else if c =? 92 then
            match rest with
            | [] => None
            | e :: rest' =>
                if e =? 117 then
                  '(ch, rest2) ← read_unicode rest'; read_string fuel (ch :: acc) rest2
                else ch ← simple_escape e; read_string fuel (ch :: acc) rest'
            end
          else if c <? 32 then None
          else read_string fuel (c :: acc) rest
      end
  end.

(** A number: its integer part, and whether a fraction or exponent follows. *)
Definition read_fraction (s : str) : str * str :=
  match s with
  | c :: s' =>
      if c =? 46 then
        let (ds, rest) := span is_digit s' in
        if bool_decide (ds = []) then ([], s) else (c :: ds, rest)
      else ([], s)
  | [] => ([], s)
  end.
Definition read_exponent (s : str) : str * str :=
  match s with
  | c :: s' =>
      if (c =? 101) || (c =? 69) then
        let (sign, s2) :=
          match s' with
          | d :: s3 => if (d =? 43) || (d =? 45) then ([d], s3) else ([], s')
          | [] => ([], [])
          end in
        let (ds, rest) := span is_digit s2 in
        if bool_decide (ds = []) then ([], s) else (c :: sign ++ ds, rest)
      else ([], s)
  | [] => ([], s)
  end.
Definition read_number (s : str) : option (json * str) :=
  let (neg, body) := match s with c :: s' => if c =? 45 then (true, s') else (false, s)
                     | [] => (false, []) end in
  let (digits, rest) :=
    match body with
    | c :: body' => if c =? 48 then ([48], body') else span is_digit body
    | [] => ([], [])
    end in
  if bool_decide (digits = []) then None
  else
    let (frac, rest1) := read_fraction rest in
    let (expo, rest2) := read_exponent rest1 in
    if bool_decide (frac = []) && bool_decide (expo = []) then
      let n := fold_left (λ a c, a * 10 + (c - 48)) digits 0 in
      Some (JInt (if neg then - n else n), rest2)
    else Some (JFloat (digits ++ frac ++ expo), rest2).

(** [fuel] bounds the nesting and the length. *)
Fixpoint read_value (fuel : nat) (s : str) : option (json * str) :=
  match fuel with
  | O => None
  | S fuel =>
      match s with
      | [] => None
      | c :: rest =>
          if c =? 34 then '(t, r) ← read_string fuel [] rest; Some (JStr t, r)
          else if c =? 123 then
            let s1 := skip_blank rest in
            match s1 with
            | d :: r => if d =? 125 then Some (JObj [], r) else read_members fuel [] s1
            | [] => None
            end
          else if c =? 91 then
            let s1 := skip_blank rest in
            match s1 with
            | d :: r => if d =? 93 then Some (JList [], r) else read_items fuel [] s1
            | [] => None
            end
          else if startswith s "null" then Some (JNull, drop 4 s)
          else if startswith s "true" then Some (JBool true, drop 4 s)
          else if startswith s "false" then Some (JBool false, drop 5 s)
          else match read_number s with
          | Some v => Some v
          | None =>
              if startswith s "NaN" then Some (JFloat "NaN", drop 3 s)
              else if startswith s "Infinity" then Some (JFloat "Infinity", drop 8 s)
              else if startswith s "-Infinity" then Some (JFloat "-Infinity", drop 9 s)
              else None
          end
      end
  end
(** The members of an object from a key on. *)
with read_members (fuel : nat) (acc : list (str * json)) (s : str) : option (json * str) :=
  match fuel with
  | O => None
  | S fuel =>
      match s with
      | q :: s1 =>
          if q =? 34 then
            '(key, s2) ← read_string fuel [] s1;
            match skip_blank s2 with
            | col :: s3 =>
                if col =? 58 then
                  '(v, s4) ← read_value fuel (skip_blank s3);
                  let acc := dict_set acc key v in
                  match skip_blank s4 with
                  | d :: s5 =>
                      if d =? 125 then Some (JObj acc, s5)
                      else if d =? 44 then read_members fuel acc (skip_blank s5)
                      else None
                  | [] => None
                  end
                else None
            | [] => None
            end
          else None
      | [] => None
      end
  end
with read_items (fuel : nat) (acc : list json) (s : str) : option (json * str) :=
  match fuel with
  | O => None
  | S fuel =>
      '(v, s1) ← read_value fuel s;
      let acc := v :: acc in
      match skip_blank s1 with
      | d :: s2 =>
          if d =? 93 then Some (JList (reverse acc), s2)
          else if d =? 44 then read_items fuel acc (skip_blank s2)
          else None
      | [] => None
      end
  end.

(** [json.loads(s)], [None] for [JSONDecodeError]. *)
Definition json_loads (s : str) : option json :=
  '(v, rest) ← read_value (3 * length s + 3) (skip_blank s);
  if bool_decide (skip_blank rest = []) then Some v else None.

Example json_loads_sample :
  json_loads (lit "{" ++ dq ++ lit "a" ++ dq ++ lit ": [1, -2.5e3, null, " ++ dq ++ lit "\u00e9\n" ++ dq ++ lit "]} ")
  = Some (JObj [(lit "a", JList [JInt 1; JFloat "2.5e3"; JNull; JStr [233; 10]])]).
Proof. by vm_compute. Qed.

(** ** What is written is read back *)

(** Text that has an UTF-8 encoding. *)
Definition char_ok (c : Z) : bool := (0 <=? c) && (c <? 1114112) && negb (is_surrogate c).
Definition text_ok (s : str) : Prop := Forall (λ c, char_ok c = true) s.

Lemma hex_value_digit n : 0 ≤ n < 16 → hex_value (hex_digit n) = Some n.
Proof.
  intros Hn. unfold hex_value, hex_digit, is_digit. destruct (Z.ltb_spec n 10).
  - destruct (Z.leb_spec 48 (48 + n)), (Z.leb_spec (48 + n) 57); try lia. cbn. f_equal. lia.
  - destruct (Z.leb_spec 48 (87 + n)), (Z.leb_spec (87 + n) 57); try lia. cbn.
    destruct (Z.leb_spec 97 (87 + n)), (Z.leb_spec (87 + n) 102); try lia. cbn. f_equal. lia.
Qed.

Lemma read_hex4_ok n rest : 0 ≤ n < 65536 → read_hex4 (hex4 n ++ rest) = Some (n, rest).
Proof.
  intros Hn. unfold hex4, read_hex4. cbn [app].
  rewrite !hex_value_digit by (apply Z.mod_pos_bound; lia). cbn. f_equal. f_equal.
  pose proof (Z.div_mod n 16 ltac:(lia)). pose proof (Z.div_mod (n / 16) 16 ltac:(lia)).
  pose proof (Z.div_mod (n / 256) 16 ltac:(lia)). pose proof (Z.div_mod (n / 4096) 16 ltac:(lia)).
  replace (n / 256) with (n / 16 / 16) in * by (rewrite Z.div_div by lia; done).
  replace (n / 4096) with (n / 16 / 16 / 16) in * by (rewrite !Z.div_div by lia; done).
  assert (n / 16 / 16 / 16 / 16 = 0) by (rewrite !Z.div_div by lia; apply Z.div_small; lia).
  lia.
Qed.

Lemma read_unicode_bmp n rest :
  0 ≤ n < 65536 → is_surrogate n = false → read_unicode (hex4 n ++ rest) = Some (n, rest).
Proof.
  intros Hn Hs. unfold read_unicode. rewrite read_hex4_ok by done. cbn.
  assert (E : is_high n = false) by (unfold is_high, is_surrogate in *; lia). by rewrite E.
Qed.

Lemma read_unicode_pair n rest :
  0 ≤ n < 1048576 →
  read_unicode (hex4 (55296 + n / 1024 mod 1024) ++ u_escape (56320 + n mod 1024) ++ rest) =
  Some (65536 + n, rest).
Proof.
  intros Hn. pose proof (Z.mod_pos_bound n 1024 ltac:(lia)).
  pose proof (Z.mod_pos_bound (n / 1024) 1024 ltac:(lia)).
  unfold read_unicode, u_escape. rewrite read_hex4_ok by lia. cbn [mbind option_bind].
  assert (E : is_high (55296 + n / 1024 mod 1024) = true) by (unfold is_high; lia).
  rewrite E. cbn [app]. change ((92 =? 92) && (117 =? 117)) with true. cbn match.
  rewrite read_hex4_ok by lia.
  assert (E2 : is_low (56320 + n mod 1024) = true) by (unfold is_low; lia). rewrite E2.
  do 2 f_equal. rewrite (Z.mod_small (n / 1024)).
  - pose proof (Z.div_mod n 1024 ltac:(lia)). lia.
  - split; [apply Z.div_pos; lia|apply Z.div_lt_upper_bound; lia].
Qed.

(** One step of [read_string] undoes one [escape_char]. *)
Lemma read_string_char fuel acc c rest :
  char_ok c = true →
  read_string (S fuel) acc (escape_char c ++ rest) = read_string fuel (c :: acc) rest.
Proof.
  unfold char_ok. rewrite !andb_true_iff, negb_true_iff. intros [[H0 H1] Hs].
  apply Z.leb_le in H0. apply Z.ltb_lt in H1. unfold escape_char.
  destruct (Z.eqb_spec c 34) as [->|?]; [done|]. destruct (Z.eqb_spec c 92) as [->|?]; [done|].
  destruct (Z.eqb_spec c 10) as [->|?]; [done|]. destruct (Z.eqb_spec c 13) as [->|?]; [done|].
  destruct (Z.eqb_spec c 9) as [->|?]; [done|]. destruct (Z.eqb_spec c 12) as [->|?]; [done|].
  destruct (Z.eqb_spec c 8) as [->|?]; [done|].
  destruct ((32 <=? c) && (c <? 127)) eqn:Ep.
  - cbn [app read_string]. rewrite (proj2 (Z.eqb_neq c 34)), (proj2 (Z.eqb_neq c 92)) by done.
    destruct (Z.ltb_spec c 32); [lia|done].
  - destruct (Z.ltb_spec c 65536).
    + unfold u_escape. cbn [app read_string]. change (92 =? 34) with false.
      change (92 =? 92) with true. change (117 =? 117) with true. cbn match.
      rewrite read_unicode_bmp by (done || lia). done.
    + unfold u_escape at 1. cbn [app read_string]. change (92 =? 34) with false.
      change (92 =? 92) with true. change (117 =? 117) with true. cbn match.
      rewrite <-app_assoc. rewrite read_unicode_pair by lia. cbn.
      by replace (65536 + (c - 65536)) with c by lia.
Qed.

Lemma read_string_dump s : ∀ fuel acc rest,
  text_ok s → (length s < fuel)%nat →
  read_string fuel acc (flat_map escape_char s ++ 34 :: rest) = Some (reverse acc ++ s, rest).
Proof.
  induction s as [|c s IH]; intros fuel acc rest Hs Hf; (destruct fuel as [|fuel]; [cbn in Hf; lia|]).
  - cbn. by rewrite app_nil_r.
  - apply Forall_cons in Hs as [Hc Hs]. cbn [flat_map]. rewrite <-app_assoc, read_string_char by done.
    rewrite IH by (done || (cbn in Hf; lia)). by rewrite reverse_cons, <-app_assoc.
Qed.

Lemma flat_map_length s : (length s ≤ length (flat_map escape_char s))%nat.
Proof.
  induction s as [|c s IH]; [done|]. cbn [flat_map]. rewrite length_app.
  assert (1 ≤ length (escape_char c))%nat; [|cbn; lia].
  unfold escape_char. repeat case_match; cbn; lia.
Qed.

Lemma read_value_dump s fuel rest :
  text_ok s → (S (length s) < fuel)%nat →
  read_value fuel (dump_str s ++ rest) = Some (JStr s, rest).
Proof.
  intros Hs Hf. destruct fuel as [|fuel]; [lia|]. unfold dump_str. cbn [app read_value].
  change (34 =? 34) with true. cbn match. rewrite <-app_assoc. cbn [app].
  rewrite read_string_dump by (done || lia). done.
Qed.

(** A key and the colon after it, on to the value. *)
Lemma read_members_step fuel acc key v rest s4 d s5 :
  text_ok key → (length key < fuel)%nat →
  read_value fuel (skip_blank rest) = Some (v, s4) → skip_blank s4 = d :: s5 →
  read_members (S fuel) acc (dump_str key ++ 58 :: rest) =
  if d =? 125 then Some (JObj (dict_set acc key v), s5)
  else if d =? 44 then read_members fuel (dict_set acc key v) (skip_blank s5)
  else None.
Proof.
  intros Hk Hf Hv Hs. unfold dump_str. cbn [app read_members].
  change (34 =? 34) with true. cbn match. rewrite <-app_assoc. cbn [app].
  rewrite read_string_dump by done. cbn [mbind option_bind].
  change (reverse [] ++ key) with key.
  change (skip_blank (58 :: rest)) with (58 :: rest). cbn match.
  change (58 =? 58) with true. cbn match. rewrite Hv. cbn [mbind option_bind]. by rewrite Hs.
Qed.

(** Exit codes. *)
Lemma read_value_number fuel c s v :
  is_digit c = true → read_number (c :: s) = Some v → read_value (S fuel) (c :: s) = Some v.
Proof.
  intros Hc Hn. assert (Hc' : 48 ≤ c ≤ 57) by (unfold is_digit in Hc; lia).
  assert (Hsw : ∀ d l, ¬ (48 ≤ d ≤ 57) → startswith (c :: s) (d :: l) = false).
  { intros d l Hd. apply startswith_false. intros [k [= <- _]]. done. }
  cbn [read_value]. rewrite (proj2 (Z.eqb_neq c 34)), (proj2 (Z.eqb_neq c 123)),
    (proj2 (Z.eqb_neq c 91)) by lia.
  assert (H1 : startswith (c :: s) (lit "null") = false) by (apply Hsw; vm_compute; intros [_ H]; by apply H).
  assert (H2 : startswith (c :: s) (lit "true") = false) by (apply Hsw; vm_compute; intros [_ H]; by apply H).
  assert (H3 : startswith (c :: s) (lit "false") = false) by (apply Hsw; vm_compute; intros [_ H]; by apply H).
  by rewrite H1, H2, H3, Hn.
Qed.

Definition exit_code_reads (n : Z) : bool :=
  match py_str n with
  | c :: s =>
      is_digit c &&
      match read_number (c :: s ++ [125]) with
      | Some (JInt m, rest) => (m =? n) && bool_decide (rest = [125])
      | _ => false
      end
  | [] => false
  end.

Lemma read_exit_code n fuel :
  0 ≤ n ≤ 255 → read_value (S fuel) (py_str n ++ [125]) = Some (JInt n, [125]).
Proof.
  intros Hn. assert (Hall : forallb exit_code_reads (seqZ 0 256) = true) by by vm_compute.
  rewrite forallb_forall in Hall. specialize (Hall n).
  rewrite <-list_elem_of_In, elem_of_seqZ in Hall. specialize (Hall ltac:(lia)).
  unfold exit_code_reads in Hall. destruct (py_str n) as [|c s]; [done|]. cbn [app].
  apply andb_true_iff in Hall as [Hc Hr].
  destruct (read_number (c :: s ++ [125])) as [[v rest]|] eqn:E; [|done].
  destruct v; try done. apply andb_true_iff in Hr as [Hm Hrest].
  apply Z.eqb_eq in Hm as ->. apply bool_decide_eq_true in Hrest as ->.
  by apply read_value_number.
Qed.

Lemma py_str_blank n : 0 ≤ n ≤ 255 → skip_blank (py_str n ++ [125]) = py_str n ++ [125].
Proof.
  intros Hn. assert (Hall : forallb exit_code_reads (seqZ 0 256) = true) by by vm_compute.
  rewrite forallb_forall in Hall. specialize (Hall n).
  rewrite <-list_elem_of_In, elem_of_seqZ in Hall. specialize (Hall ltac:(lia)).
  unfold exit_code_reads in Hall. destruct (py_str n) as [|c s]; [done|].
  apply andb_true_iff in Hall as [Hc _]. cbn. unfold is_digit, json_blank in *.
  destruct (Z.eqb_spec c 32), (Z.eqb_spec c 9), (Z.eqb_spec c 10), (Z.eqb_spec c 13);
    try lia; done.
Qed.
