(* ===== verification/ShellStatic.v ===== *)
(** * The fixed answers of the shell ([shell.py])

    The text the shell prints for reconnaissance commands, the tables that
    choose it, and the names of the commands it knows. *)

From S2P Require Import Prelude PyStr OrdDict Path HoneypotTree ShellParse.

Definition _PS_AUX : str :=
  lit "USER         PID %CPU %MEM    VSZ   RSS TTY      STAT START   TIME COMMAND
root           1  0.0  0.5 167848 11456 ?        Ss   Apr10   0:04 /sbin/init
root           2  0.0  0.0      0     0 ?        S    Apr10   0:00 [kthreadd]
root           3  0.0  0.0      0     0 ?        I<   Apr10   0:00 [rcu_gp]
root          90  0.0  0.3  47896  6912 ?        Ss   Apr10   0:00 /lib/systemd/systemd-journald
root         119  0.0  0.2  26204  5632 ?        Ss   Apr10   0:00 /lib/systemd/systemd-udevd
systemd+     176  0.0  0.2  16276  5120 ?        Ss   Apr10   0:00 /lib/systemd/systemd-networkd
systemd+     198  0.0  0.3  18012  6784 ?        Ss   Apr10   0:00 /lib/systemd/systemd-resolved
root         241  0.0  0.2  15432  4608 ?        Ss   Apr10   0:00 /usr/sbin/cron -f
message+     244  0.0  0.1   7568  3456 ?        Ss   Apr10   0:00 /usr/bin/dbus-daemon --system --address=systemd: --nofork --nopidfile --systemd-activation --syslog-only
root         258  0.0  0.6  15488 12288 ?        Ss   Apr10   0:00 /usr/sbin/sshd -D
root         301  0.0  0.1   7372  2688 tty1     Ss+  Apr10   0:00 /sbin/agetty -o -p -- \u --noclear tty1 linux
root         412  0.0  0.3  15408  6912 ?        Ss   01:48   0:00 sshd: root@pts/0
root         418  0.0  0.2   8752  4608 pts/0    Ss   01:48   0:00 -bash
root         441  0.0  0.1   9804  3584 pts/0    R+   01:49   0:00 ps aux
".

Definition _PS_EF : str :=
  lit "UID          PID    PPID  C STIME TTY          TIME CMD
root           1       0  0 Apr10 ?        00:00:04 /sbin/init
root           2       0  0 Apr10 ?        00:00:00 [kthreadd]
root           3       2  0 Apr10 ?        00:00:00 [rcu_gp]
root          90       1  0 Apr10 ?        00:00:00 /lib/systemd/systemd-journald
root         119       1  0 Apr10 ?        00:00:00 /lib/systemd/systemd-udevd
systemd+     176       1  0 Apr10 ?        00:00:00 /lib/systemd/systemd-networkd
systemd+     198       1  0 Apr10 ?        00:00:00 /lib/systemd/systemd-resolved
root         241       1  0 Apr10 ?        00:00:00 /usr/sbin/cron -f
message+     244       1  0 Apr10 ?        00:00:00 /usr/bin/dbus-daemon --system --address=systemd: --nofork --nopidfile --systemd-activation --syslog-only
root         258       1  0 Apr10 ?        00:00:00 /usr/sbin/sshd -D
root         301       1  0 Apr10 ?        00:00:00 /sbin/agetty -o -p -- \u --noclear tty1 linux
root         412     258  0 01:48 ?        00:00:00 sshd: root@pts/0
root         418     412  0 01:48 pts/0    00:00:00 -bash
root         441     418  0 01:49 pts/0    00:00:00 ps -ef
".

Definition _DF_H : str :=
  lit "Filesystem      Size  Used Avail Use% Mounted on
tmpfs           198M  1.1M  197M   1% /run
/dev/vda1        20G  3.2G   16G  17% /
tmpfs           990M     0  990M   0% /dev/shm
tmpfs           5.0M     0  5.0M   0% /run/lock
/dev/vda15      105M  6.1M   99M   6% /boot/efi
tmpfs           198M  4.0K  198M   1% /run/user/0
".

Definition _FREE_M : str :=
  lit "               total        used        free      shared  buff/cache   available
Mem:            3922         476        2823           2         623        3135
Swap:              0           0           0
".

Definition _UPTIME : str :=
  lit " 01:49:12 up 14 days,  3:22,  1 user,  load average: 0.00, 0.01, 0.00".

Definition _WHOAMI : str :=
  lit "root".

Definition _ID : str :=
  lit "uid=0(root) gid=0(root) groups=0(root)".

Definition _GROUPS : str :=
  lit "root".

Definition _ARCH : str :=
  lit "x86_64".

Definition _NPROC : str :=
  lit "2".

Definition _WHO : str :=
  lit "root     pts/0        2024-04-10 01:48 (192.168.1.10)".

Definition _W : str :=
  _UPTIME ++ lit "
USER     TTY      FROM             LOGIN@   IDLE   JCPU   PCPU WHAT
root     pts/0    192.168.1.10     01:48    0.00s  0.04s  0.00s -bash
".

Definition _LAST : str :=
  lit "root     pts/0        192.168.1.10     Tue Apr 10 01:48   still logged in
reboot   system boot  " ++ KERNEL_RELEASE ++ lit " Tue Mar 27 22:27   still running

wtmp begins Tue Mar 27 22:27:11 2024
".

Definition _CRONTAB_L : str :=
  lit "no crontab for root".

Definition _LSCPU : str :=
  lit "Architecture:                    x86_64
CPU op-mode(s):                  32-bit, 64-bit
Address sizes:                   46 bits physical, 48 bits virtual
Byte Order:                      Little Endian
CPU(s):                          2
On-line CPU(s) list:             0,1
Vendor ID:                       GenuineIntel
Model name:                      Intel(R) Xeon(R) Platinum 8259CL CPU @ 2.50GHz
CPU family:                      6
Model:                           85
Thread(s) per core:              1
Core(s) per socket:              2
Socket(s):                       1
Stepping:                        7
CPU max MHz:                     2500.0000
CPU min MHz:                     2500.0000
BogoMIPS:                        4999.99
Hypervisor vendor:               KVM
Virtualization type:             full
L1d cache:                       64 KiB (2 instances)
L1i cache:                       64 KiB (2 instances)
L2 cache:                        2 MiB (2 instances)
L3 cache:                        35.8 MiB (1 instance)
NUMA node(s):                    1
NUMA node0 CPU(s):               0,1
Vulnerability Itlb multihit:     KVM: Mitigation: VMX unsupported
Vulnerability L1tf:              Mitigation; PTE Inversion
Vulnerability Mds:               Vulnerable: Clear CPU buffers attempted, no microcode; SMT Host state unknown
Vulnerability Meltdown:          Mitigation; PTI
Vulnerability Mmio stale data:   Vulnerable: Clear CPU buffers attempted, no microcode; SMT Host state unknown
Vulnerability Retbleed:          Not affected
Vulnerability Spec store bypass: Mitigation; Speculative Store Bypass disabled via prctl and seccomp
Vulnerability Spectre v1:        Mitigation; usercopy/swapgs barriers and __user pointer sanitization
Vulnerability Spectre v2:        Mitigation; Retpolines, IBPB conditional, IBRS_FW, STIBP disabled, RSB filling
Vulnerability Srbds:             Not affected
Vulnerability Tsx async abort:   Not affected
Flags:                           fpu vme de pse tsc msr pae mce cx8 apic sep mtrr pge mca cmov pat pse36 clflush mmx fxsr sse sse2 ss ht syscall nx pdpe1gb rdtscp lm constant_tsc rep_good nopl xtopology nonstop_tsc cpuid tsc_known_freq pni pclmulqdq ssse3 fma cx16 pcid sse4_1 sse4_2 x2apic movbe popcnt tsc_deadline_timer aes xsave avx f16c rdrand hypervisor lahf_lm abm 3dnowprefetch cpuid_fault invpcid_single pti ssbd ibrs ibpb stibp fsgsbase tsc_adjust bmi1 avx2 smep bmi2 erms invpcid mpx avx512f avx512dq rdseed adx smap clflushopt clwb avx512cd avx512bw avx512vl xsaveopt xsavec xgetbv1 xsaves ida arat pku ospke
".

Definition _LSMOD : str :=
  lit "Module                  Size  Used by
overlay               151552  0
nls_iso8859_1          16384  1
dm_multipath           40960  0
scsi_dh_rdac           20480  0
scsi_dh_emc            16384  0
scsi_dh_alua           20480  0
crct10dif_pclmul       16384  1
crc32_pclmul           16384  0
ghash_clmulni_intel    16384  0
aesni_intel           376832  0
crypto_simd            16384  1 aesni_intel
cryptd                 24576  2 crypto_simd,ghash_clmulni_intel
crc32c_intel           24576  0
virtio_net             61440  0
net_failover           20480  1 virtio_net
failover               16384  1 net_failover
virtio_blk             20480  2
virtio_scsi            24576  0
ext4                  921600  1
mbcache                16384  1 ext4
jbd2                  167936  1 ext4
".

Definition _DMIDECODE : str :=
  lit "# dmidecode 3.3
Getting SMBIOS data from sysfs.
SMBIOS 2.8 present.

Handle 0x0001, DMI type 1, 27 bytes
System Information
	Manufacturer: QEMU
	Product Name: Standard PC (Q35 + ICH9, 2009)
	Version: pc-q35-7.2
	Serial Number: Not Specified
	UUID: 12345678-1234-5678-1234-567812345678
	Wake-up Type: Power Switch
	SKU Number: Not Specified
	Family: Not Specified
".

Definition _DMIDECODE_PRODUCT : str :=
  lit "Standard PC (Q35 + ICH9, 2009)".

Definition _IP_ADDR : str :=
  lit "1: lo: <LOOPBACK,UP,LOWER_UP> mtu 65536 qdisc noqueue state UNKNOWN group default qlen 1000
    link/loopback 00:00:00:00:00:00 brd 00:00:00:00:00:00
    inet 127.0.0.1/8 scope host lo
       valid_lft forever preferred_lft forever
    inet6 ::1/128 scope host
       valid_lft forever preferred_lft forever
2: eth0: <BROADCAST,MULTICAST,UP,LOWER_UP> mtu 1500 qdisc fq_codel state UP group default qlen 1000
    link/ether 52:54:00:12:34:56 brd ff:ff:ff:ff:ff:ff
    inet 192.168.1.105/24 brd 192.168.1.255 scope global eth0
       valid_lft forever preferred_lft forever
    inet6 fe80::5054:ff:fe12:3456/64 scope link
       valid_lft forever preferred_lft forever
".

Definition _IFCONFIG : str :=
  lit "eth0: flags=4163<UP,BROADCAST,RUNNING,MULTICAST>  mtu 1500
        inet 192.168.1.105  netmask 255.255.255.0  broadcast 192.168.1.255
        inet6 fe80::5054:ff:fe12:3456  prefixlen 64  scopeid 0x20<link>
        ether 52:54:00:12:34:56  txqueuelen 1000  (Ethernet)
        RX packets 6234  bytes 8472192 (8.4 MB)
        RX errors 0  dropped 0  overruns 0  frame 0
        TX packets 4102  bytes 2156032 (2.1 MB)
        TX errors 0  dropped 0 overruns 0  carrier 0  collisions 0

lo: flags=73<UP,LOOPBACK,RUNNING>  mtu 65536
        inet 127.0.0.1  netmask 255.0.0.0
        inet6 ::1  prefixlen 128  scopeid 0x10<host>
        loop  txqueuelen 1000  (Local Loopback)
        RX packets 182  bytes 152384 (148.8 KB)
        RX errors 0  dropped 0  overruns 0  frame 0
        TX packets 182  bytes 152384 (148.8 KB)
        TX errors 0  dropped 0 overruns 0  carrier 0  collisions 0
".

Definition _IP_ROUTE : str :=
  lit "default via 192.168.1.1 dev eth0 proto dhcp src 192.168.1.105 metric 100
192.168.1.0/24 dev eth0 proto kernel scope link src 192.168.1.105 metric 100
".

Definition _ROUTE_N : str :=
  lit "Kernel IP routing table
Destination     Gateway         Genmask         Flags Metric Ref    Use Iface
0.0.0.0         192.168.1.1     0.0.0.0         UG    100    0        0 eth0
192.168.1.0     0.0.0.0         255.255.255.0   U     100    0        0 eth0
".

Definition _NETSTAT_TULN : str :=
  lit "Active Internet connections (only servers)
Proto Recv-Q Send-Q Local Address           Foreign Address         State
tcp        0      0 0.0.0.0:22              0.0.0.0:*               LISTEN
tcp        0      0 127.0.0.53:53           0.0.0.0:*               LISTEN
tcp6       0      0 :::22                   :::*                    LISTEN
udp        0      0 127.0.0.53:53           0.0.0.0:*
".

Definition _SS_TULN : str :=
  lit "Netid State  Recv-Q Send-Q Local Address:Port  Peer Address:PortProcess
udp   UNCONN 0      0      127.0.0.53%lo:53         0.0.0.0:*
tcp   LISTEN 0      128          0.0.0.0:22         0.0.0.0:*
tcp   LISTEN 0      128        127.0.0.53:53         0.0.0.0:*
tcp   LISTEN 0      128             [::]:22            [::]:*
".

Definition _SS_TULPN : str :=
  lit "Netid State  Recv-Q Send-Q Local Address:Port  Peer Address:PortProcess
udp   UNCONN 0      0      127.0.0.53%lo:53         0.0.0.0:*    users:((" ++ dq ++ lit "systemd-resolve" ++ dq ++ lit ",pid=198,fd=13))
tcp   LISTEN 0      128          0.0.0.0:22         0.0.0.0:*    users:((" ++ dq ++ lit "sshd" ++ dq ++ lit ",pid=258,fd=3))
tcp   LISTEN 0      128        127.0.0.53:53         0.0.0.0:*    users:((" ++ dq ++ lit "systemd-resolve" ++ dq ++ lit ",pid=198,fd=14))
tcp   LISTEN 0      128             [::]:22            [::]:*    users:((" ++ dq ++ lit "sshd" ++ dq ++ lit ",pid=258,fd=4))
".

Definition _IPTABLES_L : str :=
  lit "Chain INPUT (policy ACCEPT)
target     prot opt source               destination

Chain FORWARD (policy ACCEPT)
target     prot opt source               destination

Chain OUTPUT (policy ACCEPT)
target     prot opt source               destination
".

Definition _IPTABLES_S : str :=
  lit "-P INPUT ACCEPT
-P FORWARD ACCEPT
-P OUTPUT ACCEPT
".

Definition _UFW_STATUS : str :=
  lit "Status: inactive".

Definition _WHICH_PATHS : list (str * str) :=
  [(lit "sh", lit "/bin/sh"); (lit "bash", lit "/bin/bash"); (lit "dash", lit "/bin/dash");
   (lit "cat", lit "/bin/cat"); (lit "ls", lit "/bin/ls"); (lit "echo", lit "/bin/echo");
   (lit "pwd", lit "/bin/pwd"); (lit "rm", lit "/bin/rm"); (lit "mkdir", lit "/bin/mkdir");
   (lit "rmdir", lit "/bin/rmdir"); (lit "touch", lit "/bin/touch");
   (lit "cp", lit "/bin/cp"); (lit "mv", lit "/bin/mv"); (lit "chmod", lit "/bin/chmod");
   (lit "chown", lit "/bin/chown"); (lit "uname", lit "/bin/uname");
   (lit "hostname", lit "/bin/hostname"); (lit "login", lit "/bin/login");
   (lit "curl", lit "/usr/bin/curl"); (lit "wget", lit "/usr/bin/wget");
   (lit "python3", lit "/usr/bin/python3"); (lit "python", lit "/usr/bin/python");
   (lit "gcc", lit "/usr/bin/gcc"); (lit "nc", lit "/usr/bin/nc");
   (lit "netcat", lit "/usr/bin/nc"); (lit "iptables", lit "/usr/bin/iptables");
   (lit "ss", lit "/usr/bin/ss"); (lit "ip", lit "/usr/bin/ip");
   (lit "env", lit "/usr/bin/env"); (lit "which", lit "/usr/bin/which");
   (lit "id", lit "/usr/bin/id"); (lit "whoami", lit "/usr/bin/whoami")].

Definition _UNAME_FIELDS : list (Z * str) :=
  [(115, lit "Linux"); (110, HOSTNAME); (114, KERNEL_RELEASE); (118, KERNEL_VERSION);
   (109, lit "x86_64"); (112, lit "x86_64"); (105, lit "x86_64"); (111, lit "GNU/Linux")].

Definition _UNAME_ALL_FLAGS : list Z := [115; 110; 114; 118; 109; 112; 105; 111].

Definition _STATIC_OUTPUTS : list (list str * str) :=
  [([lit "ps"; lit "aux"], rstrip _PS_AUX [10]);
   ([lit "ps"; lit "-ef"], rstrip _PS_EF [10]);
   ([lit "df"; lit "-h"], rstrip _DF_H [10]);
   ([lit "free"; lit "-m"], rstrip _FREE_M [10]);
   ([lit "uptime"], _UPTIME);
   ([lit "whoami"], _WHOAMI);
   ([lit "hostname"], HOSTNAME);
   ([lit "id"], _ID);
   ([lit "id"; lit "-u"], lit "0");
   ([lit "id"; lit "-g"], lit "0");
   ([lit "id"; lit "-un"], lit "root");
   ([lit "id"; lit "-gn"], lit "root");
   ([lit "arch"], _ARCH);
   ([lit "w"], rstrip _W [10]);
   ([lit "who"], _WHO);
   ([lit "lscpu"], rstrip _LSCPU [10]);
   ([lit "lsmod"], rstrip _LSMOD [10]);
   ([lit "dmidecode"], rstrip _DMIDECODE [10]);
   ([lit "dmidecode"; lit "-s"; lit "system-product-name"], _DMIDECODE_PRODUCT);
   ([lit "dmidecode"; lit "-s"; lit "system-manufacturer"], lit "QEMU");
   ([lit "ip"; lit "a"], rstrip _IP_ADDR [10]);
   ([lit "ip"; lit "addr"], rstrip _IP_ADDR [10]);
   ([lit "ip"; lit "address"], rstrip _IP_ADDR [10]);
   ([lit "ip"; lit "addr"; lit "show"], rstrip _IP_ADDR [10]);
   ([lit "ifconfig"], rstrip _IFCONFIG [10]);
   ([lit "ifconfig"; lit "-a"], rstrip _IFCONFIG [10]);
   ([lit "ip"; lit "route"], rstrip _IP_ROUTE [10]);
   ([lit "ip"; lit "r"], rstrip _IP_ROUTE [10]);
   ([lit "route"; lit "-n"], rstrip _ROUTE_N [10]);
   ([lit "route"], rstrip _ROUTE_N [10]);
   ([lit "netstat"; lit "-tuln"], rstrip _NETSTAT_TULN [10]);
   ([lit "ss"; lit "-tuln"], rstrip _SS_TULN [10]);
   ([lit "ss"; lit "-tulpn"], rstrip _SS_TULPN [10]);
   ([lit "iptables"; lit "-L"], rstrip _IPTABLES_L [10]);
   ([lit "iptables"; lit "-S"], rstrip _IPTABLES_S [10]);
   ([lit "ufw"; lit "status"], _UFW_STATUS);
   ([lit "groups"], _GROUPS);
   ([lit "nproc"], _NPROC);
   ([lit "last"], rstrip _LAST [10]);
   ([lit "crontab"; lit "-l"], _CRONTAB_L)].

Definition _STATIC_EXIT_CODES : list (list str * Z) :=
  [([lit "crontab"; lit "-l"], 1)].

Definition _STATIC_HANDLER_COMMANDS : list str :=
  [lit "which"; lit "uname"; lit "env"].

Definition LLM_ALLOWED_BINARIES : list str :=
  [lit "systemctl"; lit "service"; lit "iptables"; lit "dpkg"; lit "apt"; lit "apt-get";
   lit "crontab"; lit "timedatectl"; lit "apparmor_status"; lit "sestatus"; lit "lscpu";
   lit "netstat"; lit "ip"].

Definition _UNCACHEABLE_LLM_COMMANDS : list str :=
  [lit "timedatectl"].

Definition _SHELL_WRAPPERS : list str :=
  [lit "sh"; lit "bash"; lit "dash"].

Definition _MAX_SCRIPT_DEPTH : nat := 3.

Definition _MAX_SCRIPT_LINES : nat := 50.

Definition _HANDLER_NAMES : list str :=
  [lit "pwd"; lit "cd"; lit "ls"; lit "cat"; lit "grep"; lit "touch"; lit "echo"; lit "true";
   lit "false"; lit "mkdir"; lit "rm"; lit "rmdir"; lit "chmod"; lit "wget"; lit "curl";
   lit "which"; lit "uname"; lit "env"; lit "exit"; lit "logout"; lit "history"; lit "unset"].

(** The union of the handlers, the wrappers, the commands of the fixed answers
    and those the model may answer. *)
Definition _KNOWN_COMMANDS : list str :=
  _HANDLER_NAMES ++ _SHELL_WRAPPERS ++ map (λ kv, nth 0 kv.1 []) _STATIC_OUTPUTS
  ++ LLM_ALLOWED_BINARIES.

(** ** Choosing an answer *)

(** [_lookup_static_aliases]: each command's test, or on to the next. *)
Definition _lookup_static_aliases (command : str) (args : list str) : option str :=
  let flags := _short_flags args in
  let arg0 := nth 0 args [] in
  if bool_decide (command = lit "ip" ∧ args ≠ [] ∧ arg0 ∈ [lit "a"; lit "addr"; lit "address"])
  then Some (rstrip _IP_ADDR [10])
  else if bool_decide (command = lit "ip" ∧ args ≠ [] ∧ arg0 ∈ [lit "r"; lit "route"])
  then Some (rstrip _IP_ROUTE [10])
  else if bool_decide (command = lit "ss") && contains flags 108
  then Some (rstrip (if contains flags 112 then _SS_TULPN else _SS_TULN) [10])
  else if bool_decide (command = lit "netstat") && contains flags 108
  then Some (rstrip _NETSTAT_TULN [10])
  else if bool_decide (command = lit "iptables") && contains flags 83
  then Some (rstrip _IPTABLES_S [10])
  else if bool_decide (command = lit "iptables") && (contains flags 76 || bool_decide (args = []))
  then Some (rstrip _IPTABLES_L [10])
  else if bool_decide (command = lit "ufw" ∧ args ≠ [] ∧ arg0 = lit "status")
  then Some _UFW_STATUS
  else if bool_decide (command = lit "dmidecode" ∧ take 2 args = [lit "-s"; lit "system-product-name"])
  then Some _DMIDECODE_PRODUCT
  else if bool_decide (command = lit "dmidecode" ∧ take 2 args = [lit "-s"; lit "system-manufacturer"])
  then Some (lit "QEMU")
  else if bool_decide (command = lit "dmidecode" ∧ args = []) then Some (rstrip _DMIDECODE [10])
  else if bool_decide (command = lit "ifconfig") then Some (rstrip _IFCONFIG [10])
  else if bool_decide (command = lit "route") then Some (rstrip _ROUTE_N [10])
  else None.

Definition lookup_static_output (tokens : list str) : option str :=
  match tokens with
  | [] => None
  | command :: args =>
      match dict_get _STATIC_OUTPUTS tokens with
      | Some exact => Some exact
      | None => _lookup_static_aliases command args
      end
  end.

Definition lookup_static_exit_code (tokens : list str) : Z :=
  match dict_get _STATIC_EXIT_CODES tokens with Some n => n | None => 0 end.

Definition _is_cacheable_llm_command (tokens : list str) : bool :=
  let argv0 := match tokens with t :: _ => _strip_system_prefix t | [] => [] end in
  bool_decide (argv0 ≠ []) && negb (bool_decide (argv0 ∈ _UNCACHEABLE_LLM_COMMANDS)).

Definition is_llm_eligible_command (tokens : list str) : bool :=
  match tokens with
  | [] => false
  | t :: _ => bool_decide (_strip_system_prefix t ∈ LLM_ALLOWED_BINARIES)
  end.

(** ** [uname] *)

Definition uname_field (flag : Z) : str :=
  match dict_get _UNAME_FIELDS flag with Some f => f | None => [] end.
Definition uname_all : str := join [32] (map uname_field _UNAME_ALL_FLAGS).

(** The loop over the arguments: the letters collected, [None] when one asks
    for everything. *)
Fixpoint uname_flags (args : list str) : option str :=
  match args with
  | [] => Some []
  | arg :: rest =>
      if bool_decide (arg ∈ [lit "-a"; lit "--all"]) then None
      else if startswith arg "--" then uname_flags rest
      else if startswith arg "-" && bool_decide (arg ≠ lit "-") then
        let letters := drop 1 arg in
        if contains letters 97 then None
        else flags ← uname_flags rest; Some (letters ++ flags)
      else uname_flags rest
  end.

Definition format_uname (args : list str) : str :=
  match uname_flags args with
  | None => uname_all
  | Some flags =>
      let parts := omap (dict_get _UNAME_FIELDS) flags in
      if bool_decide (parts = []) then uname_field 115 else join [32] parts
  end.
