(* ===== verification/DateTime.v ===== *)
(** * Dates

    A [datetime] in UTC is the number of microseconds since 1970.  The civil
    date of a day number, the formats the program uses, and their parts. *)

From S2P Require Import Prelude PyStr.

Definition US_PER_DAY : Z := 86400 * 1000000.

(** Days since 1970-01-01 to year, month and day in the Gregorian calendar: days
    are counted from 0000-03-01 in eras of 400 years. *)
Definition civil_from_days (days : Z) : Z * Z * Z :=
  let z := days + 719468 in
  let era := z / 146097 in
  let doe := z mod 146097 in
  let yoe := (doe - doe / 1460 + doe / 36524 - doe / 146096) / 365 in
  let doy := doe - (365 * yoe + yoe / 4 - yoe / 100) in
  let mp := (5 * doy + 2) / 153 in
  let d := doy - (153 * mp + 2) / 5 + 1 in
  let m := if mp <? 10 then mp + 3 else mp - 9 in
  (yoe + era * 400 + (if m <=? 2 then 1 else 0), m, d).

Definition pad_left (n : nat) (c : Z) (s : str) : str := repeat c (n - length s) ++ s.
Definition pad_right (n : nat) (c : Z) (s : str) : str := s ++ repeat c (n - length s).
Definition two_digits (n : Z) : str := pad_left 2 48 (py_str n).

Definition month_abbr (m : Z) : str :=
  nth (Z.to_nat (m - 1))
    [lit "Jan"; lit "Feb"; lit "Mar"; lit "Apr"; lit "May"; lit "Jun";
     lit "Jul"; lit "Aug"; lit "Sep"; lit "Oct"; lit "Nov"; lit "Dec"] [].

Record civil := Civil { c_year : Z; c_month : Z; c_day : Z; c_hour : Z; c_minute : Z;
                        c_second : Z; c_micro : Z }.

Definition civil_of (us : Z) : civil :=
  let '(y, m, d) := civil_from_days (us / US_PER_DAY) in
  let t := us mod US_PER_DAY in
  Civil y m d (t / 3600000000) (t / 60000000 mod 60) (t / 1000000 mod 60) (t mod 1000000).

(** ["%Y-%m-%d %H:%M:%S"], with the separator of date and time. *)
Definition date_time (sep : str) (us : Z) : str :=
  let c := civil_of us in
  py_str (c_year c) ++ lit "-" ++ two_digits (c_month c) ++ lit "-" ++ two_digits (c_day c) ++ sep ++
  two_digits (c_hour c) ++ lit ":" ++ two_digits (c_minute c) ++ lit ":" ++ two_digits (c_second c).

(** [datetime.now(timezone.utc).isoformat().replace("+00:00", "Z")]. *)
Definition iso_utc_now (us : Z) : str :=
  let micro := c_micro (civil_of us) in
  date_time "T" us ++
  (if micro =? 0 then [] else lit "." ++ pad_left 6 48 (py_str micro)) ++ lit "Z".

(** [_ls_mtime]. *)
Definition _LS_SIX_MONTHS : Z := 183 * US_PER_DAY.
Definition _ls_mtime (now mtime : Z) : str :=
  let c := civil_of mtime in
  let date := month_abbr (c_month c) ++ lit " " ++ pad_left 2 32 (py_str (c_day c)) in
  if Z.abs (now - mtime) <? _LS_SIX_MONTHS then
    date ++ lit " " ++ two_digits (c_hour c) ++ lit ":" ++ two_digits (c_minute c)
  else date ++ lit "  " ++ py_str (c_year c).

Example epoch_of_the_tree :
  iso_utc_now 1712740500000000 = lit "2024-04-10T09:15:00Z" ∧
  _ls_mtime 1712740500000001 1712740500000000 = lit "Apr 10 09:15".
Proof. by vm_compute. Qed.
