(* ===== verification/Sinkhole.v ===== *)
(** * Captured payloads and audit records ([sinkhole.py], [telemetry.py])

    What is kept of a download or a redirected output, and what is logged of a
    command.  The digests are parameters; the disk is the list of files written
    and of lines appended. *)

From S2P Require Import Prelude PyStr OrdDict DateTime.

(** ** [sinkhole.py] *)

(** [name if name else "index.html"], from the decoded path of the URL. *)
Definition filename_from_path (path : str) : str :=
  let name := rsplit_last 47 path in
  if bool_decide (name = []) then "index.html" else name.

Definition mocked_payload (url client_ip timestamp : str) : str :=
  lit "#!/bin/sh" ++ [10] ++ lit "# Captured payload placeholder" ++ [10] ++
  lit "# Source: " ++ url ++ [10] ++ lit "# Client: " ++ client_ip ++ [10] ++
  lit "# Timestamp: " ++ timestamp ++ [10].

Record artifact := Artifact {
  ar_filename : str;
  ar_sha256 : str;
  ar_md5 : str;
  ar_size_bytes : Z;
  ar_client_ip : str;
  ar_source_url : str;
  ar_timestamp : str
}.

Section Quarantine.
(** The hexadecimal digests of a byte string. *)
Variables sha256 md5 : str → str.

(** [quarantine_artifact]: the metadata, and the quarantine directory as a
    dictionary from digests to contents; [disk_ok] tells whether the directory
    and the file can be written. *)
Definition quarantine_artifact (filename content client_ip source_url : str) (disk_ok : bool)
    (now : Z) (dir : list (str * str)) : result artifact * list (str * str) :=
  match encode_utf8 content with
  | Err e => (Err e, dir)
  | Ok data =>
      if disk_ok then
        (Ok (Artifact filename (sha256 data) (md5 data) (Z.of_nat (length data)) client_ip
               source_url (iso_utc_now now)),
         dict_set dir (sha256 data) data)
      else (Err (OSError "quarantine"), dir)
  end.
End Quarantine.

(** ** [telemetry.py] *)

Inductive execution_path := PVfs | PStatic | PSinkhole | PLlm | PCache | PExecTrap.
#[export] Instance execution_path_eq_dec : EqDecision execution_path.
Proof. solve_decision. Defined.

Definition _SAFE_SESSION_CHARS : str :=
  "abcdefghijklmnopqrstuvwxyzABCDEFGHIJKLMNOPQRSTUVWXYZ0123456789-_".
Definition _safe_session_id (session_id : str) : str :=
  let cleaned := List.filter (contains _SAFE_SESSION_CHARS) session_id in
  if bool_decide (cleaned = []) then "local" else cleaned.

(** The file a session is logged to, below [logs/sessions]. *)
Definition session_log_path (session_id : str) : str :=
  lit "logs/sessions/" ++ _safe_session_id session_id ++ lit ".jsonl".

(** The extra fields of a record: a path that was executed and its metadata. *)
Record exec_extra := ExecExtra {
  ex_target_path : str;
  ex_name : str;
  ex_mode : Z;
  ex_size : Z;
  ex_owner : str;
  ex_group : str
}.

(** One record of [record_command]; the duration is not modelled. *)
Record command_record := CommandRecord {
  cr_timestamp : str;
  cr_session_id : str;
  cr_client_ip : str;
  cr_command : str;
  cr_execution_path : execution_path;
  cr_captured_artifacts : list str;
  cr_extra : option exec_extra
}.

(** A session identifier cannot leave the log directory. *)
Lemma safe_session_id_chars sid :
  _safe_session_id sid ≠ [] ∧ Forall (λ c, c ∈ _SAFE_SESSION_CHARS) (_safe_session_id sid).
Proof.
  unfold _safe_session_id. set (cleaned := List.filter _ sid).
  case_bool_decide as E; [split; [done|vm_decide]|]. split; [done|].
  apply Forall_forall. intros c Hc%list_elem_of_In.
  apply filter_In in Hc as [_ Hc]. by apply contains_true in Hc.
Qed.
