(* ===== verification/JsonDump.v ===== *)
(** * Writing any JSON value

    [json.dumps(value, ensure_ascii=True)] for nested values, and the round
    trip: [json.loads] reads back exactly the value that was written.  What is
    written is one line of printable ASCII, whatever text the value holds. *)

From S2P Require Import Prelude PyStr OrdDict Json.

Definition comma : str := [44; 32].

Fixpoint json_dumps (j : json) : str :=
  match j with
  | JNull => lit "null"
  | JBool b => if b then lit "true" else lit "false"
  | JInt n => py_str n
  | JFloat text => text
  | JStr s => dump_str s
  | JList l => 91 :: join comma (map json_dumps l) ++ [93]
  | JObj d =>
      123 :: join comma (map (λ '(k, v), dump_str k ++ [58; 32] ++ json_dumps v) d) ++ [125]
  end.

(** A member of an object as it is written. *)
Definition dump_member (kv : str * json) : str := dump_str kv.1 ++ [58; 32] ++ json_dumps kv.2.

(** The text of a non-negative [float], as [float.__repr__] writes it: digits,
    then a fraction or an exponent. *)
Definition float_ok (t : str) : Prop :=
  (∃ c t', t = c :: t' ∧ is_digit c = true) ∧ Forall (λ c, 32 < c < 127) t ∧
  ∀ rest, (∀ c r, rest = c :: r → is_digit c = false ∧ c ∉ [46; 101; 69]) →
    read_number (t ++ rest) = Some (JFloat t, rest).

(** Values as a Python program builds them: every text can be encoded and no
    key is repeated. *)
Inductive json_ok : json → Prop :=
  | ok_null : json_ok JNull
  | ok_bool b : json_ok (JBool b)
  | ok_int n : json_ok (JInt n)
  | ok_float t : float_ok t → json_ok (JFloat t)
  | ok_str s : text_ok s → json_ok (JStr s)
  | ok_list l : Forall json_ok l → json_ok (JList l)
  | ok_obj d : Forall (λ kv, text_ok kv.1 ∧ json_ok kv.2) d → NoDup d.*1 → json_ok (JObj d).

(** Induction that reaches inside lists and members. *)
Lemma json_ok_nested (P : json → Prop) :
  P JNull → (∀ b, P (JBool b)) → (∀ n, P (JInt n)) → (∀ t, float_ok t → P (JFloat t)) →
  (∀ s, text_ok s → P (JStr s)) → (∀ l, Forall P l → P (JList l)) →
  (∀ d, Forall (λ kv, text_ok kv.1 ∧ P kv.2) d → NoDup d.*1 → P (JObj d)) →
  ∀ j, json_ok j → P j.
Proof.
  intros Hnull Hbool Hint Hfloat Hstr Hlist Hobj. fix IH 2. intros j [].
  - exact Hnull.
  - apply Hbool.
  - apply Hint.
  - by apply Hfloat.
  - by apply Hstr.
  - apply Hlist. induction H; constructor; auto.
  - apply Hobj; [|done]. clear H0. induction H as [|kv d' [Hk Hv] _ IHd]; constructor; auto.
Qed.

Lemma dumps_obj d : json_dumps (JObj d) = 123 :: join comma (map dump_member d) ++ [125].
Proof. cbn [json_dumps]. do 3 f_equal. apply map_ext. by intros []. Qed.

(** ** Numbers *)

Lemma pretty_head (x : N) s :
  (0 < x)%N → ∃ d t, lit (pretty_N_go x s) = d :: t ∧ 49 ≤ d ≤ 57.
Proof.
  revert s. induction (N.lt_wf_0 x) as [x _ IH]. intros s Hx. rewrite pretty_N_go_step by done.
  pose proof (N.mod_lt x 10 ltac:(lia)) as Hm. destruct (decide (x / 10 = 0)%N) as [E|E].
  - rewrite E, pretty_N_go_0. pose proof (N.div_mod' x 10) as Hx'. rewrite E in Hx'. cbn [lit].
    rewrite pretty_char by done. eexists _, _. split; [done|]. revert Hm Hx' Hx. clear.
    generalize (x `mod` 10)%N. intros r Hr Ex Hx. lia.
  - apply IH; [apply N.div_lt; lia|by apply N.neq_0_lt_0].
Qed.

(** The digits of a positive number: no leading zero, and they mean it. *)
Lemma pretty_pos p :
  ∃ d t, lit (pretty (Npos p)) = d :: t ∧ 49 ≤ d ≤ 57 ∧ Forall (λ c, is_digit c = true) (d :: t) ∧
  digits_value 0 (d :: t) = Zpos p.
Proof.
  change (pretty (Npos p)) with (pretty_N_go (Npos p) "").
  destruct (pretty_head (Npos p) "" eq_refl) as (d & t & E & Hd). exists d, t.
  assert (Hds : Forall (λ c, is_digit c = true) (lit (pretty_N_go (Npos p) ""))) by by apply pretty_digits.
  pose proof (int_digits_pretty (Npos p) "" eq_refl) as Hv. rewrite E in Hds, Hv.
  rewrite int_digits_value in Hv by (done || by left). cbn in Hv. by injection Hv as Hv.
Qed.

(** What may follow a number. *)
Definition ends_number (rest : str) : Prop :=
  ∀ c r, rest = c :: r → is_digit c = false ∧ c ∉ [46; 101; 69].

Lemma span_digits ds rest :
  Forall (λ c, is_digit c = true) ds → ends_number rest → span is_digit (ds ++ rest) = (ds, rest).
Proof.
  intros Hd Hr. induction Hd as [|c ds Hc Hd IH]; cbn.
  - destruct rest as [|c r]; [done|]. cbn. by rewrite (proj1 (Hr c r eq_refl)).
  - by rewrite Hc, IH.
Qed.

Lemma no_fraction rest : ends_number rest → read_fraction rest = ([], rest) ∧ read_exponent rest = ([], rest).
Proof.
  intros Hr. destruct rest as [|c r]; [done|]. destruct (Hr c r eq_refl) as [_ Hc].
  assert (c ≠ 46 ∧ c ≠ 101 ∧ c ≠ 69) as (H1 & H2 & H3) by set_solver.
  cbn. rewrite (proj2 (Z.eqb_neq c 46)), (proj2 (Z.eqb_neq c 101)), (proj2 (Z.eqb_neq c 69)) by done. done.
Qed.

Lemma read_digits neg d t rest :
  49 ≤ d ≤ 57 → Forall (λ c, is_digit c = true) (d :: t) → ends_number rest →
  read_number ((if neg : bool then [45] else []) ++ (d :: t) ++ rest) =
  Some (JInt (if neg then - digits_value 0 (d :: t) else digits_value 0 (d :: t)), rest).
Proof.
  intros Hd Ht Hr. unfold read_number. destruct (no_fraction rest Hr) as [Hf He].
  assert (E : (if d =? 48 then ([48], t ++ rest) else span is_digit ((d :: t) ++ rest)) = (d :: t, rest)).
  { rewrite (proj2 (Z.eqb_neq d 48)) by lia. by apply span_digits. }
  destruct neg; cbn [app] in *.
  - change (45 =? 45) with true. cbn match. by rewrite E, Hf, He.
  - rewrite (proj2 (Z.eqb_neq d 45)) by lia. by rewrite E, Hf, He.
Qed.

Lemma read_int n rest : ends_number rest → read_number (py_str n ++ rest) = Some (JInt n, rest).
Proof.
  intros Hr. unfold py_str. destruct n as [|p|p].
  - change (lit (pretty 0)) with [48]. unfold read_number. cbn [app].
    change (48 =? 45) with false. cbn match. change (48 =? 48) with true. cbn match.
    rewrite bool_decide_eq_false_2 by done.
    destruct (no_fraction rest Hr) as [-> ->]. done.
  - destruct (pretty_pos p) as (d & t & E & Hd & Ht & Hv). change (pretty (Zpos p)) with (pretty (Npos p)).
    rewrite E. pose proof (read_digits false d t rest Hd Ht Hr) as H. by rewrite Hv in H.
  - destruct (pretty_pos p) as (d & t & E & Hd & Ht & Hv).
    change (lit (pretty (Zneg p))) with (45 :: lit (pretty (Npos p))).
    rewrite E. pose proof (read_digits true d t rest Hd Ht Hr) as H. by rewrite Hv in H.
Qed.

#[local] Arguments lit : simpl never.

(** The first character of a number. *)
Lemma int_head n : ∃ c t, py_str n = c :: t ∧ (is_digit c = true ∨ c = 45).
Proof.
  unfold py_str. destruct n as [|p|p].
  - eexists _, _. split; [reflexivity|by left].
  - destruct (pretty_pos p) as (d & t & E & Hd & _). exists d, t.
    split; [exact E|]. left. unfold is_digit. lia.
  - eexists _, _. split; [reflexivity|by right].
Qed.

(** A text that begins like a number is read by [read_number]. *)
Lemma read_value_number_head fuel c s v :
  is_digit c = true ∨ c = 45 → read_number (c :: s) = Some v → read_value (S fuel) (c :: s) = Some v.
Proof.
  intros [Hc| ->] Hn; [by apply read_value_number|].
  cbn [read_value]. change (45 =? 34) with false. change (45 =? 123) with false.
  change (45 =? 91) with false. cbn match.
  assert (Hsw : ∀ d l, 45 ≠ d → startswith (45 :: s) (d :: l) = false).
  { intros d l Hd. apply startswith_false. intros [k [=]]. done. }
  change (lit "null") with (110 :: lit "ull"). change (lit "true") with (116 :: lit "rue").
  change (lit "false") with (102 :: lit "alse"). by rewrite !Hsw, Hn by done.
Qed.

(** ** What is written *)

(** The first character is neither blank nor a closing bracket. *)
Lemma dumps_head j : json_ok j → ∃ c t, json_dumps j = c :: t ∧ json_blank c = false ∧ c ≠ 93 ∧ c ≠ 125.
Proof.
  intros Hj. assert (Hnum : ∀ c, is_digit c = true ∨ c = 45 → json_blank c = false ∧ c ≠ 93 ∧ c ≠ 125).
  { intros c Hc. unfold is_digit, json_blank in *. destruct Hc as [Hc| ->]; [|done]. lia. }
  destruct Hj as [|b|n|t Ht|s Hs|l Hl|d Hd Hk].
  - eexists _, _. split; [reflexivity|done].
  - destruct b; (eexists _, _; split; [reflexivity|done]).
  - destruct (int_head n) as (c & t & E & Hc). exists c, t. split; [exact E|by apply Hnum].
  - destruct Ht as [(c & t' & -> & Hc) _]. exists c, t'. split; [done|]. apply Hnum. by left.
  - eexists _, _. split; [reflexivity|done].
  - eexists _, _. split; [reflexivity|done].
  - eexists _, _. split; [reflexivity|done].
Qed.

Lemma skip_dumps j rest : json_ok j → skip_blank (json_dumps j ++ rest) = json_dumps j ++ rest.
Proof.
  intros Hj. destruct (dumps_head j Hj) as (c & t & -> & Hc & _). cbn. by rewrite Hc.
Qed.

Lemma ends_comma rest : ends_number (comma ++ rest).
Proof. intros c r [= <- _]. split; [done|vm_decide]. Qed.
Lemma ends_bracket c rest : c = 93 ∨ c = 125 → ends_number (c :: rest).
Proof. intros [-> | ->] c' r [= <- _]; (split; [done|vm_decide]). Qed.

(** Enough fuel reads a value back and leaves what follows it. *)
Definition reads_back (j : json) : Prop :=
  ∀ fuel rest, ends_number rest → (length (json_dumps j) < fuel)%nat →
    read_value fuel (json_dumps j ++ rest) = Some (j, rest).

Lemma join_cons sep (x y : str) l : join sep (x :: y :: l) = x ++ sep ++ join sep (y :: l).
Proof. done. Qed.

Lemma read_items_back l : ∀ j fuel acc rest,
  Forall (λ j, json_ok j ∧ reads_back j) (j :: l) →
  (S (length (join comma (map json_dumps (j :: l)))) < fuel)%nat →
  read_items fuel acc (join comma (map json_dumps (j :: l)) ++ 93 :: rest) =
  Some (JList (reverse acc ++ j :: l), rest).
Proof.
  induction l as [|j' l IH]; intros j fuel acc rest Hl Hf; apply Forall_cons in Hl as [[Hj Hr] Hl];
    (destruct fuel as [|fuel]; [lia|]);
    (assert (Hpos : (0 < length (json_dumps j))%nat)
       by (destruct (dumps_head j Hj) as (c & t & -> & _); cbn; lia)).
  - cbn [map join] in *. cbn [read_items]. rewrite Hr by (lia || (apply ends_bracket; by left)).
    cbn [mbind option_bind]. change (skip_blank (93 :: rest)) with (93 :: rest). cbn match.
    change (93 =? 93) with true. cbn match. by rewrite reverse_cons.
  - cbn [map] in *. rewrite join_cons in *. rewrite !length_app in Hf. cbn [length comma] in Hf.
    rewrite <-!app_assoc. cbn [read_items]. rewrite Hr by (apply ends_comma || lia).
    cbn [mbind option_bind]. change (skip_blank (comma ++ ?r)) with (44 :: 32 :: r). cbn match.
    change (44 =? 93) with false. change (44 =? 44) with true. cbn match.
    apply Forall_cons in Hl as [[Hj' Hr'] Hl'].
    assert (E : ∀ t, skip_blank (32 :: join comma (map json_dumps (j' :: l)) ++ t) =
                     join comma (map json_dumps (j' :: l)) ++ t).
    { intros t. change (skip_blank (32 :: ?x)) with (skip_blank x).
      destruct l as [|j'' l]; [by apply skip_dumps|]. cbn [map]. rewrite join_cons, <-app_assoc.
      by apply skip_dumps. }
    cbn [map] in E, IH. rewrite E, IH.
    + by rewrite reverse_cons, <-app_assoc.
    + by constructor.
    + cbn [map]. lia.
Qed.

Lemma member_length k v :
  length (dump_member (k, v)) = (length (dump_str k) + 2 + length (json_dumps v))%nat.
Proof. unfold dump_member. rewrite !length_app. cbn. lia. Qed.
Lemma dump_str_length s : (2 + length s ≤ length (dump_str s))%nat.
Proof.
  unfold dump_str. cbn [length]. rewrite length_app. cbn. pose proof (flat_map_length s). lia.
Qed.

(** One member, on to the comma or the brace. *)
Lemma read_member fuel acc k v d rest :
  text_ok k → json_ok v → reads_back v → (length (dump_member (k, v)) < fuel)%nat →
  ends_number (d :: rest) → json_blank d = false →
  read_members (S fuel) acc (dump_member (k, v) ++ d :: rest) =
  if d =? 125 then Some (JObj (dict_set acc k v), rest)
  else if d =? 44 then read_members fuel (dict_set acc k v) (skip_blank rest)
  else None.
Proof.
  intros Hk Hv Hr Hf Hd Hb. rewrite member_length in Hf. pose proof (dump_str_length k).
  unfold dump_member. rewrite <-!app_assoc. cbn [fst snd]. change ([58; 32] ++ ?x) with (58 :: 32 :: x).
  apply (read_members_step _ _ _ _ _ (d :: rest)); [done|lia| |cbn; by rewrite Hb].
  change (skip_blank (32 :: ?x)) with (skip_blank x). rewrite skip_dumps by done. apply Hr; [done|lia].
Qed.

Lemma dict_set_fresh (acc : list (str * json)) k v :
  k ∉ acc.*1 → dict_set acc k v = acc ++ [(k, v)].
Proof. intros Hk. apply dict_set_new. by apply dict_get_None. Qed.

Lemma read_members_back d : ∀ k v fuel acc rest,
  Forall (λ kv, text_ok kv.1 ∧ json_ok kv.2 ∧ reads_back kv.2) ((k, v) :: d) →
  NoDup (acc.*1 ++ ((k, v) :: d).*1) →
  (S (length (join comma (map dump_member ((k, v) :: d)))) < fuel)%nat →
  read_members fuel acc (join comma (map dump_member ((k, v) :: d)) ++ 125 :: rest) =
  Some (JObj (acc ++ (k, v) :: d), rest).
Proof.
  induction d as [|[k' v'] d IH]; intros k v fuel acc rest Hd Hk Hf;
    apply Forall_cons in Hd as [(Ht & Hv & Hr) Hd]; (destruct fuel as [|fuel]; [lia|]);
    (assert (Hfresh : k ∉ acc.*1) by
       (intros Hin; apply NoDup_app in Hk as (_ & Hdis & _); apply (Hdis _ Hin); by left)).
  - cbn [map join] in *. rewrite read_member by (done || lia || (apply ends_bracket; by right)).
    change (125 =? 125) with true. cbn match. by rewrite dict_set_fresh.
  - cbn [map] in *. rewrite join_cons in *. rewrite !length_app in Hf. cbn [length comma] in Hf.
    rewrite <-!app_assoc. change (comma ++ ?x) with (44 :: 32 :: x).
    rewrite read_member by (done || lia || apply (ends_comma _)).
    change (44 =? 125) with false. change (44 =? 44) with true. cbn match.
    rewrite dict_set_fresh by done.
    assert (E : ∀ t, skip_blank (32 :: join comma (dump_member (k', v') :: map dump_member d) ++ t) =
                     join comma (dump_member (k', v') :: map dump_member d) ++ t).
    { intros t. change (skip_blank (32 :: ?x)) with (skip_blank x). by destruct d. }
    rewrite E, IH.
    + by rewrite <-app_assoc.
    + done.
    + rewrite fmap_app, <-app_assoc. exact Hk.
    + pose proof (dump_str_length k) as Hl. rewrite member_length in Hf. lia.
Qed.

Lemma reads_back_number fuel rest text v :
  (∃ c t, text = c :: t ∧ (is_digit c = true ∨ c = 45)) → read_number (text ++ rest) = Some (v, rest) →
  (length text < fuel)%nat → read_value fuel (text ++ rest) = Some (v, rest).
Proof.
  intros (c & t & -> & Hc) Hn Hf. destruct fuel as [|fuel]; [lia|].
  cbn [app] in *. by apply read_value_number_head.
Qed.

Lemma reads_back_list l : Forall (λ j, json_ok j ∧ reads_back j) l → reads_back (JList l).
Proof.
  intros Hl fuel rest Hr Hf. destruct fuel as [|fuel]; [lia|]. cbn [json_dumps] in *. cbn [app read_value].
  change (91 =? 34) with false. change (91 =? 123) with false. change (91 =? 91) with true. cbn match.
  cbn [length] in Hf. rewrite length_app in Hf. cbn [length] in Hf. rewrite <-app_assoc. cbn [app].
  destruct l as [|j l]; [done|]. assert (Hj : json_ok j) by by apply Forall_cons in Hl as [[? _] _].
  pose proof (read_items_back l j fuel [] rest Hl ltac:(lia)) as Hitems.
  destruct (dumps_head j Hj) as (c & t & E & Hc & Hc' & _).
  assert (Hhead : ∃ t', join comma (map json_dumps (j :: l)) ++ 93 :: rest = c :: t').
  { destruct l as [|j' l]; cbn [map]; [cbn [join]|rewrite join_cons]; rewrite E; by eexists. }
  destruct Hhead as [t' Ht']. rewrite Ht' in *. cbn [skip_blank]. unfold skip_blank. cbn [drop_while].
  rewrite Hc. cbn match. rewrite (proj2 (Z.eqb_neq c 93)) by done. exact Hitems.
Qed.

Lemma reads_back_obj d :
  Forall (λ kv, text_ok kv.1 ∧ json_ok kv.2 ∧ reads_back kv.2) d → NoDup d.*1 → reads_back (JObj d).
Proof.
  intros Hd Hk fuel rest Hr Hf. destruct fuel as [|fuel]; [lia|]. rewrite dumps_obj in *. cbn [app read_value].
  change (123 =? 34) with false. change (123 =? 123) with true. cbn match.
  cbn [length] in Hf. rewrite length_app in Hf. cbn [length] in Hf. rewrite <-app_assoc. cbn [app].
  destruct d as [|[k v] d]; [done|].
  pose proof (read_members_back d k v fuel [] rest Hd Hk ltac:(lia)) as Hmembers.
  assert (Hhead : ∃ t, join comma (map dump_member ((k, v) :: d)) ++ 125 :: rest = 34 :: t).
  { destruct d as [|kv d]; cbn [map]; [cbn [join]|rewrite join_cons]; by eexists. }
  destruct Hhead as [t Ht]. rewrite Ht in *. change (skip_blank (34 :: t)) with (34 :: t). cbn match.
  change (34 =? 125) with false. cbn match. exact Hmembers.
Qed.

Lemma reads_back_ok j : json_ok j → reads_back j.
Proof.
  intros Hj. enough (json_ok j ∧ reads_back j) as [_ ?] by done. revert j Hj. apply json_ok_nested.
  - split; [constructor|]. intros [|fuel] rest _ Hf; [lia|done].
  - intros b. split; [constructor|]. intros [|fuel] rest _ Hf; [lia|]. by destruct b.
  - intros n. split; [constructor|]. intros fuel rest Hr Hf. apply reads_back_number; [|by apply read_int|done].
    apply int_head.
  - intros t Ht. split; [by constructor|]. intros fuel rest Hr Hf. destruct Ht as [(c & t' & E & Hc) [_ Hn]].
    apply reads_back_number; [exists c, t'; auto|by apply Hn|done].
  - intros s Hs. split; [by constructor|]. intros fuel rest Hr Hf. cbn [json_dumps] in *.
    pose proof (dump_str_length s). apply read_value_dump; [done|lia].
  - intros l Hl. split; [|by apply reads_back_list].
    apply ok_list. eapply Forall_impl; [exact Hl|]. naive_solver.
  - intros d Hd Hk. split.
    + apply ok_obj; [|done]. eapply Forall_impl; [exact Hd|]. naive_solver.
    + apply reads_back_obj; [|done]. eapply Forall_impl; [exact Hd|]. naive_solver.
Qed.

(** Every value is read back from what [dumps] writes. *)
Lemma dumps_loads j : json_ok j → json_loads (json_dumps j) = Some j.
Proof.
  intros Hj. unfold json_loads. destruct (dumps_head j Hj) as (c & t & E & Hc & _).
  assert (Hs : skip_blank (json_dumps j) = json_dumps j) by (rewrite E; cbn; by rewrite Hc).
  rewrite Hs. pose proof (reads_back_ok j Hj (3 * length (json_dumps j) + 3)%nat []) as Hr.
  rewrite app_nil_r in Hr. rewrite Hr; [done|by intros c' r [=]|lia].
Qed.

(** ** One printable line *)

Definition printable (s : str) : Prop := Forall (λ c, 32 ≤ c < 127) s.

Lemma printable_app a b : printable a → printable b → printable (a ++ b).
Proof. apply Forall_app_2. Qed.

Lemma printable_join l : Forall printable l → printable (join comma l).
Proof.
  induction 1 as [|x l Hx Hl IH]; [constructor|]. destruct l; [done|].
  rewrite join_cons. apply printable_app; [done|]. apply printable_app; [repeat constructor; lia|done].
Qed.

Lemma escape_printable c : printable (escape_char c).
Proof.
  assert (Hhex : ∀ n, 32 ≤ hex_digit (n mod 16) < 127).
  { intros n. pose proof (Z.mod_pos_bound n 16 ltac:(lia)). unfold hex_digit. case_match; lia. }
  assert (Hu : ∀ n, printable (u_escape n)).
  { intros n. unfold u_escape, hex4. repeat (constructor; [try apply Hhex; lia|]). constructor. }
  unfold escape_char. do 7 (case_match; [by repeat (constructor; [lia|])|]).
  destruct ((32 <=? c) && (c <? 127)) eqn:E; [by constructor; [lia|]|].
  destruct (c <? 65536); [apply Hu|]. apply printable_app; apply Hu.
Qed.

Lemma dump_str_printable s : printable (dump_str s).
Proof.
  unfold dump_str. constructor; [lia|]. apply printable_app; [|repeat constructor; lia].
  induction s as [|c s IH]; [constructor|]. apply printable_app; [apply escape_printable|done].
Qed.

Lemma py_str_printable n : printable (py_str n).
Proof.
  assert (Hd : ∀ l, Forall (λ c, is_digit c = true) l → printable l).
  { intros l Hl. eapply Forall_impl; [exact Hl|]. unfold is_digit. lia. }
  unfold py_str. destruct n as [|p|p]; [repeat constructor; vm_decide| |].
  - destruct (pretty_pos p) as (d & t & E & _ & Ht & _). change (pretty (Zpos p)) with (pretty (Npos p)).
    rewrite E. by apply Hd.
  - destruct (pretty_pos p) as (d & t & E & _ & Ht & _).
    change (lit (pretty (Zneg p))) with (45 :: lit (pretty (Npos p))). rewrite E. constructor; [lia|by apply Hd].
Qed.

Lemma dumps_printable j : json_ok j → printable (json_dumps j).
Proof.
  revert j. apply json_ok_nested; intros.
  - cbn. repeat constructor; vm_decide.
  - destruct b; cbn; repeat constructor; vm_decide.
  - apply py_str_printable.
  - eapply Forall_impl; [apply H|]. cbn. lia.
  - apply dump_str_printable.
  - cbn [json_dumps]. constructor; [lia|]. apply printable_app; [|repeat constructor; lia].
    apply printable_join. by apply Forall_fmap.
  - rewrite dumps_obj. constructor; [lia|]. apply printable_app; [|repeat constructor; lia].
    apply printable_join, Forall_fmap. eapply Forall_impl; [exact H|]. intros kv [_ Hv]. unfold compose, dump_member.
    apply printable_app; [apply dump_str_printable|]. by apply printable_app; [repeat constructor; lia|].
Qed.
