(* ===== verification/TextOps.v ===== *)
(** * Text in, text out

    The string operations of the program neither invent nor damage characters:
    what they return consists of characters of their arguments ([Forall P] is
    closed under them, for any [P]), and what the program writes itself, words
    and numbers, is text.  The hint database [text] holds these facts. *)

From S2P Require Import Prelude PyStr OrdDict Path Json JsonDump DateTime ShellParse.

#[local] Arguments lit : simpl never.

(** ** Operations that only move characters *)

Lemma text_cons c s : char_ok c = true → text_ok s → text_ok (c :: s). Proof. by constructor. Qed.
Lemma text_nil : text_ok []. Proof. constructor. Qed.
Lemma text_reverse s : text_ok s → text_ok (reverse s). Proof. apply Forall_reverse. Qed.
#[local] Hint Resolve text_cons text_nil text_reverse : core.

Lemma text_take n s : text_ok s → text_ok (take n s). Proof. apply Forall_take. Qed.
Lemma text_drop n s : text_ok s → text_ok (drop n s). Proof. apply Forall_drop. Qed.
Lemma text_app a b : text_ok a → text_ok b → text_ok (a ++ b). Proof. apply Forall_app_2. Qed.
Lemma text_filter p s : text_ok s → text_ok (List.filter p s).
Proof. apply incl_Forall, incl_filter. Qed.
Lemma text_if (b : bool) x y : text_ok x → text_ok y → text_ok (if b then x else y).
Proof. by destruct b. Qed.
Lemma text_list_if (b : bool) (x y : list str) : Forall text_ok x → Forall text_ok y → Forall text_ok (if b then x else y).
Proof. by destruct b. Qed.
Lemma text_concat l : Forall text_ok l → text_ok (concat l).
Proof. induction 1; [constructor|]. by apply text_app. Qed.
Lemma text_repeat c n : char_ok c = true → text_ok (repeat c n).
Proof. intros Hc. induction n; constructor; auto. Qed.

Lemma text_drop_while p s : text_ok s → text_ok (drop_while p s).
Proof. induction 1 as [|c s Hc Hs IH]; cbn; [constructor|]. destruct (p c); [done|by constructor]. Qed.
Lemma text_strip_by p s : text_ok s → text_ok (strip_by p s).
Proof.
  intros Hs. unfold strip_by, rstrip_by, lstrip_by.
  by apply Forall_reverse, text_drop_while, Forall_reverse, text_drop_while.
Qed.
Lemma text_rstrip s chars : text_ok s → text_ok (rstrip s chars).
Proof. intros Hs. unfold rstrip, rstrip_by. by apply Forall_reverse, text_drop_while, Forall_reverse. Qed.
Lemma text_strip s : text_ok s → text_ok (strip s). Proof. apply text_strip_by. Qed.
Lemma text_strip_chars s chars : text_ok s → text_ok (strip_chars s chars). Proof. apply text_strip_by. Qed.

Lemma text_split_on sep s : text_ok s → Forall text_ok (split_on sep s).
Proof.
  induction 1 as [|c s Hc Hs IH]; cbn; [repeat constructor|]. case_decide; [by constructor|].
  destruct IH; by repeat constructor.
Qed.
Lemma text_join sep l : text_ok sep → Forall text_ok l → text_ok (join sep l).
Proof.
  intros Hsep. induction 1 as [|w l Hw Hl IH]; [constructor|]. destruct l; [done|].
  rewrite join_cons. by repeat apply text_app.
Qed.
Lemma text_rpartition_opt sep s h t : text_ok s → rpartition_opt sep s = Some (h, t) → text_ok h ∧ text_ok t.
Proof.
  intros Hs. revert h t. induction Hs as [|c s Hc Hs IH]; intros h t; cbn; [done|].
  destruct (rpartition_opt sep s) as [[h' t']|] eqn:E.
  - intros [= <- <-]. destruct (IH h' t' eq_refl). split; [by constructor|done].
  - case_decide; [|done]. intros [= <- <-]. by split; [constructor|].
Qed.
Lemma text_rsplit_last sep s : text_ok s → text_ok (rsplit_last sep s).
Proof.
  intros Hs. unfold rsplit_last, rpartition. destruct (rpartition_opt sep s) as [[h t]|] eqn:E; [|done].
  by apply (text_rpartition_opt sep s h t).
Qed.
Lemma text_split_once sep s : text_ok s → text_ok (split_once_tail sep s).
Proof. induction 1; cbn; [constructor|]. by case_decide. Qed.

Lemma text_split_ws s : text_ok s → Forall text_ok (split_ws s).
Proof.
  intros Hs. unfold split_ws. assert (Hc : text_ok []) by constructor. revert Hc. generalize (@nil Z) as cur.
  assert (Hemit : ∀ cur, text_ok cur → Forall text_ok (match cur with [] => [] | _ => [reverse cur] end)).
  { intros cur Hc. destruct cur; [constructor|]. constructor; [by apply Forall_reverse|constructor]. }
  induction Hs as [|c s Hc Hs IH]; intros cur Hcur; cbn; [by apply Hemit|].
  destruct (is_space c); [|apply IH; by constructor]. apply Forall_app. split; [by apply Hemit|]. apply IH. constructor.
Qed.
Lemma text_splitlines s : text_ok s → Forall text_ok (splitlines s).
Proof.
  unfold splitlines. assert (H : ∀ n s cur, (length s ≤ n)%nat → text_ok s → text_ok cur → Forall text_ok (splitlines_aux cur s)).
  2:{ intros Hs. by apply (H (length s)); [|done|constructor]. }
  induction n as [|n IH]; intros [|c s'] cur Hn Hs Hcur; cbn in *; try lia.
  1,2: destruct cur; [constructor|]; constructor; [by apply Forall_reverse|constructor].
  apply Forall_cons in Hs as [Hc Hs]. destruct (is_linebreak c); [|apply IH; [lia|done|by constructor]].
  constructor; [by apply Forall_reverse|]. destruct s' as [|d s'']; [constructor|].
  pose proof (Forall_inv_tail Hs) as Hs'.
  destruct ((c =? 13) && (d =? 10)); (apply IH; [cbn in *; lia|done|constructor]).
Qed.
Lemma text_replace s old new : text_ok s → text_ok new → text_ok (replace s old new).
Proof.
  intros Hs Hnew. unfold replace. generalize 0%nat as skip.
  induction Hs as [|c s Hc Hs IH]; intros skip; cbn; [constructor|].
  destruct skip; [|apply IH]. destruct (startswith (c :: s) old); [by apply text_app|by apply text_cons].
Qed.

(** Paths. *)
Lemma text_canon_parts path : text_ok path → Forall text_ok (canon_parts path).
Proof.
  intros Hp. unfold canon_parts. pose proof (text_split_on slash path Hp) as Hl.
  assert (Hacc : Forall text_ok []) by constructor. revert Hacc. generalize (@nil str) as acc.
  induction Hl as [|w l Hw Hl IH]; intros acc Hacc; cbn; [done|]. apply IH. unfold canon_push.
  case_decide; [done|]. case_decide; [|by apply Forall_app; repeat constructor].
  destruct acc as [|x0 acc]; [constructor|]. generalize dependent (x0 :: acc). intros k Hk.
  destruct k as [|x k] using rev_ind; [constructor|]. rewrite removelast_last. by apply Forall_app in Hk as [? _].
Qed.
Lemma text_canonicalize path cwd home :
  text_ok path → text_ok cwd → text_ok home → text_ok (canonicalize path cwd home).
Proof.
  intros Hp Hc Hh. assert (Hr : ∀ q, text_ok q → text_ok (render (canon_parts (absolutize q cwd)))).
  { intros q Hq. unfold render. constructor; [done|]. apply text_join; [by apply text_cons|]. apply text_canon_parts.
    unfold absolutize. apply text_if; [done|]. apply text_app; [by case_decide; [constructor|]|by constructor]. }
  unfold canonicalize. destruct (_ || _); [apply Hr, text_app; [done|by apply text_drop]|].
  case_decide; [done|by apply Hr].
Qed.
Lemma text_path_parts p : text_ok p → Forall text_ok (path_parts p).
Proof. intros Hp. by apply text_split_on, text_strip_chars. Qed.
Lemma text_base_name p : text_ok p → text_ok (base_name p). Proof. apply text_rsplit_last. Qed.

(** ** Command lines *)

Lemma text_emit incoming buf :
  text_ok incoming → text_ok buf → Forall (λ f : str * str, text_ok f.1 ∧ text_ok f.2) (emit incoming buf).
Proof.
  intros Hi Hb. unfold emit. case_bool_decide; [constructor|]. constructor; [|constructor].
  split; [done|]. by apply text_strip, Forall_reverse.
Qed.
Lemma text_match_op seps line sep : Forall text_ok seps → match_op seps line = Some sep → text_ok sep.
Proof.
  induction 1 as [|x seps Hx Hs IH]; cbn; [done|]. destruct (startswith line x); [by intros [= <-]|done].
Qed.
Lemma text_split_loop seps (Hseps : Forall text_ok seps) n : ∀ line skip incoming buf quote,
  (length line ≤ n)%nat → text_ok line → text_ok incoming → text_ok buf →
  Forall (λ f : str * str, text_ok f.1 ∧ text_ok f.2) (split_loop seps skip incoming buf quote line).
Proof.
  induction n as [|n IH]; intros [|c rest] skip incoming buf quote Hn Hl Hi Hb; cbn in Hn; try lia;
    try by apply text_emit.
  apply Forall_cons in Hl as [Hc Hl]. cbn. destruct skip as [|k]; [|apply IH; [lia|done..]].
  destruct quote as [q|]; [apply IH; [lia|done|done|by constructor]|].
  destruct (c =? backslash).
  { destruct rest as [|d rest']; [apply text_emit; [done|by constructor]|]. apply Forall_cons in Hl as [Hd Hl].
    apply IH; [cbn in *; lia|done|done|by repeat constructor]. }
  destruct (_ || _); [apply IH; [lia|done|done|by constructor]|].
  destruct (match_op seps (c :: rest)) as [sep|] eqn:Em; [|apply IH; [lia|done|done|by constructor]].
  apply Forall_app. split; [by apply text_emit|]. apply IH; [lia|done| |constructor]. by eapply text_match_op.
Qed.
Lemma text_sort_len ops : Forall text_ok ops → Forall text_ok (sort_len ops).
Proof.
  unfold sort_len. assert (Hins : ∀ op l, text_ok op → Forall text_ok l → Forall text_ok (insert_len op l)).
  { intros op l Ho. induction 1 as [|x l Hx Hl IH]; cbn; [by repeat constructor|].
    apply (text_list_if _ (op :: x :: l)); by repeat constructor. }
  intros Ho. assert (Hacc : Forall text_ok []) by constructor. revert Hacc. generalize (@nil str) as acc.
  induction Ho as [|x l Hx Hl IH]; intros acc Hacc; cbn; [done|]. by apply IH, Hins.
Qed.
Lemma text_split_operators line ops :
  text_ok line → Forall text_ok ops → Forall (λ f : str * str, text_ok f.1 ∧ text_ok f.2) (_split_operators line ops).
Proof.
  intros Hl Ho. unfold _split_operators.
  by apply (text_split_loop _ (text_sort_len ops Ho) (length line)); [|done|constructor|constructor].
Qed.

Lemma text_pipeline_loop n : ∀ line buf quote,
  (length line ≤ n)%nat → text_ok line → text_ok buf → Forall text_ok (pipeline_loop buf quote line).
Proof.
  assert (He : ∀ buf, text_ok buf → Forall text_ok (emit_stage buf)).
  { intros buf Hb. unfold emit_stage. case_bool_decide; [constructor|].
    constructor; [by apply text_strip, Forall_reverse|constructor]. }
  induction n as [|n IH]; intros [|c rest] buf quote Hn Hl Hb; cbn in Hn; try lia; try by apply He.
  apply Forall_cons in Hl as [Hc Hl]. cbn.
  destruct quote as [q|]; [apply IH; [lia|done|by constructor]|]. destruct (c =? backslash).
  { destruct rest as [|d rest']; [apply He; by constructor|]. apply Forall_cons in Hl as [Hd Hl].
    apply IH; [cbn in *; lia|done|by repeat constructor]. }
  destruct (_ || _); [apply IH; [lia|done|by constructor]|].
  destruct (_ && _); [|apply IH; [lia|done|by constructor]].
  apply Forall_app. split; [by apply He|]. apply IH; [lia|done|constructor].
Qed.
Lemma text_split_pipeline line : text_ok line → Forall text_ok (split_pipeline line).
Proof. intros Hl. by apply (text_pipeline_loop (length line)); [|done|constructor]. Qed.

Lemma text_lex line : ∀ st quoted tok tokens,
  text_ok line → text_ok tok → lex_loop st quoted tok line = Ok tokens → Forall text_ok tokens.
Proof.
  induction line as [|c rest IH]; intros st quoted tok tokens Hl Ht.
  - cbn. destruct st; try done; [by intros [= <-]|]. destruct (_ || _); intros [= <-]; [|constructor].
    constructor; [by apply Forall_reverse|constructor].
  - apply Forall_cons in Hl as [Hc Hl]. cbn. intros E.
    repeat (case_match; simplify_eq); try (by eapply IH; [..|exact E]; repeat constructor).
    destruct (lex_loop LexBlank false [] rest) as [tl|] eqn:El; [|done]. injection E as <-.
    constructor; [by apply Forall_reverse|]. eapply IH; [..|exact El]; by repeat constructor.
Qed.
Lemma text_shlex line tokens : text_ok line → shlex_split line = Ok tokens → Forall text_ok tokens.
Proof. intros Hl. by apply text_lex. Qed.

Lemma text_redirection tokens : ∀ command path append c p a,
  Forall text_ok tokens → Forall text_ok command → (∀ q, path = Some q → text_ok q) →
  redirection_loop command path append tokens = Ok (c, p, a) → Forall text_ok c ∧ ∀ q, p = Some q → text_ok q.
Proof.
  assert (H : ∀ n tokens command path append c p a, (length tokens ≤ n)%nat →
    Forall text_ok tokens → Forall text_ok command → (∀ q, path = Some q → text_ok q) →
    redirection_loop command path append tokens = Ok (c, p, a) → Forall text_ok c ∧ ∀ q, p = Some q → text_ok q).
  2:{ intros command path append c p a. by apply (H (length tokens)). }
  induction n as [|n IH]; intros [|t rest] command path append c p a Hn Ht Hc Hp; cbn in Hn; try lia;
    try by (intros [= <- <- <-]; split; [by apply Forall_reverse|]).
  apply Forall_cons in Ht as [Ht Hr]. cbn. destruct (bool_decide (t = lit "2>" ∧ rest ≠ [])).
  { destruct rest as [|u rest']; [by intros [= <- <- <-]; split; [by apply Forall_reverse|]|].
    apply Forall_cons in Hr as [_ Hr]. apply IH; [cbn in *; lia|done..]. }
  destruct (_ || _); [apply IH; [lia|done..]|]. destruct (_ || _).
  - destruct rest as [|u rest']; [done|]. apply Forall_cons in Hr as [Hu Hr].
    apply IH; [cbn in *; lia|done|done|]. by intros q [= <-].
  - apply IH; [lia|done|by constructor|done].
Qed.
Lemma text_parse_redirection tokens c p a :
  Forall text_ok tokens → _parse_redirection tokens = Ok (c, p, a) → Forall text_ok c ∧ ∀ q, p = Some q → text_ok q.
Proof. intros Ht. by apply text_redirection; [|constructor|]. Qed.

Lemma text_strip_prefixes prefixes s : text_ok s → text_ok (strip_prefixes prefixes s).
Proof.
  intros Hs. induction prefixes as [|x l IH]; cbn; [done|]. destruct (startswith s x); [|done].
  destruct (_ && _); [by apply text_drop|done].
Qed.
Lemma text_shell_c tokens s : Forall text_ok tokens → _extract_shell_c tokens = Some s → text_ok s.
Proof.
  induction 1 as [|t l Ht Hl IH]; cbn; [done|]. destruct Hl as [|u l' Hu Hl']; [done|].
  case_bool_decide; [by intros [= <-]|done].
Qed.
Lemma text_script_operand args s : Forall text_ok args → _shell_script_operand args = Some s → text_ok s.
Proof. induction 1 as [|t l Ht Hl IH]; cbn; [done|]. by destruct (startswith t "-"); [|intros [= <-]]. Qed.

Lemma text_wget_args args url out :
  Forall text_ok args → _parse_wget_args args = (url, out) →
  (∀ u, url = Some u → text_ok u) ∧ ∀ o, out = Some o → text_ok o.
Proof.
  unfold _parse_wget_args.
  assert (H : ∀ n args url0 out0, (length args ≤ n)%nat → Forall text_ok args →
    (∀ u, url0 = Some u → text_ok u) → (∀ o, out0 = Some o → text_ok o) → wget_loop url0 out0 args = (url, out) →
    (∀ u, url = Some u → text_ok u) ∧ ∀ o, out = Some o → text_ok o).
  2:{ intros Ha. by apply (H (length args)). }
  induction n as [|n IH]; intros [|t rest] url0 out0 Hn Ht Hu Ho; cbn in Hn; try lia; try by (intros [= <- <-]).
  apply Forall_cons in Ht as [Ht Hr]. cbn. destruct (_ || _).
  { destruct rest as [|v rest']; [by intros [= <- <-]|]. apply Forall_cons in Hr as [Hv Hr].
    apply IH; [cbn in *; lia|done|done|]. by intros o [= <-]. }
  destruct (startswith t "--output-document=").
  { apply IH; [lia|done|done|]. intros o [= <-]. by apply text_split_once. }
  destruct (_ && _); apply IH; try lia; try done. destruct url0; [done|]. by intros u [= <-].
Qed.

Lemma text_curl_args args :
  Forall text_ok args → let st := _parse_curl_args args in
  (∀ u, curl_url st = Some u → text_ok u) ∧ ∀ o, curl_output st = Some o → text_ok o.
Proof.
  unfold _parse_curl_args.
  assert (H : ∀ n args st0, (length args ≤ n)%nat → Forall text_ok args →
    ((∀ u, curl_url st0 = Some u → text_ok u) ∧ ∀ o, curl_output st0 = Some o → text_ok o) →
    let st := curl_loop st0 args in
    (∀ u, curl_url st = Some u → text_ok u) ∧ ∀ o, curl_output st = Some o → text_ok o).
  2:{ intros Ha. by apply (H (length args)). }
  induction n as [|n IH]; intros [|t rest] st0 Hn Ht Hst; cbn in Hn; try lia; try done.
  apply Forall_cons in Ht as [Ht Hr]. cbn. destruct Hst as [Hu Ho].
  destruct (bool_decide _); [apply IH; [lia|done|done]|]. destruct (bool_decide _); [apply IH; [lia|done|done]|].
  destruct (bool_decide _).
  { destruct rest as [|v rest']; [done|]. apply Forall_cons in Hr as [Hv Hr].
    apply IH; [cbn in *; lia|done|]. cbn. split; [done|]. by intros o [= <-]. }
  destruct (startswith t "--output=").
  { apply IH; [lia|done|]. cbn. split; [done|]. intros o [= <-]. by apply text_split_once. }
  destruct (_ && _).
  { apply IH; [lia|done|]. cbn. split; [done|]. intros o [= <-]. by apply text_drop. }
  destruct (_ && _); apply IH; try lia; try done. cbn. split; [|done]. destruct (curl_url st0); [done|]. by intros u [= <-].
Qed.

(** ** What the program writes itself *)

Lemma text_okb s : forallb char_ok s = true → text_ok s.
Proof. rewrite forallb_forall. intros H. apply Forall_forall. intros c Hc%list_elem_of_In. auto. Qed.

(** Closed text, by evaluation. *)
Ltac key_ok := apply text_okb; vm_compute; reflexivity.

Lemma printable_text s : printable s → text_ok s.
Proof.
  intros Hs. eapply Forall_impl; [exact Hs|]. cbn. intros c Hc. unfold char_ok, is_surrogate. lia.
Qed.
Lemma text_py_str n : text_ok (py_str n).
Proof. apply printable_text, py_str_printable. Qed.
Lemma text_dump s : text_ok (dump_str s).
Proof. apply printable_text, dump_str_printable. Qed.

Lemma text_pad_left n c s : char_ok c = true → text_ok s → text_ok (pad_left n c s).
Proof. intros Hc Hs. apply text_app; [by apply text_repeat|done]. Qed.
Lemma text_pad_right n c s : char_ok c = true → text_ok s → text_ok (pad_right n c s).
Proof. intros Hc Hs. apply text_app; [done|by apply text_repeat]. Qed.

(** The syntax errors, as the shell shows them. *)
Definition error_text (e : pyexc) : str := match e with ValueError m => m | _ => [] end.
Lemma text_lex_error line : ∀ st quoted tok e, lex_loop st quoted tok line = Err e → text_ok (error_text e).
Proof.
  induction line as [|c rest IH]; intros st quoted tok e; cbn; intros E.
  - repeat (case_match; simplify_eq); key_ok.
  - repeat (case_match; simplify_eq); try (by eapply IH; exact E).
    destruct (lex_loop LexBlank false [] rest) as [tl|e2] eqn:El; [done|]. simplify_eq/=. by eapply IH.
Qed.
Lemma text_shlex_error line e : shlex_split line = Err e → text_ok (error_text e).
Proof. apply text_lex_error. Qed.
Lemma text_redirection_error tokens e : _parse_redirection tokens = Err e → text_ok (error_text e).
Proof.
  unfold _parse_redirection. assert (H : ∀ n tokens command path append, (length tokens ≤ n)%nat →
    redirection_loop command path append tokens = Err e → text_ok (error_text e)).
  2:{ by apply (H (length tokens)). }
  clear tokens. induction n as [|n IH]; intros [|t rest] command path append Hn; cbn in Hn; try lia; try done.
  cbn. intros E. repeat (case_match; simplify_eq); try (by eapply IH; [|exact E]; cbn in *; lia). key_ok.
Qed.

(** A table of the program, whatever is looked up. *)
Definition table_text {K} (d : list (K * str)) : bool := forallb (λ kv, forallb char_ok kv.2) d.
Lemma text_lookup {K} `{EqDecision K} (d : list (K * str)) k s : table_text d = true → dict_get d k = Some s → text_ok s.
Proof.
  intros Hd Hk. apply dict_get_Some_elem, list_elem_of_In in Hk. unfold table_text in Hd. rewrite forallb_forall in Hd.
  apply text_okb. by apply (Hd (k, s)).
Qed.

Create HintDb text.
#[export] Hint Resolve text_nil text_cons text_app text_take text_drop text_filter text_if text_concat text_reverse
  text_strip text_rstrip text_strip_chars text_split_on text_join text_rsplit_last text_split_once text_split_ws
  text_splitlines text_replace text_canonicalize text_path_parts text_base_name text_py_str text_dump text_pad_left
  text_pad_right text_strip_prefixes text_split_pipeline : text.
#[export] Hint Resolve Forall_nil_2 Forall_cons_2 : text.
#[export] Hint Extern 0 (text_ok (lit _)) => key_ok : text.
#[export] Hint Extern 0 (char_ok _ = true) => reflexivity : text.

Lemma text_two_digits n : text_ok (two_digits n).
Proof. unfold two_digits. eauto with text. Qed.
#[export] Hint Resolve text_two_digits : text.
Lemma text_month m : text_ok (month_abbr m).
Proof. unfold month_abbr. generalize (Z.to_nat (m - 1)) as n. do 12 (destruct n as [|n]; [key_ok|]). by destruct n. Qed.
#[export] Hint Resolve text_month : text.
Lemma text_date_time sep us : text_ok sep → text_ok (date_time sep us).
Proof. intros Hs. unfold date_time. cbv zeta. eauto 30 with text. Qed.
#[export] Hint Resolve text_date_time : text.
Lemma text_iso us : text_ok (iso_utc_now us).
Proof. unfold iso_utc_now. cbv zeta. apply text_app; [eauto with text|]. apply text_app; [apply text_if|]; eauto with text. Qed.
Lemma text_ls_mtime now mtime : text_ok (_ls_mtime now mtime).
Proof. unfold _ls_mtime. cbv zeta. case_match; eauto 20 with text. Qed.
#[export] Hint Resolve text_iso text_ls_mtime : text.
