(* ===== verification/VfsText.v ===== *)
(** * Text through the filesystem

    A tree whose names and contents are text stays one, what is read of it is
    text, and no method raises [UnicodeEncodeError] on it.  [keeps] is the
    triple for such claims, over any state. *)

From S2P Require Import Prelude PyStr OrdDict Path Chmod Json JsonDump DateTime ShellParse TextOps Vfs HoneypotTree.

#[local] Arguments lit : simpl never.

(** ** Triples *)

(** A fallible value: right, or an exception other than [UnicodeEncodeError]. *)
Definition fits {A} (Q : A → Prop) (r : result A) : Prop :=
  match r with Ok a => Q a | Err e => e ≠ UnicodeEncodeError end.

(** From states with [I] the computation returns [Q], in a state with [I]. *)
Definition keeps {S A} (I : S → Prop) (Q : A → Prop) (m : ST S A) : Prop :=
  ∀ s, I s → fits Q (m s).1 ∧ I (m s).2.

Definition anything {A} (a : A) : Prop := True.

Section Triples.
Context {S : Type} (I : S → Prop).

Lemma keeps_ret {A} (Q : A → Prop) a : Q a → keeps I Q (mret a).
Proof. intros Ha s Hs. done. Qed.
Lemma keeps_raise {A} (Q : A → Prop) e : e ≠ UnicodeEncodeError → keeps I Q (raise e).
Proof. intros He s Hs. done. Qed.
Lemma keeps_gets {A} (Q : A → Prop) f : (∀ s, I s → Q (f s)) → keeps I Q (gets f).
Proof. intros Hf s Hs. split; [by apply Hf|done]. Qed.
Lemma keeps_reads {A} (Q : A → Prop) f : (∀ s, I s → fits Q (f s)) → keeps I Q (reads f).
Proof. intros Hf s Hs. split; [by apply Hf|done]. Qed.
Lemma keeps_lift {A} (Q : A → Prop) r : fits Q r → keeps I Q (lift r).
Proof. intros Hr s Hs. done. Qed.
Lemma keeps_modify f : (∀ s, I s → I (f s)) → keeps I anything (modify f).
Proof. intros Hf s Hs. split; [done|by apply Hf]. Qed.
Lemma keeps_bind {A B} (Q : A → Prop) (R : B → Prop) m f :
  keeps I Q m → (∀ a, Q a → keeps I R (f a)) → keeps I R (m ≫= f).
Proof.
  intros Hm Hf s Hs. rewrite st_bind_eq. destruct (Hm s Hs) as [Hr Hs']. destruct (m s) as [[a|e] s1]; [|done].
  by apply Hf.
Qed.
Lemma keeps_weak {A} (Q R : A → Prop) m : keeps I Q m → (∀ a, Q a → R a) → keeps I R m.
Proof. intros Hm HQR s Hs. destruct (Hm s Hs) as [Hr Hs']. split; [|done]. destruct (m s).1; [by apply HQR|done]. Qed.
Lemma keeps_try {A} (Q : A → Prop) m h :
  keeps I Q m → (∀ e, e ≠ UnicodeEncodeError → keeps I Q (h e)) → keeps I Q (try_except m h).
Proof.
  intros Hm Hh s Hs. unfold try_except. destruct (Hm s Hs) as [Hr Hs']. destruct (m s) as [[a|e] s1]; [done|].
  by apply Hh.
Qed.
Lemma keeps_for_each {A} (f : A → ST S unit) (P : A → Prop) l :
  Forall P l → (∀ a, P a → keeps I anything (f a)) → keeps I anything (for_each f l).
Proof.
  intros Hl Hf. induction Hl as [|x l Hx Hl IH]; cbn; [by apply keeps_ret|].
  eapply keeps_bind; [by apply Hf|]. intros _ _. exact IH.
Qed.
End Triples.

Lemma fits_bind {A B} (Q : A → Prop) (R : B → Prop) (r : result A) f :
  fits Q r → (∀ a, Q a → fits R (f a)) → fits R (r ≫= f).
Proof. intros Hr Hf. destruct r; [by apply Hf|done]. Qed.

(** ** Trees of text *)

Definition meta_text (m : meta) : Prop := text_ok (m_name m) ∧ text_ok (m_owner m) ∧ text_ok (m_group m).

Fixpoint inode_text (n : inode) : Prop :=
  match n with
  | INode m => meta_text m
  | VFSFile m content _ _ => meta_text m ∧ text_ok content
  | VFSDirectory m children =>
      meta_text m ∧
      (fix all (l : list (str * inode)) : Prop :=
         match l with [] => True | (k, x) :: l => text_ok k ∧ inode_text x ∧ all l end) children
  end.
Definition child_text (kv : str * inode) : Prop := text_ok kv.1 ∧ inode_text kv.2.

Lemma directory_text m children : inode_text (VFSDirectory m children) ↔ meta_text m ∧ Forall child_text children.
Proof.
  cbn. apply and_iff_compat_l. induction children as [|[k x] l IH]; [by split|]. rewrite Forall_cons, <-IH.
  unfold child_text. cbn. tauto.
Qed.
Arguments inode_text : simpl never.

Lemma node_meta_text n : inode_text n → meta_text (node_meta n).
Proof. destruct n; [done|by intros [? _]|by intros [? _]%directory_text]. Qed.

Lemma child_lookup children k x : Forall child_text children → dict_get children k = Some x → inode_text x.
Proof.
  intros Hc Hk. apply dict_get_Some_elem in Hk. rewrite Forall_forall in Hc. by apply (Hc (k, x)).
Qed.
Lemma dict_set_text children k x :
  Forall child_text children → text_ok k → inode_text x → Forall child_text (dict_set children k x).
Proof. intros Hc Hk Hx. by apply dict_set_Forall. Qed.
Lemma dict_del_text children k : Forall child_text children → Forall child_text (dict_del children k).
Proof. induction 1 as [|[k' y] l Hy Hl IH]; cbn; [constructor|]. case_decide; [done|by constructor]. Qed.
Lemma dict_alter_text (f : inode → inode) children k :
  Forall child_text children → (∀ x, inode_text x → inode_text (f x)) → Forall child_text (dict_alter f children k).
Proof.
  intros Hc Hf. induction Hc as [|[k' y] l [Hk Hy] Hl IH]; cbn; [constructor|].
  case_decide; constructor; try done. split; [done|by apply Hf].
Qed.

Lemma with_meta_text f n : (∀ m, meta_text m → meta_text (f m)) → inode_text n → inode_text (with_meta f n).
Proof.
  intros Hf. destruct n; cbn; [apply Hf|by intros [? ?]; split; [apply Hf|]|].
  rewrite !directory_text. intros [? ?]; split; [by apply Hf|done].
Qed.
Lemma set_mtime_text now n : inode_text n → inode_text (set_mtime now n).
Proof. by apply with_meta_text. Qed.
Lemma set_mode_text mode n : inode_text n → inode_text (set_mode mode n).
Proof. by apply with_meta_text. Qed.
Lemma new_meta_text name mode mtime : text_ok name → meta_text (new_meta name mode mtime).
Proof. intros Hn. split; [done|]. split; key_ok. Qed.
Lemma new_file_text name content now d :
  text_ok name → text_ok content → inode_text (VFSFile (new_meta name 420 now) content None d).
Proof. intros Hn Hc. by split; [apply new_meta_text|]. Qed.
Lemma new_directory_text name mode now : text_ok name → inode_text (VFSDirectory (new_meta name mode now) []).
Proof. intros Hn. apply directory_text. by split; [apply new_meta_text|]. Qed.

Lemma set_child_text name x n : text_ok name → inode_text x → inode_text n → inode_text (set_child name x n).
Proof.
  intros Hn Hx. destruct n; cbn; [done|done|]. rewrite !directory_text. intros [Hm Hc]. split; [done|].
  by apply dict_set_text.
Qed.
Lemma del_child_text name n : inode_text n → inode_text (del_child name n).
Proof.
  destruct n; cbn; [done|done|]. rewrite !directory_text. intros [Hm Hc]. split; [done|]. by apply dict_del_text.
Qed.
Lemma update_at_text ps f : (∀ n, inode_text n → inode_text (f n)) → ∀ n, inode_text n → inode_text (update_at ps f n).
Proof.
  intros Hf. induction ps as [|p ps IH]; cbn; [done|]. intros [| |m ch]; [done|done|].
  rewrite !directory_text. intros [Hm Hc]. split; [done|]. by apply dict_alter_text.
Qed.

Lemma walk_text abs_path parts : ∀ seen node, inode_text node → fits inode_text (walk abs_path seen node parts).
Proof.
  induction parts as [|p parts IH]; intros seen node Hn; [done|]. cbn. destruct node as [| |m ch]; [done|done|].
  apply directory_text in Hn as [_ Hc]. destruct (dict_get ch p) as [x|] eqn:E; [|done]. apply IH. by eapply child_lookup.
Qed.

(** ** The filesystem object *)

Definition vfs_text (v : vfs) : Prop := inode_text (v_root v) ∧ text_ok (v_home v).

Lemma set_root_text r v : inode_text r → vfs_text v → vfs_text (set_root r v).
Proof. by intros Hr [_ Hh]. Qed.
Lemma mutate_text path cwd f :
  (∀ n, inode_text n → inode_text (f n)) → keeps vfs_text anything (mutate path cwd f).
Proof.
  intros Hf. apply keeps_modify. intros v Hv. apply set_root_text; [|done]. apply update_at_text; [done|apply Hv].
Qed.

Lemma resolve_text v path cwd : vfs_text v → fits inode_text (resolve v path cwd).
Proof. intros [Hr _]. unfold resolve. case_decide; [done|by apply walk_text]. Qed.

Lemma text_encodable s : text_ok s → encodable s = true.
Proof.
  intros Hs. apply forallb_forall. intros c Hc%list_elem_of_In. unfold text_ok in Hs. rewrite Forall_forall in Hs.
  specialize (Hs c Hc). cbn in Hs. unfold char_ok in Hs. apply andb_prop in Hs as [_ Hs]. exact Hs.
Qed.
Lemma size_text s : text_ok s → fits anything (encoded_size s).
Proof. intros Hs. unfold encoded_size. by rewrite text_encodable. Qed.
Lemma encode_text s : text_ok s → fits anything (encode_utf8 s).
Proof. intros Hs. unfold encode_utf8. by rewrite text_encodable. Qed.
Lemma node_size_text n : inode_text n → fits anything (node_size n).
Proof.
  destruct n as [m|m content [r|] d|m ch]; cbn; try done; intros [_ Hc]; [destruct content; [done|]|]; by apply size_text.
Qed.

Lemma device_text v p : text_ok (_read_char_device v p).
Proof. unfold _read_char_device. repeat case_decide; try apply text_nil; by apply Forall_replicate. Qed.
Lemma read_file_text v path cwd : vfs_text v → fits text_ok (read_file v path cwd).
Proof.
  intros Hv. eapply fits_bind; [by apply resolve_text|]. intros [m|m content r d|m ch] Hn; [done| |done].
  destruct (m_char_device m); [apply device_text|by destruct Hn].
Qed.
Lemma list_dir_text v path cwd : vfs_text v → fits (Forall text_ok) (list_dir v path cwd).
Proof.
  intros Hv. eapply fits_bind; [by apply resolve_text|]. intros [m|m content r d|m ch] Hn; [done|done|].
  apply directory_text in Hn as [_ Hc]. unfold fits. rewrite merge_sort_Permutation.
  apply Forall_fmap. eapply Forall_impl; [exact Hc|]. by intros [k x] [? _].
Qed.

(** ** Methods *)

Lemma account_text existing content :
  text_ok content → (∀ n, existing = Some n → inode_text n) → keeps vfs_text anything (_account_write existing content).
Proof.
  intros Hc He. eapply keeps_bind; [by apply keeps_lift, size_text|]. intros n _.
  eapply keeps_bind; [by apply (keeps_gets _ anything)|]. intros v _. case_decide; [by apply keeps_raise|].
  eapply keeps_bind.
  { instantiate (1 := anything). destruct existing as [[m|m old r []|m ch]|]; try (by apply keeps_ret).
    apply keeps_lift, size_text. by destruct (He _ eq_refl). }
  intros k _. cbv zeta. case_decide; [by apply keeps_raise|]. apply keeps_modify. by intros s [? ?].
Qed.

Lemma release_text n : inode_text n → keeps anything anything (release_bytes n).
Proof.
  revert n. fix IH 1. intros [m|m content r d|m ch] Hn; cbn [release_bytes].
  - by apply keeps_ret.
  - destruct d; [|by apply keeps_ret]. eapply keeps_bind; [apply keeps_lift, size_text, Hn|]. intros k _. by apply keeps_modify.
  - apply directory_text in Hn as [_ Hc]. induction ch as [|[k x] ch IHch]; cbn; [by apply keeps_ret|].
    apply Forall_cons in Hc as [[_ Hx] Hc]. eapply keeps_bind; [by apply IH|]. intros _ _. by apply IHch.
Qed.
Lemma release_vfs_text n : inode_text n → keeps vfs_text anything (_release_dynamic_bytes n).
Proof.
  intros Hn v Hv. unfold _release_dynamic_bytes. destruct (release_text n Hn (v_used v) I) as [Hr _].
  destruct (release_bytes n (v_used v)) as [r used]. by split.
Qed.

Definition name_text (path cwd : str) : Prop := text_ok path ∧ text_ok cwd.

Lemma abs_text path cwd : name_text path cwd → keeps vfs_text text_ok (gets (λ v, canonicalize path cwd (v_home v))).
Proof. intros [Hp Hc]. apply keeps_gets. intros v [_ Hh]. by apply text_canonicalize. Qed.
Lemma dir_text parent : keeps vfs_text inode_text (reads (λ v, resolve v parent (lit "/"))).
Proof. apply keeps_reads. intros v Hv. by apply resolve_text. Qed.

Lemma touch_text now path cwd : name_text path cwd → keeps vfs_text anything (touch now path cwd).
Proof.
  intros Hn. eapply keeps_bind; [by apply abs_text|]. intros p Hp. case_decide.
  { apply keeps_modify. intros v Hv. apply set_root_text; [|done]. apply set_mtime_text, Hv. }
  cbv zeta. eapply keeps_bind; [apply dir_text|]. intros [m|m c r d|m ch] Hd; try (by apply keeps_raise).
  apply directory_text in Hd as [_ Hc]. pose proof (text_base_name p Hp) as Hb.
  destruct (dict_get ch _) as [x|] eqn:E; apply mutate_text; intros n Hn'; apply set_child_text; try done.
  - apply set_mtime_text. by eapply child_lookup.
  - by apply new_file_text; [|apply text_nil].
Qed.

Lemma write_text now path content cwd append :
  name_text path cwd → text_ok content → keeps vfs_text anything (write_file now path content cwd append).
Proof.
  intros Hn Hc. eapply keeps_bind; [by apply abs_text|]. intros p Hp. case_decide; [by apply keeps_ret|].
  case_decide; [by apply keeps_raise|]. cbv zeta. eapply keeps_bind; [apply dir_text|].
  intros [m|m c r d|m ch] Hd; try (by apply keeps_raise). apply directory_text in Hd as [_ Hch].
  pose proof (text_base_name p Hp) as Hb.
  destruct (dict_get ch _) as [x|] eqn:E.
  - pose proof (child_lookup _ _ _ Hch E) as Hx. destruct x as [m'|m' old r d|m' ch']; try (by apply keeps_raise).
    destruct (m_char_device m'); [by apply keeps_ret|]. destruct Hx as [Hm' Hold].
    assert (Hnew : text_ok (if append then old ++ content else content)) by by destruct append; [apply text_app|].
    eapply keeps_bind; [apply account_text; [done|by intros n [= <-]]|]. intros _ _.
    apply mutate_text. intros n Hn'. apply set_child_text; [done| |done]. by apply set_mtime_text.
  - eapply keeps_bind; [by apply account_text|]. intros _ _. apply mutate_text. intros n Hn'.
    by apply set_child_text; [|apply new_file_text|].
Qed.

Lemma mkdir_parents_text abs_path mode now parts : ∀ seen node,
  Forall text_ok parts → inode_text node →
  let '(r, node') := mkdir_parents abs_path mode now seen node parts in fits anything r ∧ inode_text node'.
Proof.
  induction parts as [|p parts IH]; intros seen node Hp Hn; cbn; [by destruct node|].
  apply Forall_cons in Hp as [Hp Hps]. destruct node as [m|m c r d|m ch]; [done|done|].
  pose proof Hn as [Hm Hc]%directory_text.
  set (child := match dict_get ch p with Some x => x | None => _ end).
  assert (Hch : inode_text child).
  { unfold child. destruct (dict_get ch p) as [x|] eqn:E; [by eapply child_lookup|by apply new_directory_text]. }
  specialize (IH (seen ++ [p]) child Hps Hch). destruct (mkdir_parents _ _ _ _ child parts) as [r x].
  destruct IH as [Hr Hx]. split; [done|]. apply directory_text. split; [done|]. by apply dict_set_text.
Qed.

Lemma mkdir_text now path cwd parents mode : name_text path cwd → keeps vfs_text anything (mkdir now path cwd parents mode).
Proof.
  intros Hn. eapply keeps_bind; [by apply abs_text|]. intros p Hp. case_decide.
  { destruct parents; [by apply keeps_ret|by apply keeps_raise]. }
  destruct parents.
  - intros v Hv. pose proof (mkdir_parents_text p mode now (path_parts p) [] (v_root v) (text_path_parts p Hp) (proj1 Hv)) as Hmk.
    destruct (mkdir_parents _ _ _ _ _ _) as [r root]. destruct Hmk as [Hr Hroot]. cbn. split; [by destruct r|by apply set_root_text].
  - cbv zeta. eapply keeps_bind; [apply (keeps_try _ inode_text); [apply dir_text|]|].
    { intros e He. destruct e; by apply keeps_raise. }
    intros [m|m c r d|m ch] Hd; try (by apply keeps_raise). destruct (dict_has _ _); [by apply keeps_raise|].
    eapply keeps_bind; [apply mutate_text|intros _ _; by apply keeps_ret].
    intros n Hn'. apply set_child_text; [by apply text_base_name|by apply new_directory_text, text_base_name|done].
Qed.

Lemma remove_text path cwd recursive force : name_text path cwd → keeps vfs_text anything (remove path cwd recursive force).
Proof.
  intros Hn. eapply keeps_bind; [by apply abs_text|]. intros p Hp. case_decide; [by apply keeps_raise|]. cbv zeta.
  eapply keeps_bind; [apply (keeps_try _ (λ o, ∀ n, o = Some n → inode_text n))|].
  { eapply keeps_bind; [apply dir_text|]. intros d Hd. apply keeps_ret. by intros n [= <-]. }
  { intros e He. destruct e; try (by apply keeps_raise). destruct force; [by apply keeps_ret|by apply keeps_raise]. }
  intros [d|] Hd; [|by apply keeps_ret]. specialize (Hd d eq_refl). destruct d as [m|m c r d|m ch]; try (by apply keeps_raise).
  apply directory_text in Hd as [_ Hch]. destruct (dict_get ch _) as [x|] eqn:E.
  - destruct (_ && _); [by apply keeps_raise|]. eapply keeps_bind; [apply release_vfs_text; by eapply child_lookup|].
    intros _ _. eapply keeps_bind; [apply mutate_text, del_child_text|]. intros _ _. by apply keeps_ret.
  - destruct force; [by apply keeps_ret|by apply keeps_raise].
Qed.

Lemma rmdir_text path cwd : name_text path cwd → keeps vfs_text anything (rmdir path cwd).
Proof.
  intros Hn. eapply keeps_bind; [by apply abs_text|]. intros p Hp. case_decide; [by apply keeps_raise|]. cbv zeta.
  eapply keeps_bind; [apply dir_text|]. intros [m|m c r d|m ch] Hd; try (by apply keeps_raise).
  apply directory_text in Hd as [_ Hch]. destruct (dict_get ch _) as [x|] eqn:E; [|by apply keeps_raise].
  pose proof (child_lookup _ _ _ Hch E) as Hx. destruct x as [m'|m' c r d|m' ch']; try (by apply keeps_raise).
  destruct ch'; [|by apply keeps_raise]. eapply keeps_bind; [by apply release_vfs_text|]. intros _ _.
  apply mutate_text, del_child_text.
Qed.

Lemma clauses_fits clauses : ∀ current, fits anything (apply_clauses current clauses).
Proof.
  induction clauses as [|c l IH]; intros current; [done|]. cbn. unfold _apply_symbolic_clause.
  destruct c as [|x c]; [done|]. destruct (who_span _) as [who rest]. destruct rest as [|op perms]; [done|].
  destruct (negb _); [done|]. destruct (negb _); [done|]. cbv zeta. repeat case_decide; cbn; apply IH.
Qed.
Lemma chmod_text path mode cwd : keeps vfs_text anything (Vfs.chmod path mode cwd).
Proof.
  eapply keeps_bind; [apply (keeps_reads _ inode_text)|].
  { intros v Hv. by apply resolve_text. }
  intros n Hn. eapply keeps_bind; [apply (keeps_lift _ anything)|].
  { unfold apply_chmod_mode. cbv zeta. case_decide; [done|]. destruct (forallb _ _); [by case_decide|apply clauses_fits]. }
  intros m _. apply mutate_text, set_mode_text.
Qed.

(** ** The default tree *)

Definition meta_textb (m : meta) : bool :=
  forallb char_ok (m_name m) && forallb char_ok (m_owner m) && forallb char_ok (m_group m).
Fixpoint inode_textb (n : inode) : bool :=
  match n with
  | INode m => meta_textb m
  | VFSFile m content _ _ => meta_textb m && forallb char_ok content
  | VFSDirectory m children =>
      meta_textb m && forallb (λ kv, forallb char_ok kv.1 && inode_textb kv.2) children
  end.

Lemma meta_textb_ok m : meta_textb m = true → meta_text m.
Proof. intros [[H1 H2]%andb_prop H3]%andb_prop. by split; [|split]; apply text_okb. Qed.
Lemma inode_textb_ok n : inode_textb n = true → inode_text n.
Proof.
  revert n. fix IH 1. intros [m|m content r d|m ch]; cbn [inode_textb].
  - apply meta_textb_ok.
  - intros [Hm Hc]%andb_prop. by split; [apply meta_textb_ok|apply text_okb].
  - intros [Hm Hc]%andb_prop. apply directory_text. split; [by apply meta_textb_ok|].
    induction ch as [|[k x] ch IHch]; [constructor|]. cbn in Hc. apply andb_prop in Hc as [[Hk Hx]%andb_prop Hc].
    constructor; [|by apply IHch]. split; [by apply text_okb|by apply IH].
Qed.

Lemma tree_text : vfs_text create_default_vfs.
Proof. split; [apply inode_textb_ok; vm_compute; reflexivity|key_ok]. Qed.
