(* ===== verification/Telemetry.v ===== *)
(** * The log files ([telemetry.py])

    What a record looks like on disk: one line of JSON, appended.  The duration
    is the text that [float.__repr__] gives for it.  [read_jsonl] is how such a
    file is read: the lines are the records. *)

From S2P Require Import Prelude PyStr OrdDict Json JsonDump DateTime TextOps Sinkhole.

#[local] Arguments lit : simpl never.

(** The names of [EXECUTION_PATHS]. *)
Definition path_name (p : execution_path) : str :=
  match p with
  | PVfs => "vfs" | PStatic => "static" | PSinkhole => "sinkhole"
  | PLlm => "llm" | PCache => "cache" | PExecTrap => "exec_trap"
  end.

(** The fields of a record, in the order of the dictionary. *)
Definition extra_fields (e : exec_extra) : list (str * json) :=
  [(lit "target_path", JStr (ex_target_path e));
   (lit "file_metadata",
    JObj [(lit "name", JStr (ex_name e)); (lit "mode", JInt (ex_mode e)); (lit "size", JInt (ex_size e));
          (lit "owner", JStr (ex_owner e)); (lit "group", JStr (ex_group e))])].

Definition command_fields (r : command_record) (duration : str) : json :=
  JObj
    ([(lit "timestamp", JStr (cr_timestamp r)); (lit "session_id", JStr (cr_session_id r));
      (lit "client_ip", JStr (cr_client_ip r)); (lit "command", JStr (cr_command r));
      (lit "execution_path", JStr (path_name (cr_execution_path r)));
      (lit "duration_ms", JFloat duration);
      (lit "captured_artifacts", JList (map JStr (cr_captured_artifacts r)))] ++
     match cr_extra r with Some e => extra_fields e | None => [] end).

Record auth_record := AuthRecord {
  au_time : str; au_session : str; au_ip : str; au_username : str; au_password : str;
  au_success : bool; au_count : Z; au_limit_exceeded : bool
}.
(** [record_auth_attempt]. *)
Definition auth_fields (r : auth_record) : json :=
  JObj [(lit "timestamp", JStr (au_time r)); (lit "session_id", JStr (au_session r));
        (lit "client_ip", JStr (au_ip r)); (lit "username", JStr (au_username r));
        (lit "password", JStr (au_password r)); (lit "success", JBool (au_success r));
        (lit "attempt_count", JInt (au_count r)); (lit "limit_exceeded", JBool (au_limit_exceeded r))].

(** [_append_jsonl], on the bytes of the file; [disk_ok] tells whether the file
    can be opened and written. *)
Definition _append_jsonl (disk_ok : bool) (record : json) (file : str) : result str :=
  payload ← encode_utf8 (json_dumps record ++ [10]);
  if disk_ok then Ok (file ++ payload) else Err (OSError "write").

(** The end of [record_command] and [record_auth_attempt]: an [OSError] is
    swallowed. *)
Definition append_record (disk_ok : bool) (record : json) (file : str) : result str :=
  match _append_jsonl disk_ok record file with
  | Ok file' => Ok file'
  | Err e => if is_OSError e then Ok file else Err e
  end.

(** ** Reading a log *)

Fixpoint read_lines (lines : list str) : option (list json) :=
  match lines with
  | [] => None
  | [last] => if bool_decide (last = []) then Some [] else None
  | line :: rest => j ← json_loads line; js ← read_lines rest; Some (j :: js)
  end.
Definition read_jsonl (file : str) : option (list json) := read_lines (split_on 10 file).

(** The file after a history of appends. *)
Fixpoint append_all (records : list (bool * json)) (file : str) : result str :=
  match records with
  | [] => Ok file
  | (ok, r) :: rest => file' ← append_record ok r file; append_all rest file'
  end.
(** The records of the history that reached the disk. *)
Definition written (records : list (bool * json)) : list json := map snd (List.filter fst records).

(** ** Lines *)

Lemma encode_ascii s : Forall (λ c, 0 ≤ c < 128) s → encode_utf8 s = Ok s.
Proof.
  intros Hs. unfold encode_utf8. assert (He : encodable s = true).
  { unfold encodable. apply forallb_forall. intros c Hc%list_elem_of_In. rewrite Forall_forall in Hs.
    specialize (Hs c Hc). cbn in Hs. unfold is_surrogate. lia. }
  rewrite He. f_equal. clear He. induction Hs as [|c s Hc Hs IH]; [done|]. cbn. rewrite IH.
  unfold utf8_char. destruct (Z.ltb_spec c 128); [done|lia].
Qed.

Lemma append_line ok j file :
  json_ok j → append_record ok j file = Ok (if ok then file ++ json_dumps j ++ [10] else file).
Proof.
  intros Hj. unfold append_record, _append_jsonl. rewrite encode_ascii.
  - by destruct ok.
  - apply Forall_app. split; [|repeat constructor; lia].
    eapply Forall_impl; [by apply dumps_printable|]. cbn. lia.
Qed.

Lemma append_all_lines records : ∀ file,
  Forall (λ r, json_ok r.2) records →
  append_all records file = Ok (file ++ concat (map (λ j, json_dumps j ++ [10]) (written records))).
Proof.
  induction records as [|[ok j] records IH]; intros file Hr; cbn; [by rewrite app_nil_r|].
  apply Forall_cons in Hr as [Hj Hr]. rewrite append_line by done. cbn [mbind result_bind].
  rewrite IH by done. unfold written. cbn. destruct ok; cbn; [|done]. by rewrite <-!app_assoc.
Qed.

Lemma line_has_no_newline j : json_ok j → 10 ∉ json_dumps j.
Proof.
  intros Hj Hin. pose proof (dumps_printable j Hj) as Hp. unfold printable in Hp.
  rewrite Forall_forall in Hp. specialize (Hp 10 Hin). cbn in Hp. lia.
Qed.

Lemma read_lines_back js :
  Forall json_ok js → read_jsonl (concat (map (λ j, json_dumps j ++ [10]) js)) = Some js.
Proof.
  unfold read_jsonl. induction 1 as [|j js Hj Hjs IH]; [done|]. cbn [map concat]. rewrite <-app_assoc.
  cbn [app]. rewrite split_on_app by by apply line_has_no_newline.
  cbn [read_lines]. destruct (split_on 10 _) as [|w ws] eqn:E; [by apply split_on_nonempty in E|].
  rewrite dumps_loads by done. cbn [mbind option_bind]. by rewrite IH.
Qed.

Lemma all_read_back js :
  Forall json_ok js → ∃ file, append_all (map (pair true) js) [] = Ok file ∧ read_jsonl file = Some js.
Proof.
  intros Hjs. assert (Hw : written (map (pair true) js) = js).
  { unfold written. clear. induction js as [|j js IH]; cbn; congruence. }
  eexists. split; [by apply append_all_lines, Forall_fmap|]. rewrite Hw. by apply read_lines_back.
Qed.

(** ** Records *)

(** The texts of a record can be encoded, and its duration is a float's text. *)
Definition extra_ok (e : exec_extra) : Prop :=
  text_ok (ex_target_path e) ∧ text_ok (ex_name e) ∧ text_ok (ex_owner e) ∧ text_ok (ex_group e).
Definition command_ok (rd : command_record * str) : Prop :=
  let (r, duration) := rd in
  text_ok (cr_timestamp r) ∧ text_ok (cr_session_id r) ∧ text_ok (cr_client_ip r) ∧ text_ok (cr_command r) ∧
  Forall text_ok (cr_captured_artifacts r) ∧ (∀ e, cr_extra r = Some e → extra_ok e) ∧ float_ok duration.
Definition auth_ok (r : auth_record) : Prop :=
  text_ok (au_time r) ∧ text_ok (au_session r) ∧ text_ok (au_ip r) ∧ text_ok (au_username r) ∧
  text_ok (au_password r).

Ltac members_ok :=
  repeat (apply Forall_cons_2; [split; [cbn [fst]; key_ok|cbn [snd]]|]); try apply Forall_nil_2.

Lemma path_name_ok p : text_ok (path_name p).
Proof. destruct p; key_ok. Qed.

Lemma extra_json_ok e : extra_ok e → Forall (λ kv, text_ok kv.1 ∧ json_ok kv.2) (extra_fields e).
Proof.
  intros (H1 & H2 & H3 & H4). unfold extra_fields. members_ok; [by constructor|].
  apply ok_obj; [members_ok; by constructor|cbn; vm_decide].
Qed.

Lemma command_json_ok r duration : command_ok (r, duration) → json_ok (command_fields r duration).
Proof.
  intros (H1 & H2 & H3 & H4 & Ha & He & Hf). unfold command_fields. apply ok_obj.
  - apply Forall_app. split.
    + members_ok; try (by constructor).
      * constructor. apply path_name_ok.
      * apply ok_list, Forall_fmap. eapply Forall_impl; [exact Ha|]. intros s Hs. by constructor.
    + destruct (cr_extra r) as [e|]; [|constructor]. by apply extra_json_ok, He.
  - destruct (cr_extra r); cbn; vm_decide.
Qed.

Lemma auth_json_ok r : auth_ok r → json_ok (auth_fields r).
Proof.
  intros (H1 & H2 & H3 & H4 & H5). unfold auth_fields. apply ok_obj; [members_ok; by constructor|cbn; vm_decide].
Qed.

Lemma path_name_inj p q : path_name p = path_name q → p = q.
Proof. destruct p, q; try done; intros H; vm_compute in H; discriminate. Qed.

Lemma map_str_inj l l' : map JStr l = map JStr l' → l = l'.
Proof. revert l'. induction l as [|x l IH]; intros [|y l'] [=]; [done|]. f_equal; auto. Qed.

(** The fields determine the record. *)
Lemma command_fields_inj r d r' d' : command_fields r d = command_fields r' d' → r = r' ∧ d = d'.
Proof.
  destruct r as [t sid ip cmd p arts ex], r' as [t' sid' ip' cmd' p' arts' ex'].
  unfold command_fields. cbn [cr_timestamp cr_session_id cr_client_ip cr_command cr_execution_path
    cr_captured_artifacts cr_extra app]. intros H. injection H as -> -> -> -> Hp -> Ha He.
  apply path_name_inj in Hp as ->. apply map_str_inj in Ha as ->. split; [|done]. f_equal.
  destruct ex as [[]|], ex' as [[]|]; try done. injection He. intros. congruence.
Qed.

(** A history of appends, and the file it leaves. *)
Lemma history_reads_back (history : list (bool * (command_record * str))) :
  Forall (λ h, command_ok h.2) history →
  let fields := λ rd : command_record * str, command_fields rd.1 rd.2 in
  let js := map fields (map snd (List.filter fst history)) in
  let file := concat (map (λ j, json_dumps j ++ [10]) js) in
  append_all (map (λ h, (h.1, fields h.2)) history) [] = Ok file ∧ read_jsonl file = Some js.
Proof.
  intros H fields js file. subst file. assert (Hjs : js = written (map (λ h, (h.1, fields h.2)) history)).
  { unfold js, written. clear. induction history as [|[[] rd] h IH]; cbn; congruence. }
  assert (Hok : Forall (λ r : bool * json, json_ok r.2) (map (λ h, (h.1, fields h.2)) history)).
  { apply Forall_fmap. eapply Forall_impl; [exact H|]. intros [b [r d]]. apply command_json_ok. }
  split; [rewrite append_all_lines by done; by rewrite Hjs|]. apply read_lines_back.
  rewrite Hjs. apply Forall_fmap. eapply incl_Forall; [|exact Hok]. apply incl_filter.
Qed.

(** C11: The log cannot be forged, whatever text the client typed: a session's log
    is read back, line by line, as exactly the records that were appended while
    the disk could be written, in their order; appending never raises; and two
    histories that leave the same file are the same, so no command, address or
    captured name can pass for a record or hide one. *)
Theorem log_is_faithful (history : list (bool * (command_record * str))) :
  Forall (λ h, command_ok h.2) history →
  let fields := λ rd : command_record * str, command_fields rd.1 rd.2 in
  let logged := map snd (List.filter fst history) in
  ∃ file, append_all (map (λ h, (h.1, fields h.2)) history) [] = Ok file ∧
    read_jsonl file = Some (map fields logged) ∧
    ∀ other, Forall (λ h, command_ok h.2) other →
      append_all (map (λ h, (h.1, fields h.2)) other) [] = Ok file →
      map snd (List.filter fst other) = logged.
Proof.
  intros Hh fields logged.
  destruct (history_reads_back history Hh) as [Happ Hread]. eexists. split; [exact Happ|]. split; [exact Hread|].
  intros other Ho E. destruct (history_reads_back other Ho) as [Happ' Hread']. pose proof (eq_trans (eq_sym E) Happ') as Hfile.
  injection Hfile as Hfile. rewrite <-Hfile, Hread in Hread'. injection Hread' as Hjs.
  fold logged in Hjs. assert (Hinj : Inj (=) (=) fields).
  { intros [r d] [r' d'] H. by destruct (command_fields_inj r d r' d' H) as [-> ->]. }
  by apply (inj (fmap fields)) in Hjs.
Qed.

Lemma float_sample : float_ok (lit "1.25").
Proof.
  split; [eexists _, _; split; [reflexivity|done]|]. split; [by repeat constructor|].
  intros rest Hr. change (lit "1.25") with [49; 46; 50; 53]. unfold read_number. cbn [app].
  change (49 =? 45) with false. cbn match.
  change (49 =? 48) with false. cbn match.
  change (span is_digit (49 :: 46 :: 50 :: 53 :: rest)) with ([49], 46 :: 50 :: 53 :: rest).
  cbn match.   rewrite bool_decide_eq_false_2 by done.
  assert (Ef : read_fraction (46 :: 50 :: 53 :: rest) = ([46; 50; 53], rest)).
  { pose proof (span_digits [50; 53] rest ltac:(by repeat constructor) Hr) as E. cbn [app] in E.
    unfold read_fraction. change (46 =? 46) with true. cbn match. by rewrite E. }
  rewrite Ef. destruct (no_fraction rest Hr) as [_ ->]. done.
Qed.

Lemma log_is_faithful_witness :
  let forged := lit "x" ++ [10] ++ lit "{" ++ dq ++ lit "command" ++ dq ++ lit ": 1}" ++ [10; 8364] in
  let r := CommandRecord "2026-04-10T09:15:00Z" "ab" "198.51.100.7" forged PVfs [lit "d1"]
             (Some (ExecExtra "/tmp/x" "x" 493 12 "root" "root")) in
  let h := [(true, (r, lit "1.25")); (false, (r, lit "1.25"))] in
  ∃ file, append_all (map (λ h, (h.1, command_fields h.2.1 h.2.2)) h) [] = Ok file ∧
    read_jsonl file = Some [command_fields r (lit "1.25")].
Proof.
  intros forged r h.
  assert (Hr : command_ok (r, lit "1.25")).
  { unfold command_ok. repeat (split; [key_ok|]). split; [by apply Forall_cons_2; [key_ok|]|].
    split; [|apply float_sample]. intros e [= <-]. repeat split; key_ok. }
  destruct (log_is_faithful h) as (file & Ha & Hread & _); [by apply Forall_cons_2; [|apply Forall_cons_2]|].
  exists file. split; [exact Ha|exact Hread].
Defined.
