(* ===== verification/AuthLog.v ===== *)
(** * The log of the logins ([auth.py], [telemetry.py])

    [AuthManager] reports each attempt to the telemetry, which appends it to the
    log of all attempts; a failure to write it is swallowed on the way. *)

From S2P Require Import Prelude PyStr OrdDict Path Vfs HoneypotTree Lru SessionManager Auth.
From S2P Require Import Json JsonDump DateTime TextOps Sinkhole Telemetry.

#[local] Arguments lit : simpl never.

(** [_record_attempt], on the contents of the log. *)
Definition _record_attempt (disk_ok : bool) (r : auth_record) (file : str) : str :=
  match append_record disk_ok (auth_fields r) file with Ok file' => file' | Err _ => file end.

(** What the world makes of the events of a login. *)
Definition log_event (disk_ok : bool) (time : str) (file : str) (e : auth_event) : str :=
  match e with
  | RecordAttempt session_id client_ip username password success attempt_count limit_exceeded =>
      _record_attempt disk_ok
        (AuthRecord time session_id client_ip username password success attempt_count limit_exceeded) file
  | TarpitSleep _ => file
  end.
Definition log_events (disk_ok : bool) (time : str) (events : list auth_event) (file : str) : str :=
  fold_left (log_event disk_ok time) events file.

(** A log that holds [js]. *)
Definition log_file (js : list json) : str := concat (map (λ j, json_dumps j ++ [10]) js).

Lemma log_event_line ok time sid ip u p success n limit js :
  auth_ok (AuthRecord time sid ip u p success n limit) →
  log_event ok time (log_file js) (RecordAttempt sid ip u p success n limit) =
  log_file (js ++ if ok then [auth_fields (AuthRecord time sid ip u p success n limit)] else []).
Proof.
  intros Hok. cbn [log_event]. unfold _record_attempt. rewrite append_line by by apply auth_json_ok.
  unfold log_file. destruct ok; rewrite map_app, concat_app; cbn; by rewrite !app_nil_r.
Qed.

(** C29: Every login leaves exactly one line in the log of the attempts, whatever
    bytes the client sends as name and password: read back, the log holds what
    it held before and one record more, with the time, the session, the address,
    the name and the password as sent, marked as a success exactly when the
    login was accepted and as exceeding the limit exactly when the exception
    that closes the connection was raised; if the disk cannot be written, the
    log is as before. *)
Theorem login_is_logged ip sid user pw rnd now1 now2 m r events m' ok time js :
  text_ok time → text_ok sid → text_ok ip → text_ok user → text_ok pw → Forall json_ok js →
  validate_login ip sid user pw rnd now1 now2 m = (r, events, m') →
  ∃ n, read_jsonl (log_events ok time events (log_file js)) =
    Some (js ++ if ok then [auth_fields (AuthRecord time sid ip user pw (bool_decide (r = Ok true)) n
                  (bool_decide (r = Err (AuthAttemptLimitExceeded sid))))] else []).
Proof.
  intros Ht Hs Hi Hu Hp Hjs. unfold validate_login.
  destruct (pin_section _ _ _ _ _ _) as [success m1].
  destruct (decide_login _ _ _ _) as [[[n limit] accepted] m2] eqn:Ed. intros Hv. exists n.
  assert (Hread : ∀ a b, read_jsonl (log_file (js ++ if ok then [auth_fields (AuthRecord time sid ip user pw a n b)] else [])) =
    Some (js ++ if ok then [auth_fields (AuthRecord time sid ip user pw a n b)] else [])).
  { intros a b. apply read_lines_back, Forall_app. split; [done|]. destruct ok; [|constructor].
    apply Forall_singleton. by apply auth_json_ok. }
  assert (Hlog : ∀ a b, log_events ok time (RecordAttempt sid ip user pw a n b :: if a then [] else [TarpitSleep (am_tarpit m2)])
    (log_file js) = log_file (js ++ if ok then [auth_fields (AuthRecord time sid ip user pw a n b)] else [])).
  { intros a b. unfold log_events. cbn [fold_left]. rewrite log_event_line by done. by destruct a. }
  destruct accepted; [|destruct limit]; injection Hv as <- <- _.
  - rewrite bool_decide_eq_true_2, bool_decide_eq_false_2 by done. by rewrite (Hlog true false).
  - rewrite bool_decide_eq_false_2, bool_decide_eq_true_2 by done. by rewrite (Hlog false true).
  - rewrite !bool_decide_eq_false_2 by done. by rewrite (Hlog false false).
Qed.

Lemma login_is_logged_witness :
  let out := validate_login attacker "s1" "root" "guess" 0 4 4 (am_run three_failures sample_auth) in
  ∃ n, read_jsonl (log_events true "2026-04-10T09:15:00Z" out.1.2 []) =
    Some [auth_fields (AuthRecord "2026-04-10T09:15:00Z" "s1" attacker "root" "guess" false n true)].
Proof.
  intros out.
  destruct (login_is_logged attacker "s1" "root" "guess" 0 4 4 (am_run three_failures sample_auth) out.1.1 out.1.2 out.2
    true "2026-04-10T09:15:00Z" []) as (n & Hn).
  - apply text_okb. vm_compute. reflexivity.
  - apply text_okb. vm_compute. reflexivity.
  - apply text_okb. vm_compute. reflexivity.
  - apply text_okb. vm_compute. reflexivity.
  - apply text_okb. vm_compute. reflexivity.
  - constructor.
  - unfold out. by destruct (validate_login _ _ _ _ _ _ _ _) as [[? ?] ?].
  - exists n. exact Hn.
Defined.
