(* ===== verification/Shell.v ===== *)
(** * The shell ([shell.py])

    [Shell] executes a command line against the filesystem of the client's
    session.  A method is a computation on the [shell] record that may raise;
    [execute] calls itself through [sh -c] and scripts, so the mutually
    recursive methods take the recursive call as an argument and [execute]
    ties the knot with fuel, the interpreter's stack: out of fuel is
    [RecursionError].

    The session object (filesystem, cache, directory) is shared with the other
    connections of the same client, which run whenever this one awaits:
    [await] applies [w_others], what they did meanwhile. *)

From S2P Require Import Prelude PyStr OrdDict Path Chmod Vfs HoneypotTree SessionManager.
From S2P Require Import Regex Llm ShellParse ShellStatic DateTime Sinkhole.

(** What the shell uses of the world outside the sources. *)
Record url_parts := UrlParts {
  url_scheme : str;
  url_hostname : str;             (* [""] for [None] *)
  url_path : str                  (* [unquote(urlparse(url).path)] *)
}.

Class World := {
  w_unicode :: Unicode;
  w_clock : nat → Z;                                    (* [datetime.now], in microseconds *)
  w_others : nat → ip_session → ip_session;             (* the other connections, at an await *)
  w_disk_ok : nat → bool;                               (* a write to the disk succeeds *)
  w_sha256 : str → str;                                 (* hexadecimal digests *)
  w_md5 : str → str;
  w_sha256_bytes : str → list Z;
  w_urlparse : str → result url_parts;                  (* may raise [ValueError] *)
  w_url_port : str → result (option Z);                 (* [urlparse(url).port] *)
  w_regex : str → bool → result (option (str → bool));  (* [re.compile(p, flags).search], [None] for
                                                           [re.error]; it raises others as well *)
  w_provider : option (nat → groq_request → groq_outcome)   (* [None]: the null provider *)
}.

(** ** State and results *)

Record command_result := CommandResult {
  r_output : str;
  r_exit_session : bool;
  r_exit_code : Z;
  r_path : execution_path
}.
Definition ok_result : command_result := CommandResult [] false 0 PVfs.
Definition out_result (output : str) (code : Z) : command_result := CommandResult output false code PVfs.
Definition result_ok (r : command_result) : bool := r_exit_code r =? 0.

Record shell := Shell {
  sh_session : ip_session;              (* _vfs, _llm_cache, _ip_session *)
  sh_cwd : str;                         (* _state *)
  sh_oldpwd : option str;
  sh_home : str;
  sh_last_exit : Z;
  sh_session_id : str;
  sh_client_ip : str;
  sh_artifacts : list str;              (* _captured_artifacts *)
  sh_extra : option exec_extra;         (* _command_extra *)
  sh_depth : nat;                       (* _script_depth *)
  sh_log : list command_record;         (* the session's log file *)
  sh_quarantine : list (str * str);     (* the quarantine directory *)
  sh_queries : list (list str);         (* argument vectors sent to the provider *)
  sh_ticks : nat                        (* readings of the clock and awaits so far *)
}.

(** [Shell(record.vfs, ..., cwd=record.cwd, ip_session=record)]. *)
Definition shell_init (record : ip_session) (session_id client_ip : str)
    (quarantine : list (str * str)) : shell :=
  Shell record (s_cwd record) None (v_home (s_vfs record)) 0 session_id client_ip
    [] None 0 [] quarantine [] 0.

Definition set_session (x : ip_session) (s : shell) : shell :=
  Shell x (sh_cwd s) (sh_oldpwd s) (sh_home s) (sh_last_exit s) (sh_session_id s) (sh_client_ip s)
    (sh_artifacts s) (sh_extra s) (sh_depth s) (sh_log s) (sh_quarantine s) (sh_queries s) (sh_ticks s).
Definition set_state (cwd : str) (oldpwd : option str) (last_exit : Z) (s : shell) : shell :=
  Shell (sh_session s) cwd oldpwd (sh_home s) last_exit (sh_session_id s) (sh_client_ip s)
    (sh_artifacts s) (sh_extra s) (sh_depth s) (sh_log s) (sh_quarantine s) (sh_queries s) (sh_ticks s).
Definition set_captured (artifacts : list str) (extra : option exec_extra) (s : shell) : shell :=
  Shell (sh_session s) (sh_cwd s) (sh_oldpwd s) (sh_home s) (sh_last_exit s) (sh_session_id s)
    (sh_client_ip s) artifacts extra (sh_depth s) (sh_log s) (sh_quarantine s) (sh_queries s) (sh_ticks s).
Definition set_depth (depth : nat) (s : shell) : shell :=
  Shell (sh_session s) (sh_cwd s) (sh_oldpwd s) (sh_home s) (sh_last_exit s) (sh_session_id s)
    (sh_client_ip s) (sh_artifacts s) (sh_extra s) depth (sh_log s) (sh_quarantine s) (sh_queries s)
    (sh_ticks s).
Definition set_outside (log : list command_record) (quarantine : list (str * str))
    (queries : list (list str)) (ticks : nat) (s : shell) : shell :=
  Shell (sh_session s) (sh_cwd s) (sh_oldpwd s) (sh_home s) (sh_last_exit s) (sh_session_id s)
    (sh_client_ip s) (sh_artifacts s) (sh_extra s) (sh_depth s) log quarantine queries ticks.

Definition sh_vfs (s : shell) : vfs := s_vfs (sh_session s).
Definition sh_cache (s : shell) : list (str * str) := s_llm_cache (sh_session s).

Definition with_vfs (v : vfs) (x : ip_session) : ip_session :=
  IpSession v (s_llm_cache x) (s_last_seen x) (s_cwd x).
Definition with_cache (c : list (str * str)) (x : ip_session) : ip_session :=
  IpSession (s_vfs x) c (s_last_seen x) (s_cwd x).
Definition with_cwd (cwd : str) (x : ip_session) : ip_session :=
  IpSession (s_vfs x) (s_llm_cache x) (s_last_seen x) cwd.

(** A method of the filesystem object, and a read-only one, called on [self._vfs]
    with [self._state.cwd]. *)
Definition vfs_call {A} (m : str → ST vfs A) : ST shell A := λ s,
  let (r, v) := m (sh_cwd s) (sh_vfs s) in
  (r, set_session (with_vfs v (sh_session s)) s).
Definition vfs_read {A} (f : vfs → str → result A) : ST shell A :=
  reads (λ s, f (sh_vfs s) (sh_cwd s)).

(** [try: m except ...: return h(e)], for the exceptions [h] answers. *)
Definition try_else {A B} (m : ST shell A) (ok : A → ST shell B) (h : pyexc → option B) : ST shell B :=
  λ s, match m s with
       | (Ok a, s') => ok a s'
       | (Err e, s') => match h e with Some b => (Ok b, s') | None => (Err e, s') end
       end.
(** What a computation returned or raised. *)
Definition attempt {A} (m : ST shell A) : ST shell (result A) := λ s, let (r, s') := m s in (Ok r, s').
(** [try: m finally: f]. *)
Definition try_finally {A} (m : ST shell A) (f : ST shell unit) : ST shell A := λ s,
  let (r, s1) := m s in
  match f s1 with
  | (Ok _, s2) => (r, s2)
  | (Err e, s2) => (Err e, s2)
  end.

(** ** Text *)

Definition nl : str := [10].
Definition _ensure_trailing_newline (text : str) : str :=
  if bool_decide (text ≠ []) && negb (endswith text nl) then text ++ nl else text.

Fixpoint join_outputs_from (merged : str) (chunks : list str) : str :=
  match chunks with
  | [] => merged
  | chunk :: rest =>
      if bool_decide (chunk = []) then join_outputs_from merged rest
      else
        let merged := if bool_decide (merged ≠ []) && negb (endswith merged nl)
                      then merged ++ nl else merged in
        join_outputs_from (merged ++ chunk) rest
  end.
Definition _join_outputs (chunks : list str) : str := join_outputs_from [] chunks.

Definition _fail (output : str) (exit_code : Z) : command_result :=
  CommandResult (_ensure_trailing_newline output) false exit_code PVfs.

Definition _not_found_result (command_name : str) : command_result :=
  CommandResult (_ensure_trailing_newline (format_command_not_found command_name)) false 127 PVfs.

Definition prompt (s : shell) : str :=
  let shown := if bool_decide (sh_cwd s = sh_home s) then lit "~" else sh_cwd s in
  lit "root@" ++ HOSTNAME ++ lit ":" ++ shown ++ lit "# ".

(** An option argument: [arg.startswith("-") and arg != "-"]. *)
Definition is_option (arg : str) : bool := startswith arg "-" && bool_decide (arg ≠ lit "-").
(** [letter in arg[1:]]. *)
Definition has_flag (arg : str) (letter : Z) : bool := contains (drop 1 arg) letter.

(** The base name of an operand: [p.rstrip("/").rsplit("/", 1)[-1] or default]. *)
Definition operand_name (p default : str) : str :=
  let name := rsplit_last 47 (rstrip p "/") in
  if bool_decide (name = []) then default else name.

Section Shell.
Context `{World}.

(** ** Time and awaits *)

Definition read_clock : ST shell Z := λ s,
  (Ok (w_clock (sh_ticks s)),
   set_outside (sh_log s) (sh_quarantine s) (sh_queries s) (S (sh_ticks s)) s).
Definition await : ST shell unit := λ s,
  (Ok tt, set_session (w_others (sh_ticks s) (sh_session s))
            (set_outside (sh_log s) (sh_quarantine s) (sh_queries s) (S (sh_ticks s)) s)).

(** [_quarantine]: an [OSError] of the disk is swallowed. *)
Definition _quarantine (filename content source_url : str) : ST shell unit :=
  now ← read_clock;
  (λ s,
  let (r, dir) := quarantine_artifact w_sha256 w_md5 filename content (sh_client_ip s) source_url
                    (w_disk_ok (sh_ticks s)) now (sh_quarantine s) in
  let s1 := set_outside (sh_log s) dir (sh_queries s) (sh_ticks s) s in
  match r with
  | Ok meta =>
      (Ok tt, if bool_decide (ar_sha256 meta = []) then s1
              else set_captured (sh_artifacts s1 ++ [ar_sha256 meta]) (sh_extra s1) s1)
  | Err e => if is_OSError e then (Ok tt, s1) else (Err e, s1)
  end) : ST shell unit.

(** [await record_command(...)]: an [OSError] of the disk loses the record. *)
Definition record_command (command : str) (path : execution_path) : ST shell unit :=
  now ← read_clock;
  _ ← modify (λ s,
        let record := CommandRecord (iso_utc_now now) (sh_session_id s) (sh_client_ip s) command path
                        (sh_artifacts s) (sh_extra s) in
        set_outside (if w_disk_ok (sh_ticks s) then sh_log s ++ [record] else sh_log s)
          (sh_quarantine s) (sh_queries s) (sh_ticks s) s);
  await.

(** ** Handlers without effects *)

Definition _cmd_pwd (args : list str) : ST shell command_result := gets (λ s, out_result (sh_cwd s) 0).
Definition _cmd_true (args : list str) : ST shell command_result := mret ok_result.
Definition _cmd_false (args : list str) : ST shell command_result := mret (out_result [] 1).
Definition _cmd_exit (args : list str) : ST shell command_result := mret (CommandResult [] true 0 PVfs).
Definition _cmd_history (args : list str) : ST shell command_result := mret ok_result.
Definition _cmd_unset (args : list str) : ST shell command_result := mret ok_result.
Definition _cmd_uname (args : list str) : ST shell command_result := mret (out_result (format_uname args) 0).

Definition _cmd_env (args : list str) : ST shell command_result :=
  gets (λ s, out_result (join nl
    [lit "SHELL=/bin/bash"; lit "PWD=" ++ sh_cwd s; lit "LOGNAME=root"; lit "HOME=/root";
     lit "LANG=C.UTF-8"; lit "TERM=xterm-256color"; lit "USER=root"; lit "SHLVL=1";
     lit "PATH=/usr/local/sbin:/usr/local/bin:/usr/sbin:/usr/bin:/sbin:/bin:/usr/games:/usr/local/games:/snap/bin";
     lit "MAIL=/var/mail/root"; lit "HOSTNAME=" ++ HOSTNAME; lit "_=/usr/bin/env"]) 0).

Definition _cmd_which (args : list str) : ST shell command_result :=
  let found := omap (dict_get _WHICH_PATHS) args in
  let missing := existsb (λ name, negb (dict_has _WHICH_PATHS name)) args in
  mret (if bool_decide (args = []) then _fail [] 1
        else if missing && bool_decide (found = []) then _fail [] 1
        else out_result (join nl found) (if missing then 1 else 0)).

(** [echo]: the [-n] options in front, then the words with [$?] expanded. *)
Fixpoint echo_options (newline : bool) (args : list str) : bool * list str :=
  match args with
  | arg :: rest => if bool_decide (arg = lit "-n") then echo_options false rest else (newline, args)
  | [] => (newline, [])
  end.
Definition _cmd_echo (args : list str) : ST shell command_result :=
  let (newline, words) := echo_options true args in
  gets (λ s,
    let expanded := map (λ arg, replace arg "$?" (py_str (sh_last_exit s))) words in
    let text := join [32] expanded in
    out_result (if newline then text ++ nl else text) 0).

(** ** Directories *)

Definition change_dir (raw target : str) (announce : bool) : ST shell command_result :=
  try_else (vfs_read (λ v cwd, resolve v target cwd))
    (λ node,
       if is_directory node then
         _ ← modify (λ s, set_session (with_cwd target (sh_session s))
               (set_state target (Some (sh_cwd s)) (sh_last_exit s) s));
         mret (out_result (if announce then target else []) 0)
       else mret (_fail (lit "bash: cd: " ++ raw ++ lit ": Not a directory") 1))
    (λ e, match e with
          | FileNotFoundError _ =>
              Some (_fail (lit "bash: cd: " ++ raw ++ lit ": No such file or directory") 1)
          | NotADirectoryError _ => Some (_fail (lit "bash: cd: " ++ raw ++ lit ": Not a directory") 1)
          | _ => None
          end).

Definition _cmd_cd (args : list str) : ST shell command_result :=
  if bool_decide (1 < length args)%nat then mret (_fail "bash: cd: too many arguments" 1)
  else
    (λ s,
     let arg0 := nth 0 args [] in
     if bool_decide (args ≠ [] ∧ arg0 = lit "-") then
       match sh_oldpwd s with
       | None => (Ok (_fail "bash: cd: OLDPWD not set" 1), s)
       | Some old => change_dir old old true s
       end
     else
       let raw := if bool_decide (args = []) then sh_home s else arg0 in
       change_dir raw (canonicalize raw (sh_cwd s) (sh_home s)) false s) : ST shell command_result.

(** The loop [for path in paths: try: ... except ...: chunks.append(...)]: the
    messages of the operands that failed. *)
Fixpoint each_path {A} (f : str → ST shell A) (message : str → pyexc → option str)
    (paths : list str) : ST shell (list str) :=
  match paths with
  | [] => mret []
  | path :: rest =>
      chunk ← try_else (_ ← f path; mret []) (λ c, mret c) (message path);
      chunks ← each_path f message rest;
      mret (if bool_decide (chunk = []) then chunks else chunk :: chunks)
  end.
Definition chunks_result (chunks : list str) : command_result :=
  out_result (concat chunks) (if bool_decide (chunks = []) then 0 else 1).

Definition line (parts : list str) : option str := Some (concat parts ++ nl).

Definition mkdir_message (path : str) (e : pyexc) : option str :=
  match e with
  | FileExistsError _ => line [lit "mkdir: cannot create directory '"; path; lit "': File exists"]
  | FileNotFoundError _ =>
      line [lit "mkdir: cannot create directory '"; path; lit "': No such file or directory"]
  | NotADirectoryError _ =>
      line [lit "mkdir: cannot create directory '"; path; lit "': Not a directory"]
  | _ => None
  end.
Definition mkdir_parents_flag (arg : str) : bool :=
  bool_decide (arg ∈ [lit "-p"; lit "--parents"]) ||
  (negb (startswith arg "--") && is_option arg && has_flag arg 112).
(** The operands of a command whose options are dropped. *)
Definition operands (args : list str) : list str :=
  List.filter (λ arg, negb (is_option arg)) args.

Definition try_help (command : str) (problem : str) : str :=
  command ++ lit ": " ++ problem ++ nl ++ lit "Try '" ++ command ++ lit " --help' for more information.".

Definition _cmd_mkdir (args : list str) : ST shell command_result :=
  let parents := existsb mkdir_parents_flag args in
  let paths := operands args in
  if bool_decide (paths = []) then mret (_fail (try_help "mkdir" "missing operand") 1)
  else
    chunks ← each_path (λ path,
        now ← read_clock; vfs_call (λ cwd, mkdir now path cwd parents 493)) mkdir_message paths;
    mret (chunks_result chunks).

Definition rm_message (path : str) (e : pyexc) : option str :=
  match e with
  | FileNotFoundError _ => line [lit "rm: cannot remove '"; path; lit "': No such file or directory"]
  | IsADirectoryError _ => line [lit "rm: cannot remove '"; path; lit "': Is a directory"]
  | NotADirectoryError _ => line [lit "rm: cannot remove '"; path; lit "': Not a directory"]
  | _ => if is_OSError e then line [lit "rm: cannot remove '"; path; lit "': Directory not empty"]
         else None
  end.
Definition rm_recursive_flag (arg : str) : bool :=
  bool_decide (arg ∈ [lit "-r"; lit "-R"; lit "--recursive"]) ||
  (negb (startswith arg "--") && is_option arg && (has_flag arg 114 || has_flag arg 82)).
Definition rm_force_flag (arg : str) : bool :=
  bool_decide (arg ∈ [lit "-f"; lit "--force"]) ||
  (negb (startswith arg "--") && is_option arg && has_flag arg 102).

Definition _cmd_rm (args : list str) : ST shell command_result :=
  let recursive := existsb rm_recursive_flag args in
  let force := existsb rm_force_flag args in
  let paths := operands args in
  if bool_decide (paths = []) then mret (_fail (try_help "rm" "missing operand") 1)
  else
    chunks ← each_path (λ path, vfs_call (λ cwd, remove path cwd recursive force)) rm_message paths;
    mret (chunks_result chunks).

Definition rmdir_message (path : str) (e : pyexc) : option str :=
  match e with
  | FileNotFoundError _ =>
      line [lit "rmdir: failed to remove '"; path; lit "': No such file or directory"]
  | NotADirectoryError _ =>
      line [lit "rmdir: failed to remove '"; path; lit "': Not a directory"]
  | _ => if is_OSError e
         then line [lit "rmdir: failed to remove '"; path; lit "': Directory not empty"] else None
  end.
Definition _cmd_rmdir (args : list str) : ST shell command_result :=
  let paths := operands args in
  if bool_decide (paths = []) then mret (_fail (try_help "rmdir" "missing operand") 1)
  else
    chunks ← each_path (λ path, vfs_call (λ cwd, rmdir path cwd)) rmdir_message paths;
    mret (chunks_result chunks).

Definition touch_message (path : str) (e : pyexc) : option str :=
  match e with
  | FileNotFoundError _ => line [lit "touch: cannot touch '"; path; lit "': No such file or directory"]
  | NotADirectoryError _ => line [lit "touch: cannot touch '"; path; lit "': Not a directory"]
  | _ => None
  end.
Definition _cmd_touch (args : list str) : ST shell command_result :=
  if bool_decide (args = []) then mret (_fail (try_help "touch" "missing file operand") 1)
  else
    chunks ← each_path (λ path,
        now ← read_clock; vfs_call (λ cwd, touch now path cwd)) touch_message args;
    mret (chunks_result chunks).

Definition chmod_message (path : str) (e : pyexc) : option str :=
  match e with
  | FileNotFoundError _ => line [lit "chmod: cannot access '"; path; lit "': No such file or directory"]
  | NotADirectoryError _ => line [lit "chmod: cannot access '"; path; lit "': Not a directory"]
  | _ => None
  end.
(** A bad mode ends the command with one message. *)
Definition _cmd_chmod (args : list str) : ST shell command_result :=
  match args with
  | [] => mret (_fail (try_help "chmod" "missing operand") 1)
  | mode :: paths =>
      if bool_decide (paths = []) then
        mret (_fail (try_help "chmod" (lit "missing operand after '" ++ mode ++ lit "'")) 1)
      else
        try_else
          (each_path (λ path, vfs_call (λ cwd, Vfs.chmod path mode cwd)) chmod_message paths)
          (λ chunks, mret (chunks_result chunks))
          (λ e, match e with
                | ValueError _ =>
                    Some (_fail (try_help "chmod" (lit "invalid mode: '" ++ mode ++ lit "'")) 1)
                | _ => None
                end)
  end.

(** ** Listing *)

Definition _ls_blocks (node : inode) : result Z :=
  size ← node_size node; Ok ((size + 1023) / 1024).

Record ls_fields := LsFields { f_mode : str; f_nlink : str; f_owner : str; f_group : str;
                               f_size : str; f_mtime : str }.
Definition _ls_long_fields (node : inode) : ST shell ls_fields :=
  let m := node_meta node in
  size ← lift (node_size node);
  now ← read_clock;
  mret (LsFields (ls_kind node ++ _perm_string (m_mode m)) (py_str (node_nlink node)) (m_owner m)
          (m_group m) (py_str size) (_ls_mtime now (m_mtime m))).

(** [sum(_ls_blocks(node) for ...)], [[_ls_long_fields(node) for ...]]. *)
Fixpoint sum_blocks (entries : list (str * inode)) : result Z :=
  match entries with
  | [] => Ok 0
  | (_, node) :: rest => b ← _ls_blocks node; bs ← sum_blocks rest; Ok (b + bs)
  end.
Fixpoint ls_rows (entries : list (str * inode)) : ST shell (list (str * ls_fields)) :=
  match entries with
  | [] => mret []
  | (name, node) :: rest =>
      f ← _ls_long_fields node; fs ← ls_rows rest; mret ((name, f) :: fs)
  end.

Definition name_le (a b : str * inode) : Prop := str_le a.1 b.1.
#[local] Instance name_le_dec a b : Decision (name_le a b).
Proof. unfold name_le. apply _. Defined.

(** [max((len(f) for ...), default=1)]. *)
Definition column_width (l : list str) : nat :=
  match l with [] => 1%nat | _ => foldr Nat.max 0%nat (map length l) end.

Definition _format_ls_dir (directory : inode) (abs_path : str) (long_fmt show_all : bool) :
    ST shell str :=
  dots ← (if show_all then
            parent ← reads (λ s, get (sh_vfs s) (parent_path abs_path) "/");
            mret [(lit ".", directory); (lit "..", parent)]
          else mret []);
  let children := match directory with VFSDirectory _ ch => ch | _ => [] end in
  let shown := List.filter (λ kv, show_all || negb (startswith kv.1 ".")) children in
  let entries := merge_sort name_le (dots ++ shown) in
  if negb long_fmt then mret (join (lit "  ") (map fst entries))
  else
    blocks ← lift (sum_blocks entries);
    rows ← ls_rows entries;
    let nlink_w := column_width (map (λ r, f_nlink r.2) rows) in
    let owner_w := column_width (map (λ r, f_owner r.2) rows) in
    let group_w := column_width (map (λ r, f_group r.2) rows) in
    let size_w := column_width (map (λ r, f_size r.2) rows) in
    mret (join nl ((lit "total " ++ py_str blocks) ::
      map (λ r : str * ls_fields, let f := r.2 in
        f_mode f ++ lit " " ++ pad_left nlink_w 32 (f_nlink f) ++ lit " " ++
        pad_right owner_w 32 (f_owner f) ++ lit " " ++ pad_right group_w 32 (f_group f) ++ lit " " ++
        pad_left size_w 32 (f_size f) ++ lit " " ++ f_mtime f ++ lit " " ++ r.1) rows)).

Definition _format_ls_file (node : inode) (display : str) (long_fmt : bool) : ST shell str :=
  if long_fmt then
    f ← _ls_long_fields node;
    mret (join (lit " ") [f_mode f; f_nlink f; f_owner f; f_group f; f_size f; f_mtime f; display])
  else mret (operand_name display display).

Definition ls_message (shown : str) (e : pyexc) : option command_result :=
  match e with
  | FileNotFoundError _ =>
      Some (_fail (lit "ls: cannot access '" ++ shown ++ lit "': No such file or directory") 1)
  | NotADirectoryError _ =>
      Some (_fail (lit "ls: cannot access '" ++ shown ++ lit "': Not a directory") 1)
  | _ => None
  end.

Definition _cmd_ls (args : list str) : ST shell command_result :=
  let options := List.filter is_option args in
  let long_fmt := existsb (λ arg, has_flag arg 108) options in
  let show_all := existsb (λ arg, has_flag arg 97) options in
  let paths := operands args in
  let target := match paths with p :: _ => p | [] => lit "." end in
  s ← gets id;
  let display := if bool_decide (paths = []) then sh_cwd s else target in
  try_else (vfs_read (λ v cwd, resolve v target cwd))
    (λ node,
       text ← (if is_directory node
               then _format_ls_dir node (canonicalize target (sh_cwd s) (sh_home s)) long_fmt show_all
               else _format_ls_file node display long_fmt);
       mret (out_result text 0))
    (ls_message target).

(** ** Reading files *)

Definition read_message (command path : str) (e : pyexc) : option str :=
  match e with
  | FileNotFoundError _ => line [command; lit ": "; path; lit ": No such file or directory"]
  | IsADirectoryError _ => line [command; lit ": "; path; lit ": Is a directory"]
  | NotADirectoryError _ => line [command; lit ": "; path; lit ": Not a directory"]
  | _ => None
  end.

(** The operands in order: the text read, or the message. *)
Fixpoint read_each (command : str) (paths : list str) : ST shell (list (str + str)) :=
  match paths with
  | [] => mret []
  | path :: rest =>
      chunk ← try_else (vfs_read (λ v cwd, read_file v path cwd)) (λ text, mret (inl text))
                (λ e, inr <$> read_message command path e);
      chunks ← read_each command rest;
      mret (chunk :: chunks)
  end.
Definition chunk_text (c : str + str) : str := match c with inl t | inr t => t end.
Definition is_error (c : str + str) : bool := match c with inr _ => true | inl _ => false end.

Definition _cmd_cat (args : list str) (stdin : str) : ST shell command_result :=
  if bool_decide (args = []) then mret (out_result stdin 0)
  else
    chunks ← read_each "cat" args;
    mret (out_result (concat (map chunk_text chunks)) (if existsb is_error chunks then 1 else 0)).

Definition grep_ignore_case (arg : str) : bool :=
  bool_decide (arg ∈ [lit "-i"; lit "--ignore-case"]) ||
  (negb (startswith arg "--") && is_option arg && has_flag arg 105).

Definition _cmd_grep (args : list str) (stdin : str) : ST shell command_result :=
  let ignore_case := existsb grep_ignore_case args in
  match operands args with
  | [] => mret (_fail (try_help "grep" "missing pattern") 1)
  | pattern :: files =>
      chunks ← read_each "grep" files;
      let errors := List.filter is_error chunks in
      let corpus :=
        if bool_decide (files = []) then stdin
        else concat (map chunk_text (List.filter (λ c, negb (is_error c)) chunks)) in
      compiled ← lift (w_regex pattern ignore_case);
      match compiled with
      | None => mret (_fail (lit "grep: invalid regular expression: " ++ pattern) 1)
      | Some search =>
          let matches := List.filter search (splitlines corpus) in
          let matched_text := if bool_decide (matches = []) then [] else join nl matches ++ nl in
          mret (out_result (concat (map chunk_text errors) ++ matched_text)
                  (if negb (bool_decide (errors = [])) then 2
                   else if bool_decide (matches = []) then 1 else 0))
      end
  end.

(** ** Downloads *)

Definition filename_from_url (url : str) : result str :=
  parts ← w_urlparse url; Ok (filename_from_path (url_path parts)).

Definition _fake_ipv4 (host : str) : result str :=
  data ← encode_utf8 host;
  let d i := nth i (w_sha256_bytes data) 0 in
  Ok (py_str (1 + d 0%nat mod 223) ++ lit "." ++ py_str (d 1%nat) ++ lit "." ++ py_str (d 2%nat)
      ++ lit "." ++ py_str (1 + d 3%nat mod 254)).

Definition _wget_progress (url filename : str) (size : Z) : ST shell str :=
  t ← read_clock;
  let now := date_time (lit " ") t in
  parts ← lift (w_urlparse url);
  let host := or_default (url_hostname parts) url in
  ip ← lift (_fake_ipv4 host);
  let scheme := or_default (url_scheme parts) "http" in
  p ← lift (w_url_port url);
  let port := match p with
              | Some n => if n =? 0 then (if bool_decide (scheme = lit "https") then 443 else 80) else n
              | None => if bool_decide (scheme = lit "https") then 443 else 80
              end in
  mret (concat
    [lit "--"; now; lit "--  "; url; nl;
     lit "Resolving "; host; lit " ("; host; lit ")... "; ip; nl;
     lit "Connecting to "; host; lit " ("; host; lit ")|"; ip; lit "|:"; py_str port;
     lit "... connected."; nl;
     lit "HTTP request sent, awaiting response... 200 OK"; nl;
     lit "Length: "; py_str size; lit " [application/octet-stream]"; nl;
     lit "Saving to: "; [8216]; filename; [8217]; nl; nl;
     pad_right 20 32 filename; lit " 100%[===================>] "; pad_left 7 32 (py_str size);
     lit "  --.-KB/s    in 0s"; nl; nl;
     now; lit " (12.4 MB/s) - "; [8216]; filename; [8217]; lit " saved ["; py_str size; lit "/";
     py_str size; lit "]"]).

Definition _curl_progress (size : Z) : str :=
  let n := pad_left 4 32 (py_str size) in
  let speed := pad_left 5 32 (py_str (Z.max size 1)) in
  concat
    [lit "  % Total    % Received % Xferd  Average Speed   Time    Time     Time  Current"; nl;
     lit "                                 Dload  Upload   Total   Spent    Left  Speed"; nl;
     lit "100  "; n; lit "  100  "; n; lit "    0     0  "; speed;
     lit "      0 --:--:-- --:--:-- --:--:-- "; speed].

(** [target.rstrip("/").rsplit("/", 1)[-1] or filename_from_url(url)]. *)
Definition saved_name (target url : str) : result str :=
  let name := operand_name target [] in
  if bool_decide (name = []) then filename_from_url url else Ok name.

Definition write_error (command : str) (e : pyexc) : option command_result :=
  match e with
  | VFSFileTooLargeError _ => Some (_fail (lit "bash: " ++ command ++ lit ": write error: File too large") 1)
  | VFSNoSpaceError _ =>
      Some (_fail (lit "bash: " ++ command ++ lit ": write error: No space left on device") 1)
  | _ => None
  end.
Definition wget_message (target : str) (e : pyexc) : option command_result :=
  match e with
  | FileNotFoundError _ => Some (_fail (lit "wget: " ++ target ++ lit ": No such file or directory") 1)
  | IsADirectoryError _ => Some (_fail (lit "wget: " ++ target ++ lit ": Is a directory") 1)
  | NotADirectoryError _ => Some (_fail (lit "wget: " ++ target ++ lit ": Not a directory") 1)
  | _ => write_error "wget" e
  end.
Definition curl_message (e : pyexc) : option command_result :=
  match e with
  | FileNotFoundError _ | IsADirectoryError _ | NotADirectoryError _ =>
      Some (_fail "curl: (23) Failure writing output to destination" 1)
  | _ => write_error "curl" e
  end.

Definition vfs_write (path content : str) (append : bool) : ST shell unit :=
  now ← read_clock;
  vfs_call (λ cwd, write_file now path content cwd append).

Definition _cmd_wget (args : list str) : ST shell command_result :=
  let (url, output_path) := _parse_wget_args args in
  match url with
  | None => mret (_fail (lit "wget: missing URL" ++ nl ++ lit "Usage: wget [OPTION]... [URL]..." ++ nl) 1)
  | Some url =>
      target ← lift (match output_path with Some p => Ok p | None => filename_from_url url end);
      t ← read_clock;
      ip ← gets sh_client_ip;
      let payload := mocked_payload url ip (iso_utc_now t) in
      try_else (vfs_write target payload false)
        (λ _,
           name ← lift (saved_name target url);
           _ ← _quarantine name payload url;
           size ← lift (encoded_size payload);
           text ← _wget_progress url name size;
           mret (out_result text 0))
        (wget_message target)
  end.

Definition _cmd_curl (args : list str) : ST shell command_result :=
  let parsed := _parse_curl_args args in
  match curl_url parsed with
  | None => mret (_fail "curl: no URL specified!" 1)
  | Some url =>
      t ← read_clock;
      ip ← gets sh_client_ip;
      let payload := mocked_payload url ip (iso_utc_now t) in
      target ← lift (match curl_output parsed with
                     | Some p => Ok (Some p)
                     | None => if curl_remote_name parsed then Some <$> filename_from_url url else Ok None
                     end);
      match target with
      | Some target =>
          try_else (vfs_write target payload false)
            (λ _,
               name ← lift (saved_name target url);
               _ ← _quarantine name payload url;
               if curl_silent parsed then mret ok_result
               else size ← lift (encoded_size payload); mret (out_result (_curl_progress size) 0))
            curl_message
      | None =>
          name ← lift (filename_from_url url);
          _ ← _quarantine name payload url;
          mret (out_result payload 0)
      end
  end.

(** ** Executing a path *)

Definition trap_result (output : str) (code : Z) : command_result :=
  CommandResult (_ensure_trailing_newline output) false code PExecTrap.

Definition _exec_trap (path : str) : ST shell command_result :=
  try_else (vfs_read (λ v cwd, resolve v path cwd))
    (λ node,
       if is_directory node then mret (trap_result (lit "bash: " ++ path ++ lit ": Is a directory") 126)
       else
       let m := node_meta node in
       if Z.land (m_mode m) 73 =? 0 then
         mret (trap_result (lit "bash: " ++ path ++ lit ": Permission denied") 126)
       else
         size ← lift (node_size node);
         _ ← modify (λ s, set_captured (sh_artifacts s)
               (Some (ExecExtra (canonicalize path (sh_cwd s) (sh_home s)) (m_name m) (m_mode m) size
                        (m_owner m) (m_group m))) s);
         mret (CommandResult [] false 0 PExecTrap))
    (λ e, if is_missing e
          then Some (trap_result (lit "bash: " ++ path ++ lit ": No such file or directory") 127)
          else None).

(** ** Redirection *)

Definition redirect_message (redirect_path label : str) (e : pyexc) : option command_result :=
  match e with
  | FileNotFoundError _ => Some (_fail (lit "bash: " ++ redirect_path ++ lit ": No such file or directory") 1)
  | IsADirectoryError _ => Some (_fail (lit "bash: " ++ redirect_path ++ lit ": Is a directory") 1)
  | NotADirectoryError _ => Some (_fail (lit "bash: " ++ redirect_path ++ lit ": Not a directory") 1)
  | _ => write_error label e
  end.

Definition _apply_redirection (result : command_result) (redirect_path : str) (append : bool)
    (command_name : str) : ST shell command_result :=
  let label := or_default command_name redirect_path in
  try_else (vfs_write redirect_path (r_output result) append)
    (λ _,
       _ ← _quarantine (operand_name redirect_path redirect_path) (r_output result) [];
       mret (CommandResult [] (r_exit_session result) (r_exit_code result) (r_path result)))
    (redirect_message redirect_path label).

(** The first operand that names an endless device. *)
Definition infinite_operand (args : list str) (s : shell) : option str :=
  List.find (λ arg, negb (is_option arg) &&
    bool_decide (canonicalize arg (sh_cwd s) (sh_home s) ∈ [DEV_ZERO; DEV_URANDOM])) args.

Definition _is_infinite_cat (tokens : list str) (s : shell) : bool :=
  match tokens with
  | [] => false
  | t :: args =>
      bool_decide (rsplit_last 47 t = lit "cat") &&
      match infinite_operand args s with Some _ => true | None => false end
  end.

(** [for _ in range(max_iters): write_file(...); await sleep(0)]. *)
Fixpoint stream_writes (n : nat) (redirect_path chunk : str) (append : bool) : ST shell unit :=
  match n with
  | O => mret tt
  | S n =>
      _ ← vfs_write redirect_path chunk append;
      _ ← await;
      stream_writes n redirect_path chunk true
  end.

(** [resolve] with a missing target as [None]. *)
Definition resolve_or_none (path : str) : ST shell (option inode) :=
  try_else (vfs_read (λ v cwd, resolve v path cwd)) (λ n, mret (Some n))
    (λ e, if is_missing e then Some None else None).

Definition _stream_infinite_redirect (command_name : str) (tokens : list str) (redirect_path : str)
    (append : bool) : ST shell command_result :=
  device ← gets (infinite_operand (drop 1 tokens));
  match device with
  | None => _apply_redirection ok_result redirect_path append command_name
  | Some device =>
      dest ← resolve_or_none redirect_path;
      if match dest with Some (VFSFile m _ _ _) => m_char_device m | _ => false end then mret ok_result
      else
        chunk ← vfs_read (λ v cwd, read_file v device cwd);
        if bool_decide (chunk = []) then _apply_redirection ok_result redirect_path append command_name
        else
          size ← lift (encoded_size chunk);
          v ← gets sh_vfs;
          let max_iters := v_max_total v / Z.max size 1 + 2 in
          let label := or_default command_name redirect_path in
          try_else (stream_writes (Z.to_nat max_iters) redirect_path chunk append)
            (λ _, mret (_fail (lit "bash: " ++ label ++ lit ": write error: No space left on device") 1))
            (redirect_message redirect_path label)
  end.

(** ** The handlers *)

Definition handler := list str → str → ST shell command_result.
Definition ignoring (f : list str → ST shell command_result) : handler := λ args _, f args.

Definition _handlers : list (str * handler) :=
  [(lit "pwd", ignoring _cmd_pwd); (lit "cd", ignoring _cmd_cd); (lit "ls", ignoring _cmd_ls);
   (lit "cat", _cmd_cat); (lit "grep", _cmd_grep); (lit "touch", ignoring _cmd_touch);
   (lit "echo", ignoring _cmd_echo); (lit "true", ignoring _cmd_true);
   (lit "false", ignoring _cmd_false); (lit "mkdir", ignoring _cmd_mkdir);
   (lit "rm", ignoring _cmd_rm); (lit "rmdir", ignoring _cmd_rmdir);
   (lit "chmod", ignoring _cmd_chmod); (lit "wget", ignoring _cmd_wget);
   (lit "curl", ignoring _cmd_curl); (lit "which", ignoring _cmd_which);
   (lit "uname", ignoring _cmd_uname); (lit "env", ignoring _cmd_env);
   (lit "exit", ignoring _cmd_exit); (lit "logout", ignoring _cmd_exit);
   (lit "history", ignoring _cmd_history); (lit "unset", ignoring _cmd_unset)].

(** ** The model *)

Definition _llm_result (simulation : llm_simulation) (path : execution_path) :
    command_result * execution_path :=
  (CommandResult (rendered simulation) false (sim_exit simulation) PVfs, path).

Definition _llm_context : ST shell llm_context :=
  listing ← try_else (vfs_read (λ v cwd, list_dir v "." cwd)) (λ l, mret l)
              (λ e, if is_missing e then Some [] else None);
  mret (LlmContext (sanitize_listing listing) (Z.of_nat (length listing))).

(** [await self._llm_provider.generate_response(...)]. *)
Definition generate_response (command : str) (context : llm_context) (argv : list str) :
    ST shell raw_answer := λ s,
  let answer :=
    match w_provider with
    | None => null_generate_response command argv
    | Some client => groq_generate_response (client (sh_ticks s)) command (sh_cwd s) context argv
    end in
  let (_, s') := await (set_outside (sh_log s) (sh_quarantine s) (sh_queries s ++ [argv]) (sh_ticks s) s) in
  (Ok (RawSim answer), s').

(** The rest of [_dispatch] for a command without a cached answer. *)
Definition ask_llm (tokens : list str) (command : str) (args : list str) (stripped stdin cache_key : str)
    (cacheable : bool) : ST shell (command_result * execution_path) :=
  context ← _llm_context;
  let llm_command := if bool_decide (stdin = []) then stripped else stripped ++ nl ++ stdin in
  raw ← generate_response llm_command context tokens;
  let simulation := coerce_llm_simulation raw command args in
  _ ← (if cacheable then
         modify (λ s, set_session
           (with_cache (dict_set (sh_cache s) cache_key (to_json simulation)) (sh_session s)) s)
       else mret tt);
  mret (_llm_result simulation PLlm).

Definition llm_cache_key (stripped stdin : str) : str :=
  if bool_decide (stdin = []) then stripped else stripped ++ [0] ++ stdin.

(** The part of [_dispatch] for commands that no handler and no fixed answer
    covers. *)
Definition dispatch_llm (tokens : list str) (command : str) (args : list str) (stripped stdin : str) :
    ST shell (command_result * execution_path) :=
  if negb (is_llm_eligible_command tokens) then mret (_not_found_result command, PVfs)
  else if negb (is_safe_llm_argv tokens) then
    mret (_llm_result (format_binary_usage_error command args) PVfs)
  else
    let cacheable := _is_cacheable_llm_command tokens in
    let cache_key := llm_cache_key stripped stdin in
    cached ← gets (λ s, dict_get (sh_cache s) cache_key);
    match (if cacheable then cached else None) with
    | Some text => mret (_llm_result (coerce_llm_simulation (RawText text) command args) PCache)
    | None => ask_llm tokens command args stripped stdin cache_key cacheable
    end.

(** ** Executing lines

    [exec] is [self.execute], called again by wrappers and scripts. *)
Section Recursive.
Variable exec : str → ST shell command_result.

(** The loop over the lines of a script: the outputs and the last result. *)
Fixpoint script_loop (lines : list str) (outputs : list str) (last : command_result) :
    ST shell (list str * command_result) :=
  match lines with
  | [] => mret (outputs, last)
  | line :: rest =>
      let stripped := strip line in
      if bool_decide (stripped = []) || startswith stripped "#" then script_loop rest outputs last
      else
        last ← exec stripped;
        let outputs := if bool_decide (r_output last = []) then outputs else outputs ++ [r_output last] in
        if r_exit_session last then mret (outputs, last) else script_loop rest outputs last
  end.

Definition joined (outputs : list str) (last : command_result) : command_result :=
  CommandResult (_join_outputs outputs) (r_exit_session last) (r_exit_code last) (r_path last).

Definition _execute_script_lines (lines : list str) (depth : nat) : ST shell command_result :=
  if bool_decide (_MAX_SCRIPT_DEPTH < depth)%nat
  then mret (_fail "bash: maximum recursion depth exceeded" 1)
  else if bool_decide (_MAX_SCRIPT_LINES < length lines)%nat
  then mret (_fail "bash: maximum script length exceeded" 1)
  else
    previous_depth ← gets sh_depth;
    _ ← modify (set_depth depth);
    res ← try_finally (script_loop lines [] ok_result) (modify (set_depth previous_depth));
    mret (joined res.1 res.2).

(** The part of [_dispatch] for [sh], [bash] and [dash]. *)
Definition dispatch_wrapper (tokens : list str) (command : str) (args : list str) (stdin : str)
    (depth : nat) : ST shell (command_result * execution_path) :=
  match _extract_shell_c tokens with
  | Some inner => r ← exec inner; mret (r, r_path r)
  | None =>
      match _shell_script_operand args with
      | Some script_path =>
          node ← resolve_or_none script_path;
          match node with
          | None =>
              mret (_fail (command ++ lit ": " ++ script_path ++ lit ": No such file or directory") 127, PVfs)
          | Some (VFSFile _ _ _ _) =>
              content ← vfs_read (λ v cwd, read_file v script_path cwd);
              if _is_binary_script content then
                mret (_fail (script_path ++ lit ": cannot execute binary file: Exec format error") 126, PVfs)
              else
                r ← _execute_script_lines (splitlines content) (S depth);
                mret (r, r_path r)
          | Some _ => mret (_fail (command ++ lit ": " ++ script_path ++ lit ": Is a directory") 126, PVfs)
          end
      | None =>
          if bool_decide (stdin ≠ []) then
            r ← _execute_script_lines (splitlines stdin) depth; mret (r, r_path r)
          else mret (ok_result, PVfs)
      end
  end.

Definition _dispatch (tokens : list str) (stripped stdin : str) (depth : nat) :
    ST shell (command_result * execution_path) :=
  match tokens with
  | [] => mret (ok_result, PVfs)       (* never called so *)
  | command0 :: args =>
      let basename := _strip_system_prefix command0 in
      let rename := bool_decide (basename ≠ command0) && bool_decide (basename ∈ _KNOWN_COMMANDS) in
      let command := if rename then basename else command0 in
      let tokens := command :: args in
      let stripped := if rename then join [32] tokens else stripped in
      if bool_decide (command ∈ _SHELL_WRAPPERS) then dispatch_wrapper tokens command args stdin depth
      else if _is_explicit_path command then r ← _exec_trap command; mret (r, r_path r)
      else
      match dict_get _handlers command with
      | Some handler =>
          r ← handler args stdin;
          mret (r, if bool_decide (command ∈ [lit "wget"; lit "curl"]) then PSinkhole
                   else if bool_decide (command ∈ _STATIC_HANDLER_COMMANDS) then PStatic else PVfs)
      | None =>
          match lookup_static_output tokens with
          | Some static =>
              mret (CommandResult static false (lookup_static_exit_code tokens) PVfs, PStatic)
          | None => dispatch_llm tokens command args stripped stdin
          end
      end
  end.

(** The body of the [try] of [_execute_single_command]: the result, or the
    exception that leaves it, and the value [execution_path] has by then. *)
Definition single_body (cmd_line stripped stdin : str) :
    ST shell (result command_result * execution_path) :=
  match shlex_split cmd_line with
  | Err e => mret (Ok (_fail (lit "bash: " ++ match e with ValueError m => m | _ => [] end) 2), PVfs)
  | Ok [] => mret (Ok ok_result, PVfs)
  | Ok tokens =>
      match _parse_redirection tokens with
      | Err e => mret (Ok (_fail (match e with ValueError m => m | _ => [] end) 2), PVfs)
      | Ok (command_tokens, redirect_path, append) =>
          let cmd_name := nth 0 command_tokens [] in
          let dispatch_line :=
            match redirect_path with None => stripped | Some _ => join [32] command_tokens end in
          infinite ← gets (_is_infinite_cat command_tokens);
          match redirect_path, infinite with
          | Some target, true =>
              r ← attempt (_stream_infinite_redirect cmd_name command_tokens target append);
              mret (r, PVfs)
          | _, _ =>
              depth ← gets sh_depth;
              dispatched ← attempt (if bool_decide (command_tokens = []) then mret (ok_result, PVfs)
                                    else _dispatch command_tokens dispatch_line stdin depth);
              match dispatched, redirect_path with
              | Err e, _ => mret (Err e, PVfs)
              | Ok (r, path), None => mret (Ok r, path)
              | Ok (r, path), Some target =>
                  r' ← attempt (_apply_redirection r target append cmd_name); mret (r', path)
              end
          end
      end
  end.

(** The rest: [finally: await record_command(...)], on the exceptional path
    too, and the stamped result. *)
Definition single_finally (stripped : str) (ran : result command_result * execution_path) :
    ST shell command_result :=
  let (outcome, path) := ran in
  _ ← record_command stripped path;
  result ← lift outcome;
  _ ← modify (λ s, set_state (sh_cwd s) (sh_oldpwd s) (r_exit_code result) s);
  mret (CommandResult (r_output result) (r_exit_session result) (r_exit_code result) path).

Definition _execute_single_command (cmd_line stdin : str) : ST shell command_result :=
  let stripped := strip cmd_line in
  if bool_decide (stripped = []) then mret ok_result
  else
    _ ← modify (set_captured [] None);
    ran ← single_body cmd_line stripped stdin; single_finally stripped ran.

Fixpoint pipeline_stages (stages : list str) (stdin : str) (last : command_result) :
    ST shell command_result :=
  match stages with
  | [] => mret last
  | stage :: rest =>
      last ← _execute_single_command stage stdin;
      if r_exit_session last then mret last else pipeline_stages rest (r_output last) last
  end.
Definition _execute_pipeline (line : str) : ST shell command_result :=
  pipeline_stages (split_pipeline line) [] ok_result.

Definition add_output (outputs : list str) (r : command_result) : list str :=
  if bool_decide (r_output r = []) then outputs else outputs ++ [r_output r].

Fixpoint conditionals_loop (segments : list chain_segment) (outputs : list str)
    (last : command_result) (last_ok : bool) : ST shell command_result :=
  match segments with
  | [] => mret (joined outputs last)
  | seg :: rest =>
      if (bool_decide (seg_operator seg = lit "&&") && negb last_ok)
         || (bool_decide (seg_operator seg = lit "||") && last_ok)
      then conditionals_loop rest outputs last last_ok
      else
        r ← _execute_pipeline (seg_command seg);
        let outputs := add_output outputs r in
        if r_exit_session r then mret (joined outputs r)
        else conditionals_loop rest outputs r (result_ok r)
  end.
Definition _execute_conditionals (statement : str) : ST shell command_result :=
  conditionals_loop (split_conditionals statement) [] ok_result true.

Fixpoint statements_loop (statements : list str) (outputs : list str) (last : command_result) :
    ST shell command_result :=
  match statements with
  | [] => mret (joined outputs last)
  | statement :: rest =>
      r ← _execute_conditionals statement;
      let outputs := add_output outputs r in
      if r_exit_session r then mret (joined outputs r) else statements_loop rest outputs r
  end.
Definition execute_body (line : str) : ST shell command_result :=
  let stripped := strip line in
  if bool_decide (stripped = []) then mret ok_result
  else statements_loop (split_statements stripped) [] ok_result.
End Recursive.

(** [execute] on a stack of [fuel] nested calls. *)
Fixpoint execute (fuel : nat) (line : str) : ST shell command_result :=
  match fuel with
  | O => raise RecursionError
  | S fuel => execute_body (execute fuel) line
  end.
End Shell.
