(* ===== verification/ShellSample.v ===== *)
(** * A concrete world

    An instance of the parameters of the shell, for the examples and witnesses:
    a quiet client, a writable disk, digests that tag their input, and no
    language model behind the shell. *)

From S2P Require Import Prelude PyStr OrdDict Path Vfs HoneypotTree SessionManager.
From S2P Require Import Regex Llm LlmProps Sinkhole Shell.

Definition sample_world : World := {|
  w_unicode := ascii_only;
  w_clock := λ n, 1775812500000000 + 1000000 * Z.of_nat n;
  w_others := λ _ x, x;
  w_disk_ok := λ _, true;
  w_sha256 := λ data, 35 :: data;
  w_md5 := λ data, 36 :: data;
  w_sha256_bytes := λ _, [10; 20; 30; 40];
  w_urlparse := λ url, Ok (UrlParts "http" "example.com" url);
  w_url_port := λ _, Ok None;
  w_regex := λ pattern _, Ok (Some (λ text, bool_decide (pattern = text)));
  w_provider := None |}.

Definition sample_shell : shell :=
  shell_init (IpSession create_default_vfs [] 0 DEFAULT_HOME) "ab12" "198.51.100.7" [].
