(* ===== verification/ShellEffects.v ===== *)
(** * What a command line can do

    [runs s s'] is the specification of the shell: the closed list of effects
    through which any command line acts on the session, the sensor's records
    and the model.  The refinement proved here, [execute_runs], says that the
    detailed definitions of [Shell.v] do nothing else; the invariants of
    [ShellProps.v] are rule inductions on [runs]. *)

From S2P Require Import Prelude PyStr OrdDict Path Chmod Vfs HoneypotTree SessionManager VfsSpec VfsProps.
From S2P Require Import Regex Llm LlmProps ShellParse ShellStatic DateTime Sinkhole Shell.

#[local] Arguments lit : simpl never.

Section Effects.
Context `{World}.

(** The commands that may be put to the model. *)
Definition gate (argv : list str) : bool := is_llm_eligible_command argv && is_safe_llm_argv argv.

(** The artifact directory after a capture. *)
Definition captured (content : str) (dir : list (str * str)) : list (str * str) :=
  match encode_utf8 content with Ok data => dict_set dir (w_sha256 data) data | Err _ => dir end.

Definition tick (s : shell) : shell :=
  set_outside (sh_log s) (sh_quarantine s) (sh_queries s) (S (sh_ticks s)) s.

Inductive runs : shell → shell → Prop :=
  | runs_refl s : runs s s
  | runs_trans s1 s2 s3 : runs s1 s2 → runs s2 s3 → runs s1 s3
  | runs_script d s s' :              (* a script, one level deeper or not *)
      (d ≤ _MAX_SCRIPT_DEPTH)%nat → runs (set_depth d s) s' → runs s (set_depth (sh_depth s) s')
  | runs_fs now op s :                (* a call of the filesystem *)
      runs s (set_session (with_vfs (run_op now op (sh_vfs s)).2 (sh_session s)) s)
  | runs_cd target s node :           (* into an existing directory *)
      (∃ raw, (raw ≠ lit "-" ∨ raw = sh_home s) ∧ target = canonicalize raw (sh_cwd s) (sh_home s))
      ∨ sh_oldpwd s = Some target →
      resolve (sh_vfs s) target (sh_cwd s) = Ok node → is_directory node = true →
      runs s (set_session (with_cwd target (sh_session s))
                (set_state target (Some (sh_cwd s)) (sh_last_exit s) s))
  | runs_status code s : runs s (set_state (sh_cwd s) (sh_oldpwd s) code s)
  | runs_start s : runs s (set_captured [] None s)
  | runs_trap extra s : runs s (set_captured (sh_artifacts s) (Some extra) s)
  | runs_tick s : runs s (tick s)
  | runs_yield s :                    (* the other connections of the client run *)
      runs s (set_session (w_others (sh_ticks s) (sh_session s)) (tick s))
  | runs_quarantine content s :       (* an artifact is kept on disk *)
      runs s (set_outside (sh_log s) (captured content (sh_quarantine s)) (sh_queries s) (sh_ticks s) s)
  | runs_artifact digest s :          (* and its digest noted for the record *)
      dict_has (sh_quarantine s) digest = true →
      runs s (set_captured (sh_artifacts s ++ [digest]) (sh_extra s) s)
  | runs_log time command path s :    (* a record of this session *)
      runs s (set_outside (sh_log s ++ [CommandRecord time (sh_session_id s) (sh_client_ip s) command
                path (sh_artifacts s) (sh_extra s)]) (sh_quarantine s) (sh_queries s) (sh_ticks s) s)
  | runs_query argv s :               (* a question to the model *)
      gate argv = true →
      runs s (set_outside (sh_log s) (sh_quarantine s) (sh_queries s ++ [argv]) (sh_ticks s) s)
  | runs_cache key raw binary args s :  (* a validated answer is remembered *)
      from_provider raw →
      runs s (set_session (with_cache (dict_set (sh_cache s) key
                (to_json (coerce_llm_simulation raw binary args))) (sh_session s)) s).

(** A computation all of whose effects are allowed, exceptions included. *)
Definition traced {A} (m : ST shell A) : Prop := ∀ s, runs s (m s).2.

(** ** Closure under the constructs of the code *)

Lemma traced_ret {A} (a : A) : traced (mret a). Proof. intros s. apply runs_refl. Qed.
Lemma traced_raise {A} e : traced (raise (A:=A) e). Proof. intros s. apply runs_refl. Qed.
Lemma traced_gets {A} (f : shell → A) : traced (gets f). Proof. intros s. apply runs_refl. Qed.
Lemma traced_reads {A} (f : shell → result A) : traced (reads f). Proof. intros s. apply runs_refl. Qed.
Lemma traced_lift {A} (x : result A) : traced (lift x). Proof. intros s. apply runs_refl. Qed.
Lemma traced_vfs_read {A} (f : vfs → str → result A) : traced (vfs_read f).
Proof. apply traced_reads. Qed.

Lemma traced_bind {A B} (m : ST shell A) (f : A → ST shell B) :
  traced m → (∀ a, traced (f a)) → traced (m ≫= f).
Proof.
  intros Hm Hf s. rewrite st_bind_eq. specialize (Hm s).
  destruct (m s) as [[a|e] s1]; [|done]. eapply runs_trans; [exact Hm|apply Hf].
Qed.
Lemma traced_try {A B} (m : ST shell A) (ok : A → ST shell B) h :
  traced m → (∀ a, traced (ok a)) → traced (try_else m ok h).
Proof.
  intros Hm Hf s. unfold try_else. specialize (Hm s).
  destruct (m s) as [[a|e] s1]; [|by destruct (h e)]. eapply runs_trans; [exact Hm|apply Hf].
Qed.
Lemma traced_attempt {A} (m : ST shell A) : traced m → traced (attempt m).
Proof. intros Hm s. unfold attempt. specialize (Hm s). by destruct (m s). Qed.

(** ** The primitive actions *)

Lemma traced_clock : traced read_clock. Proof. intros s. apply runs_tick. Qed.
Lemma traced_await : traced await. Proof. intros s. apply runs_yield. Qed.

(** The call of one method, whatever it returns. *)
Lemma traced_call {A} (m : str → ST vfs A) now (op : str → vfs_op) :
  (∀ cwd v, (m cwd v).2 = (run_op now (op cwd) v).2) → traced (vfs_call m).
Proof.
  intros E s. unfold vfs_call. pose proof (runs_fs now (op (sh_cwd s)) s) as Hr.
  rewrite <-E in Hr. by destruct (m (sh_cwd s) (sh_vfs s)).
Qed.

Lemma bind_ret_state {S A B} (m : ST S A) (b : B) s : ((_ ← m; mret b) s).2 = (m s).2.
Proof. rewrite st_bind_eq. by destruct (m s) as [[]]. Qed.

Lemma traced_write path content append : traced (vfs_write path content append).
Proof.
  apply traced_bind; [apply traced_clock|]. intros now.
  by apply (traced_call _ now (λ cwd, OpWrite path content cwd append)).
Qed.
Lemma traced_touch now path : traced (vfs_call (λ cwd, touch now path cwd)).
Proof. by apply (traced_call _ now (OpTouch path)). Qed.
Lemma traced_mkdir now path parents mode : traced (vfs_call (λ cwd, mkdir now path cwd parents mode)).
Proof.
  apply (traced_call _ now (λ cwd, OpMkdir path cwd parents mode)). intros cwd v.
  symmetry. apply bind_ret_state.
Qed.
Lemma traced_remove path recursive force : traced (vfs_call (λ cwd, remove path cwd recursive force)).
Proof.
  apply (traced_call _ 0 (λ cwd, OpRemove path cwd recursive force)). intros cwd v.
  symmetry. apply bind_ret_state.
Qed.
Lemma traced_rmdir path : traced (vfs_call (λ cwd, rmdir path cwd)).
Proof. by apply (traced_call _ 0 (OpRmdir path)). Qed.
Lemma traced_chmod path mode : traced (vfs_call (λ cwd, Vfs.chmod path mode cwd)).
Proof. by apply (traced_call _ 0 (OpChmod path mode)). Qed.

Lemma quarantine_cases filename content client_ip url disk_ok now dir :
  match quarantine_artifact w_sha256 w_md5 filename content client_ip url disk_ok now dir with
  | (Ok m, dir') => dir' = captured content dir ∧ dict_has dir' (ar_sha256 m) = true
  | (Err _, dir') => dir' = dir
  end.
Proof.
  unfold quarantine_artifact, captured. destruct (encode_utf8 content) as [data|]; [|done].
  destruct disk_ok; [|done]. split; [done|]. unfold dict_has. cbn. by rewrite dict_get_set_eq.
Qed.

Lemma set_outside_same s : set_outside (sh_log s) (sh_quarantine s) (sh_queries s) (sh_ticks s) s = s.
Proof. by destruct s. Qed.

Lemma traced_quarantine filename content url : traced (_quarantine filename content url).
Proof.
  apply traced_bind; [apply traced_clock|]. intros now s. cbn beta.
  pose proof (quarantine_cases filename content (sh_client_ip s) url (w_disk_ok (sh_ticks s)) now
                (sh_quarantine s)) as Hd.
  destruct (quarantine_artifact _ _ _ _ _ _ _ _ _) as [[m|e] dir]; cbn.
  - destruct Hd as [-> Hk]. eapply runs_trans; [apply (runs_quarantine content)|].
    case_bool_decide; [apply runs_refl|].
    by apply (runs_artifact _ (set_outside _ (captured content (sh_quarantine s)) _ _ s)).
  - rewrite Hd. assert (runs s (set_outside (sh_log s) (sh_quarantine s) (sh_queries s) (sh_ticks s) s)).
    { rewrite set_outside_same. apply runs_refl. }
    by destruct (is_OSError e).
Qed.

Lemma traced_record command path : traced (record_command command path).
Proof.
  apply traced_bind; [apply traced_clock|]. intros now.
  apply traced_bind; [|intros _; apply traced_await].
  intros s. unfold modify. cbn. destruct (w_disk_ok _).
  - apply runs_log.
  - rewrite set_outside_same. apply runs_refl.
Qed.

Lemma traced_query command context argv :
  gate argv = true → traced (generate_response command context argv).
Proof.
  intros Hg s. unfold generate_response, await. cbn.
  eapply runs_trans; [by apply (runs_query argv)|]. apply runs_yield.
Qed.

Lemma traced_start : traced (modify (set_captured [] None)).
Proof. intros s. apply runs_start. Qed.
Lemma traced_status code : traced (modify (λ s, set_state (sh_cwd s) (sh_oldpwd s) code s)).
Proof. intros s. apply runs_status. Qed.
Lemma traced_trap (f : shell → exec_extra) :
  traced (modify (λ s, set_captured (sh_artifacts s) (Some (f s)) s)).
Proof. intros s. apply runs_trap. Qed.
End Effects.

Create HintDb trace.
#[export] Hint Resolve traced_ret traced_raise traced_gets traced_reads traced_lift traced_vfs_read
  traced_clock traced_await traced_write traced_touch traced_mkdir traced_remove traced_rmdir
  traced_chmod traced_quarantine traced_record traced_start traced_status traced_trap : trace.

(** Follows the structure of a method down to its actions. *)
Ltac trace_step :=
  match goal with
  | |- traced (mbind _ _) => apply traced_bind; [|intros ?]
  | |- traced (try_else _ _ _) => apply traced_try; [|intros ?]
  | |- traced (attempt _) => apply traced_attempt
  | |- traced (if ?b then _ else _) => destruct b eqn:?
  | |- traced (match ?x with _ => _ end) => destruct x eqn:?
  | |- traced (let _ := _ in _) => cbv zeta
  end.
Ltac trace := repeat (solve [eauto with trace] || trace_step || cbv zeta beta).

(** ** The handlers *)

Section Handlers.
Context `{World}.

Lemma traced_each_path {A} (f : str → ST shell A) message paths :
  (∀ path, traced (f path)) → traced (each_path f message paths).
Proof. intros Hf. induction paths as [|p paths IH]; cbn; trace. Qed.
Lemma traced_read_each command paths : traced (read_each command paths).
Proof. induction paths as [|p paths IH]; cbn; trace. Qed.
Lemma traced_long_fields node : traced (_ls_long_fields node).
Proof. unfold _ls_long_fields. trace. Qed.
Lemma traced_ls_rows entries : traced (ls_rows entries).
Proof. pose proof traced_long_fields. induction entries as [|[]]; cbn; trace. Qed.
Lemma traced_wget_progress url filename size : traced (_wget_progress url filename size).
Proof. unfold _wget_progress. trace. Qed.

Lemma runs_change_dir raw' target announce s :
  (∃ raw, (raw ≠ lit "-" ∨ raw = sh_home s) ∧ target = canonicalize raw (sh_cwd s) (sh_home s))
  ∨ sh_oldpwd s = Some target →
  runs s (change_dir raw' target announce s).2.
Proof.
  intros Ht. unfold change_dir, try_else, vfs_read, reads.
  destruct (resolve _ _ _) as [node|e] eqn:Er.
  - destruct (is_directory node) eqn:Ed; [by eapply runs_cd|apply runs_refl].
  - destruct e; apply runs_refl.
Qed.

Lemma traced_cd args : traced (_cmd_cd args).
Proof.
  unfold _cmd_cd. destruct (bool_decide (1 < _)%nat); [trace|]. intros s. cbn zeta.
  case_bool_decide as Hd.
  - destruct (sh_oldpwd s) as [old|] eqn:Eo; [|apply runs_refl]. apply runs_change_dir. by right.
  - apply runs_change_dir. left. eexists. split; [|reflexivity]. case_bool_decide; [by right|].
    left. intros E. by apply Hd.
Qed.

Lemma traced_ls args : traced (_cmd_ls args).
Proof.
  pose proof traced_long_fields. pose proof traced_ls_rows.
  unfold _cmd_ls, _format_ls_dir, _format_ls_file. trace.
Qed.
Lemma traced_cat args stdin : traced (_cmd_cat args stdin).
Proof. pose proof traced_read_each. unfold _cmd_cat. trace. Qed.
Lemma traced_grep args stdin : traced (_cmd_grep args stdin).
Proof. pose proof traced_read_each. unfold _cmd_grep. trace. Qed.
Lemma traced_wget args : traced (_cmd_wget args).
Proof. pose proof traced_wget_progress. unfold _cmd_wget. trace. Qed.
Lemma traced_curl args : traced (_cmd_curl args).
Proof. unfold _cmd_curl. trace. Qed.
Lemma traced_exec_trap path : traced (_exec_trap path).
Proof. unfold _exec_trap. trace. Qed.

(** The commands that walk their operands. *)
Lemma traced_fs_commands :
  (∀ args, traced (_cmd_touch args)) ∧ (∀ args, traced (_cmd_mkdir args)) ∧
  (∀ args, traced (_cmd_rm args)) ∧ (∀ args, traced (_cmd_rmdir args)) ∧
  (∀ args, traced (_cmd_chmod args)).
Proof.
  repeat split; intros args; unfold _cmd_touch, _cmd_mkdir, _cmd_rm, _cmd_rmdir, _cmd_chmod; trace;
    apply traced_each_path; intros path; trace.
Qed.

Lemma traced_handlers command handler args stdin :
  dict_get _handlers command = Some handler → traced (handler args stdin).
Proof.
  intros Hh%dict_get_Some_elem. destruct traced_fs_commands as (Ht & Hm & Hr & Hd & Hc).
  pose proof traced_cd. pose proof traced_ls. pose proof traced_cat. pose proof traced_grep.
  pose proof traced_wget. pose proof traced_curl.
  unfold _handlers in Hh. repeat (apply elem_of_cons in Hh as [Hh|Hh]; [simplify_eq|]);
    [..|by apply elem_of_nil in Hh]; unfold ignoring; auto;
    unfold _cmd_pwd, _cmd_echo, _cmd_true, _cmd_false, _cmd_which, _cmd_uname, _cmd_env, _cmd_exit,
      _cmd_history, _cmd_unset; trace.
Qed.

(** ** Redirection and the model *)

Lemma traced_apply_redirection r path append name : traced (_apply_redirection r path append name).
Proof. unfold _apply_redirection. trace. Qed.
Lemma traced_stream_writes n path chunk : ∀ append, traced (stream_writes n path chunk append).
Proof. induction n as [|n IH]; intros append; cbn; trace. Qed.
Lemma traced_resolve_or_none path : traced (resolve_or_none path).
Proof. unfold resolve_or_none. trace. Qed.
Lemma traced_infinite name tokens path append :
  traced (_stream_infinite_redirect name tokens path append).
Proof.
  pose proof traced_apply_redirection. pose proof traced_stream_writes. pose proof traced_resolve_or_none.
  unfold _stream_infinite_redirect. trace.
Qed.
Lemma traced_llm_context : traced _llm_context.
Proof. unfold _llm_context. trace. Qed.

(** A question to the model brings back an answer of a provider. *)
Lemma query_ok command context argv s r :
  (generate_response command context argv s).1 = Ok r → from_provider r.
Proof.
  unfold generate_response, await. cbn. intros [= <-]. cbn.
  destruct w_provider; [right; by do 5 eexists|left; by do 2 eexists].
Qed.

Lemma traced_ask tokens command args stripped stdin key cacheable :
  gate tokens = true → traced (ask_llm tokens command args stripped stdin key cacheable).
Proof.
  intros Hg. unfold ask_llm. apply traced_bind; [apply traced_llm_context|]. intros context s. cbv zeta.
  set (line := if bool_decide (stdin = []) then stripped else _). rewrite st_bind_eq.
  pose proof (traced_query line context tokens Hg s) as Hq.
  pose proof (query_ok line context tokens s) as Hok.
  destruct (generate_response _ _ _ s) as [[r|e] s1]; [|exact Hq].
  eapply runs_trans; [exact Hq|]. specialize (Hok r eq_refl).
  apply (traced_bind _ (λ _, _)); [|trace]. case_match; [|trace].
  intros s2. by apply runs_cache.
Qed.

Lemma traced_dispatch_llm tokens command args stripped stdin :
  traced (dispatch_llm tokens command args stripped stdin).
Proof.
  pose proof traced_ask. unfold dispatch_llm.
  destruct (is_llm_eligible_command tokens) eqn:He; cbn [negb]; [|trace].
  destruct (is_safe_llm_argv tokens) eqn:Hs; cbn [negb]; [|trace].
  assert (Hg : gate tokens = true) by (unfold gate; by rewrite He, Hs). trace.
Qed.
End Handlers.

(** ** Executing lines *)

Section Recursive.
Context `{World} (exec : str → ST shell command_result) (Hexec : ∀ line, traced (exec line)).

Lemma traced_script_loop lines : ∀ outputs last, traced (script_loop exec lines outputs last).
Proof using Hexec. induction lines as [|l lines IH]; intros outputs last; cbn; trace. Qed.

Lemma traced_script lines depth : traced (_execute_script_lines exec lines depth).
Proof using Hexec.
  unfold _execute_script_lines. case_bool_decide as Hd; [trace|]. case_bool_decide; [trace|]. intros s.
  pose proof (runs_script depth s (script_loop exec lines [] ok_result (set_depth depth s)).2) as Hr.
  pose proof (traced_script_loop lines [] ok_result (set_depth depth s)) as Ht.
  repeat (rewrite st_bind_eq; unfold gets, modify, try_finally; cbn beta iota).
  destruct (script_loop _ _ _ _ _) as [[res|e] s1]; apply Hr; (lia || exact Ht).
Qed.

Lemma traced_wrapper tokens command args stdin depth :
  traced (dispatch_wrapper exec tokens command args stdin depth).
Proof using Hexec.
  pose proof traced_script. pose proof traced_resolve_or_none. unfold dispatch_wrapper. trace.
Qed.

Lemma traced_dispatch tokens stripped stdin depth :
  traced (_dispatch exec tokens stripped stdin depth).
Proof using Hexec.
  pose proof traced_wrapper. pose proof traced_exec_trap. pose proof traced_handlers.
  pose proof traced_dispatch_llm. unfold _dispatch. trace.
Qed.

Lemma traced_single_body cmd_line stripped stdin : traced (single_body exec cmd_line stripped stdin).
Proof using Hexec.
  pose proof traced_dispatch. pose proof traced_apply_redirection. pose proof traced_infinite.
  unfold single_body. trace.
Qed.

Lemma traced_finally stripped ran : traced (single_finally stripped ran).
Proof using Type. unfold single_finally. trace. Qed.

Lemma traced_single cmd_line stdin : traced (_execute_single_command exec cmd_line stdin).
Proof using Hexec.
  pose proof traced_single_body. pose proof traced_finally. unfold _execute_single_command. trace.
Qed.

Lemma traced_pipeline stages : ∀ stdin last, traced (pipeline_stages exec stages stdin last).
Proof using Hexec.
  pose proof traced_single. induction stages as [|x stages IH]; intros stdin last; cbn; trace.
Qed.
Lemma traced_conditionals segs : ∀ outputs last ok, traced (conditionals_loop exec segs outputs last ok).
Proof using Hexec.
  pose proof traced_pipeline. induction segs as [|x segs IH]; intros outputs last ok; cbn;
    unfold _execute_pipeline; trace.
Qed.
Lemma traced_statements l : ∀ outputs last, traced (statements_loop exec l outputs last).
Proof using Hexec.
  pose proof traced_conditionals. induction l as [|x l IH]; intros outputs last; cbn;
    unfold _execute_conditionals; trace.
Qed.
Lemma traced_body line : traced (execute_body exec line).
Proof using Hexec. pose proof traced_statements. unfold execute_body. trace. Qed.
End Recursive.

Lemma traced_execute `{World} fuel : ∀ line, traced (execute fuel line).
Proof.
  induction fuel as [|fuel IH]; intros line; cbn [execute]; [trace|]. by apply traced_body.
Qed.
