(* ===== verification/ShellText.v ===== *)
(** * Text through the shell

    The type discipline of the sensor: what clients type, what the model answers
    and what is kept on a session is text that has an UTF-8 encoding, and the
    shell keeps it so.  [keeps shell_text Q m] says that [m], run on such a
    state, leaves one, returns [Q], and does not raise [UnicodeEncodeError]. *)

From S2P Require Import Prelude PyStr OrdDict Path Chmod Json JsonDump DateTime ShellParse TextOps Vfs HoneypotTree.
From S2P Require Import VfsText SessionManager Regex Llm LlmProps ShellStatic Sinkhole Telemetry Shell ShellEffects.

#[local] Arguments lit : simpl never.

(** ** Answers of the model *)

(** A text whose JSON, if it is an object, has text in its members. *)
Definition json_text (v : json) : Prop :=
  match v with
  | JObj d => Forall (λ kv, match kv.2 with JStr s => text_ok s | _ => True end) d
  | _ => True
  end.
Definition sim_text (sim : llm_simulation) : Prop :=
  text_ok (sim_stdout sim) ∧ text_ok (sim_stderr sim) ∧ 0 ≤ sim_exit sim ≤ 255.

Section Answers.
Context `{Unicode}.

Definition answer_text (content : str) : Prop :=
  ∀ v, json_loads (strip (_strip_markdown_fences content)) = Some v → json_text v.

Lemma text_not_found c : text_ok c → text_ok (format_command_not_found c).
Proof.
  intros Hc. unfold format_command_not_found. pose proof (text_split_ws c Hc) as Hw.
  destruct Hw as [|w l Hw Hl]; eauto with text.
Qed.

Lemma offending_text args o : Forall text_ok args → _offending_argument args = Some o → text_ok o.
Proof.
  intros Ha Ho. unfold _offending_argument in Ho. apply find_some in Ho as [Ho _].
  apply list_elem_of_In in Ho. apply Forall_reverse in Ha. rewrite Forall_forall in Ha. by apply Ha.
Qed.

Lemma usage_text binary args : text_ok binary → Forall text_ok args → sim_text (format_binary_usage_error binary args).
Proof.
  intros Hb Ha. assert (Hn : text_ok (_binary_name binary)).
  { unfold _binary_name, or_default. eauto with text. }
  assert (Ho : ∀ o, _offending_argument (List.filter (λ arg, bool_decide (arg ≠ [])) args) = Some o → text_ok o).
  { intros o. apply offending_text. eapply incl_Forall; [apply incl_filter|done]. }
  unfold format_binary_usage_error, nl. cbv zeta.
  repeat case_match; try (specialize (Ho _ eq_refl)); (split; [apply text_nil|split; [cbn|cbn; lia]]);
    unfold _systemctl_unit_name; eauto 10 with text.
Qed.

Lemma rendered_text sim : sim_text sim → text_ok (rendered sim).
Proof.
  intros (Ho & He & _). unfold rendered. cbv zeta.
  assert (Hs : ∀ b : bool, text_ok (if b then sim_stdout sim ++ [10] else sim_stdout sim)) by (intros []; eauto with text).
  apply text_if; eauto with text.
Qed.

Lemma parse_text content binary args :
  answer_text content → text_ok binary → Forall text_ok args → sim_text (parse_llm_simulation content binary args).
Proof.
  intros Hc Hb Ha. pose proof (usage_text binary args Hb Ha) as Hu. unfold parse_llm_simulation.
  destruct (json_loads _) as [v|] eqn:E; [|done]. specialize (Hc v E). destruct v as [| | | | | |d]; try done.
  cbn in Hc. assert (Hm : ∀ k s, dict_get d k = Some (JStr s) → text_ok s).
  { intros k s Hk. apply dict_get_Some_elem in Hk. rewrite Forall_forall in Hc. exact (Hc _ Hk). }
  destruct (dict_get d (lit "stdout")) as [[]|] eqn:E1; try done.
  destruct (dict_get d (lit "stderr")) as [[]|] eqn:E2; try done.
  destruct (dict_get d (lit "exit_code")) as [[]|]; try done.
  destruct ((n <? 0) || (255 <? n)) eqn:En; [done|].
  destruct (looks_conversational s || looks_conversational s0); [done|].
  split; [exact (Hm _ _ E1)|]. split; [exact (Hm _ _ E2)|]. cbn. lia.
Qed.

Lemma to_json_text sim : sim_text sim → answer_text (to_json sim).
Proof.
  intros (Ho & He & Hn) v. destruct sim as [so se n]. rewrite strip_fences_json, strip_json, to_json_loads by done.
  intros [= <-]. cbn. by repeat constructor.
Qed.

Definition raw_text (raw : raw_answer) : Prop :=
  match raw with RawSim sim => sim_text sim | RawText s => answer_text s | RawOther => True end.
Lemma coerce_text raw binary args :
  raw_text raw → text_ok binary → Forall text_ok args → sim_text (coerce_llm_simulation raw binary args).
Proof.
  intros Hr Hb Ha. destruct raw as [sim|s|]; cbn; [|by apply parse_text|by apply usage_text].
  unfold sanitize_simulation. case_match; [by apply usage_text|done].
Qed.

Lemma tokens_text command argv : text_ok command → Forall text_ok argv → Forall text_ok (provider_tokens command argv).
Proof. intros Hc Ha. unfold provider_tokens. case_bool_decide; [by apply text_split_ws|done]. Qed.
Lemma head_text l d : Forall text_ok l → text_ok d → text_ok (match l with t :: _ => t | [] => d end).
Proof. by intros []. Qed.
Lemma drop_text n l : Forall text_ok l → Forall text_ok (drop n l). Proof. apply Forall_drop. Qed.

Lemma null_text command argv : text_ok command → Forall text_ok argv → sim_text (null_generate_response command argv).
Proof.
  intros Hc Ha. unfold null_generate_response. cbv zeta. pose proof (tokens_text command argv Hc Ha) as Ht.
  case_bool_decide.
  - apply usage_text; [by apply head_text|by apply drop_text].
  - split; [apply text_nil|]. split; [|cbn; lia]. pose proof (text_not_found command Hc). unfold nl. apply text_if; eauto with text.
Qed.
Lemma groq_text client command cwd context argv :
  (∀ req content, client req = GroqContent content → answer_text content) →
  text_ok command → Forall text_ok argv → sim_text (groq_generate_response client command cwd context argv).
Proof.
  intros Hcl Hc Ha. unfold groq_generate_response. cbv zeta. pose proof (tokens_text command argv Hc Ha) as Ht.
  destruct (client _) as [| |content] eqn:E.
  - by apply null_text.
  - apply usage_text; [by apply head_text|by apply drop_text].
  - apply parse_text; [by eapply Hcl|by apply head_text|by apply drop_text].
Qed.
End Answers.

(** ** States of text *)

Definition session_text `{Unicode} (x : ip_session) : Prop :=
  vfs_text (s_vfs x) ∧ text_ok (s_cwd x) ∧ Forall (λ kv, answer_text kv.2) (s_llm_cache x).
Definition record_text (r : command_record) : Prop :=
  text_ok (cr_timestamp r) ∧ text_ok (cr_session_id r) ∧ text_ok (cr_client_ip r) ∧ text_ok (cr_command r) ∧
  Forall text_ok (cr_captured_artifacts r) ∧ (∀ e, cr_extra r = Some e → extra_ok e).

Record shell_text `{Unicode} (s : shell) : Prop := {
  st_session : session_text (sh_session s);
  st_cwd : text_ok (sh_cwd s);
  st_oldpwd : ∀ old, sh_oldpwd s = Some old → text_ok old;
  st_home : text_ok (sh_home s);
  st_id : text_ok (sh_session_id s);
  st_ip : text_ok (sh_client_ip s);
  st_artifacts : Forall text_ok (sh_artifacts s);
  st_extra : ∀ e, sh_extra s = Some e → extra_ok e;
  st_log : Forall record_text (sh_log s) }.

Definition url_text (u : url_parts) : Prop := text_ok (url_scheme u) ∧ text_ok (url_hostname u) ∧ text_ok (url_path u).

(** What the world outside gives back is text. *)
Class TextWorld (W : World) : Prop := {
  tw_others : ∀ n x, session_text x → session_text (w_others n x);
  tw_sha256 : ∀ data, text_ok (w_sha256 data);
  tw_urlparse : ∀ u, text_ok u → fits url_text (w_urlparse u);
  tw_url_port : ∀ u, fits anything (w_url_port u);
  tw_regex : ∀ pattern flag, fits anything (w_regex pattern flag);
  tw_provider : ∀ client n req content,
    w_provider = Some client → client n req = GroqContent content → answer_text content }.

Definition res_text (r : command_result) : Prop := text_ok (r_output r).

Section Shell.
Context {W : World} {TW : TextWorld W}.
Abbreviation keeps := (VfsText.keeps shell_text).

Lemma set_session_text x s : session_text x → shell_text s → shell_text (set_session x s).
Proof. by intros Hx []. Qed.
Lemma set_state_text cwd old code s :
  text_ok cwd → (∀ o, old = Some o → text_ok o) → shell_text s → shell_text (set_state cwd old code s).
Proof. by intros Hc Ho []. Qed.
Lemma set_captured_text arts extra s :
  Forall text_ok arts → (∀ e, extra = Some e → extra_ok e) → shell_text s → shell_text (set_captured arts extra s).
Proof. by intros Ha He []. Qed.
Lemma set_outside_text log q queries ticks s : Forall record_text log → shell_text s → shell_text (set_outside log q queries ticks s).
Proof. by intros Hl []. Qed.
Lemma set_depth_text d s : shell_text s → shell_text (set_depth d s).
Proof. by intros []. Qed.

Lemma keeps_call {A} (Q : A → Prop) m :
  (∀ cwd, text_ok cwd → VfsText.keeps vfs_text Q (m cwd)) → keeps Q (vfs_call m).
Proof.
  intros Hm s Hs. unfold vfs_call. pose proof (st_session _ Hs) as (Hv & Hc & Hca).
  destruct (Hm (sh_cwd s) (st_cwd _ Hs) (sh_vfs s) Hv) as [Hr Hv']. destruct (m (sh_cwd s) (sh_vfs s)) as [r v].
  split; [done|]. by apply set_session_text.
Qed.
Lemma keeps_read {A} (Q : A → Prop) f :
  (∀ v cwd, vfs_text v → text_ok cwd → fits Q (f v cwd)) → keeps Q (vfs_read f).
Proof. intros Hf. apply keeps_reads. intros s Hs. apply Hf; [apply (st_session _ Hs)|apply (st_cwd _ Hs)]. Qed.
Lemma keeps_try_else {A B} (Q : A → Prop) (R : B → Prop) m ok h :
  keeps Q m → (∀ a, Q a → keeps R (ok a)) → (∀ e b, h e = Some b → R b) → keeps R (try_else m ok h).
Proof.
  intros Hm Hok Hh s Hs. unfold try_else. destruct (Hm s Hs) as [Hr Hs']. destruct (m s) as [[a|e] s1]; [by apply Hok|].
  destruct (h e) as [b|] eqn:E; [|done]. split; [by eapply Hh|done].
Qed.
Lemma keeps_attempt {A} (Q : A → Prop) m : keeps Q m → keeps (fits Q) (attempt m).
Proof. intros Hm s Hs. unfold attempt. destruct (Hm s Hs) as [Hr Hs']. by destruct (m s). Qed.

Lemma clock_text : keeps anything read_clock.
Proof. intros s Hs. split; [done|]. apply set_outside_text; [apply (st_log _ Hs)|done]. Qed.
Lemma await_text : keeps anything await.
Proof using TW.
  intros s Hs. split; [done|]. apply set_session_text; [apply tw_others, (st_session _ Hs)|].
  apply set_outside_text; [apply (st_log _ Hs)|done].
Qed.

Lemma quarantine_text name content url : text_ok content → keeps anything (_quarantine name content url).
Proof using TW.
  intros Hc. eapply keeps_bind; [apply clock_text|]. intros now _ s Hs.
  unfold quarantine_artifact. pose proof (encode_text content Hc) as He.
  destruct (encode_utf8 content) as [data|e]; cbn in *.
  - destruct (w_disk_ok _); cbn; (split; [done|]).
    + case_bool_decide; [apply set_outside_text; [apply (st_log _ Hs)|done]|].
      apply set_captured_text; [|apply (st_extra _ Hs)|apply set_outside_text; [apply (st_log _ Hs)|done]].
      apply Forall_app. split; [apply (st_artifacts _ Hs)|]. apply Forall_singleton, tw_sha256.
    + apply set_outside_text; [apply (st_log _ Hs)|done].
  - destruct (is_OSError e); (split; [done|]); (apply set_outside_text; [apply (st_log _ Hs)|done]).
Qed.

Lemma record_command_text command path : text_ok command → keeps anything (record_command command path).
Proof using TW.
  intros Hc. eapply keeps_bind; [apply clock_text|]. intros now _.
  eapply keeps_bind; [|intros _ _; apply await_text]. apply keeps_modify. intros s Hs. cbv zeta.
  apply set_outside_text; [|done]. destruct (w_disk_ok _); [|apply (st_log _ Hs)].
  apply Forall_app. split; [apply (st_log _ Hs)|]. apply Forall_singleton.
  unfold record_text. cbn. split; [apply text_iso|]. split; [apply (st_id _ Hs)|]. split; [apply (st_ip _ Hs)|].
  split; [done|]. split; [apply (st_artifacts _ Hs)|apply (st_extra _ Hs)].
Qed.
End Shell.
