(* ===== verification/HandlerText.v ===== *)
(** * Text through the command handlers

    Every handler takes text to text ([ShellText]): its operands, the state it
    reads and the answers of the outside are text, so what it prints, stores
    and captures is. *)

From S2P Require Import Prelude PyStr OrdDict Path Chmod Json JsonDump DateTime ShellParse TextOps Vfs HoneypotTree.
From S2P Require Import VfsText SessionManager Regex Llm LlmProps ShellStatic Sinkhole Telemetry Shell ShellEffects ShellText.

#[local] Arguments lit : simpl never.

Create HintDb typed.
#[export] Hint Resolve clock_text await_text quarantine_text record_command_text : typed.
#[export] Hint Extern 1 (anything _) => exact I : typed.

(** ** Results and messages *)

Lemma text_nl : text_ok nl. Proof. key_ok. Qed.
#[export] Hint Resolve text_nl : text.

Lemma text_ensure s : text_ok s → text_ok (_ensure_trailing_newline s).
Proof. intros Hs. unfold _ensure_trailing_newline. eauto with text. Qed.
Lemma fail_text s n : text_ok s → res_text (_fail s n). Proof. apply text_ensure. Qed.
Lemma out_text s n : text_ok s → res_text (out_result s n). Proof. done. Qed.
Lemma trap_text s n : text_ok s → res_text (trap_result s n). Proof. apply text_ensure. Qed.
Lemma ok_text : res_text ok_result. Proof. apply text_nil. Qed.
#[export] Hint Resolve text_ensure fail_text out_text trap_text ok_text : text.

Lemma text_join_outputs chunks : Forall text_ok chunks → text_ok (_join_outputs chunks).
Proof.
  unfold _join_outputs. intros Hc. assert (H0 : text_ok []) by apply text_nil. revert H0. generalize (@nil Z) as merged.
  induction Hc as [|c l Hc Hl IH]; intros merged Hm; cbn; [done|]. case_bool_decide; [by apply IH|].
  apply IH, text_app; [|done]. apply text_if; eauto with text.
Qed.
Lemma text_operands args : Forall text_ok args → Forall text_ok (operands args).
Proof. intros Ha. eapply incl_Forall; [apply incl_filter|done]. Qed.
Lemma text_operand_name p d : text_ok p → text_ok d → text_ok (operand_name p d).
Proof. intros Hp Hd. unfold operand_name. cbv zeta. eauto with text. Qed.
Lemma text_or_default s d : text_ok s → text_ok d → text_ok (or_default s d).
Proof. intros Hs Hd. unfold or_default. eauto with text. Qed.
Lemma text_try_help c p : text_ok c → text_ok p → text_ok (try_help c p).
Proof. intros Hc Hp. unfold try_help. eauto 10 with text. Qed.
#[export] Hint Resolve text_join_outputs text_operands text_operand_name text_or_default text_try_help : text.

Lemma text_nth n l d : Forall text_ok l → text_ok d → text_ok (nth n l d).
Proof. intros Hl Hd. revert n. induction Hl; intros [|n]; cbn; auto. Qed.
Lemma chunks_text chunks : Forall text_ok chunks → res_text (chunks_result chunks).
Proof. intros Hc. by apply text_concat. Qed.
#[export] Hint Resolve text_nth chunks_text : text.

(** A long concatenation, piece by piece. *)
Ltac concat_text :=
  repeat lazymatch goal with |- text_ok (_ ++ _) => apply text_app end;
  lazymatch goal with
  | |- text_ok (lit _) => key_ok
  | |- text_ok (pad_left _ _ _) => apply text_pad_left; [reflexivity|]
  | |- text_ok (pad_right _ _ _) => apply text_pad_right; [reflexivity|]
  | |- _ => idtac
  end; first [assumption|apply text_py_str|apply text_nl|idtac].

(** What an exception is answered with. *)
Ltac message := intros; unfold line in *; repeat (case_match; simplify_eq); eauto 20 with text.

Lemma mkdir_message_text p e m : text_ok p → mkdir_message p e = Some m → text_ok m.
Proof. unfold mkdir_message. message. Qed.
Lemma rm_message_text p e m : text_ok p → rm_message p e = Some m → text_ok m.
Proof. unfold rm_message. message. Qed.
Lemma rmdir_message_text p e m : text_ok p → rmdir_message p e = Some m → text_ok m.
Proof. unfold rmdir_message. message. Qed.
Lemma touch_message_text p e m : text_ok p → touch_message p e = Some m → text_ok m.
Proof. unfold touch_message. message. Qed.
Lemma chmod_message_text p e m : text_ok p → chmod_message p e = Some m → text_ok m.
Proof. unfold chmod_message. message. Qed.
Lemma read_message_text c p e m : text_ok c → text_ok p → read_message c p e = Some m → text_ok m.
Proof. unfold read_message. message. Qed.
Lemma ls_message_text p e r : text_ok p → ls_message p e = Some r → res_text r.
Proof. unfold ls_message. message. Qed.
Lemma write_error_text c e r : text_ok c → write_error c e = Some r → res_text r.
Proof. unfold write_error. message. Qed.
Lemma wget_message_text p e r : text_ok p → wget_message p e = Some r → res_text r.
Proof. unfold wget_message, write_error. message. Qed.
Lemma curl_message_text e r : curl_message e = Some r → res_text r.
Proof. unfold curl_message, write_error. message. Qed.
Lemma redirect_message_text p c e r : text_ok p → text_ok c → redirect_message p c e = Some r → res_text r.
Proof. unfold redirect_message, write_error. message. Qed.

Section Handlers.
Context {W : World} {TW : TextWorld W}.
Abbreviation keeps := (VfsText.keeps shell_text).

Lemma write_keeps path content append : text_ok path → text_ok content → keeps anything (vfs_write path content append).
Proof using Type.
  intros Hp Hc. eapply keeps_bind; [apply clock_text|]. intros now _. apply keeps_call. intros cwd Hcwd.
  by apply write_text.
Qed.

Lemma each_path_text {A} (Q : A → Prop) (f : str → ST shell A) message paths :
  (∀ p, text_ok p → keeps Q (f p)) → (∀ p e m, text_ok p → message p e = Some m → text_ok m) →
  Forall text_ok paths → keeps (Forall text_ok) (each_path f message paths).
Proof using Type.
  intros Hf Hm Hp. induction Hp as [|p l Hp Hl IH]; cbn; [by apply keeps_ret|].
  apply (keeps_bind _ text_ok).
  - apply (keeps_try_else text_ok); [|intros c Hc; by apply keeps_ret|by intros e b; apply Hm].
    eapply keeps_bind; [by apply Hf|]. intros _ _. apply keeps_ret, text_nil.
  - intros c Hc. eapply keeps_bind; [exact IH|]. intros cs Hcs. apply keeps_ret. case_bool_decide; [done|by constructor].
Qed.

(** The commands that walk their operands. *)
Lemma paths_text {A} (Q : A → Prop) (f : str → ST shell A) message paths :
  (∀ p, text_ok p → keeps Q (f p)) → (∀ p e m, text_ok p → message p e = Some m → text_ok m) →
  Forall text_ok paths → keeps res_text (chunks ← each_path f message paths; mret (chunks_result chunks)).
Proof using Type.
  intros Hf Hm Hp. eapply keeps_bind; [by eapply each_path_text|]. intros cs Hcs. apply keeps_ret. by apply chunks_text.
Qed.

Lemma clocked_text {A} (Q : A → Prop) (m : Z → str → ST vfs A) :
  (∀ now cwd, text_ok cwd → VfsText.keeps vfs_text Q (m now cwd)) → keeps Q (now ← read_clock; vfs_call (m now)).
Proof using Type. intros Hm. eapply keeps_bind; [apply clock_text|]. intros now _. apply keeps_call. apply Hm. Qed.

Lemma mkdir_typed args : Forall text_ok args → keeps res_text (_cmd_mkdir args).
Proof using Type.
  intros Ha. unfold _cmd_mkdir. cbv zeta. case_bool_decide; [apply keeps_ret; eauto 10 with text|].
  apply (paths_text anything); [|apply mkdir_message_text|by apply text_operands].
  intros p Hp. apply clocked_text. intros now cwd Hc. by apply mkdir_text.
Qed.
Lemma rm_typed args : Forall text_ok args → keeps res_text (_cmd_rm args).
Proof using Type.
  intros Ha. unfold _cmd_rm. cbv zeta. case_bool_decide; [apply keeps_ret; eauto 10 with text|].
  apply (paths_text anything); [|apply rm_message_text|by apply text_operands].
  intros p Hp. apply keeps_call. intros cwd Hc. by apply remove_text.
Qed.
Lemma rmdir_typed args : Forall text_ok args → keeps res_text (_cmd_rmdir args).
Proof using Type.
  intros Ha. unfold _cmd_rmdir. cbv zeta. case_bool_decide; [apply keeps_ret; eauto 10 with text|].
  apply (paths_text anything); [|apply rmdir_message_text|by apply text_operands].
  intros p Hp. apply keeps_call. intros cwd Hc. by apply rmdir_text.
Qed.
Lemma touch_typed args : Forall text_ok args → keeps res_text (_cmd_touch args).
Proof using Type.
  intros Ha. unfold _cmd_touch. case_bool_decide; [apply keeps_ret; eauto 10 with text|].
  apply (paths_text anything); [|apply touch_message_text|done].
  intros p Hp. apply clocked_text. intros now cwd Hc. by apply touch_text.
Qed.
Lemma chmod_typed args : Forall text_ok args → keeps res_text (_cmd_chmod args).
Proof using Type.
  intros Ha. unfold _cmd_chmod. destruct Ha as [|mode l Hm Hl]; [apply keeps_ret; eauto 10 with text|].
  case_bool_decide; [apply keeps_ret; eauto 10 with text|]. eapply keeps_try_else.
  - apply (each_path_text anything); [|apply chmod_message_text|done]. intros p Hp. apply keeps_call. intros cwd Hc. apply chmod_text.
  - intros cs Hcs. apply keeps_ret. by apply chunks_text.
  - message.
Qed.

(** ** Text of the state and of tables *)

Lemma pwd_typed args : keeps res_text (_cmd_pwd args).
Proof using Type. apply keeps_gets. intros s Hs. apply (st_cwd _ Hs). Qed.
Lemma env_typed args : keeps res_text (_cmd_env args).
Proof using Type.
  apply keeps_gets. intros s Hs. pose proof (st_cwd _ Hs). apply out_text, text_join; [apply text_nl|].
  repeat (apply Forall_cons_2; [concat_text; key_ok|]). apply Forall_nil_2.
Qed.
Lemma which_typed args : keeps res_text (_cmd_which args).
Proof using Type.
  unfold _cmd_which. cbv zeta. apply keeps_ret. case_bool_decide; [apply fail_text, text_nil|].
  case_match; [apply fail_text, text_nil|]. apply out_text, text_join; [apply text_nl|].
  apply Forall_forall. intros p (n & _ & Hn)%list_elem_of_omap. by eapply text_lookup; [|exact Hn].
Qed.
Lemma uname_typed args : keeps res_text (_cmd_uname args).
Proof using Type.
  apply keeps_ret, out_text. unfold format_uname. assert (Hf : ∀ c, text_ok (uname_field c)).
  { intros c. unfold uname_field. destruct (dict_get _ c) eqn:E; [by eapply text_lookup; [|exact E]|apply text_nil]. }
  destruct (uname_flags args) as [flags|]; [|key_ok]. cbv zeta. apply text_if; [apply Hf|].
  apply text_join; [key_ok|]. apply Forall_forall. intros p (n & _ & Hn)%list_elem_of_omap. by eapply text_lookup; [|exact Hn].
Qed.
Lemma echo_options_text args : ∀ b, Forall text_ok args → Forall text_ok (echo_options b args).2.
Proof using Type.
  induction args as [|a l IH]; intros b Ha; cbn; [done|]. case_bool_decide; [|done]. apply IH. by apply Forall_cons in Ha as [_ ?].
Qed.
Lemma echo_typed args : Forall text_ok args → keeps res_text (_cmd_echo args).
Proof using Type.
  intros Ha. unfold _cmd_echo. pose proof (echo_options_text args true Ha) as Hw. destruct (echo_options true args) as [newline words].
  apply keeps_gets. intros s Hs. cbv zeta. apply out_text.
  assert (Ht : text_ok (join [32] (map (λ arg, replace arg (lit "$?") (py_str (sh_last_exit s))) words))).
  { apply text_join; [key_ok|]. apply Forall_fmap. eapply Forall_impl; [exact Hw|]. intros w Hword. cbn. eauto with text. }
  apply text_if; eauto with text.
Qed.

(** ** Directories and files *)

Lemma change_dir_typed raw target announce : text_ok raw → text_ok target → keeps res_text (change_dir raw target announce).
Proof using Type.
  intros Hr Ht. unfold change_dir. apply (keeps_try_else inode_text).
  - apply keeps_read. intros v cwd Hv Hc. by apply resolve_text.
  - intros n Hn. destruct (is_directory n); [|apply keeps_ret; eauto 10 with text].
    eapply keeps_bind; [apply keeps_modify|intros _ _; apply keeps_ret, out_text; eauto with text].
    intros s Hs. apply set_session_text; [by destruct (st_session _ Hs) as (? & _ & ?)|].
    apply set_state_text; [done|intros o [= <-]; apply (st_cwd _ Hs)|done].
  - intros e b. message.
Qed.
Lemma cd_typed args : Forall text_ok args → keeps res_text (_cmd_cd args).
Proof using Type.
  intros Ha. unfold _cmd_cd. case_bool_decide; [apply keeps_ret; eauto 10 with text|]. intros s Hs. cbv zeta.
  assert (H0 : text_ok (nth 0 args [])) by eauto with text. case_bool_decide.
  - destruct (sh_oldpwd s) as [old|] eqn:Eo; [|by apply (keeps_ret _ res_text (_fail (lit "bash: cd: OLDPWD not set") 1)); [eauto with text|]].
    pose proof (st_oldpwd _ Hs old Eo). by apply change_dir_typed.
  - assert (Hraw : text_ok (if bool_decide (args = []) then sh_home s else nth 0 args [])).
    { apply text_if; [apply (st_home _ Hs)|done]. }
    apply change_dir_typed; [done| |done]. apply text_canonicalize; [done|apply (st_cwd _ Hs)|apply (st_home _ Hs)].
Qed.

Lemma read_each_text c paths :
  text_ok c → Forall text_ok paths → keeps (Forall (λ x, text_ok (chunk_text x))) (read_each c paths).
Proof using Type.
  intros Hc. induction 1 as [|p l Hp Hl IH]; cbn; [by apply keeps_ret|].
  apply (keeps_bind _ (λ x, text_ok (chunk_text x))).
  - apply (keeps_try_else text_ok); [|intros t Ht; by apply keeps_ret|].
    + apply keeps_read. intros v cwd Hv Hcwd. by apply read_file_text.
    + intros e b. destruct (read_message c p e) as [m|] eqn:E; [|done]. intros [= <-]. cbn. by eapply read_message_text; [..|exact E].
  - intros x Hx. eapply keeps_bind; [exact IH|]. intros cs Hcs. apply keeps_ret. by constructor.
Qed.
Lemma text_chunks l : Forall (λ x, text_ok (chunk_text x)) l → text_ok (concat (map chunk_text l)).
Proof using Type. intros Hl. by apply text_concat, Forall_fmap. Qed.

Lemma cat_typed args stdin : Forall text_ok args → text_ok stdin → keeps res_text (_cmd_cat args stdin).
Proof using Type.
  intros Ha Hs. unfold _cmd_cat. case_bool_decide; [by apply keeps_ret|].
  eapply keeps_bind; [apply read_each_text; [key_ok|done]|]. intros cs Hcs. apply keeps_ret, out_text. by apply text_chunks.
Qed.
Lemma grep_typed args stdin : Forall text_ok args → text_ok stdin → keeps res_text (_cmd_grep args stdin).
Proof using TW.
  intros Ha Hs. unfold _cmd_grep. cbv zeta. pose proof (text_operands args Ha) as Ho.
  destruct Ho as [|pattern files Hp Hf]; [apply keeps_ret; eauto 10 with text|].
  eapply keeps_bind; [apply read_each_text; [key_ok|done]|]. intros cs Hcs.
  assert (Hsub : ∀ p, text_ok (concat (map chunk_text (List.filter p cs)))).
  { intros p. apply text_chunks. eapply incl_Forall; [apply incl_filter|done]. }
  eapply keeps_bind; [apply keeps_lift, tw_regex|]. intros [search|] _; [|apply keeps_ret; eauto 10 with text].
  apply keeps_ret, out_text, text_app; [apply Hsub|]. apply text_if; [apply text_nil|]. apply text_app; [|apply text_nl].
  apply text_join; [apply text_nl|]. eapply incl_Forall; [apply incl_filter|]. apply text_splitlines.
  apply text_if; [done|apply Hsub].
Qed.

(** ** Listing *)

Definition fields_text (f : ls_fields) : Prop :=
  text_ok (f_mode f) ∧ text_ok (f_nlink f) ∧ text_ok (f_owner f) ∧ text_ok (f_group f) ∧ text_ok (f_size f) ∧ text_ok (f_mtime f).

Lemma text_perm mode : text_ok (_perm_string mode).
Proof using Type.
  assert (Hc : ∀ b x c, char_ok c = true → char_ok (perm_char b x c) = true) by (intros; unfold perm_char; by case_decide).
  assert (Ht : ∀ shift, text_ok (perm_triple mode shift)) by (intros; unfold perm_triple; repeat apply text_cons; by auto using text_nil).
  assert (Hs : ∀ bit i lo up chars, char_ok lo = true → char_ok up = true → text_ok chars →
    text_ok (special_char mode bit i lo up chars)).
  { intros bit i lo up chars Hlo Hup Hch. unfold special_char. case_decide; [done|].
    apply Forall_insert; [done|]. by case_decide. }
  unfold _perm_string. cbv zeta. repeat (apply Hs; [done|done|]). eauto with text.
Qed.
Lemma long_fields_text n : inode_text n → keeps fields_text (_ls_long_fields n).
Proof using Type.
  intros Hn. unfold _ls_long_fields. cbv zeta. pose proof (node_meta_text n Hn) as (_ & Ho & Hg).
  eapply keeps_bind; [by apply keeps_lift, node_size_text|]. intros size _.
  eapply keeps_bind; [apply clock_text|]. intros now _. apply keeps_ret. unfold fields_text. cbn [f_mode f_nlink f_owner f_group f_size f_mtime].
  split_and!; try eauto with text. apply text_app; [|apply text_perm]. destruct n as [m|m c r d|m ch]; cbn; try case_match; key_ok.
Qed.
Definition row_text (r : str * ls_fields) : Prop := text_ok r.1 ∧ fields_text r.2.
Lemma ls_rows_text entries : Forall child_text entries → keeps (Forall row_text) (ls_rows entries).
Proof using Type.
  induction 1 as [|[k n] l [Hk Hn] Hl IH]; cbn; [by apply keeps_ret|].
  eapply keeps_bind; [by apply long_fields_text|]. intros f Hf. eapply keeps_bind; [exact IH|]. intros fs Hfs.
  apply keeps_ret. by constructor.
Qed.
Lemma sum_blocks_text entries : Forall child_text entries → fits anything (sum_blocks entries).
Proof using Type.
  induction 1 as [|[k n] l [Hk Hn] Hl IH]; cbn; [done|]. unfold _ls_blocks.
  eapply (fits_bind anything); [eapply (fits_bind anything); [by apply node_size_text|done]|].
  intros b _. by eapply (fits_bind anything).
Qed.

Lemma format_dir_text n p long all : inode_text n → keeps text_ok (_format_ls_dir n p long all).
Proof using Type.
  intros Hn. unfold _format_ls_dir.
  apply (keeps_bind _ (Forall child_text)).
  { destruct all; [|by apply keeps_ret]. eapply keeps_bind; [apply (keeps_reads _ inode_text)|].
    - intros s Hs. apply resolve_text, (st_session _ Hs).
    - intros parent Hp. apply keeps_ret. repeat (apply Forall_cons_2; [split; [key_ok|done]|]). apply Forall_nil_2. }
  intros dots Hd. cbv zeta. set (entries := merge_sort name_le _).
  assert (He : Forall child_text entries).
  { unfold entries. rewrite merge_sort_Permutation. apply Forall_app. split; [done|]. eapply incl_Forall; [apply incl_filter|].
    destruct n; [constructor..|]. by apply directory_text in Hn as [_ ?]. }
  destruct (negb long).
  { apply keeps_ret, text_join; [key_ok|]. apply Forall_fmap. eapply Forall_impl; [exact He|]. by intros kv [? _]. }
  eapply keeps_bind; [by apply keeps_lift, sum_blocks_text|]. intros blocks _.
  eapply keeps_bind; [by apply ls_rows_text|]. intros rows Hrows. apply keeps_ret.
  apply text_join; [apply text_nl|]. constructor; [eauto with text|]. apply Forall_fmap. eapply Forall_impl; [exact Hrows|].
  intros r [Hk (H1 & H2 & H3 & H4 & H5 & H6)]. unfold compose. cbv beta zeta.
  concat_text.
Qed.
Lemma format_file_text n shown long : inode_text n → text_ok shown → keeps text_ok (_format_ls_file n shown long).
Proof using Type.
  intros Hn Hs. unfold _format_ls_file. destruct long; [|apply keeps_ret; by apply text_operand_name].
  eapply keeps_bind; [by apply long_fields_text|]. intros f (H1 & H2 & H3 & H4 & H5 & H6). apply keeps_ret.
  apply text_join; [key_ok|]. repeat (apply Forall_cons_2; [assumption|]). apply Forall_nil_2.
Qed.
Lemma ls_typed args : Forall text_ok args → keeps res_text (_cmd_ls args).
Proof using Type.
  intros Ha. unfold _cmd_ls. cbv zeta. pose proof (text_operands args Ha) as Ho.
  assert (Ht : text_ok (match operands args with p :: _ => p | [] => lit "." end)) by by destruct Ho; [key_ok|].
  apply (keeps_bind _ shell_text); [by apply keeps_gets|]. intros s Hs. apply (keeps_try_else inode_text).
  - apply keeps_read. intros v cwd Hv Hc. by apply resolve_text.
  - intros n Hn. apply (keeps_bind _ text_ok); [|intros t Htx; by apply keeps_ret].
    destruct (is_directory n); [by apply format_dir_text|]. apply format_file_text; [done|].
    by apply text_if; [apply (st_cwd _ Hs)|].
  - intros e b. by apply ls_message_text.
Qed.

(** ** Downloads *)

Lemma filename_text url : text_ok url → fits text_ok (filename_from_url url).
Proof using TW.
  intros Hu. unfold filename_from_url. eapply fits_bind; [by apply tw_urlparse|]. intros u (_ & _ & Hp).
  unfold filename_from_path. cbv zeta. apply text_if; [key_ok|by apply text_rsplit_last].
Qed.
Lemma saved_name_text target url : text_ok target → text_ok url → fits text_ok (saved_name target url).
Proof using TW.
  intros Ht Hu. unfold saved_name. cbv zeta. case_bool_decide; [by apply filename_text|].
  apply text_operand_name; [done|apply text_nil].
Qed.
Lemma payload_text url ip t : text_ok url → text_ok ip → text_ok (mocked_payload url ip (iso_utc_now t)).
Proof using Type. intros Hu Hi. unfold mocked_payload. pose proof (text_iso t). concat_text; key_ok. Qed.
Lemma fake_ipv4_text host : text_ok host → fits text_ok (_fake_ipv4 host).
Proof using Type.
  intros Hh. unfold _fake_ipv4. eapply fits_bind; [by apply encode_text|]. intros data _. cbv zeta. red. concat_text.
Qed.

Lemma wget_progress_text url name size : text_ok url → text_ok name → keeps text_ok (_wget_progress url name size).
Proof using TW.
  intros Hu Hn. eapply keeps_bind; [apply clock_text|]. intros t _. cbv zeta.
  assert (Hnow : text_ok (date_time (lit " ") t)) by (apply text_date_time; key_ok).
  eapply keeps_bind; [by apply keeps_lift, tw_urlparse|]. intros parts (Hsc & Hh & _).
  pose proof (text_or_default _ _ Hh Hu) as Hhost.
  eapply keeps_bind; [by apply keeps_lift, fake_ipv4_text|]. intros ip Hip.
  eapply keeps_bind; [apply keeps_lift, tw_url_port|]. intros p _. apply keeps_ret. generalize dependent (date_time (lit " ") t).
  intros now Hnow. pose proof (text_py_str size) as Hsize. apply text_concat.
  repeat (apply Forall_cons_2; [concat_text; first [assumption|key_ok]|]). apply Forall_nil_2.
Qed.
Lemma curl_progress_text size : text_ok (_curl_progress size).
Proof using Type.
  unfold _curl_progress. cbv zeta. pose proof (text_py_str size) as Hs. pose proof (text_py_str (Z.max size 1)) as Hm.
  apply text_concat. repeat (apply Forall_cons_2; [concat_text|]); first [apply Forall_nil_2|key_ok].
Qed.

Lemma wget_typed args : Forall text_ok args → keeps res_text (_cmd_wget args).
Proof using TW.
  intros Ha. unfold _cmd_wget. destruct (_parse_wget_args args) as [[url|] out] eqn:E.
  2:{ apply keeps_ret, fail_text. concat_text. }
  destruct (text_wget_args args _ _ Ha E) as [Hu Ho]. specialize (Hu url eq_refl).
  eapply keeps_bind; [apply (keeps_lift _ text_ok); destruct out as [o|]; [by apply Ho|by apply filename_text]|].
  intros target Ht. eapply keeps_bind; [apply clock_text|]. intros t _.
  eapply keeps_bind; [apply keeps_gets, st_ip|]. intros ip Hip. cbv zeta.
  pose proof (payload_text url ip t Hu Hip) as Hp. generalize dependent (mocked_payload url ip (iso_utc_now t)). intros payload Hp.
  eapply keeps_try_else; [by apply write_keeps| |by intros e b; apply wget_message_text]. intros _ _.
  eapply keeps_bind; [by apply keeps_lift, saved_name_text|]. intros name Hn.
  eapply keeps_bind; [by apply quarantine_text|]. intros _ _.
  eapply keeps_bind; [by apply keeps_lift, size_text|]. intros size _.
  eapply keeps_bind; [by apply wget_progress_text|]. intros text Htext. by apply keeps_ret.
Qed.
Lemma curl_typed args : Forall text_ok args → keeps res_text (_cmd_curl args).
Proof using TW.
  intros Ha. unfold _cmd_curl. pose proof (text_curl_args args Ha) as [Hu Ho]. generalize dependent (_parse_curl_args args).
  intros parsed Hu Ho. cbv zeta. destruct (curl_url parsed) as [url|]; [|apply keeps_ret, fail_text; key_ok].
  specialize (Hu url eq_refl). eapply keeps_bind; [apply clock_text|]. intros t _.
  eapply keeps_bind; [apply keeps_gets, st_ip|]. intros ip Hip.
  pose proof (payload_text url ip t Hu Hip) as Hp. generalize dependent (mocked_payload url ip (iso_utc_now t)). intros payload Hp.
  eapply keeps_bind; [apply (keeps_lift _ (λ o, ∀ p, o = Some p → text_ok p))|].
  { destruct (curl_output parsed) as [o|]; [exact Ho|]. destruct (curl_remote_name parsed); [|done].
    pose proof (filename_text url Hu) as Hf. destruct (filename_from_url url) as [f|e]; [|done]. by intros p [= <-]. }
  intros [target|] Ht.
  - specialize (Ht target eq_refl). eapply keeps_try_else; [by apply write_keeps| |by intros e b; apply curl_message_text].
    intros _ _. eapply keeps_bind; [by apply keeps_lift, saved_name_text|]. intros name Hn.
    eapply keeps_bind; [by apply quarantine_text|]. intros _ _. destruct (curl_silent parsed); [by apply keeps_ret, ok_text|].
    eapply keeps_bind; [by apply keeps_lift, size_text|]. intros size _. apply keeps_ret, curl_progress_text.
  - eapply keeps_bind; [by apply keeps_lift, filename_text|]. intros name Hn.
    eapply keeps_bind; [by apply quarantine_text|]. intros _ _. by apply keeps_ret.
Qed.

(** ** The table *)

Definition handler_text (h : handler) : Prop :=
  ∀ args stdin, Forall text_ok args → text_ok stdin → keeps res_text (h args stdin).

Lemma handlers_typed name h : dict_get _handlers name = Some h → handler_text h.
Proof using TW.
  intros Hh. apply dict_get_Some_elem in Hh.
  assert (Hall : Forall (λ kv, handler_text kv.2) _handlers).
  { unfold _handlers, ignoring. repeat apply Forall_cons_2; try apply Forall_nil_2; intros args stdin Ha Hs; cbn [snd];
      eauto using pwd_typed, cd_typed, ls_typed, cat_typed, grep_typed, touch_typed, echo_typed, mkdir_typed, rm_typed,
        rmdir_typed, chmod_typed, wget_typed, curl_typed, which_typed, uname_typed, env_typed;
      by apply keeps_ret, text_nil. }
  rewrite Forall_forall in Hall. exact (Hall _ Hh).
Qed.
End Handlers.
