(* ===== verification/ShellTyped.v ===== *)
(** * The shell is well typed

    [execute] takes text to text: on a state of text ([ShellText]), whatever
    line is typed, no [UnicodeEncodeError] leaves it, and what it prints, keeps
    on the session, writes to the filesystem and records has an UTF-8
    encoding. *)

From S2P Require Import Prelude PyStr OrdDict Path Chmod Json JsonDump DateTime ShellParse TextOps Vfs HoneypotTree.
From S2P Require Import VfsText SessionManager Regex Llm LlmProps ShellStatic Sinkhole Telemetry Shell ShellEffects.
From S2P Require Import ShellText HandlerText ShellSample.

#[local] Arguments lit : simpl never.

(** A result with the part of the shell that gave it. *)
Definition answer_ok (r : command_result * execution_path) : Prop := res_text r.1.

Section Shell.
Context {W : World} {TW : TextWorld W}.
Abbreviation keeps := (VfsText.keeps shell_text).

(** ** Paths, redirections and endless devices *)

Lemma exec_trap_typed path : text_ok path → keeps res_text (_exec_trap path).
Proof using Type.
  intros Hp. unfold _exec_trap. apply (keeps_try_else inode_text).
  - apply keeps_read. intros v cwd Hv Hc. by apply resolve_text.
  - intros n Hn. pose proof (node_meta_text n Hn) as (Hname & Ho & Hg). cbv zeta.
    destruct (is_directory n); [apply keeps_ret, trap_text; concat_text; key_ok|].
    case_match; [apply keeps_ret, trap_text; concat_text; key_ok|].
    eapply keeps_bind; [by apply keeps_lift, node_size_text|]. intros size _.
    eapply keeps_bind; [apply keeps_modify|intros _ _; apply keeps_ret, text_nil].
    intros s Hs. apply set_captured_text; [apply (st_artifacts _ Hs)| |done]. intros e [= <-]. split; [|by split_and!].
    apply text_canonicalize; [done|apply (st_cwd _ Hs)|apply (st_home _ Hs)].
  - intros e b. destruct (is_missing e); [|done]. intros <-%(inj Some). apply trap_text. concat_text; key_ok.
Qed.

Lemma redirection_typed r path append name :
  res_text r → text_ok path → text_ok name → keeps res_text (_apply_redirection r path append name).
Proof using TW.
  intros Hr Hp Hn. unfold _apply_redirection. cbv zeta. apply (keeps_try_else anything).
  - by apply write_keeps.
  - intros _ _. eapply keeps_bind; [by apply quarantine_text|]. intros _ _. apply keeps_ret, text_nil.
  - intros e b. apply redirect_message_text; [done|by apply text_or_default].
Qed.
Lemma infinite_operand_text args s device : Forall text_ok args → infinite_operand args s = Some device → text_ok device.
Proof using Type.
  intros Ha [Hd _]%find_some. apply list_elem_of_In in Hd. rewrite Forall_forall in Ha. by apply Ha.
Qed.
Lemma stream_writes_text n path chunk : ∀ append, text_ok path → text_ok chunk → keeps anything (stream_writes n path chunk append).
Proof using TW.
  induction n as [|n IH]; intros append Hp Hc; cbn; [by apply keeps_ret|].
  eapply keeps_bind; [by apply write_keeps|]. intros _ _. eapply keeps_bind; [apply await_text|]. intros _ _. by apply IH.
Qed.
Lemma resolve_or_none_text path : keeps (λ o, ∀ n, o = Some n → inode_text n) (resolve_or_none path).
Proof using Type.
  apply (keeps_try_else inode_text).
  - apply keeps_read. intros v cwd Hv Hc. by apply resolve_text.
  - intros n Hn. apply keeps_ret. by intros m [= <-].
  - intros e b. destruct (is_missing e); [|done]. intros [= <-]. done.
Qed.
Lemma stream_typed name tokens path append :
  text_ok name → Forall text_ok tokens → text_ok path → keeps res_text (_stream_infinite_redirect name tokens path append).
Proof using TW.
  intros Hn Ht Hp. assert (Hr : keeps res_text (_apply_redirection ok_result path append name)).
  { apply redirection_typed; [apply ok_text|done..]. }
  eapply keeps_bind; [apply (keeps_gets _ anything); done|]. intros [device|] _; [|done].
  eapply keeps_bind; [apply resolve_or_none_text|]. intros dest _. case_match; [by apply keeps_ret, ok_text|].
  eapply keeps_bind; [apply keeps_read; intros v cwd Hv Hc; by apply read_file_text|]. intros chunk Hchunk.
  case_bool_decide; [done|]. eapply keeps_bind; [by apply keeps_lift, size_text|]. intros size _.
  eapply keeps_bind; [apply (keeps_gets _ anything); done|]. intros v _. cbv zeta.
  pose proof (text_or_default _ _ Hn Hp) as Hl. apply (keeps_try_else anything); [by apply stream_writes_text| |].
  - intros _ _. apply keeps_ret, fail_text. concat_text; key_ok.
  - intros e b. by apply redirect_message_text.
Qed.

(** ** The model *)

Lemma llm_result_text sim path : sim_text sim → answer_ok (_llm_result sim path).
Proof using Type. apply rendered_text. Qed.
Lemma context_text : keeps anything _llm_context.
Proof using Type.
  apply (keeps_bind _ anything); [|intros l _; by apply keeps_ret]. apply (keeps_try_else (Forall text_ok)); [| |done].
  - apply keeps_read. intros v cwd Hv Hc. by apply list_dir_text.
  - intros l _. by apply keeps_ret.
Qed.
Lemma generate_text command context argv :
  text_ok command → Forall text_ok argv → keeps raw_text (generate_response command context argv).
Proof using TW.
  intros Hc Ha s Hs. unfold generate_response.
  assert (Hs' : shell_text (set_outside (sh_log s) (sh_quarantine s) (sh_queries s ++ [argv]) (sh_ticks s) s)).
  { apply set_outside_text; [apply (st_log _ Hs)|done]. }
  pose proof (await_text _ Hs') as [_ H]. destruct (await _) as [r s1]. split; [|exact H].
  cbn. destruct w_provider as [client|] eqn:E; [|by apply null_text].
  apply groq_text; [|done..]. intros req content. by apply tw_provider.
Qed.
Lemma ask_typed tokens command args stripped stdin key cacheable :
  Forall text_ok tokens → text_ok command → Forall text_ok args → text_ok stripped → text_ok stdin →
  keeps answer_ok (ask_llm tokens command args stripped stdin key cacheable).
Proof using TW.
  intros Ht Hc Ha Hst Hin. eapply keeps_bind; [apply context_text|]. intros context _. cbv zeta.
  eapply keeps_bind; [apply generate_text; [apply text_if; [done|]; concat_text|done]|]. intros raw Hraw.
  pose proof (coerce_text raw command args Hraw Hc Ha) as Hsim.
  eapply keeps_bind; [|intros _ _; apply keeps_ret, llm_result_text, Hsim].
  destruct cacheable; [|by apply (keeps_ret _ anything)]. apply keeps_modify. intros s Hs.
  apply set_session_text; [|done]. destruct (st_session _ Hs) as (Hv & Hcwd & Hca). split; [done|]. split; [done|].
  apply dict_set_Forall; [done|]. by apply to_json_text.
Qed.
Lemma dispatch_llm_typed tokens command args stripped stdin :
  Forall text_ok tokens → text_ok command → Forall text_ok args → text_ok stripped → text_ok stdin →
  keeps answer_ok (dispatch_llm tokens command args stripped stdin).
Proof using TW.
  intros Ht Hc Ha Hst Hin. unfold dispatch_llm.
  case_match; [by apply keeps_ret, text_ensure, text_not_found|].
  case_match; [by apply keeps_ret, llm_result_text, usage_text|]. cbv zeta.
  eapply keeps_bind; [apply (keeps_gets _ (λ o, ∀ text, o = Some text → answer_text text))|].
  { intros s Hs text Hk%dict_get_Some_elem. destruct (st_session _ Hs) as (_ & _ & Hca).
    rewrite Forall_forall in Hca. apply (Hca _ Hk). }
  intros cached Hcached. assert (Hask := ask_typed tokens command args stripped stdin (llm_cache_key stripped stdin)
    (_is_cacheable_llm_command tokens) Ht Hc Ha Hst Hin).
  destruct (_is_cacheable_llm_command tokens); [|done]. destruct cached as [text|]; [|done].
  apply keeps_ret, llm_result_text. apply (coerce_text (RawText text)); [exact (Hcached text eq_refl)|done..].
Qed.

(** ** Lines *)

Lemma joined_text outputs last : Forall text_ok outputs → res_text (joined outputs last).
Proof using Type. apply text_join_outputs. Qed.
Lemma add_output_text outputs r : Forall text_ok outputs → res_text r → Forall text_ok (add_output outputs r).
Proof using Type.
  intros Ho Hr. unfold add_output. case_bool_decide; [done|]. apply Forall_app. by split; [|apply Forall_singleton].
Qed.
Lemma text_parts (line : str) ops :
  text_ok line → Forall text_ok ops → Forall text_ok (map snd (_split_operators line ops)).
Proof using Type.
  intros Hl Ho. apply Forall_fmap. eapply Forall_impl; [by apply text_split_operators|]. by intros p [_ H].
Qed.
Lemma text_segments line : text_ok line → Forall (λ seg, text_ok (seg_command seg)) (split_conditionals line).
Proof using Type.
  intros Hl. assert (Ho : Forall text_ok [lit "&&"; lit "||"]) by (repeat (apply Forall_cons_2; [key_ok|]); apply Forall_nil_2).
  pose proof (text_parts line _ Hl Ho) as Hp. apply Forall_fmap. apply (Forall_fmap snd) in Hp. exact Hp.
Qed.
Lemma text_statements line : text_ok line → Forall text_ok (split_statements line).
Proof using Type. intros Hl. apply text_parts; [done|]. apply Forall_cons_2; [key_ok|apply Forall_nil_2]. Qed.
Lemma table_output_text tokens out : lookup_static_output tokens = Some out → text_ok out.
Proof using Type.
  destruct tokens as [|command args]; cbn [lookup_static_output]; [done|].
  destruct (dict_get _STATIC_OUTPUTS _) as [exact|] eqn:E.
  - intros <-%(inj Some). by eapply text_lookup; [|exact E].
  - unfold _lookup_static_aliases. cbv zeta. intros Ha.
    repeat (case_match; [apply (inj Some) in Ha as <-; try (case_match); key_ok|]). done.
Qed.

Section Recursive.
Variable exec : str → ST shell command_result.
Hypothesis exec_typed : ∀ line, text_ok line → keeps res_text (exec line).
#[local] Set Default Proof Using "All".

Definition loop_ok (o : list str * command_result) : Prop := Forall text_ok o.1 ∧ res_text o.2.

Lemma script_loop_text lines : ∀ outputs last,
  Forall text_ok lines → Forall text_ok outputs → res_text last → keeps loop_ok (script_loop exec lines outputs last).
Proof.
  induction lines as [|line lines IH]; intros outputs last Hl Ho Hlast; cbn [script_loop]; [by apply keeps_ret|].
  apply Forall_cons in Hl as [Hline Hl]. cbv zeta. destruct (_ || _); [by apply IH|].
  eapply keeps_bind; [by apply exec_typed, text_strip|]. intros r Hr.
  pose proof (add_output_text outputs r Ho Hr) as Hout. destruct (r_exit_session r); [by apply keeps_ret|by apply IH].
Qed.
Lemma finally_text {A} (Q : A → Prop) m f : keeps Q m → keeps anything f → keeps Q (try_finally m f).
Proof.
  intros Hm Hf s Hs. unfold try_finally. destruct (Hm s Hs) as [Hr Hs1]. destruct (m s) as [r s1].
  destruct (Hf s1 Hs1) as [He Hs2]. by destruct (f s1) as [[u|e] s2].
Qed.
Lemma script_typed lines depth : Forall text_ok lines → keeps res_text (_execute_script_lines exec lines depth).
Proof.
  intros Hl. unfold _execute_script_lines. case_bool_decide; [apply keeps_ret, fail_text; key_ok|].
  case_bool_decide; [apply keeps_ret, fail_text; key_ok|]. eapply keeps_bind; [by apply (keeps_gets _ anything)|].
  intros d _. eapply keeps_bind; [apply keeps_modify, set_depth_text|]. intros _ _.
  eapply keeps_bind; [apply finally_text|].
  - by apply script_loop_text; [|apply Forall_nil_2|apply ok_text].
  - apply keeps_modify, set_depth_text.
  - intros [outputs last] [Ho _]. apply keeps_ret. by apply joined_text.
Qed.

Lemma with_path_text m : keeps res_text m → keeps answer_ok (r ← m; mret (r, r_path r)).
Proof. intros Hm. eapply keeps_bind; [exact Hm|]. intros r Hr. by apply keeps_ret. Qed.

Lemma wrapper_typed tokens command args stdin depth :
  Forall text_ok tokens → text_ok command → Forall text_ok args → text_ok stdin →
  keeps answer_ok (dispatch_wrapper exec tokens command args stdin depth).
Proof.
  intros Ht Hc Ha Hin. unfold dispatch_wrapper. destruct (_extract_shell_c tokens) as [inner|] eqn:Ei.
  { apply with_path_text, exec_typed. exact (text_shell_c _ _ Ht Ei). }
  destruct (_shell_script_operand args) as [path|] eqn:Ep.
  - pose proof (text_script_operand _ _ Ha Ep) as Hp.
    eapply keeps_bind; [apply resolve_or_none_text|]. intros [[m|m c r d|m ch]|] _.
    + apply keeps_ret, fail_text. concat_text; key_ok.
    + eapply keeps_bind; [apply keeps_read; intros v cwd Hv Hcwd; by apply read_file_text|]. intros content Hcont.
      case_match; [apply keeps_ret, fail_text; concat_text; key_ok|]. by apply with_path_text, script_typed, text_splitlines.
    + apply keeps_ret, fail_text. concat_text; key_ok.
    + apply keeps_ret, fail_text. concat_text; key_ok.
  - case_bool_decide; [by apply with_path_text, script_typed, text_splitlines|apply keeps_ret, ok_text].
Qed.

Lemma dispatch_typed tokens stripped stdin depth :
  Forall text_ok tokens → text_ok stripped → text_ok stdin → keeps answer_ok (_dispatch exec tokens stripped stdin depth).
Proof.
  intros Ht Hs Hin. destruct Ht as [|command0 args Hc0 Ha]; [apply keeps_ret, ok_text|]. unfold _dispatch. cbv zeta.
  set (rename := bool_decide _ && _).
  assert (Hc : text_ok (if rename then _strip_system_prefix command0 else command0)).
  { apply text_if; [by apply text_strip_prefixes|done]. }
  generalize dependent (if rename then _strip_system_prefix command0 else command0). intros command Hc.
  assert (Hst : text_ok (if rename then join [32] (command :: args) else stripped)).
  { apply text_if; [|done]. by apply text_join; [key_ok|constructor]. }
  generalize dependent (if rename then join [32] (command :: args) else stripped). intros stripped' Hst.
  case_bool_decide; [by apply wrapper_typed; [constructor| | |]|].
  destruct (_is_explicit_path command); [by apply with_path_text, exec_trap_typed|].
  destruct (dict_get _handlers command) as [h|] eqn:Eh.
  - eapply keeps_bind; [by apply (handlers_typed command h Eh)|]. intros r Hr. by apply keeps_ret.
  - destruct (lookup_static_output _) as [static|] eqn:Es; [|by apply dispatch_llm_typed; [constructor| | | |]].
    apply keeps_ret. by eapply table_output_text.
Qed.

Definition ran_ok (ran : result command_result * execution_path) : Prop := fits res_text ran.1.
Lemma attempt_ran m path :
  keeps res_text m → keeps ran_ok (r ← attempt m; mret (r, path)).
Proof. intros Hm. eapply keeps_bind; [by apply keeps_attempt|]. intros r Hr. by apply keeps_ret. Qed.

Lemma body_typed cmd_line stripped stdin :
  text_ok cmd_line → text_ok stripped → text_ok stdin → keeps ran_ok (single_body exec cmd_line stripped stdin).
Proof.
  intros Hl Hst Hin. unfold single_body. destruct (shlex_split cmd_line) as [tokens|e] eqn:El.
  2:{ apply keeps_ret, fail_text, text_app; [key_ok|]. exact (text_shlex_error _ _ El). }
  pose proof (text_shlex _ _ Hl El) as Ht. destruct tokens as [|t0 tokens0]; [apply keeps_ret, ok_text|].
  generalize dependent (t0 :: tokens0). intros tokens El Ht.
  destruct (_parse_redirection tokens) as [[[command path] append]|e] eqn:Er.
  2:{ apply keeps_ret, fail_text. exact (text_redirection_error _ _ Er). }
  destruct (text_parse_redirection _ _ _ _ Ht Er) as [Hc Hp]. cbv zeta.
  assert (Hn : text_ok (nth 0 command [])) by by apply text_nth; [|apply text_nil].
  assert (Hd : text_ok (match path with None => stripped | Some _ => join [32] command end)).
  { destruct path; [|done]. by apply text_join; [key_ok|]. }
  generalize dependent (match path with None => stripped | Some _ => join [32] command end). intros dispatch_line Hd.
  eapply keeps_bind; [by apply (keeps_gets _ anything)|]. intros infinite _.
  assert (Hgo : keeps ran_ok (depth ← gets sh_depth;
    dispatched ← attempt (if bool_decide (command = []) then mret (ok_result, PVfs)
                          else _dispatch exec command dispatch_line stdin depth);
    match dispatched, path with
    | Err e, _ => mret (Err e, PVfs)
    | Ok (r, p), None => mret (Ok r, p)
    | Ok (r, p), Some target => r' ← attempt (_apply_redirection r target append (nth 0 command [])); mret (r', p)
    end)).
  { eapply keeps_bind; [by apply (keeps_gets _ anything)|]. intros depth _. eapply keeps_bind; [apply keeps_attempt|].
    - case_bool_decide; [apply (keeps_ret _ answer_ok), ok_text|by apply dispatch_typed].
    - intros [[r p]|e] Hr; [|by apply keeps_ret]. destruct path as [target|]; [|by apply keeps_ret].
      apply attempt_ran, redirection_typed; auto. }
  destruct path as [target|]; [|exact Hgo]. destruct infinite; [|exact Hgo]. apply attempt_ran, stream_typed; auto.
Qed.

Lemma single_typed cmd_line stdin :
  text_ok cmd_line → text_ok stdin → keeps res_text (_execute_single_command exec cmd_line stdin).
Proof.
  intros Hl Hin. unfold _execute_single_command. cbv zeta. pose proof (text_strip _ Hl) as Hst.
  case_bool_decide; [apply keeps_ret, ok_text|].
  eapply keeps_bind; [apply keeps_modify; intros s Hs; by apply set_captured_text|]. intros _ _.
  eapply keeps_bind; [by apply body_typed|]. intros [outcome path] Ho. unfold single_finally.
  eapply keeps_bind; [by apply record_command_text|]. intros _ _. eapply keeps_bind; [by apply keeps_lift|].
  intros r Hr. eapply keeps_bind; [apply keeps_modify|intros _ _; by apply keeps_ret].
  intros s Hs. apply set_state_text; [apply (st_cwd _ Hs)|apply (st_oldpwd _ Hs)|done].
Qed.

Lemma stages_typed stages : ∀ stdin last,
  Forall text_ok stages → text_ok stdin → res_text last → keeps res_text (pipeline_stages exec stages stdin last).
Proof.
  induction stages as [|stage rest IH]; intros stdin last Hs Hin Hlast; cbn; [by apply keeps_ret|].
  apply Forall_cons in Hs as [Hst Hs]. eapply keeps_bind; [by apply single_typed|]. intros r Hr.
  case_match; [by apply keeps_ret|by apply IH].
Qed.
Lemma pipeline_typed line : text_ok line → keeps res_text (_execute_pipeline exec line).
Proof. intros Hl. exact (stages_typed _ [] ok_result (text_split_pipeline line Hl) text_nil ok_text). Qed.
Lemma conditionals_typed segments : ∀ outputs last last_ok,
  Forall (λ seg, text_ok (seg_command seg)) segments → Forall text_ok outputs → res_text last →
  keeps res_text (conditionals_loop exec segments outputs last last_ok).
Proof.
  induction segments as [|seg rest IH]; intros outputs last last_ok Hs Ho Hl; cbn [conditionals_loop].
  { by apply keeps_ret, joined_text. }
  apply Forall_cons in Hs as [Hseg Hs]. destruct (_ || _); [by apply IH|].
  eapply keeps_bind; [by apply pipeline_typed|]. intros r Hr.
  pose proof (add_output_text outputs r Ho Hr) as Hout. cbv zeta. case_match; [by apply keeps_ret, joined_text|by apply IH].
Qed.
Lemma conditional_typed st : text_ok st → keeps res_text (_execute_conditionals exec st).
Proof. intros Hs. exact (conditionals_typed _ [] ok_result true (text_segments st Hs) (Forall_nil_2 _) ok_text). Qed.
Lemma statements_typed statements : ∀ outputs last,
  Forall text_ok statements → Forall text_ok outputs → res_text last →
  keeps res_text (statements_loop exec statements outputs last).
Proof.
  induction statements as [|st rest IH]; intros outputs last Hs Ho Hl; cbn [statements_loop].
  { by apply keeps_ret, joined_text. }
  apply Forall_cons in Hs as [Hst Hs].
  eapply keeps_bind; [by apply conditional_typed|]. intros r Hr.
  pose proof (add_output_text outputs r Ho Hr) as Hout. cbv zeta. case_match; [by apply keeps_ret, joined_text|by apply IH].
Qed.
Lemma body_line_typed line : text_ok line → keeps res_text (execute_body exec line).
Proof.
  intros Hl. unfold execute_body. cbv zeta. pose proof (text_strip _ Hl) as Hst.
  case_bool_decide; [apply keeps_ret, ok_text|].
  by apply statements_typed; [apply text_statements|apply Forall_nil_2|apply ok_text].
Qed.
End Recursive.

Lemma execute_text fuel : ∀ line, text_ok line → keeps res_text (execute fuel line).
Proof using TW.
  induction fuel as [|fuel IH]; intros line Hl; cbn; [by apply keeps_raise|]. by apply body_line_typed.
Qed.
End Shell.

(** ** The theorem *)

Lemma shell_init_text `{Unicode} record sid ip dir :
  session_text record → text_ok sid → text_ok ip → shell_text (shell_init record sid ip dir).
Proof.
  intros Hr Hs Hi. pose proof Hr as ((_ & Hh) & Hc & _).
  by split; cbn; try done.
Qed.

(** C4: type soundness of the shell with respect to text.  On a shell whose
    files, names, directories, cached answers and records have an UTF-8
    encoding, and in a world that gives it text ([TextWorld]: every answer of the
    model is text, escapes included, the parts of a URL are, what the client's
    other connections leave on the session is, and parsing of URLs and regular
    expressions does not raise [UnicodeEncodeError]), any typed line of text is
    executed without [UnicodeEncodeError];
    its output can be encoded for the client, and the shell that remains is
    again one of text: every file and name of the tree, the working
    directories, the cache, the captured digests and the session log.  An answer of the model with
    an escaped surrogate is no text and does raise ([surrogate_answer_raises]). *)
Theorem execute_is_typed {W : World} {TW : TextWorld W} fuel line s :
  text_ok line → shell_text s →
  let (r, s') := execute fuel line s in
  r ≠ Err UnicodeEncodeError ∧ (∀ c, r = Ok c → ∃ data, encode_utf8 (r_output c) = Ok data) ∧ shell_text s'.
Proof.
  intros Hl Hs. pose proof (execute_text fuel line Hl s Hs) as [Hr Hs'].
  destruct (execute fuel line s) as [[c|e] s']; cbn in Hr, Hs'.
  - split; [done|]. split; [|done]. intros c' [= <-]. eexists. unfold encode_utf8. by rewrite text_encodable.
  - split; [by intros [= ->]|]. by split.
Qed.

(** A world with a model behind the shell. *)
Definition typed_world : World := {|
  w_unicode := ascii_only;
  w_clock := λ n, 1775812500000000 + 1000000 * Z.of_nat n;
  w_others := λ _ x, x;
  w_disk_ok := λ _, true;
  w_sha256 := λ _, "9f86d081";
  w_md5 := λ _, "098f6bcd";
  w_sha256_bytes := λ _, [10; 20; 30; 40];
  w_urlparse := λ url, Ok (UrlParts "http" "example.com" "/a.sh");
  w_url_port := λ _, Ok None;
  w_regex := λ _ _, Err (OverflowError "the repetition number is too large");
  w_provider := Some (λ _ _, GroqContent (to_json (LLMSimulation "Timezone=Etc/UTC" [] 0))) |}.

Lemma typed_world_text : TextWorld typed_world.
Proof.
  split; try done.
  - intros data. key_ok.
  - intros u Hu. cbn. repeat split; key_ok.
  - intros client n req content [= <-] [= <-]. apply to_json_text. repeat split; key_ok || (cbn; lia).
Qed.

Definition typed_shell : shell := shell_init (IpSession create_default_vfs [] 0 DEFAULT_HOME) "ab12" "198.51.100.7" [].
Definition typed_line : str :=
  lit "echo caf" ++ [233] ++ lit " > notes; timedatectl show | cat >> notes; wget -q http://example.com/a.sh && cat notes".

Lemma typed_shell_text : @shell_text ascii_only typed_shell.
Proof.
  apply shell_init_text; [|key_ok|key_ok]. split; [exact tree_text|]. split; [key_ok|constructor].
Qed.

Lemma execute_is_typed_witness :
  text_ok typed_line ∧ @shell_text ascii_only typed_shell ∧
  let (r, s') := @execute typed_world 100 typed_line typed_shell in
  r ≠ Err UnicodeEncodeError ∧ (∀ c, r = Ok c → ∃ data, encode_utf8 (r_output c) = Ok data) ∧ @shell_text ascii_only s'.
Proof.
  assert (Hl : text_ok typed_line) by key_ok. split; [exact Hl|]. split; [exact typed_shell_text|].
  exact (@execute_is_typed typed_world typed_world_text 100 typed_line typed_shell Hl typed_shell_text).
Defined.


(** ** Outside the hypothesis

    What the class [TextWorld] asks of the outside is needed: an answer of the
    model may spell a lone surrogate, and redirecting it raises. *)

Definition answering (content : str) : World := {|
  w_unicode := ascii_only;
  w_clock := @w_clock typed_world;
  w_others := @w_others typed_world;
  w_disk_ok := @w_disk_ok typed_world;
  w_sha256 := @w_sha256 typed_world;
  w_md5 := @w_md5 typed_world;
  w_sha256_bytes := @w_sha256_bytes typed_world;
  w_urlparse := @w_urlparse typed_world;
  w_url_port := @w_url_port typed_world;
  w_regex := @w_regex typed_world;
  w_provider := Some (λ _ _, GroqContent content) |}.

Definition surrogate_answer : str :=
  lit "{" ++ dump_str "stdout" ++ lit ": " ++ [34] ++ lit "\ud800" ++ [34] ++ lit ", " ++
  dump_str "stderr" ++ lit ": " ++ dump_str [] ++ lit ", " ++ dump_str "exit_code" ++ lit ": 0}".

Example surrogate_answer_raises :
  (@execute (answering surrogate_answer) 100 "timedatectl show > f" typed_shell).1 = Err UnicodeEncodeError.
Proof. vm_compute. reflexivity. Qed.
(** The same answer written as an escape of an ordinary character is kept. *)
Example escaped_answer_kept :
  (r_output <$> (@execute (answering (replace surrogate_answer "ud800" "u00e9")) 100
     "timedatectl show > f; cat f" typed_shell).1) = Ok [233; 10].
Proof. vm_compute. reflexivity. Qed.

(** [re.compile] raises more than [re.error], and [_cmd_grep] answers only
    that. *)
Example regex_overflow_raises :
  (@execute typed_world 100 "grep 'a{99999999999}' /etc/passwd" typed_shell).1
    = Err (OverflowError "the repetition number is too large").
Proof. vm_compute. reflexivity. Qed.
