(* ===== verification/ShellFuel.v ===== *)
(** * How much stack a line needs

    [execute] runs on a stack of [fuel] nested calls.  A larger stack never
    changes an answer ([stack_is_enough]); and a line whose nested shells are
    all spelled out in it needs exactly the depth it is written with
    ([closed_line_terminates]).  Text piped into a shell is run at the same
    script depth, so no stack is enough for a script that pipes itself into
    [sh]; see the findings. *)

From S2P Require Import Prelude PyStr Path Vfs SessionManager.
From S2P Require Import Regex Llm ShellParse ShellStatic DateTime Sinkhole Shell ShellSample.

#[local] Arguments lit : simpl never.

Section Fuel.
Context `{World}.

(** [m2] does what [m1] does unless [m1] runs out of stack. *)
Definition agrees {A} (m1 m2 : ST shell A) : Prop :=
  ∀ s, (m1 s).1 ≠ Err RecursionError → m2 s = m1 s.

Lemma agrees_refl {A} (m : ST shell A) : agrees m m. Proof. done. Qed.

Lemma agrees_bind {A B} (m1 m2 : ST shell A) (f1 f2 : A → ST shell B) :
  agrees m1 m2 → (∀ a, agrees (f1 a) (f2 a)) → agrees (m1 ≫= f1) (m2 ≫= f2).
Proof.
  intros Hm Hf s. rewrite !st_bind_eq. specialize (Hm s). destruct (m1 s) as [[a|e] s1]; cbn in *.
  - rewrite Hm by done. apply Hf.
  - intros He. by rewrite Hm by congruence.
Qed.

Lemma agrees_finally {A} (m1 m2 : ST shell A) (f : shell → shell) :
  agrees m1 m2 → agrees (try_finally m1 (modify f)) (try_finally m2 (modify f)).
Proof.
  intros Hm s Hs. unfold try_finally in *. specialize (Hm s). destruct (m1 s) as [r s1]. cbn in *.
  by rewrite Hm.
Qed.

(** The same for the body of a command, which returns the exception. *)
Definition agrees_caught {A} (m1 m2 : ST shell (result A * execution_path)) : Prop :=
  ∀ s, m2 s = m1 s ∨ ∃ path s1, m1 s = (Ok (Err RecursionError, path), s1).
End Fuel.

Ltac agree_step :=
  match goal with
  | |- agrees ?m ?m => apply agrees_refl
  | H : ∀ _, agrees _ _ |- agrees _ _ => simple apply H
  | H : ∀ _ _, agrees _ _ |- agrees _ _ => simple apply H
  | H : ∀ _ _ _, agrees _ _ |- agrees _ _ => simple apply H
  | H : ∀ _ _ _ _, agrees _ _ |- agrees _ _ => simple apply H
  | |- agrees (mbind _ _) (mbind _ _) => apply agrees_bind; [|intros ?]
  | |- agrees (if ?b then _ else _) _ => destruct b eqn:?
  | |- agrees (match ?x with _ => _ end) _ => destruct x eqn:?
  end.
Ltac agree := repeat (agree_step || cbv zeta beta).

Section Monotone.
Context `{World} (exec1 exec2 : str → ST shell command_result).
Context (Hexec : ∀ line, agrees (exec1 line) (exec2 line)).

Lemma agrees_script_loop lines : ∀ outputs last,
  agrees (script_loop exec1 lines outputs last) (script_loop exec2 lines outputs last).
Proof using Hexec. induction lines as [|l lines IH]; intros outputs last; cbn; agree. Qed.

Lemma agrees_script lines depth :
  agrees (_execute_script_lines exec1 lines depth) (_execute_script_lines exec2 lines depth).
Proof using Hexec.
  pose proof agrees_script_loop. unfold _execute_script_lines. agree. by apply agrees_finally.
Qed.

Lemma agrees_dispatch tokens stripped stdin depth :
  agrees (_dispatch exec1 tokens stripped stdin depth) (_dispatch exec2 tokens stripped stdin depth).
Proof using Hexec. pose proof agrees_script. unfold _dispatch, dispatch_wrapper. agree. Qed.

Lemma caught_attempt {A B} (m1 m2 : ST shell A) (f : result A → ST shell (result B * execution_path)) s :
  agrees m1 m2 → (∀ s1, f (Err RecursionError) s1 = (Ok (Err RecursionError, PVfs), s1)) →
  (attempt m2 ≫= f) s = (attempt m1 ≫= f) s ∨
  ∃ path s1, (attempt m1 ≫= f) s = (Ok (Err RecursionError, path), s1).
Proof.
  intros Hm Hf. rewrite !st_bind_eq. unfold attempt. specialize (Hm s).
  destruct (m1 s) as [r s1]. cbn in *. destruct r as [a|e].
  - left. by rewrite Hm.
  - destruct (decide (e = RecursionError)) as [->|Hne]; [right; rewrite Hf; eauto|].
    left. rewrite Hm; [done|congruence].
Qed.

Lemma caught_single_body cmd_line stripped stdin :
  agrees_caught (single_body exec1 cmd_line stripped stdin) (single_body exec2 cmd_line stripped stdin).
Proof using Hexec.
  intros s. unfold single_body. destruct (shlex_split cmd_line) as [[|t ts]|e]; [by left| |by left].
  destruct (_parse_redirection _) as [[[ct redirect] append]|e]; [|by left]. cbv zeta.
  rewrite !st_bind_eq. unfold gets. cbn beta iota.
  assert (Hd : ∀ tokens line depth, agrees
    (if bool_decide (tokens = []) then mret (ok_result, PVfs) else _dispatch exec1 tokens line stdin depth)
    (if bool_decide (tokens = []) then mret (ok_result, PVfs) else _dispatch exec2 tokens line stdin depth)).
  { intros. case_bool_decide; [done|]. apply agrees_dispatch. }
  destruct redirect as [target|], (_is_infinite_cat ct s); [by left|..];
    rewrite !st_bind_eq; cbn beta iota; (apply caught_attempt; [apply Hd|done]).
Qed.

Lemma finally_raises stripped e path s : (single_finally stripped (Err e, path) s).1 = Err e.
Proof. reflexivity. Qed.

Lemma agrees_single cmd_line stdin :
  agrees (_execute_single_command exec1 cmd_line stdin) (_execute_single_command exec2 cmd_line stdin).
Proof using Hexec.
  unfold _execute_single_command. cbv zeta. case_bool_decide; [done|].
  apply agrees_bind; [done|]. intros _ s. rewrite !st_bind_eq.
  destruct (caught_single_body cmd_line (strip cmd_line) stdin s) as [->|(path & s1 & ->)]; [done|].
  intros []. apply finally_raises.
Qed.

Lemma agrees_pipeline stages : ∀ stdin last,
  agrees (pipeline_stages exec1 stages stdin last) (pipeline_stages exec2 stages stdin last).
Proof using Hexec.
  pose proof agrees_single. induction stages as [|x stages IH]; intros stdin last; cbn; agree.
Qed.
Lemma agrees_conditionals segs : ∀ outputs last ok,
  agrees (conditionals_loop exec1 segs outputs last ok) (conditionals_loop exec2 segs outputs last ok).
Proof using Hexec.
  pose proof agrees_pipeline. induction segs as [|x segs IH]; intros outputs last ok; cbn;
    unfold _execute_pipeline; agree.
Qed.
Lemma agrees_body line : agrees (execute_body exec1 line) (execute_body exec2 line).
Proof using Hexec.
  pose proof agrees_conditionals. unfold execute_body. cbv zeta. case_bool_decide; [done|].
  generalize (@nil str), ok_result. induction (split_statements (strip line)) as [|x l IH];
    intros outputs last; cbn; unfold _execute_conditionals; agree.
Qed.
End Monotone.

(** A line is closed at depth [n] when the shells it names are given their text
    by [-c], itself closed at depth [n - 1]. *)
Definition resolved_command (command : str) : str :=
  let basename := _strip_system_prefix command in
  if bool_decide (basename ≠ command) && bool_decide (basename ∈ _KNOWN_COMMANDS)
  then basename else command.

Definition closed_stage (closed : str → bool) (stage : str) : bool :=
  match shlex_split stage with
  | Ok tokens =>
      match _parse_redirection tokens with
      | Ok (command :: args, _, _) =>
          let command := resolved_command command in
          negb (bool_decide (command ∈ _SHELL_WRAPPERS)) ||
          match _extract_shell_c (command :: args) with Some inner => closed inner | None => false end
      | _ => true
      end
  | Err _ => true
  end.
Fixpoint closed_line (n : nat) (line : str) : bool :=
  match n with
  | O => false
  | S n =>
      forallb (λ statement, forallb (λ segment, forallb (closed_stage (closed_line n))
          (split_pipeline (seg_command segment))) (split_conditionals statement))
        (split_statements (strip line))
  end.

(** Two computations that are the same. *)
Definition same {S A} (m1 m2 : ST S A) : Prop := ∀ s, m1 s = m2 s.
Lemma same_bind {S A B} (m1 m2 : ST S A) (f1 f2 : A → ST S B) :
  same m1 m2 → (∀ a, same (f1 a) (f2 a)) → same (m1 ≫= f1) (m2 ≫= f2).
Proof. intros Hm Hf s. rewrite !st_bind_eq, Hm. destruct (m2 s) as [[a|e] s1]; [apply Hf|done]. Qed.

Section Closed.
Context `{World} (exec1 exec2 : str → ST shell command_result) (closed : str → bool).
Context (Hexec : ∀ line, closed line = true → same (exec1 line) (exec2 line)).

Lemma same_dispatch command args stripped stdin depth :
  let c := resolved_command command in
  negb (bool_decide (c ∈ _SHELL_WRAPPERS)) ||
    match _extract_shell_c (c :: args) with Some inner => closed inner | None => false end = true →
  same (_dispatch exec1 (command :: args) stripped stdin depth)
       (_dispatch exec2 (command :: args) stripped stdin depth).
Proof using Hexec.
  cbv zeta. intros Hc. unfold _dispatch. cbv zeta. fold (resolved_command command).
  set (c := resolved_command command) in *.
  destruct (bool_decide (c ∈ _SHELL_WRAPPERS)); [|by intros s]. cbn [negb orb] in Hc.
  unfold dispatch_wrapper. destruct (_extract_shell_c _) as [inner|]; [|by intros s].
  apply same_bind; [by apply Hexec|by intros r s].
Qed.

Lemma same_single cmd_line stdin :
  closed_stage closed cmd_line = true →
  same (_execute_single_command exec1 cmd_line stdin) (_execute_single_command exec2 cmd_line stdin).
Proof using Hexec.
  unfold closed_stage. intros Hc. unfold _execute_single_command. cbv zeta.
  case_bool_decide; [by intros s|]. apply same_bind; [by intros s|]. intros _. apply same_bind; [|by intros r s].
  unfold single_body. destruct (shlex_split cmd_line) as [[|t ts]|e]; [by intros s| |by intros s].
  destruct (_parse_redirection _) as [[[ct redirect] append]|e]; [|by intros s]. cbv zeta.
  apply same_bind; [by intros s|]. intros infinite.
  assert (Hd : ∀ line depth,
    same (attempt (if bool_decide (ct = []) then mret (ok_result, PVfs) else _dispatch exec1 ct line stdin depth))
         (attempt (if bool_decide (ct = []) then mret (ok_result, PVfs) else _dispatch exec2 ct line stdin depth))).
  { intros line depth s. unfold attempt. case_bool_decide; [done|]. destruct ct as [|c args]; [done|].
    by rewrite (same_dispatch c args line stdin depth Hc s). }
  destruct redirect as [target|], infinite; [by intros s|..];
    (apply same_bind; [by intros s|]; intros depth; apply same_bind; [apply Hd|by intros ? ?]).
Qed.

Lemma same_pipeline stages : ∀ stdin last,
  forallb (closed_stage closed) stages = true →
  same (pipeline_stages exec1 stages stdin last) (pipeline_stages exec2 stages stdin last).
Proof using Hexec.
  induction stages as [|x stages IH]; intros stdin last; [by intros _ s|]. cbn. intros [Hx Hs]%andb_true_iff.
  apply same_bind; [by apply same_single|]. intros a. destruct (r_exit_session a); [by intros|]. by apply IH.
Qed.

Lemma same_conditionals segs : ∀ outputs last ok,
  forallb (λ seg, forallb (closed_stage closed) (split_pipeline (seg_command seg))) segs = true →
  same (conditionals_loop exec1 segs outputs last ok) (conditionals_loop exec2 segs outputs last ok).
Proof using Hexec.
  induction segs as [|x segs IH]; intros outputs last ok; [by intros _ s|]. cbn. intros [Hx Hs]%andb_true_iff.
  destruct (_ || _); [by apply IH|]. apply same_bind; [by apply same_pipeline|]. intros a.
  destruct (r_exit_session a); [by intros|]. by apply IH.
Qed.

Lemma same_statements l : ∀ outputs last,
  forallb (λ statement, forallb (λ seg, forallb (closed_stage closed) (split_pipeline (seg_command seg)))
    (split_conditionals statement)) l = true →
  same (statements_loop exec1 l outputs last) (statements_loop exec2 l outputs last).
Proof using Hexec.
  induction l as [|x l IH]; intros outputs last; [by intros _ s|]. cbn. intros [Hx Hs]%andb_true_iff.
  apply same_bind; [unfold _execute_conditionals; by apply same_conditionals|]. intros a.
  destruct (r_exit_session a); [by intros|]. by apply IH.
Qed.
End Closed.

Section Claims.
Context `{World}.

(** The stack bound of the model is only a bound: when a line is answered
    without running out of stack, every larger stack gives the same answer and
    the same state. *)
Theorem stack_is_enough n m line s :
  (n ≤ m)%nat → (execute n line s).1 ≠ Err RecursionError → execute m line s = execute n line s.
Proof.
  intros Hnm. revert line s. change (∀ line, agrees (execute n line) (execute m line)).
  revert m Hnm. induction n as [|n IH]; intros m Hnm line; [by intros s []|].
  destruct m as [|m]; [lia|]. apply agrees_body. apply IH. lia.
Qed.

(** C38: Termination: a line whose nested shells are all written out with [-c],
    [n] deep, is executed completely within [n] nested calls; a line without
    [sh], [bash] and [dash] needs one. *)
Theorem closed_line_terminates n m line s :
  closed_line n line = true → (n ≤ m)%nat → execute m line s = execute n line s.
Proof.
  revert m line s. induction n as [|n IH]; intros m line s Hc Hnm; [done|].
  destruct m as [|m]; [lia|]. cbn [execute]. unfold execute_body. cbv zeta. case_bool_decide; [done|].
  assert (Hs : same (statements_loop (execute m) (split_statements (strip line)) [] ok_result)
                    (statements_loop (execute n) (split_statements (strip line)) [] ok_result)).
  { apply (same_statements (execute m) (execute n) (closed_line n)); [|exact Hc].
    intros inner Hi s'. apply IH; [done|lia]. }
  exact (Hs s).
Qed.
End Claims.

Lemma stack_is_enough_witness :
  @execute sample_world 7 "echo a | cat && pwd" sample_shell =
  @execute sample_world 1 "echo a | cat && pwd" sample_shell.
Proof. apply (@stack_is_enough sample_world 1 7); [lia|vm_compute; discriminate]. Defined.

Lemma closed_line_terminates_witness :
  let line : str := "cd /tmp; bash -c 'sh -c ls && /bin/sh -c pwd'" in
  @execute sample_world 9 line sample_shell = @execute sample_world 3 line sample_shell.
Proof.
  intros line. apply (@closed_line_terminates sample_world); [vm_compute; reflexivity|lia].
Defined.

(** ** Behaviours worth knowing *)

(** A script that pipes itself into [sh] runs at its own script depth, so the
    limit on nested scripts never stops it: it uses up any stack. *)
Example piped_script_recurses :
  (@execute sample_world 40 "echo 'cat f|sh' > f; sh f" sample_shell).1 = Err RecursionError.
Proof. vm_compute. reflexivity. Qed.

(** Reading an endless device that has been removed raises out of the shell. *)
Example removed_device_raises :
  (@execute sample_world 1 "rm /dev/zero; cat /dev/zero > x" sample_shell).1 =
  Err (FileNotFoundError "/dev/zero").
Proof. vm_compute. reflexivity. Qed.
