(* ===== verification/ShellBounds.v ===== *)
(** * Exit codes

    Every command, and every line, ends with an exit status that a process can
    have: the handlers' constants, the fixed answers' table, and what the model
    says after validation. *)

From S2P Require Import Prelude PyStr OrdDict Path Chmod Vfs HoneypotTree SessionManager.
From S2P Require Import Regex Json Llm LlmProps ShellParse ShellStatic DateTime Sinkhole Shell ShellEffects ShellSample.

#[local] Arguments lit : simpl never.

Definition status_ok (r : command_result) : Prop := 0 ≤ r_exit_code r ≤ 255.

Section Bounds.
Context `{World}.

(** Every value a computation returns satisfies [P]. *)
Definition ensures {A} (P : A → Prop) (m : ST shell A) : Prop := ∀ s a s', m s = (Ok a, s') → P a.

Lemma ensures_ret {A} (P : A → Prop) a : P a → ensures P (mret a).
Proof. by intros Ha s a' s' [= <- <-]. Qed.
Lemma ensures_gets {A} (P : A → Prop) (f : shell → A) : (∀ s, P (f s)) → ensures P (gets f).
Proof. by intros Hf s a' s' [= <- <-]. Qed.
Lemma ensures_bind {A B} (P : B → Prop) (m : ST shell A) (f : A → ST shell B) :
  (∀ a, ensures P (f a)) → ensures P (m ≫= f).
Proof. intros Hf s b s' (a & s1 & _ & E)%st_bind_ok. by eapply Hf. Qed.
(** The value of the first step matters. *)
Lemma ensures_bind_with {A B} (Q : A → Prop) (P : B → Prop) (m : ST shell A) (f : A → ST shell B) :
  ensures Q m → (∀ a, Q a → ensures P (f a)) → ensures P (m ≫= f).
Proof. intros Hm Hf s b s' (a & s1 & Ea & E)%st_bind_ok. eapply Hf; [by eapply Hm|done]. Qed.
Lemma ensures_try {A B} (P : B → Prop) (m : ST shell A) (ok : A → ST shell B) h :
  (∀ a, ensures P (ok a)) → (∀ e b, h e = Some b → P b) → ensures P (try_else m ok h).
Proof.
  intros Hok Hh s b s'. unfold try_else. destruct (m s) as [[a|e] s1]; [apply Hok|].
  destruct (h e) as [b'|] eqn:E; [|done]. intros [= <- <-]. by eapply Hh.
Qed.

Lemma fail_status text code : 0 ≤ code ≤ 255 → status_ok (_fail text code).
Proof. done. Qed.
End Bounds.

Create HintDb status.
Ltac status_step :=
  match goal with
  | |- ensures _ (mret _) => apply ensures_ret
  | |- ensures _ (gets _) => apply ensures_gets; intros ?
  | |- ensures _ (mbind _ _) => apply ensures_bind; intros ?
  | |- ensures _ (try_else _ _ _) => apply ensures_try; [intros ?|intros [] ?; cbn; intros; simplify_eq]
  | |- ensures _ (if ?b then _ else _) => destruct b
  | |- ensures _ (match ?x with _ => _ end) => destruct x
  | |- ensures _ _ => cbv zeta beta
  | |- status_ok _ => unfold status_ok; repeat (case_match; cbn); cbn; lia
  end.
Ltac status := repeat (solve [eauto with status] || status_step).

Section Handlers.
Context `{World}.

Lemma simple_status args stdin :
  ensures status_ok (_cmd_pwd args) ∧ ensures status_ok (_cmd_true args) ∧
  ensures status_ok (_cmd_false args) ∧ ensures status_ok (_cmd_exit args) ∧
  ensures status_ok (_cmd_history args) ∧ ensures status_ok (_cmd_unset args) ∧
  ensures status_ok (_cmd_uname args) ∧ ensures status_ok (_cmd_env args) ∧
  ensures status_ok (_cmd_which args) ∧ ensures status_ok (_cmd_cat args stdin).
Proof.
  repeat match goal with |- _ ∧ _ => apply conj end; unfold _cmd_pwd, _cmd_true, _cmd_false, _cmd_exit, _cmd_history, _cmd_unset, _cmd_uname,
    _cmd_env, _cmd_which, _cmd_cat; status.
Qed.
Lemma echo_status args : ensures status_ok (_cmd_echo args).
Proof. unfold _cmd_echo. status. Qed.
Lemma cd_status args : ensures status_ok (_cmd_cd args).
Proof.
  unfold _cmd_cd. status. intros s r s'. cbn zeta.
  assert (Hgo : ∀ raw target announce, ensures status_ok (change_dir raw target announce)).
  { intros. unfold change_dir. status. }
  destruct (bool_decide _); [destruct (sh_oldpwd s)|]; [apply Hgo| |apply Hgo].
  by intros [= <- <-].
Qed.

Lemma fs_status args :
  ensures status_ok (_cmd_mkdir args) ∧ ensures status_ok (_cmd_rm args) ∧
  ensures status_ok (_cmd_rmdir args) ∧ ensures status_ok (_cmd_touch args).
Proof.
  repeat match goal with |- _ ∧ _ => apply conj end;
    unfold _cmd_mkdir, _cmd_rm, _cmd_rmdir, _cmd_touch, chunks_result; status.
Qed.
Lemma chmod_status args : ensures status_ok (_cmd_chmod args).
Proof. unfold _cmd_chmod, chunks_result. status. Qed.
Lemma grep_status args stdin : ensures status_ok (_cmd_grep args stdin).
Proof. unfold _cmd_grep. status. Qed.
Lemma ls_status args : ensures status_ok (_cmd_ls args).
Proof. unfold _cmd_ls. status. Qed.
Lemma download_status args : ensures status_ok (_cmd_wget args) ∧ ensures status_ok (_cmd_curl args).
Proof. apply conj; unfold _cmd_wget, _cmd_curl; status. Qed.

Lemma handlers_status command handler args stdin :
  dict_get _handlers command = Some handler → ensures status_ok (handler args stdin).
Proof.
  intros Hh%dict_get_Some_elem. destruct (simple_status args stdin) as (?&?&?&?&?&?&?&?&?&?).
  destruct (fs_status args) as (?&?&?&?). destruct (download_status args) as [? ?].
  pose proof (echo_status args). pose proof (cd_status args). pose proof (ls_status args).
  pose proof (chmod_status args). pose proof (grep_status args stdin).
  unfold _handlers in Hh. repeat (apply elem_of_cons in Hh as [Hh|Hh]; [by simplify_eq|]).
  by apply elem_of_nil in Hh.
Qed.

Lemma static_status tokens : 0 ≤ lookup_static_exit_code tokens ≤ 255.
Proof.
  unfold lookup_static_exit_code. destruct (dict_get _STATIC_EXIT_CODES tokens) as [c|] eqn:E; cbn; [|lia].
  apply dict_get_Some_elem in E. revert E.
  assert (Hall : Forall (λ kv, 0 ≤ kv.2 ≤ 255) _STATIC_EXIT_CODES) by vm_decide.
  rewrite Forall_forall in Hall. intros E. by apply (Hall (tokens, c)).
Qed.

Definition path_status_ok (rp : command_result * execution_path) : Prop := status_ok rp.1.

Lemma trap_status path : ensures status_ok (_exec_trap path).
Proof. unfold _exec_trap. status. Qed.

Lemma redirection_status r path append name :
  status_ok r → ensures status_ok (_apply_redirection r path append name).
Proof. intros Hr. unfold _apply_redirection. status. Qed.

Lemma infinite_status name tokens path append :
  ensures status_ok (_stream_infinite_redirect name tokens path append).
Proof.
  pose proof (λ path append, redirection_status ok_result path append name (fail_status [] 0 ltac:(lia))).
  unfold _stream_infinite_redirect. status.
Qed.

Lemma llm_status tokens command args stripped stdin :
  ensures path_status_ok (dispatch_llm tokens command args stripped stdin).
Proof.
  assert (Hraw : ∀ raw path, from_provider raw →
    path_status_ok (_llm_result (coerce_llm_simulation raw command args) path)).
  { intros raw path Hr. unfold path_status_ok, status_ok. cbn -[coerce_llm_simulation].
    destruct (coerce_cases raw command args Hr) as [->|[_ ?]]; [apply usage_error_exit|done]. }
  unfold dispatch_llm. destruct (negb _); [by apply ensures_ret|].
  destruct (negb _); [apply ensures_ret; apply usage_error_exit|]. cbv zeta.
  apply ensures_bind. intros cached. destruct (match _is_cacheable_llm_command tokens with true => cached | _ => None end) as [text|].
  - apply ensures_ret. by apply (Hraw (RawText text)).
  - unfold ask_llm. apply ensures_bind. intros context. cbv zeta.
    apply (ensures_bind_with from_provider).
    + intros s raw s' E. eapply query_ok. by rewrite E.
    + intros raw Hr. apply ensures_bind. intros _. apply ensures_ret. by apply Hraw.
Qed.
End Handlers.

(** ** Lines *)

Section Lines.
Context `{World} (exec : str → ST shell command_result) (Hexec : ∀ line, ensures status_ok (exec line)).

Lemma script_loop_status lines : ∀ outputs last,
  status_ok last → ensures (λ res, status_ok res.2) (script_loop exec lines outputs last).
Proof using Hexec.
  induction lines as [|l lines IH]; intros outputs last Hl; cbn; [by apply ensures_ret|].
  destruct (_ || _); [by apply IH|]. apply (ensures_bind_with status_ok); [done|].
  intros r Hr. destruct (r_exit_session r); [by apply ensures_ret|by apply IH].
Qed.

Lemma script_status lines depth : ensures status_ok (_execute_script_lines exec lines depth).
Proof using Hexec.
  unfold _execute_script_lines. destruct (bool_decide _); [by apply ensures_ret|].
  destruct (bool_decide _); [by apply ensures_ret|]. apply ensures_bind. intros previous.
  apply ensures_bind. intros _. apply (ensures_bind_with (λ res : list str * command_result, status_ok res.2)).
  - intros s res s'. unfold try_finally. destruct (script_loop exec lines [] ok_result s) as [[r|e] s1] eqn:E; [|done].
    intros [= <- <-]. by apply (script_loop_status lines [] ok_result ltac:(done)) in E.
  - intros res Hres. by apply ensures_ret.
Qed.

Lemma dispatch_status tokens stripped stdin depth :
  ensures path_status_ok (_dispatch exec tokens stripped stdin depth).
Proof using Hexec.
  assert (Hpair : ∀ (m : ST shell command_result) (f : command_result → execution_path),
    ensures status_ok m → ensures path_status_ok (r ← m; mret (r, f r))).
  { intros m f Hm. apply (ensures_bind_with status_ok); [done|]. intros r Hr. by apply ensures_ret. }
  unfold _dispatch. destruct tokens as [|command0 args]; [by apply ensures_ret|]. cbv zeta.
  generalize (if bool_decide (_strip_system_prefix command0 ≠ command0) &&
    bool_decide (_strip_system_prefix command0 ∈ _KNOWN_COMMANDS) then _strip_system_prefix command0 else command0).
  intros command. destruct (bool_decide (command ∈ _SHELL_WRAPPERS)).
  - unfold dispatch_wrapper. destruct (_extract_shell_c _); [by apply Hpair|].
    destruct (_shell_script_operand args) as [p|].
    + apply ensures_bind. intros node. destruct node as [[| |]|]; try by apply ensures_ret.
      apply ensures_bind. intros text. destruct (_is_binary_script text); [by apply ensures_ret|].
      apply Hpair, script_status.
    + destruct (bool_decide (stdin ≠ [])); [apply Hpair, script_status|by apply ensures_ret].
  - destruct (_is_explicit_path command); [apply Hpair, trap_status|].
    destruct (dict_get _handlers command) eqn:E; [by apply Hpair, (handlers_status command)|].
    destruct (lookup_static_output _); [apply ensures_ret, static_status|apply llm_status].
Qed.

Lemma caught_status (m : ST shell command_result) s r s' :
  ensures status_ok m → attempt m s = (Ok (Ok r), s') → status_ok r.
Proof using Type.
  intros Hm. unfold attempt. destruct (m s) as [x s1] eqn:E. intros [= -> <-]. by apply Hm in E.
Qed.

Lemma single_body_status cmd_line stripped stdin s outcome path s' r :
  single_body exec cmd_line stripped stdin s = (Ok (outcome, path), s') → outcome = Ok r → status_ok r.
Proof using Hexec.
  intros E ->. unfold single_body in E.
  destruct (shlex_split cmd_line) as [[|t ts]|e]; [by injection E as <- <- <-| |by injection E as <- <- <-].
  destruct (_parse_redirection _) as [[[ct redirect] append]|e]; [|by injection E as <- <- <-].
  cbv zeta in E. apply st_bind_ok in E as (infinite & s1 & _ & E).
  assert (Hd : ∀ line depth s r path s', attempt (if bool_decide (ct = []) then mret (ok_result, PVfs)
    else _dispatch exec ct line stdin depth) s = (Ok (Ok (r, path)), s') → status_ok r).
  { intros line depth s0 r0 path0 s2. unfold attempt. destruct (bool_decide _); [by intros [= <- <- <-]|].
    destruct (_dispatch _ _ _ _ _ _) as [x s3] eqn:Ed. intros [= -> <-].
    by apply (dispatch_status _ _ _ _ _ _ _ Ed). }
  destruct redirect as [target|], infinite;
    try (apply st_bind_ok in E as (depth & s2 & _ & E); apply st_bind_ok in E as (d & s3 & Ed & E);
         destruct d as [[r0 path0]|e]; [apply Hd in Ed|done]).
  - apply st_bind_ok in E as (x & s2 & Ex & [= -> <- <-]).
    eapply caught_status; [|exact Ex]. apply infinite_status.
  - apply st_bind_ok in E as (x & s4 & Ex & [= -> <- <-]).
    eapply caught_status; [|exact Ex]. by apply redirection_status.
  - by injection E as <- <- <-.
  - by injection E as <- <- <-.
Qed.

Lemma single_status cmd_line stdin : ensures status_ok (_execute_single_command exec cmd_line stdin).
Proof using Hexec.
  unfold _execute_single_command. cbv zeta. destruct (bool_decide _); [by apply ensures_ret|].
  apply ensures_bind. intros _.
  apply (ensures_bind_with (λ ran : result command_result * execution_path, ∀ r, ran.1 = Ok r → status_ok r)).
  - intros s [outcome path] s' E r. by eapply single_body_status.
  - intros [outcome path] Hran. unfold single_finally. apply ensures_bind. intros _.
    apply (ensures_bind_with status_ok).
    + intros s r s' [= -> <-]. by apply Hran.
    + intros r Hr. apply ensures_bind. intros _. by apply ensures_ret.
Qed.

Lemma pipeline_status stages : ∀ stdin last,
  status_ok last → ensures status_ok (pipeline_stages exec stages stdin last).
Proof using Hexec.
  induction stages as [|x stages IH]; intros stdin last Hl; cbn; [by apply ensures_ret|].
  apply (ensures_bind_with status_ok); [apply single_status|]. intros r Hr.
  destruct (r_exit_session r); [by apply ensures_ret|by apply IH].
Qed.
Lemma conditionals_status segs : ∀ outputs last ok,
  status_ok last → ensures status_ok (conditionals_loop exec segs outputs last ok).
Proof using Hexec.
  induction segs as [|x segs IH]; intros outputs last ok Hl; cbn; [by apply ensures_ret|].
  destruct (_ || _); [by apply IH|]. apply (ensures_bind_with status_ok); [unfold _execute_pipeline; by apply pipeline_status|].
  intros r Hr. destruct (r_exit_session r); [by apply ensures_ret|by apply IH].
Qed.
Lemma statements_status l : ∀ outputs last,
  status_ok last → ensures status_ok (statements_loop exec l outputs last).
Proof using Hexec.
  induction l as [|x l IH]; intros outputs last Hl; cbn; [by apply ensures_ret|].
  apply (ensures_bind_with status_ok); [unfold _execute_conditionals; by apply conditionals_status|].
  intros r Hr. destruct (r_exit_session r); [by apply ensures_ret|by apply IH].
Qed.
End Lines.

Lemma exit_code_status `{World} fuel line : ensures status_ok (execute fuel line).
Proof.
  revert line. induction fuel as [|fuel IH]; intros line; [by intros s r s'|]. cbn [execute]. unfold execute_body.
  destruct (bool_decide _); [by apply ensures_ret|]. by apply statements_status.
Qed.

(** C28: Every line ends with a status a process can exit with: whatever is typed
    and whatever the model or the cache answers, the exit code of a line that
    returns is between 0 and 255. *)
Theorem exit_code_bounds `{World} fuel line s r s' :
  execute fuel line s = (Ok r, s') → 0 ≤ r_exit_code r ≤ 255.
Proof. apply exit_code_status. Qed.

Lemma exit_code_bounds_witness :
  let out := @execute sample_world 2 "systemctl status nginx" sample_shell in
  ∃ r, out.1 = Ok r ∧ r_exit_code r = 3 ∧ 0 ≤ r_exit_code r ≤ 255.
Proof.
  intros out. destruct out as [[r|e] s'] eqn:E; [|vm_compute in E; discriminate].
  exists r. split; [done|]. split; [vm_compute in E; by injection E as <- _|].
  exact (@exit_code_bounds sample_world 2 "systemctl status nginx" sample_shell r s' E).
Defined.
