(* ===== verification/ShellDiverge.v ===== *)
(** * A script that never stops

    Text piped into [sh] is run at the script depth of the pipeline itself, so
    the limit on nested scripts does not stop a file that pipes itself into a
    shell: no stack is large enough. *)

From S2P Require Import Prelude PyStr OrdDict Path Chmod Vfs HoneypotTree SessionManager VfsProps.
From S2P Require Import Regex Llm ShellParse ShellStatic DateTime Sinkhole Shell ShellEffects ShellSample.

#[local] Arguments lit : simpl never.

Definition piped : str := "cat f|sh".
(** The file [f] of the working directory holds that line. *)
Definition reads_script (s : shell) : Prop := read_file (sh_vfs s) "f" (sh_cwd s) = Ok (piped ++ nl).

Section Diverge.
Context `{World}.
Context (Hothers : ∀ n x cwd, read_file (s_vfs x) "f" cwd = Ok (piped ++ nl) →
                              read_file (s_vfs (w_others n x)) "f" cwd = Ok (piped ++ nl)).
Context (exec : str → ST shell command_result).

(** Recording a command leaves the script and the depth alone. *)
Lemma finally_state stripped outcome path s :
  reads_script s →
  ∃ s', single_finally stripped (outcome, path) s =
    (match outcome with
     | Ok r => Ok (CommandResult (r_output r) (r_exit_session r) (r_exit_code r) path)
     | Err e => Err e
     end, s') ∧ reads_script s' ∧ sh_depth s' = sh_depth s.
Proof using Hothers.
  intros Hs. unfold single_finally, record_command. repeat (rewrite st_bind_eq; cbn).
  destruct outcome as [r|e]; repeat (rewrite ?st_bind_eq; cbn); (eexists; split; [reflexivity|]);
    (split; [|done]); by apply Hothers.
Qed.

Lemma cat_dispatch line stdin depth s :
  reads_script s →
  _dispatch exec [lit "cat"; lit "f"] line stdin depth s = (Ok (out_result (piped ++ nl) 0, PVfs), s).
Proof using Type.
  intros Hs. unfold _dispatch. cbv zeta.
  change (bool_decide (_strip_system_prefix (lit "cat") ≠ lit "cat")) with false. cbn [andb].
  change (bool_decide (lit "cat" ∈ _SHELL_WRAPPERS)) with false.
  change (_is_explicit_path (lit "cat")) with false. cbn match.
  change (dict_get _handlers (lit "cat")) with (Some _cmd_cat). cbn match. rewrite st_bind_eq.
  assert (E : _cmd_cat [lit "f"] stdin s = (Ok (out_result (piped ++ nl) 0), s)).
  { unfold _cmd_cat. rewrite bool_decide_eq_false_2 by done. rewrite st_bind_eq. cbn [read_each].
    rewrite st_bind_eq. unfold try_else, vfs_read, reads. rewrite Hs. cbn. done. }
  by rewrite E.
Qed.

Lemma cat_stage s :
  reads_script s →
  ∃ s', _execute_single_command exec "cat f" [] s = (Ok (out_result (piped ++ nl) 0), s') ∧
    reads_script s' ∧ sh_depth s' = sh_depth s.
Proof using Hothers.
  intros Hs. unfold _execute_single_command. cbv zeta.
  change (strip (lit "cat f")) with (lit "cat f"). rewrite bool_decide_eq_false_2 by done.
  rewrite st_bind_eq. unfold modify. cbn beta iota. rewrite st_bind_eq.
  assert (Eb : single_body exec (lit "cat f") (lit "cat f") [] (set_captured [] None s) =
    (Ok (Ok (out_result (piped ++ nl) 0), PVfs), set_captured [] None s)).
  { unfold single_body. change (shlex_split (lit "cat f")) with (Ok [lit "cat"; lit "f"]). cbn match.
    change (_parse_redirection [lit "cat"; lit "f"]) with (Ok ([lit "cat"; lit "f"], @None str, false)).
    cbv zeta. cbn match. rewrite st_bind_eq. unfold gets at 1. cbn beta iota. rewrite st_bind_eq.
    unfold gets at 1. cbn beta iota. rewrite st_bind_eq. unfold attempt.
    rewrite bool_decide_eq_false_2 by done. by rewrite cat_dispatch. }
  rewrite Eb. exact (finally_state (lit "cat f") (Ok (out_result (piped ++ nl) 0)) PVfs (set_captured [] None s) Hs).
Qed.

(** The shell that reads the line from its standard input. *)
Lemma sh_stage s :
  (∀ s', reads_script s' → sh_depth s' = sh_depth s → (exec piped s').1 = Err RecursionError) →
  (sh_depth s ≤ _MAX_SCRIPT_DEPTH)%nat → reads_script s →
  (_execute_single_command exec "sh" (piped ++ nl) s).1 = Err RecursionError.
Proof using Type.
  intros Hexec Hd Hs. unfold _execute_single_command. cbv zeta.
  change (strip (lit "sh")) with (lit "sh"). rewrite bool_decide_eq_false_2 by done.
  rewrite st_bind_eq. unfold modify. cbn beta iota. rewrite st_bind_eq. set (s1 := set_captured [] None s).
  assert (Eb : ∃ s2, single_body exec (lit "sh") (lit "sh") (piped ++ nl) s1 = (Ok (Err RecursionError, PVfs), s2)).
  { unfold single_body. change (shlex_split (lit "sh")) with (Ok [lit "sh"]). cbn match.
    change (_parse_redirection [lit "sh"]) with (Ok ([lit "sh"], @None str, false)).
    cbv zeta. cbn match. rewrite st_bind_eq. unfold gets at 1. cbn beta iota. rewrite st_bind_eq.
    unfold gets at 1. cbn beta iota. rewrite st_bind_eq. unfold attempt.
    rewrite bool_decide_eq_false_2 by done. unfold _dispatch. cbv zeta.
    change (bool_decide (_strip_system_prefix (lit "sh") ≠ lit "sh")) with false. cbn [andb].
    change (bool_decide (lit "sh" ∈ _SHELL_WRAPPERS)) with true. cbn match. unfold dispatch_wrapper.
    change (_extract_shell_c [lit "sh"]) with (@None str). change (_shell_script_operand []) with (@None str).
    cbn match. rewrite bool_decide_eq_true_2 by done. rewrite st_bind_eq.
    unfold _execute_script_lines. rewrite bool_decide_eq_false_2 by (cbn; lia).
    change (splitlines (piped ++ nl)) with [piped]. rewrite bool_decide_eq_false_2 by vm_decide.
    rewrite st_bind_eq. unfold gets at 1. cbn beta iota. rewrite st_bind_eq. unfold modify at 1. cbn beta iota.
    rewrite st_bind_eq. unfold try_finally. cbn [script_loop]. change (strip piped) with piped.
    change (bool_decide (piped = []) || startswith piped (lit "#")) with false. cbn match. rewrite st_bind_eq.
    specialize (Hexec (set_depth (sh_depth s1) s1) Hs eq_refl).
    destruct (exec piped _) as [r s3]. cbn in Hexec. subst r. eexists. reflexivity. }
  destruct Eb as [s2 ->]. reflexivity.
Qed.
End Diverge.

(** C39: A client can run a script that no stack is large enough for: in a
    directory whose file [f] holds the line [cat f|sh], running that line never
    ends, whatever the bound on the recursion; the limit on nested scripts,
    which is meant to stop it, does not apply to text piped into a shell. *)
Theorem piped_script_never_stops `{World} fuel s :
  (∀ n x cwd, read_file (s_vfs x) "f" cwd = Ok (piped ++ nl) →
              read_file (s_vfs (w_others n x)) "f" cwd = Ok (piped ++ nl)) →
  (sh_depth s ≤ _MAX_SCRIPT_DEPTH)%nat → reads_script s →
  (execute fuel piped s).1 = Err RecursionError.
Proof.
  intros Hothers. revert s. induction fuel as [|fuel IH]; intros s Hd Hs; [done|].
  cbn [execute]. unfold execute_body. cbv zeta. change (strip piped) with piped.
  rewrite bool_decide_eq_false_2 by done.
  change (split_statements piped) with [piped]. cbn [statements_loop]. rewrite st_bind_eq.
  unfold _execute_conditionals.
  change (split_conditionals piped) with [ChainSegment piped []]. cbn [conditionals_loop seg_operator seg_command].
  change (_ || _) with false. cbn match. rewrite st_bind_eq. unfold _execute_pipeline.
  change (split_pipeline piped) with [lit "cat f"; lit "sh"]. cbn [pipeline_stages]. rewrite st_bind_eq.
  destruct (cat_stage Hothers (execute fuel) s Hs) as (s1 & -> & Hs1 & Hd1). cbn [r_exit_session out_result].
  cbn [r_output]. rewrite st_bind_eq.
  pose proof (sh_stage (execute fuel) s1) as Hsh. rewrite Hd1 in Hsh.
  specialize (Hsh ltac:(intros s' Hr E; apply IH; [by rewrite E|done]) Hd Hs1).
  destruct (_execute_single_command _ _ _ _) as [r s2]. cbn in Hsh. by subst r.
Qed.

Lemma piped_script_never_stops_witness :
  let s := (@execute sample_world 1 "echo 'cat f|sh' > f" sample_shell).2 in
  (@execute sample_world 100 piped s).1 = Err RecursionError.
Proof.
  intros s. apply (@piped_script_never_stops sample_world 100 s).
  - intros n x cwd E. exact E.
  - vm_compute. lia.
  - vm_compute. reflexivity.
Defined.
