(* ===== verification/Sharing.v ===== *)
(** * Sessions shared by several shells

    The connections of one client work on one session object, each stopping only
    where it awaits.  [interference] is what a shell may find has happened to the
    session at an await; it is also all that a shell does to the session itself,
    so that any number of them can run side by side. *)

From S2P Require Import Prelude PyStr OrdDict Path Chmod Vfs HoneypotTree Lru SessionManager VfsTree VfsSpec VfsProps.
From S2P Require Import Regex Json Llm LlmProps ShellParse ShellStatic DateTime Sinkhole Shell ShellEffects ShellSample ShellProps.

#[local] Arguments lit : simpl never.

(** ** The home directory of a filesystem never changes *)

Definition keeps_home {A} (m : ST vfs A) : Prop := ∀ v, v_home (m v).2 = v_home v.

Lemma home_bind {A B} (m : ST vfs A) (f : A → ST vfs B) :
  keeps_home m → (∀ a, keeps_home (f a)) → keeps_home (m ≫= f).
Proof.
  intros Hm Hf v. rewrite st_bind_eq. specialize (Hm v). destruct (m v) as [[a|e] v1]; [|done].
  by rewrite Hf.
Qed.
Lemma home_try {A} (m : ST vfs A) h :
  keeps_home m → (∀ e, keeps_home (h e)) → keeps_home (try_except m h).
Proof.
  intros Hm Hh v. unfold try_except. specialize (Hm v). destruct (m v) as [[a|e] v1]; [done|].
  by rewrite Hh.
Qed.
Lemma home_release node : keeps_home (_release_dynamic_bytes node).
Proof. intros v. unfold _release_dynamic_bytes. by destruct (release_bytes node (v_used v)). Qed.

Ltac keep_home :=
  repeat match goal with
  | |- keeps_home (mbind _ _) => apply home_bind; [|intros ?]
  | |- keeps_home (try_except _ _) => apply home_try; [|intros ?]
  | |- keeps_home (_release_dynamic_bytes _) => apply home_release
  | |- keeps_home (match ?x with _ => _ end) => destruct x
  | |- keeps_home _ => cbv zeta; by intros ?
  end.

Lemma run_op_home now op v : v_home (run_op now op v).2 = v_home v.
Proof.
  revert v. change (keeps_home (run_op now op)). destruct op; cbn [run_op].
  - unfold touch. keep_home.
  - unfold write_file, _account_write. keep_home.
  - apply home_bind; [|by intros ? ?]. unfold mkdir. keep_home. intros v. by destruct (mkdir_parents _ _ _ _ _ _).
  - apply home_bind; [|by intros ? ?]. unfold remove. keep_home.
  - unfold rmdir. keep_home.
  - unfold chmod. keep_home.
Qed.

(** ** Interference *)

(** A session object in order. *)
Record session_fine (x : ip_session) : Prop := {
  sf_ok : session_ok x;
  sf_home : canonical (v_home (s_vfs x)) }.

(** The other connections do nothing. *)
Definition quiet (W : World) : Prop := ∀ n x, @w_others W n x = x.

Inductive interference : ip_session → ip_session → Prop :=
  | if_refl x : interference x x
  | if_trans x y z : interference x y → interference y z → interference x z
  | if_shell (W : World) s s' :         (* another shell takes some steps *)
      quiet W → shell_ok s → @runs W s s' → interference (sh_session s) (sh_session s')
  | if_seen now x : interference x (set_last_seen now x)
  | if_leave cwd x :                    (* another shell ends and leaves its directory *)
      canonical cwd → interference x (with_cwd cwd x).

(** The world whose other connections interfere, and nothing worse. *)
Definition interfering (W : World) : Prop := ∀ n x, session_ok x → interference x (@w_others W n x).

Lemma runs_home (W : World) s s' :
  (∀ n x, session_ok x → v_home (s_vfs (@w_others W n x)) = v_home (s_vfs x)) →
  (∀ n x, session_ok x → session_ok (@w_others W n x)) →
  @runs W s s' → shell_ok s → v_home (sh_vfs s') = v_home (sh_vfs s).
Proof.
  intros Hh Hok. induction 1; intros Hs; try done.
  - rewrite IHruns2, IHruns1; [done|done|]. by eapply (@runs_ok W Hok).
  - apply IHruns. by destruct Hs.
  - apply run_op_home.
  - apply Hh, Hs.
Qed.

Lemma interference_ok x y :
  interference x y → session_ok x → session_ok y ∧ v_home (s_vfs y) = v_home (s_vfs x).
Proof.
  induction 1 as [x|x y z _ IH1 _ IH2|W s s' HW Hs Hr|now x|cwd x Hc]; intros Hx; [done|..].
  - destruct (IH1 Hx) as [Hy Ey], (IH2 Hy) as [Hz Ez]. split; [done|congruence].
  - assert (Hq : ∀ n x, session_ok x → session_ok (@w_others W n x)) by (intros n x0; by rewrite HW).
    split; [by apply (@runs_ok W Hq s s' Hr Hs)|].
    apply (runs_home W s s'); [intros n x0 _; by rewrite HW|done..].
  - split; [|done]. by destruct Hx.
  - split; [|done]. by destruct Hx.
Qed.

Lemma interference_fine x y : interference x y → session_fine x → session_fine y.
Proof. intros Hi [Hx Hh]. destruct (interference_ok x y Hi Hx) as [Hy E]. split; [done|by rewrite E]. Qed.

Lemma interfering_ok W : interfering W → ∀ n x, session_ok x → session_ok (@w_others W n x).
Proof. intros HW n x Hx. by eapply interference_ok; [apply HW|]. Qed.

(** ** A shell is no worse than the interference it bears *)

Definition hush (W : World) : World := {|
  w_unicode := @w_unicode W; w_clock := @w_clock W; w_others := λ _ x, x; w_disk_ok := @w_disk_ok W;
  w_sha256 := @w_sha256 W; w_md5 := @w_md5 W; w_sha256_bytes := @w_sha256_bytes W;
  w_urlparse := @w_urlparse W; w_url_port := @w_url_port W; w_regex := @w_regex W;
  w_provider := @w_provider W |}.
Lemma hush_quiet W : quiet (hush W). Proof. by intros n x. Qed.

Lemma shell_interferes W s s' :
  interfering W → @runs W s s' → shell_ok s → interference (sh_session s) (sh_session s').
Proof.
  intros HW.
  induction 1 as [s|s1 s2 s3 H1 IH1 H2 IH2|d s s' Hd Hr IH|now op s|target s node Ht Hn Hdir|code s|s|extra s|s|s
    |content s|digest s|time command path s|argv s Hg|key raw binary args s Hraw]; intros Hs;
    try apply (if_refl (sh_session s)).
  - eapply if_trans; [by apply IH1|]. apply IH2.
    exact (@runs_ok W (interfering_ok W HW) s1 s2 H1 Hs).
  - change (interference (sh_session (set_depth d s)) (sh_session s')).
    apply IH. by destruct Hs.
  - apply (if_shell (hush W) s _ (hush_quiet W) Hs). apply (@runs_fs (hush W)).
  - apply (if_shell (hush W) s _ (hush_quiet W) Hs). by apply (@runs_cd (hush W) target s node).
  - by apply HW, Hs.
  - apply (if_shell (hush W) s _ (hush_quiet W) Hs). by apply (@runs_cache (hush W)).
Qed.

(** C16: The connections of a client can share its session: a shell that finds, at
    each of its awaits, whatever a series of steps of other shells, in any
    interleaving, may have done to the session, does to the session itself
    nothing but what such a series could do, whether its line returns or raises;
    so the assumption under which one shell works is what all of them ensure. *)
Theorem connections_share_safely (W : World) fuel line s :
  interfering W → shell_ok s → canonical (v_home (sh_vfs s)) →
  let s' := (@execute W fuel line s).2 in
  interference (sh_session s) (sh_session s') ∧ session_fine (sh_session s') ∧ shell_ok s'.
Proof.
  intros HW Hs Hh s'. pose proof (@traced_execute W fuel line s) as Hr. fold s' in Hr.
  pose proof (shell_interferes W s s' HW Hr Hs) as Hi. split; [done|]. split.
  - eapply interference_fine; [done|]. split; [apply Hs|done].
  - exact (@runs_ok W (interfering_ok W HW) s s' Hr Hs).
Qed.

(** Another connection writes a file each time this one awaits. *)
Definition busy_world : World := {|
  w_unicode := @w_unicode sample_world; w_clock := @w_clock sample_world;
  w_others := λ n x, sh_session (@execute sample_world 1 "cd /tmp; echo hi >> log" (set_session x sample_shell)).2;
  w_disk_ok := λ _, true;
  w_sha256 := @w_sha256 sample_world; w_md5 := @w_md5 sample_world;
  w_sha256_bytes := @w_sha256_bytes sample_world; w_urlparse := @w_urlparse sample_world;
  w_url_port := @w_url_port sample_world; w_regex := @w_regex sample_world; w_provider := None |}.

Lemma connections_share_safely_witness :
  let s' := (@execute busy_world 2 "pwd; cat /tmp/log" sample_shell).2 in
  interference (sh_session sample_shell) (sh_session s') ∧ session_fine (sh_session s') ∧
  read_file (sh_vfs s') "/tmp/log" "/" = Ok (lit "hi" ++ nl ++ lit "hi" ++ nl ).
Proof.
  intros s'.
  destruct (@connections_share_safely busy_world 2 "pwd; cat /tmp/log" sample_shell) as (Hi & Hf & _).
  - intros n x Hx.
    apply (if_shell sample_world (set_session x sample_shell)
      (@execute sample_world 1 "cd /tmp; echo hi >> log" (set_session x sample_shell)).2).
    + by intros m y.
    + destruct sample_ok. by split.
    + apply (@traced_execute sample_world).
  - apply sample_ok.
  - apply (ok_home _ sample_ok).
  - split; [exact Hi|]. split; [exact Hf|]. vm_compute. reflexivity.
Defined.
