(* ===== verification/ShellInterp.v ===== *)
(** * What a program means

    [execute] takes a line of text apart again at every level: statements at
    [;], pipelines at [&&] and [||], stages at [|], words by [shlex].
    [interpret] is the semantics it stands for, on syntax trees: a program is a
    sequence of chains, a chain a pipeline and the pipelines that depend on its
    printed, a pipeline commands, each reading what the one before it printed.
    [execute_is_interpret] proves the two the same on every program written out
    with its words quoted. *)

From S2P Require Import Prelude PyStr OrdDict Path Vfs VfsTree VfsSpec VfsProps SessionManager.
From S2P Require Import Regex Llm ShellParse ShellParseProps ShellStatic DateTime Sinkhole Shell ShellSample.
From S2P Require Import ShellEffects ShellProps ShellFuel.

#[local] Arguments lit : simpl never.

(** ** Programs *)

Inductive connective := AndThen | OrElse.
Definition connective_text (c : connective) : str :=
  match c with AndThen => lit "&&" | OrElse => lit "||" end.

Record chain := Chain { ch_first : pipeline; ch_links : list (connective * pipeline) }.
Abbreviation program := (list chain).

Definition chain_wf (ch : chain) : Prop :=
  pipe_wf (ch_first ch) ∧ Forall (λ l : connective * pipeline, pipe_wf l.2) (ch_links ch).

(** The text: every word in quotes, operators between blanks. *)
Definition link_of (l : connective * pipeline) : str * pipeline := (connective_text l.1, l.2).
Definition statement_of (ch : chain) : statement := ([], ch_first ch) :: map link_of (ch_links ch).
Definition program_text (prog : program) : str := prog_text (map statement_of prog).

Lemma statement_wf ch : chain_wf ch → stmt_wf (statement_of ch).
Proof.
  intros [Hf Hl]. split; [done|]. split; [done|]. apply Forall_map_iff.
  eapply Forall_impl; [exact Hl|]. intros [[] p] Hp; (split; [by auto|done]).
Qed.

(** ** Their meaning *)

(** [&&] runs what follows after success, [||] after failure. *)
Definition runs_after (c : connective) (last : command_result) : bool :=
  match c with AndThen => result_ok last | OrElse => negb (result_ok last) end.

Section Interpreter.
Context `{World}.
Variable exec : str → ST shell command_result.

(** The words without the redirections, through [_dispatch]. *)
Definition run_words (words : command) (line stdin : str) :
    ST shell (result command_result * execution_path) :=
  depth ← gets sh_depth;
  ran ← attempt (if bool_decide (words = []) then mret (ok_result, PVfs)
                 else _dispatch exec words line stdin depth);
  mret (match ran with Ok (r, path) => (Ok r, path) | Err e => (Err e, PVfs) end).

Definition run_redirected (words : command) (target : str) (append : bool) (stdin : str) :
    ST shell (result command_result * execution_path) :=
  endless ← gets (_is_infinite_cat words);
  if (endless : bool) then
    r ← attempt (_stream_infinite_redirect (nth 0 words []) words target append); mret (r, PVfs)
  else
    ran ← run_words words (join [32] words) stdin;
    match ran with
    | (Ok r, path) => r' ← attempt (_apply_redirection r target append (nth 0 words [])); mret (r', path)
    | (Err e, _) => mret ran
    end.

Definition run_command (ws : command) (stdin : str) : ST shell command_result :=
  _ ← modify (set_captured [] None);
  ran ← match _parse_redirection ws with
        | Ok (words, None, _) => run_words words (cmd_text ws) stdin
        | Ok (words, Some target, append) => run_redirected words target append stdin
        | Err e => mret (Ok (_fail (match e with ValueError m => m | _ => [] end) 2), PVfs)
        end;
  single_finally (cmd_text ws) ran.

(** Each command reads the output of the one before; [exit] ends the pipeline. *)
Fixpoint run_stages (c : command) (cs : pipeline) (stdin : str) : ST shell command_result :=
  r ← run_command c stdin;
  match cs with
  | [] => mret r
  | c' :: cs' => if r_exit_session r then mret r else run_stages c' cs' (r_output r)
  end.
Definition run_pipeline (p : pipeline) : ST shell command_result :=
  match p with [] => mret ok_result | c :: cs => run_stages c cs [] end.

(** What was printed, piece by piece, and the last result. *)
Abbreviation printed := (list str * command_result)%type.

(** A pipeline and, unless it was [exit], what comes after it. *)
Definition and_then (p : pipeline) (next : command_result → ST shell printed) : ST shell printed :=
  r ← run_pipeline p;
  if r_exit_session r then mret ([r_output r], r)
  else more ← next r; mret (r_output r :: more.1, more.2).
Fixpoint run_links (links : list (connective * pipeline)) (last : command_result) : ST shell printed :=
  match links with
  | [] => mret ([], last)
  | (c, p) :: rest => if runs_after c last then and_then p (run_links rest) else run_links rest last
  end.
Definition run_chain (ch : chain) : ST shell printed := and_then (ch_first ch) (run_links (ch_links ch)).

Fixpoint run_chains (prog : program) (last : command_result) : ST shell printed :=
  match prog with
  | [] => mret ([], last)
  | ch :: rest =>
      out ← run_chain ch;
      if r_exit_session out.2 then mret out
      else more ← run_chains rest out.2; mret (out.1 ++ more.1, more.2)
  end.
Definition interpret (prog : program) : ST shell command_result :=
  out ← run_chains prog ok_result; mret (joined out.1 out.2).
End Interpreter.

(** ** Joining outputs *)

Lemma join_from_app a b : ∀ m, join_outputs_from m (a ++ b) = join_outputs_from (join_outputs_from m a) b.
Proof. induction a as [|c a IH]; intros m; [done|]. cbn. by case_bool_decide. Qed.

Lemma endswith_tail m c : c ≠ [] → endswith (m ++ c) nl = endswith c nl.
Proof.
  intros Hc. unfold endswith, nl. apply bool_decide_ext.
  destruct (exists_last Hc) as (c' & x & ->).
  split; intros [k Hk].
  - rewrite app_assoc in Hk. apply app_inj_tail in Hk as [_ ->]. by exists c'.
  - apply app_inj_tail in Hk as [_ ->]. exists (m ++ c'). by rewrite app_assoc.
Qed.

(** The text in front of the first piece does not matter to the others. *)
Lemma join_from_prefix b : ∀ m c, c ≠ [] → join_outputs_from (m ++ c) b = m ++ join_outputs_from c b.
Proof.
  induction b as [|x b IH]; intros m c Hc; [done|]. cbn. case_bool_decide; [by apply IH|].
  rewrite endswith_tail by done.
  rewrite (bool_decide_eq_true_2 (m ++ c ≠ [])) by (by destruct m). rewrite (bool_decide_eq_true_2 (c ≠ [])) by done.
  destruct (true && _); rewrite <-!app_assoc; apply IH; by destruct c.
Qed.

Lemma join_from_keeps b : ∀ c, c ≠ [] → join_outputs_from c b ≠ [].
Proof.
  induction b as [|x b IH]; intros c Hc; [done|]. cbn. case_bool_decide; [by apply IH|].
  apply IH. intros [_ E]%app_eq_nil. done.
Qed.

(** Pieces joined first can be joined again. *)
Lemma join_from_nested b : ∀ m, join_outputs_from m [join_outputs_from [] b] = join_outputs_from m b.
Proof.
  induction b as [|c b IH]; intros m; [done|]. cbn [join_outputs_from].
  destruct (decide (c = [])) as [->|Hc]; [apply IH|]. rewrite !(bool_decide_eq_false_2 (c = [])) by done.
  cbn [app]. rewrite (bool_decide_eq_false_2 (@nil Z ≠ [])) by auto. cbn [andb].
  rewrite (bool_decide_eq_false_2 (join_outputs_from c b = [])) by by apply join_from_keeps.
  symmetry. by apply join_from_prefix.
Qed.
Lemma join_outputs_nested a b more :
  _join_outputs (a ++ [_join_outputs b] ++ more) = _join_outputs (a ++ b ++ more).
Proof. unfold _join_outputs. by rewrite !join_from_app, join_from_nested. Qed.
Lemma join_outputs_add outputs r more :
  _join_outputs (add_output outputs r ++ more) = _join_outputs (outputs ++ r_output r :: more).
Proof.
  unfold add_output. case_bool_decide as E; [|by rewrite <-app_assoc].
  unfold _join_outputs. rewrite !join_from_app, E. done.
Qed.

(** ** One command *)

Section Equivalence.
Context `{World}.
Variable exec : str → ST shell command_result.

Lemma strip_cmd ws : ws ≠ [] → strip (cmd_text ws) = cmd_text ws ∧ cmd_text ws ≠ [].
Proof.
  intros Hws. pose proof (trimmed_cmd ws Hws) as Ht. split; [|by destruct ws as [|w [|w' ws]]].
  pose proof (strip_trimmed [] (cmd_text ws) [] ltac:(constructor) ltac:(constructor) Ht) as E.
  by rewrite app_nil_r in E.
Qed.

Lemma single_words words line stdin s :
  (depth ← gets sh_depth;
   dispatched ← attempt (if bool_decide (words = []) then mret (ok_result, PVfs)
                         else _dispatch exec words line stdin depth);
   match dispatched with
   | Err e => mret (Err e, PVfs)
   | Ok (r, path) => mret (Ok r, path)
   end) s = run_words exec words line stdin s.
Proof.
  unfold run_words. rewrite !st_bind_eq. unfold gets. cbn beta iota. rewrite !st_bind_eq. unfold attempt.
  destruct (_ s) as [[[r path]|e] s1]; done.
Qed.

Lemma single_command ws stdin :
  ws ≠ [] → same (_execute_single_command exec (cmd_text ws) stdin) (run_command exec ws stdin).
Proof.
  intros Hws. destruct (strip_cmd ws Hws) as [Hs Hne]. unfold _execute_single_command, run_command.
  rewrite Hs. cbv zeta. rewrite bool_decide_eq_false_2 by done. apply same_bind; [by intros s|]. intros _.
  apply same_bind; [|by intros ran s]. unfold single_body. rewrite lex_cmd_text.
  destruct ws as [|w ws]; [done|]. destruct (_parse_redirection _) as [[[words target] append]|e]; [|by intros s].
  cbv zeta. destruct target as [target|].
  - unfold run_redirected. apply same_bind; [by intros s|]. intros []; [by intros s|]. intros s.
    unfold run_words. rewrite !st_bind_eq. unfold gets. cbn beta iota. rewrite !st_bind_eq. unfold attempt.
    destruct (_ s) as [[[r path]|e] s1]; done.
  - intros s. rewrite st_bind_eq. unfold gets. cbn beta iota.
    destruct (_is_infinite_cat words s); apply single_words.
Qed.

(** ** Pipelines, chains and programs *)

Lemma stages_interpreted cs : ∀ c stdin last,
  c ≠ [] → Forall (λ c : command, c ≠ []) cs →
  same (pipeline_stages exec (cmd_text c :: map cmd_text cs) stdin last) (run_stages exec c cs stdin).
Proof.
  induction cs as [|c' cs IH]; intros c stdin last Hc Hcs.
  - cbn. apply same_bind; [by apply single_command|]. intros r s. by destruct (r_exit_session r).
  - apply Forall_cons in Hcs as [Hc' Hcs]. cbn [pipeline_stages run_stages map].
    apply same_bind; [by apply single_command|]. intros r.
    destruct (r_exit_session r); [by intros s|]. by apply (IH c' (r_output r) r).
Qed.

Lemma pipeline_interpreted p :
  pipe_wf p → same (_execute_pipeline exec (pipe_text p)) (run_pipeline exec p).
Proof.
  intros Hp. unfold _execute_pipeline. rewrite split_pipe by done. destruct Hp as [Hne Hp].
  destruct Hp as [|c cs Hc Hcs]; [done|].
  by apply (stages_interpreted cs c [] ok_result).
Qed.

(** Collecting outputs as the loops do, and all at the end. *)
Definition finish (outputs : list str) (m : ST shell (list str * command_result)) : ST shell command_result :=
  out ← m; mret (joined (outputs ++ out.1) out.2).
Lemma finish_eq outputs m s :
  finish outputs m s = let (r, s') := m s in (match r with Ok out => Ok (joined (outputs ++ out.1) out.2) | Err e => Err e end, s').
Proof. unfold finish. rewrite st_bind_eq. by destruct (m s) as [[out|e] s']. Qed.

Lemma joined_add outputs r more last :
  joined (add_output outputs r ++ more) last = joined (outputs ++ r_output r :: more) last.
Proof. unfold joined. by rewrite join_outputs_add. Qed.
Lemma joined_add_last outputs r : joined (add_output outputs r) r = joined (outputs ++ [r_output r]) r.
Proof. rewrite <-(app_nil_r (add_output _ _)). apply joined_add. Qed.

(** A pipeline and the rest of the loop, in both forms. *)
Lemma and_then_interpreted outputs p next loop s :
  pipe_wf p → (∀ r, same (loop (add_output outputs r) r) (finish (add_output outputs r) (next r))) →
  (r ← _execute_pipeline exec (pipe_text p);
   if r_exit_session r then mret (joined (add_output outputs r) r)
   else loop (add_output outputs r) r) s =
  finish outputs (and_then exec p next) s.
Proof.
  intros Hp Hloop. rewrite finish_eq. unfold and_then. rewrite !st_bind_eq, (pipeline_interpreted p Hp s).
  destruct (run_pipeline exec p s) as [[r|e] s1]; [|done].
  destruct (r_exit_session r); [by cbn; rewrite joined_add_last|].
  rewrite (Hloop r s1), finish_eq, st_bind_eq.
  destruct (next r s1) as [[[more l]|e] s2]; [|done]. cbn. by rewrite joined_add.
Qed.

Definition segment_of (l : connective * pipeline) : chain_segment :=
  ChainSegment (pipe_text l.2) (connective_text l.1).

Lemma links_interpreted links : ∀ outputs last,
  Forall (λ l : connective * pipeline, pipe_wf l.2) links →
  same (conditionals_loop exec (map segment_of links) outputs last (result_ok last))
       (finish outputs (run_links exec links last)).
Proof.
  induction links as [|[c p] links IH]; intros outputs last Hl s.
  - rewrite finish_eq. cbn. by rewrite app_nil_r.
  - apply Forall_cons in Hl as [Hp Hl].
    cbn [map conditionals_loop run_links segment_of seg_operator seg_command link_of fst snd].
    assert (Hb : (bool_decide (connective_text c = lit "&&") && negb (result_ok last)
        || bool_decide (connective_text c = lit "||") && result_ok last) = negb (runs_after c last))
      by (destruct c; cbn [runs_after]; destruct (result_ok last); vm_compute; reflexivity).
    rewrite Hb. destruct (runs_after c last); cbn [negb]; [|by apply IH].
    apply (and_then_interpreted outputs p (run_links exec links)
             (λ o r, conditionals_loop exec (map segment_of links) o r (result_ok r))); [done|].
    intros r. by apply IH.
Qed.

Lemma first_segment p segs s :
  conditionals_loop exec (ChainSegment (pipe_text p) [] :: segs) [] ok_result true s =
  (r ← _execute_pipeline exec (pipe_text p);
   if r_exit_session r then mret (joined (add_output [] r) r)
   else conditionals_loop exec segs (add_output [] r) r (result_ok r)) s.
Proof.
  cbn [conditionals_loop seg_operator seg_command].
  by rewrite (bool_decide_eq_false_2 ([] = lit "&&")), (bool_decide_eq_false_2 ([] = lit "||")) by done.
Qed.

Lemma chain_interpreted ch :
  chain_wf ch → same (_execute_conditionals exec (stmt_text (statement_of ch))) (finish [] (run_chain exec ch)).
Proof.
  intros Hch s. unfold _execute_conditionals. rewrite split_stmt by by apply statement_wf.
  destruct ch as [p links], Hch as [Hp Hl]. cbn [ch_first ch_links] in *. unfold statement_of.
  cbn [map ch_first ch_links fst snd]. rewrite map_map, first_segment.
  apply (and_then_interpreted [] p (run_links exec links)
           (λ o r, conditionals_loop exec (map segment_of links) o r (result_ok r))); [done|].
  intros r. by apply links_interpreted.
Qed.

Lemma joined_chain outputs outs l more last :
  joined (add_output outputs (joined outs l) ++ more) last = joined (outputs ++ outs ++ more) last.
Proof.
  rewrite joined_add. unfold joined. cbn [r_output]. f_equal.
  exact (join_outputs_nested outputs outs more).
Qed.

Lemma chains_interpreted prog : ∀ outputs last last',
  Forall chain_wf prog → (∀ o, joined o last = joined o last') →
  same (statements_loop exec (map (λ ch, stmt_text (statement_of ch)) prog) outputs last)
       (finish outputs (run_chains exec prog last')).
Proof.
  induction prog as [|ch prog IH]; intros outputs last last' Hp Hl s; rewrite finish_eq;
    [cbn; by rewrite app_nil_r, Hl|].
  apply Forall_cons in Hp as [Hch Hp]. cbn [map statements_loop run_chains].
  rewrite !st_bind_eq, (chain_interpreted ch Hch s), finish_eq.
  destruct (run_chain exec ch s) as [[[outs l]|e] s1]; [|done]. cbn [fst snd app].
  change (r_exit_session (joined outs l)) with (r_exit_session l). destruct (r_exit_session l).
  - cbn. pose proof (joined_chain outputs outs l [] l) as E. rewrite !app_nil_r in E. by rewrite <-E.
  - rewrite (IH _ _ l Hp) by done. rewrite finish_eq, st_bind_eq.
    destruct (run_chains exec prog l s1) as [[[more l']|e] s2]; [|done]. cbn. by rewrite joined_chain.
Qed.

Lemma body_interpreted prog :
  prog ≠ [] → Forall chain_wf prog → same (execute_body exec (program_text prog)) (interpret exec prog).
Proof.
  intros Hne Hp s. unfold execute_body, program_text. cbv zeta.
  destruct prog as [|ch prog]; [done|]. cbn [map].
  assert (Hwf : Forall stmt_wf (statement_of ch :: map statement_of prog)).
  { rewrite <-map_cons. apply Forall_map_iff. eapply Forall_impl; [exact Hp|]. apply statement_wf. }
  pose proof (split_prog _ _ Hwf) as Hsplit.
  rewrite bool_decide_eq_false_2 by (intros E; rewrite E in Hsplit; discriminate Hsplit).
  rewrite Hsplit, <-map_cons, map_map.
  exact (chains_interpreted (ch :: prog) [] ok_result ok_result Hp (λ _, eq_refl) s).
Qed.
End Equivalence.

(** C5: A program means what its syntax tree says.  Whatever its words hold, a
    program written out with its words in quotes is executed, by cutting the
    text at operators again and again, exactly as the semantics on trees has
    it: the same result or exception and the same shell afterwards.  Chains run
    in order, [&&] after success and [||] after failure, every command of a
    pipeline on the output of the one before, and [exit] ends everything; all
    that is printed is joined at the end. *)
Theorem execute_is_interpret `{World} fuel prog s :
  prog ≠ [] → Forall chain_wf prog →
  execute (S fuel) (program_text prog) s = interpret (execute fuel) prog s.
Proof. intros Hne Hp. by apply body_interpreted. Qed.

(** [cd '/tmp' && echo 'a;b' | cat || pwd; exit; pwd], with the words in quotes. *)
Definition sample_program : program :=
  [Chain [[lit "cd"; lit "/tmp"]]
     [(AndThen, [[lit "echo"; lit "a;b"]; [lit "cat"]]); (OrElse, [[lit "pwd"]])];
   Chain [[lit "exit"]] []; Chain [[lit "pwd"]] []].
Lemma execute_is_interpret_witness :
  let run := @interpret sample_world (@execute sample_world 3) sample_program sample_shell in
  @execute sample_world 4 (program_text sample_program) sample_shell = run ∧
  run.1 = Ok (CommandResult (lit "a;b" ++ nl) true 0 PVfs) ∧ sh_cwd run.2 = lit "/tmp".
Proof.
  intros run. split.
  - apply (@execute_is_interpret sample_world 3 sample_program sample_shell); [done|].
    repeat first [apply Forall_nil_2|apply Forall_cons_2|split]; done.
  - split; vm_compute; reflexivity.
Defined.
