(* ===== verification/EchoCat.v ===== *)
(** * A file written and read at the prompt

    One program followed through every layer: [echo text > file && cat file]
    is cut up, [echo] expands its words, the redirection writes the file and
    captures the text, the record is appended, and [cat] shows what is in the
    file.  [stored_text_is_shown] says what the client sees, whatever the text,
    the name and the filesystem. *)

From S2P Require Import Prelude PyStr OrdDict Path Vfs VfsTree VfsSpec VfsProps HoneypotTree SessionManager.
From S2P Require Import Regex Llm ShellParse ShellParseProps ShellStatic DateTime Sinkhole Shell ShellSample.
From S2P Require Import ShellEffects ShellProps ShellFuel Sharing ShellInterp.

#[local] Arguments lit : simpl never.

(** ** Writes that fail *)

(** What a failing write may raise: each of these has a message. *)
Definition write_raises (e : pyexc) : bool :=
  match e with
  | FileNotFoundError _ | NotADirectoryError _ | IsADirectoryError _ | VFSFileTooLargeError _
  | VFSNoSpaceError _ => true
  | _ => false
  end.

Lemma account_write_raises v existing content e v' :
  is_file existing → (∀ x, existing = Some x → tree_ok (v_max_file v) x) →
  encodable content = true → _account_write existing content v = (Err e, v') → write_raises e = true.
Proof.
  intros Hf Hex He. unfold _account_write. rewrite st_bind_eq. unfold lift at 1, encoded_size at 1.
  rewrite He, st_bind_eq. cbn [gets id]. case_decide; [by intros [= <- _]|]. rewrite st_bind_eq.
  rewrite old_counted by done. case_decide; [by intros [= <- _]|done].
Qed.

Lemma write_file_raises now path content cwd v e v' :
  vfs_ok v → encodable content = true →
  write_file now path content cwd false v = (Err e, v') → write_raises e = true.
Proof.
  intros Hv He. unfold write_file. rewrite st_bind_eq. cbn [gets].
  case_decide; [done|]. case_decide as Hroot; [by intros [= <- _]|].
  rewrite st_bind_eq. unfold reads at 1.
  destruct (resolve v _ "/") as [d|e'] eqn:Hd.
  2: { intros [= <- _]. apply resolve_err in Hd. by destruct e'. }
  destruct d as [m|m c rs dy|m ch]; try (by intros [= <- _]).
  destruct (at_child_intro v path cwd m ch Hroot Hd) as (ws & name & Hc).
  rewrite (ac_base _ _ _ _ _ _ _ Hc).
  assert (Hacc : ∀ new f, is_file (dict_get ch name) → encodable new = true →
    (_ ← _account_write (dict_get ch name) new; mutate (parent_path (canonicalize path cwd (v_home v))) "/" f) v
      = (Err e, v') → write_raises e = true).
  { intros new f Hf Hn. rewrite st_bind_eq.
    assert (Hx : ∀ x, dict_get ch name = Some x → tree_ok (v_max_file v) x).
    { intros x Hx. by apply (at_child_tree _ _ _ _ _ _ _ _ Hv Hc Hx). }
    destruct (_account_write _ _ v) as [[[]|e0] v0] eqn:Ea; [|intros [= <- _]; by eapply account_write_raises].
    apply account_write_spec in Ea as [(_ & _ & _ & _ & ->)|[[? [=]] _]]; [|done..].
    by rewrite (mutate_child _ _ _ _ _ _ _ _ _ Hc). }
  destruct (dict_get ch name) as [[mx|mx cx rx dx|mx chx]|] eqn:Ex; try (by intros [= <- _]); [|by apply Hacc].
  destruct (m_char_device mx); [done|]. by apply Hacc.
Qed.

Lemma redirect_message_total path label e :
  write_raises e = true →
  ∃ x, redirect_message path label e = Some x ∧ r_exit_code x = 1 ∧ r_output x ≠ [] ∧ r_exit_session x = false.
Proof.
  intros He. destruct (redirect_message path label e) as [x|] eqn:E; [|by destruct e].
  exists x. split; [done|]. by apply (redirect_failure path label e).
Qed.

(** ** The redirection *)

Section World.
Context {W : World}.

(** What a computation leaves of the session object and the directory. *)
Definition undisturbed (s s' : shell) : Prop := sh_session s' = sh_session s ∧ sh_cwd s' = sh_cwd s.

Lemma quarantine_total filename content url s :
  encodable content = true →
  ∃ s', _quarantine filename content url s = (Ok tt, s') ∧ undisturbed s s'.
Proof.
  intros He. unfold _quarantine. rewrite st_bind_eq. cbn. unfold quarantine_artifact, encode_utf8. rewrite He.
  destruct (w_disk_ok _); cbn; [case_bool_decide|]; eexists; by split.
Qed.

(** The file holds the text, and no other entry has changed. *)
Definition stored (v : vfs) (path cwd text : str) (v' : vfs) : Prop :=
  vfs_ok v' ∧ read_file v' path cwd = Ok text ∧
  ∀ qs, qs ≠ target v path cwd → view (v_root v') qs = view (v_root v) qs.

(** [r] reports a failure. *)
Definition complaint (r : command_result) : Prop :=
  r_exit_code r = 1 ∧ r_output r ≠ [] ∧ r_exit_session r = false.

Definition entry_device (e : option entry) : bool :=
  match e with Some (EFile m _ _ _) => m_char_device m | _ => false end.
#[export] Instance is_sink_dec v path cwd : Decision (is_sink v path cwd).
Proof.
  unfold is_sink. destruct (decide (canonicalize path cwd (v_home v) = DEV_NULL)) as [?|Hn]; [by left; left|].
  destruct (bool_decide (entry_device (view (v_root v) (target v path cwd)) = true)) eqn:E;
    [left; right|right; intros [?|(m & c & rs & d & Hat & Hd)]; [done|]].
  - apply bool_decide_eq_true in E. destruct (view _ _) as [[| |]|]; try done. by repeat eexists.
  - apply bool_decide_eq_false in E. apply E. by rewrite Hat.
Defined.

(** What has become of a file that [text] was written to: [v'] holds the text,
    or it is a sink and nothing has changed. *)
Definition written (v : vfs) (path cwd text : str) (v' : vfs) : Prop :=
  if decide (is_sink v path cwd) then v' = v else can_write v path text cwd false ∧ stored v path cwd text v'.
Definition unwritable (v : vfs) (path cwd text : str) : Prop :=
  ¬ is_sink v path cwd ∧ ¬ can_write v path text cwd false.

Lemma redirection_total result path name s :
  vfs_ok (sh_vfs s) → encodable (r_output result) = true →
  ∃ r s', _apply_redirection result path false name s = (Ok r, s') ∧ sh_cwd s' = sh_cwd s ∧
    ((r = CommandResult [] (r_exit_session result) (r_exit_code result) (r_path result) ∧
      written (sh_vfs s) path (sh_cwd s) (r_output result) (sh_vfs s')) ∨
     (unwritable (sh_vfs s) path (sh_cwd s) (r_output result) ∧ complaint r ∧ sh_vfs s' = sh_vfs s)).
Proof.
  intros Hv He. unfold _apply_redirection, try_else.
  destruct (vfs_write path _ false s) as [[[]|e] s1] eqn:E;
    apply vfs_write_cases in E as (now & v' & Hw & ->);
    pose proof (write_success_iff now path (r_output result) (sh_cwd s) false (sh_vfs s) Hv) as Hiff;
    rewrite Hw in Hiff; cbn [fst] in Hiff.
  - destruct (quarantine_total (operand_name path path) (r_output result) []
      (set_session (with_vfs v' (sh_session s)) (tick s)) He) as (s' & Hq & Hses & Hcwd).
    do 2 eexists. split; [by rewrite st_bind_eq, Hq|]. split; [done|]. left. split; [done|].
    assert (Hv' : sh_vfs s' = v') by (unfold sh_vfs; by rewrite Hses). rewrite Hv'.
    unfold written. destruct (decide _) as [Hs|Hs].
    + rewrite write_sink in Hw by done. by injection Hw.
    + destruct (proj1 Hiff eq_refl) as [?|Hcan]; [done|]. split; [done|]. split; [|split].
      * by destruct (write_ok _ _ _ _ _ _ _ _ Hv Hw).
      * exact (write_reads_back _ _ _ _ _ _ _ Hv Hw Hs).
      * by apply (write_view _ _ _ _ _ _ _ Hv Hw Hs).
  - pose proof (write_file_raises _ _ _ _ _ _ _ Hv He Hw) as Hr.
    destruct (redirect_message_total path (or_default name path) e Hr) as (x & -> & Hx).
    do 2 eexists. split; [done|]. split; [done|]. right. split; [|split; [done|]].
    + split; intros Hno; by discriminate (proj2 Hiff ltac:(auto)).
    + destruct (write_ok _ _ _ _ _ _ _ _ Hv Hw) as [_ ->]; done.
Qed.

(** ** [echo] and [cat] *)

(** A command that has a handler and goes by its own name. *)
Lemma dispatch_handler exec command args handler line stdin depth s :
  resolved_command command = command → command ∉ _SHELL_WRAPPERS → _is_explicit_path command = false →
  command ∉ [lit "wget"; lit "curl"] → command ∉ _STATIC_HANDLER_COMMANDS →
  dict_get _handlers command = Some handler →
  _dispatch exec (command :: args) line stdin depth s = (r ← handler args stdin; mret (r, PVfs)) s.
Proof.
  intros Hres Hw Hp Hnet Hst Hh. unfold _dispatch. cbv zeta. fold (resolved_command command). rewrite Hres.
  rewrite (bool_decide_eq_false_2 (command ∈ _SHELL_WRAPPERS)), Hp, Hh by done.
  by rewrite (bool_decide_eq_false_2 (command ∈ [_; _])), (bool_decide_eq_false_2 (command ∈ _STATIC_HANDLER_COMMANDS)) by done.
Qed.
(** A word that is no redirection. *)
Abbreviation plain_word w := (item_ok (RWord w) = true).
Lemma redirection_word command path append w rest :
  plain_word w → redirection_loop command path append (w :: rest) = redirection_loop (w :: command) path append rest.
Proof.
  cbn [item_ok]. rewrite !andb_true_iff, !negb_true_iff. intros [[Hs H1] H2].
  cbn [redirection_loop]. rewrite Hs, H1, H2, !bool_decide_eq_false_2; [done|..].
  - intros Hin. by rewrite (stderr_startswith w Hin) in Hs.
  - intros [-> _]. discriminate Hs.
Qed.
Lemma redirection_words w1 w2 :
  plain_word w1 → plain_word w2 → _parse_redirection [w1; w2] = Ok ([w1; w2], None, false).
Proof. intros H1 H2. unfold _parse_redirection. by rewrite !redirection_word by done. Qed.
Lemma redirection_out w1 w2 path :
  plain_word w1 → plain_word w2 →
  _parse_redirection [w1; w2; lit ">"; path] = Ok ([w1; w2], Some path, false).
Proof. intros H1 H2. unfold _parse_redirection. by rewrite (redirection_word _ _ _ w1), (redirection_word _ _ _ w2) by done. Qed.

(** What [echo] prints for a word: [-n] is its option. *)
Definition echoed (s : shell) (text : str) : str :=
  if bool_decide (text = lit "-n") then [] else replace text "$?" (py_str (sh_last_exit s)) ++ nl.

Lemma run_words_handler exec command args handler line stdin s r s' :
  resolved_command command = command → command ∉ _SHELL_WRAPPERS → _is_explicit_path command = false →
  command ∉ [lit "wget"; lit "curl"] → command ∉ _STATIC_HANDLER_COMMANDS →
  dict_get _handlers command = Some handler → handler args stdin s = (Ok r, s') →
  run_words exec (command :: args) line stdin s = (Ok (Ok r, PVfs), s').
Proof.
  intros ?????? Hrun. unfold run_words. rewrite st_bind_eq. unfold gets. cbn beta iota.
  rewrite st_bind_eq. unfold attempt. rewrite bool_decide_eq_false_2 by done.
  erewrite dispatch_handler by done. by rewrite st_bind_eq, Hrun.
Qed.

Lemma echo_words exec text line stdin s :
  run_words exec [lit "echo"; text] line stdin s = (Ok (Ok (out_result (echoed s text) 0), PVfs), s).
Proof.
  apply (run_words_handler _ _ _ (ignoring _cmd_echo)); try vm_decide; [reflexivity|].
  unfold ignoring, _cmd_echo, echoed. cbn [echo_options]. by case_bool_decide.
Qed.
(** What [cat] makes of a file: its text, or a message. *)
Definition catted (v : vfs) (file cwd : str) (r : command_result) : Prop :=
  r_exit_session r = false ∧
  match read_file v file cwd with
  | Ok c => r_exit_code r = 0 ∧ r_output r = c
  | Err _ => r_exit_code r = 1 ∧ r_output r ≠ []
  end.
Lemma read_file_message v file cwd e : read_file v file cwd = Err e → ∃ m, read_message "cat" file e = Some m ∧ m ≠ [].
Proof.
  unfold read_file. intros Hr. destruct (resolve v file cwd) as [[| |]|e'] eqn:Er; cbn in Hr;
    try (injection Hr as <-; by eexists); [by case_match|].
  apply resolve_err in Er. injection Hr as <-. destruct e'; try done; by eexists.
Qed.
Lemma cat_words exec file line stdin s :
  ∃ r, run_words exec [lit "cat"; file] line stdin s = (Ok (Ok r, PVfs), s) ∧ catted (sh_vfs s) file (sh_cwd s) r.
Proof.
  assert (Hc : ∃ r, _cmd_cat [file] stdin s = (Ok r, s) ∧ catted (sh_vfs s) file (sh_cwd s) r).
  { unfold _cmd_cat, catted. rewrite bool_decide_eq_false_2 by done. cbn [read_each]. rewrite !st_bind_eq.
    unfold try_else, vfs_read, reads. destruct (read_file _ _ _) as [c|e] eqn:Er.
    - eexists. cbn. rewrite st_bind_eq. cbn. rewrite app_nil_r. by split.
    - destruct (read_file_message _ _ _ _ Er) as (m & -> & Hm).
      eexists. cbn. rewrite st_bind_eq. cbn. rewrite app_nil_r. by repeat split. }
  destruct Hc as (r & Hrun & Hc). exists r. split; [|done].
  apply (run_words_handler _ _ _ _cmd_cat); try vm_decide; [reflexivity|done].
Qed.

(** ** The two commands *)

Context (HW : quiet W).

Lemma finally_quiet stripped r path s :
  ∃ s', single_finally stripped (Ok r, path) s =
        (Ok (CommandResult (r_output r) (r_exit_session r) (r_exit_code r) path), s') ∧ undisturbed s s'.
Proof using HW.
  unfold single_finally, record_command, await. repeat (rewrite st_bind_eq; cbn).
  eexists. split; [done|]. split; [by rewrite HW|done].
Qed.

(** [echo text > file]: written, or the complaint. *)
Lemma echo_command exec text file stdin s :
  vfs_ok (sh_vfs s) → plain_word text → encodable (echoed s text) = true →
  ∃ r s', run_command exec [lit "echo"; text; lit ">"; file] stdin s = (Ok r, s') ∧ sh_cwd s' = sh_cwd s ∧
    r_exit_session r = false ∧
    ((r_exit_code r = 0 ∧ r_output r = [] ∧ written (sh_vfs s) file (sh_cwd s) (echoed s text) (sh_vfs s')) ∨
     (unwritable (sh_vfs s) file (sh_cwd s) (echoed s text) ∧ complaint r ∧ sh_vfs s' = sh_vfs s)).
Proof using HW.
  intros Hv Hp He. unfold run_command. rewrite st_bind_eq. cbn beta iota delta [modify].
  set (s0 := set_captured [] None s). rewrite st_bind_eq, redirection_out by done.
  unfold run_redirected. rewrite st_bind_eq. unfold gets at 1. cbn beta iota.
  change (_is_infinite_cat [lit "echo"; text] s0) with false. cbn iota.
  rewrite st_bind_eq, echo_words. cbn beta iota. rewrite st_bind_eq. unfold attempt.
  change (nth 0 [lit "echo"; text] []) with (lit "echo"). change (echoed s0 text) with (echoed s text).
  destruct (redirection_total (out_result (echoed s text) 0) file (lit "echo") s0 Hv He)
    as (r & s1 & -> & Hcwd & Hr). cbn beta iota delta [mret st_ret].
  destruct (finally_quiet (cmd_text [lit "echo"; text; lit ">"; file]) r PVfs s1) as (s2 & -> & Hses & Hcwd2).
  assert (Hvfs : sh_vfs s2 = sh_vfs s1) by (unfold sh_vfs; by rewrite Hses).
  do 2 eexists. split; [done|]. rewrite Hvfs, Hcwd2.
  destruct Hr as [[-> Hst]|(Hcan & (H1 & H2 & H3) & Hsame)].
  - split; [exact Hcwd|]. split; [done|]. left. exact (conj eq_refl (conj eq_refl Hst)).
  - split; [exact Hcwd|]. split; [done|]. right. exact (conj Hcan (conj (conj H1 (conj H2 H3)) Hsame)).
Qed.

Lemma cat_command exec file stdin s :
  plain_word file →
  ∃ r s', run_command exec [lit "cat"; file] stdin s = (Ok r, s') ∧ undisturbed s s' ∧
    catted (sh_vfs s) file (sh_cwd s) r.
Proof using HW.
  intros Hp. unfold run_command. rewrite st_bind_eq. cbn beta iota delta [modify].
  set (s0 := set_captured [] None s).
  destruct (cat_words exec file (cmd_text [lit "cat"; file]) stdin s0) as (r & Hrun & Hc).
  rewrite st_bind_eq, redirection_words by done. rewrite Hrun. cbn beta iota.
  destruct (finally_quiet (cmd_text [lit "cat"; file]) r PVfs s0) as (s2 & -> & Hses & Hcwd2).
  do 2 eexists. split; [done|]. by split.
Qed.

(** ** The program *)

Lemma join_single x : _join_outputs [x] = x.
Proof. unfold _join_outputs. cbn. by case_bool_decide. Qed.

Lemma joined_silent x r :
  joined [[]; x] r = CommandResult x (r_exit_session r) (r_exit_code r) (r_path r).
Proof. unfold joined. f_equal. apply join_single. Qed.

Definition store_and_show (text file : str) : program :=
  [Chain [[lit "echo"; text; lit ">"; file]] [(AndThen, [[lit "cat"; file]])]].

Lemma store_and_show_wf text file : store_and_show text file ≠ [] ∧ Forall chain_wf (store_and_show text file).
Proof.
  split; [done|]. apply Forall_cons_2; [|apply Forall_nil_2].
  split; [|apply Forall_cons_2; [|apply Forall_nil_2]]; (split; [done|by apply Forall_cons_2; [|apply Forall_nil_2]]).
Qed.

Lemma interpret_store exec text file s r1 s1 :
  run_command exec [lit "echo"; text; lit ">"; file] [] s = (Ok r1, s1) → r_exit_session r1 = false →
  interpret exec (store_and_show text file) s =
  (if result_ok r1
   then match run_command exec [lit "cat"; file] [] s1 with
        | (Ok r2, s2) => (Ok (joined [r_output r1; r_output r2] r2), s2)
        | (Err e, s2) => (Err e, s2)
        end
   else (Ok (joined [r_output r1] r1), s1)).
Proof.
  intros H1 He. unfold interpret, store_and_show. cbn [run_chains]. unfold run_chain, and_then at 1.
  cbn [ch_first ch_links run_pipeline run_stages run_links]. repeat rewrite st_bind_eq. rewrite H1.
  cbn beta iota delta [mret st_ret]. rewrite He. rewrite st_bind_eq. cbn [runs_after].
  unfold and_then. cbn [run_pipeline run_stages]. unfold mbind, st_bind, mret, st_ret.
  destruct (result_ok r1); [|cbn; by rewrite He].
  destruct (run_command _ [lit "cat"; file] [] s1) as [[r2|e] s2]; [|done].
  destruct (r_exit_session r2) eqn:E; cbn; by rewrite E.
Qed.

(** C14: What is written at the prompt is what is read back.  The line [echo text
    > file && cat file] always returns and leaves the directory as it was, for
    any text that can be encoded and any file, written as quoted words that are
    not themselves redirection operators, while no other connection of the
    client interferes.  If the file can be written (its parent is a directory,
    it is no directory itself, the text fits both quotas), exactly the text
    [echo] makes of the word is shown with exit code 0, the file holds it and no
    other entry of the tree has changed.  If it cannot, one complaint is shown
    with exit code 1, [cat] is not run and the filesystem is the same.  If the
    file is a character device or [/dev/null], the text is gone, the filesystem
    is the same, and what is shown, with its exit code, is what [cat] makes of
    the device. *)
Theorem stored_text_is_shown fuel text file s :
  vfs_ok (sh_vfs s) → plain_word text → plain_word file → encodable (echoed s text) = true →
  ∃ r s', execute (S fuel) (program_text (store_and_show text file)) s = (Ok r, s') ∧
    r_exit_session r = false ∧ sh_cwd s' = sh_cwd s ∧
    if decide (is_sink (sh_vfs s) file (sh_cwd s)) then
      sh_vfs s' = sh_vfs s ∧ catted (sh_vfs s) file (sh_cwd s) r
    else
      (can_write (sh_vfs s) file (echoed s text) (sh_cwd s) false ∧
       r_exit_code r = 0 ∧ r_output r = echoed s text ∧
       stored (sh_vfs s) file (sh_cwd s) (echoed s text) (sh_vfs s')) ∨
      (¬ can_write (sh_vfs s) file (echoed s text) (sh_cwd s) false ∧
       r_exit_code r = 1 ∧ r_output r ≠ [] ∧ sh_vfs s' = sh_vfs s).
Proof using HW.
  intros Hv Ht Hf He. destruct (store_and_show_wf text file) as [Hne Hwf].
  cbn [execute]. rewrite (body_interpreted (execute fuel) _ Hne Hwf s).
  destruct (echo_command (execute fuel) text file [] s Hv Ht He) as (r1 & s1 & E1 & Hcwd & Hx & Hr).
  rewrite (interpret_store _ _ _ _ _ _ E1 Hx). destruct Hr as [(Hc & Ho & Hw)|([Hs Hcan] & (Hc & Ho & _) & Hsame)].
  - unfold result_ok. rewrite Hc. cbn [Z.eqb].
    destruct (cat_command (execute fuel) file [] s1 Hf) as (r2 & s2 & -> & [Hses Hcwd2] & Hx2 & Hshown).
    do 2 eexists. split; [done|]. split; [exact Hx2|]. split; [by rewrite Hcwd2|].
    assert (Hvfs : sh_vfs s2 = sh_vfs s1) by (unfold sh_vfs; by rewrite Hses).
    rewrite Hvfs. rewrite Hcwd in Hshown. unfold written in Hw. unfold catted.
    rewrite Ho, joined_silent. cbn [r_output r_exit_code r_exit_session]. destruct (decide _) as [Hs|Hs].
    + rewrite Hw in *. split; [done|]. by split.
    + destruct Hw as [Hcan Hst]. pose proof Hst as (_ & Hread & _). rewrite Hread in Hshown.
      destruct Hshown as [Hc2 Ho2]. left. by rewrite Hc2, Ho2.
  - unfold result_ok. rewrite Hc. cbn [Z.eqb].
    do 2 eexists. split; [done|]. split; [exact Hx|]. split; [done|]. rewrite decide_False by done. right.
    split; [done|]. split; [exact Hc|]. split; [|done]. cbn [joined r_output].
    by rewrite join_single.
Qed.
End World.

Lemma sample_quiet : quiet sample_world. Proof. by intros n x. Qed.

Lemma stored_text_is_shown_witness :
  let text : str := "it's $?; rm -r /" in
  let out := @execute sample_world 1 (program_text (store_and_show text "notes")) sample_shell in
  out.1 = Ok (CommandResult (lit "it's 0; rm -r /" ++ nl) false 0 PVfs) ∧
  read_file (sh_vfs out.2) "notes" "/root" = Ok (lit "it's 0; rm -r /" ++ nl) ∧ sh_cwd out.2 = lit "/root".
Proof.
  intros text out.
  destruct (@stored_text_is_shown sample_world sample_quiet 0 text "notes" sample_shell)
    as (r & s' & E & _ & Hcwd & H).
  - apply default_vfs_ok.
  - vm_compute. reflexivity.
  - vm_compute. reflexivity.
  - vm_compute. reflexivity.
  - rewrite decide_False in H.
    2: { intros [Hd|(m & c & rs & d & Hd & _)]; vm_compute in Hd; discriminate. }
    destruct H as [(_ & _ & _ & _ & Hread & _)|(_ & Hc & _)].
    + fold out in E. rewrite E in *. split; [|split; [exact Hread|exact Hcwd]].
      change (Ok r) with (Ok r, s').1. rewrite <-E. vm_compute. reflexivity.
    + exfalso. fold out in E. assert (Hr : Ok r = out.1) by by rewrite E. vm_compute in Hr.
      injection Hr as ->. discriminate Hc.
Defined.

(** A device swallows the text; [-n] is an option of [echo]. *)
Example devices_swallow :
  let run text file := @execute sample_world 1 (program_text (store_and_show text file)) sample_shell in
  (run "hi" "/dev/null").1 = Ok (CommandResult [] false 0 PVfs) ∧
  (run "-n" "notes").1 = Ok (CommandResult [] false 0 PVfs) ∧
  read_file (sh_vfs (run "-n" "notes").2) "notes" "/root" = Ok [].
Proof. vm_compute. repeat split. Qed.

(** The words must be plain: [shlex] takes the quotes off before redirections
    are looked for, so a quoted operator redirects all the same and a quoted
    word that begins with [2>] is dropped. *)
Example quoted_operator_redirects :
  let out := @execute sample_world 1 "echo '>' x" sample_shell in
  out.1 = Ok (CommandResult [] false 0 PVfs) ∧ read_file (sh_vfs out.2) "x" "/root" = Ok nl ∧
  (@execute sample_world 1 "echo '2>x' y" sample_shell).1 = Ok (CommandResult (lit "y" ++ nl) false 0 PVfs).
Proof. vm_compute. repeat split. Qed.
