(* ===== verification/LsProps.v ===== *)
(** * What [ls] shows

    The handler of [ls] on a directory, in full: which entries, in which order,
    joined how; and for the long format the total, the columns and what stands
    in each of them. *)

From Stdlib Require Import Sorted.
From S2P Require Import Prelude PyStr OrdDict Path Chmod Vfs VfsTree VfsSpec VfsProps HoneypotTree SessionManager.
From S2P Require Import Regex Llm TextOps VfsText ShellParse ShellStatic DateTime Sinkhole Shell ShellSample.

#[local] Arguments lit : simpl never.

(** ** Entries *)

Definition visible (show_all : bool) (name : str) : bool := show_all || negb (startswith name ".").

(** [.] and [..]: the directory and the one above it, the root its own. *)
Definition dot_entries (v : vfs) (show_all : bool) (ps : list str) (dots : list (str * inode)) : Prop :=
  if show_all then
    ∃ dir parent, lookup_path (v_root v) ps = Some dir ∧ lookup_path (v_root v) (removelast ps) = Some parent ∧
      dots = [(lit ".", dir); (lit "..", parent)]
  else dots = [].

(** The entries listed of the directory at [ps] with children [ch]. *)
Definition lists (v : vfs) (show_all : bool) (ps : list str) (ch entries : list (str * inode)) : Prop :=
  StronglySorted str_le (map fst entries) ∧
  ∃ dots, dot_entries v show_all ps dots ∧
    entries ≡ₚ dots ++ List.filter (λ kv, visible show_all kv.1) ch.

Lemma parent_resolves v path cwd n :
  resolve v path cwd = Ok n →
  ∃ parent, resolve v (parent_path (canonicalize path cwd (v_home v))) "/" = Ok parent ∧
    lookup_path (v_root v) (removelast (target v path cwd)) = Some parent.
Proof.
  intros Hn%resolve_ok. destruct (decide (canonicalize path cwd (v_home v) = lit "/")) as [E|Hne].
  - exists (v_root v). unfold target. rewrite E. by split.
  - destruct (abs_split path cwd (v_home v) Hne) as (ws & name & H1 & H2 & H3 & H4).
    unfold target in *. rewrite H1 in Hn |- *. rewrite removelast_last. rewrite lookup_path_app in Hn.
    destruct (lookup_path (v_root v) ws) as [p|] eqn:E; [|done]. exists p. split; [|done].
    apply resolve_ok. unfold target. by rewrite H4.
Qed.

#[local] Instance name_le_trans : Transitive name_le.
Proof. intros a b c. unfold name_le. apply str_le_trans. Qed.
#[local] Instance name_le_total : Total name_le.
Proof. intros a b. apply str_le_total. Qed.
Lemma sorted_names (l : list (str * inode)) : Sorted name_le l → StronglySorted str_le (map fst l).
Proof.
  intros Hs%Sorted_StronglySorted; [|apply _].
  induction Hs as [|kv l Hl IH Hkv]; cbn; constructor; [done|]. by apply Forall_fmap.
Qed.

(** ** Columns *)

(** A column as wide as its widest cell, and the cells in it. *)
Definition column (w : nat) (l : list str) : Prop :=
  Forall (λ s, (length s ≤ w)%nat) l ∧ (l ≠ [] → Exists (λ s, length s = w) l).
Definition cell_right (w : nat) (s cell : str) : Prop := length cell = w ∧ ∃ k, cell = repeat 32 k ++ s.
Definition cell_left (w : nat) (s cell : str) : Prop := length cell = w ∧ ∃ k, cell = s ++ repeat 32 k.

Lemma column_width_spec l : column (column_width l) l.
Proof.
  unfold column, column_width. destruct l as [|x l]; [by split; [|done]|]. split.
  - set (l' := x :: l). clearbody l'. induction l' as [|y l' IH]; [done|]. constructor; [cbn; lia|].
    eapply Forall_impl; [exact IH|]. cbn. intros z. lia.
  - intros _. revert x. induction l as [|y l IH]; intros x; [left; cbn; lia|].
    destruct (Nat.max_spec (length x) (foldr Nat.max 0%nat (map length (y :: l)))) as [[_ E]|[_ E]].
    + right. specialize (IH y). cbn [map foldr] in *. rewrite E. exact IH.
    + left. cbn [map foldr] in *. lia.
Qed.
Lemma pad_left_cell w s : (length s ≤ w)%nat → cell_right w s (pad_left w 32 s).
Proof. intros Hs. unfold pad_left. split; [rewrite length_app, repeat_length; lia|by eexists]. Qed.
Lemma pad_right_cell w s : (length s ≤ w)%nat → cell_left w s (pad_right w 32 s).
Proof. intros Hs. unfold pad_right. split; [rewrite length_app, repeat_length; lia|by eexists]. Qed.

Lemma perm_string_length mode : length (_perm_string mode) = 9%nat.
Proof.
  assert (Hs : ∀ b i lo up chars, length (special_char mode b i lo up chars) = length chars).
  { intros. unfold special_char. case_decide; [done|]. by rewrite length_insert. }
  unfold _perm_string. cbv zeta. by rewrite !Hs.
Qed.

(** ** Rows *)

(** The size of a node whose content can be encoded. *)
Definition size_of (n : inode) : Z := match node_size n with Ok z => z | Err _ => 0 end.
Definition blocks_of (n : inode) : Z := (size_of n + 1023) / 1024.

Lemma size_known n : inode_text n → node_size n = Ok (size_of n).
Proof.
  intros Hn%node_size_text. unfold size_of. destruct (node_size n) as [z|e] eqn:E; [done|].
  exfalso. apply Hn. destruct n as [m|m c [r|] d|m ch]; cbn in E; try done; unfold encoded_size in E;
    [destruct c; [done|]|]; case_match; by simplify_eq.
Qed.

Section Rows.
Context `{World}.

(** Only the clock has been read. *)
Definition ticked (s s' : shell) : Prop :=
  ∃ n, s' = set_outside (sh_log s) (sh_quarantine s) (sh_queries s) n s.
Lemma ticked_refl s : ticked s s.
Proof. exists (sh_ticks s). by destruct s. Qed.
Lemma ticked_trans s1 s2 s3 : ticked s1 s2 → ticked s2 s3 → ticked s1 s3.
Proof. intros [n ->] [k ->]. by exists k. Qed.

Definition fields_at (now : Z) (n : inode) : ls_fields :=
  LsFields (ls_kind n ++ _perm_string (m_mode (node_meta n))) (py_str (node_nlink n)) (m_owner (node_meta n))
    (m_group (node_meta n)) (py_str (size_of n)) (_ls_mtime now (m_mtime (node_meta n))).

Lemma long_fields_eq n s :
  inode_text n → ∃ now s', _ls_long_fields n s = (Ok (fields_at now n), s') ∧ ticked s s'.
Proof.
  intros Hn. unfold _ls_long_fields. cbv zeta. rewrite st_bind_eq. unfold lift. rewrite (size_known n Hn).
  rewrite st_bind_eq. unfold read_clock. do 2 eexists. split; [done|]. by eexists.
Qed.

Abbreviation entry_ok := (λ e : str * inode, inode_text e.2).
Lemma ls_rows_eq entries : ∀ s,
  Forall entry_ok entries →
  ∃ rows s', ls_rows entries s = (Ok rows, s') ∧ ticked s s' ∧
    Forall2 (λ (e : str * inode) (r : str * ls_fields), r.1 = e.1 ∧ ∃ now, r.2 = fields_at now e.2) entries rows.
Proof.
  induction entries as [|[name n] entries IH]; intros s He.
  - exists [], s. split; [done|]. split; [apply ticked_refl|constructor].
  - apply Forall_cons in He as [Hn He]. cbn [ls_rows]. rewrite st_bind_eq.
    destruct (long_fields_eq n s Hn) as (now & s1 & -> & H1). rewrite st_bind_eq.
    destruct (IH s1 He) as (rows & s2 & -> & H2 & Hr).
    exists ((name, fields_at now n) :: rows), s2. split; [done|]. split; [by eapply ticked_trans|].
    constructor; [by eauto|done].
Qed.

Lemma sum_blocks_eq entries :
  Forall entry_ok entries → sum_blocks entries = Ok (foldr Z.add 0 (map (λ e, blocks_of e.2) entries)).
Proof.
  induction 1 as [|[name n] l Hn Hl IH]; [done|]. cbn [sum_blocks]. unfold _ls_blocks.
  rewrite (size_known n Hn), IH. done.
Qed.

(** A row of the long format: every cell as wide as its column. *)
Record widths := Widths { w_nlink : nat; w_owner : nat; w_group : nat; w_size : nat }.
Definition columns (w : widths) (nodes : list inode) : Prop :=
  column (w_nlink w) (map (λ n, py_str (node_nlink n)) nodes) ∧
  column (w_owner w) (map (λ n, m_owner (node_meta n)) nodes) ∧
  column (w_group w) (map (λ n, m_group (node_meta n)) nodes) ∧
  column (w_size w) (map (λ n, py_str (size_of n)) nodes).
Definition row_of (w : widths) (e : str * inode) (row : str) : Prop :=
  ∃ nlink owner group size now,
    cell_right (w_nlink w) (py_str (node_nlink e.2)) nlink ∧
    cell_left (w_owner w) (m_owner (node_meta e.2)) owner ∧
    cell_left (w_group w) (m_group (node_meta e.2)) group ∧
    cell_right (w_size w) (py_str (size_of e.2)) size ∧
    row = ls_kind e.2 ++ _perm_string (m_mode (node_meta e.2)) ++ lit " " ++ nlink ++ lit " " ++ owner ++
          lit " " ++ group ++ lit " " ++ size ++ lit " " ++ _ls_mtime now (m_mtime (node_meta e.2)) ++
          lit " " ++ e.1.
Definition total_of (entries : list (str * inode)) : Z := foldr Z.add 0 (map (λ e, blocks_of e.2) entries).
Definition shows (long : bool) (entries : list (str * inode)) (text : str) : Prop :=
  if long then
    ∃ w rows, columns w (map snd entries) ∧ Forall2 (row_of w) entries rows ∧
      text = join nl ((lit "total " ++ py_str (total_of entries)) :: rows)
  else text = join (lit "  ") (map fst entries).

(** ** The directory *)

Lemma dots_eq v (show_all : bool) path m ch s :
  sh_vfs s = v → sh_home s = v_home v → vfs_text v → resolve v path (sh_cwd s) = Ok (VFSDirectory m ch) →
  ∃ dots,
    (if show_all then
       parent ← reads (λ s0, get (sh_vfs s0) (parent_path (canonicalize path (sh_cwd s) (sh_home s))) "/");
       mret [(lit ".", VFSDirectory m ch); (lit "..", parent)]
     else mret []) s = (Ok dots, s) ∧
    dot_entries v show_all (target v path (sh_cwd s)) dots ∧ Forall entry_ok dots.
Proof.
  intros Hs Hh Hv Hr. destruct show_all; [|by exists []; split; [|split; [|constructor]]].
  destruct (parent_resolves v path (sh_cwd s) _ Hr) as (parent & Hp & Hl).
  pose proof (resolve_text v path (sh_cwd s) Hv) as Ht. rewrite Hr in Ht.
  pose proof (resolve_text v (parent_path (canonicalize path (sh_cwd s) (v_home v))) "/" Hv) as Htp. rewrite Hp in Htp.
  eexists. rewrite st_bind_eq. unfold reads, get. rewrite Hs, Hh, Hp. split; [done|]. split.
  - exists (VFSDirectory m ch), parent. split; [by apply resolve_ok|]. done.
  - by apply Forall_cons_2; [|apply Forall_cons_2; [|apply Forall_nil_2]].
Qed.

(** The widths computed over the rows are those of the columns. *)
Abbreviation fields_of := (λ (e : str * inode) (r : str * ls_fields), r.1 = e.1 ∧ ∃ now, r.2 = fields_at now e.2).
Lemma field_map (g : ls_fields → str) (h : inode → str) entries rows :
  (∀ now n, g (fields_at now n) = h n) → Forall2 fields_of entries rows →
  map (λ r, g r.2) rows = map h (map snd entries).
Proof.
  intros Hg. induction 1 as [|e r entries rows [_ [now E]] _ IH]; [done|]. cbn. by rewrite E, Hg, IH.
Qed.
Lemma Forall2_right {A B} (P : A → B → Prop) (Q : B → Prop) l k :
  Forall2 P l k → Forall Q k → Forall2 (λ x y, P x y ∧ Q y) l k.
Proof. induction 1; intros HQ; [constructor|]. apply Forall_cons in HQ as [? ?]. constructor; auto. Qed.

Definition widths_of (rows : list (str * ls_fields)) : widths :=
  Widths (column_width (map (λ r, f_nlink r.2) rows)) (column_width (map (λ r, f_owner r.2) rows))
    (column_width (map (λ r, f_group r.2) rows)) (column_width (map (λ r, f_size r.2) rows)).
Definition row_str (w : widths) (r : str * ls_fields) : str :=
  let f := r.2 in
  f_mode f ++ lit " " ++ pad_left (w_nlink w) 32 (f_nlink f) ++ lit " " ++
  pad_right (w_owner w) 32 (f_owner f) ++ lit " " ++ pad_right (w_group w) 32 (f_group f) ++ lit " " ++
  pad_left (w_size w) 32 (f_size f) ++ lit " " ++ f_mtime f ++ lit " " ++ r.1.

Lemma widths_columns entries rows :
  Forall2 fields_of entries rows → columns (widths_of rows) (map snd entries).
Proof.
  intros Hr. unfold columns. cbn.
  rewrite <-(field_map f_nlink (λ n, py_str (node_nlink n)) entries rows (λ _ _, eq_refl) Hr).
  rewrite <-(field_map f_owner (λ n, m_owner (node_meta n)) entries rows (λ _ _, eq_refl) Hr).
  rewrite <-(field_map f_group (λ n, m_group (node_meta n)) entries rows (λ _ _, eq_refl) Hr).
  rewrite <-(field_map f_size (λ n, py_str (size_of n)) entries rows (λ _ _, eq_refl) Hr).
  split_and!; apply column_width_spec.
Qed.
Lemma widths_fit rows :
  Forall (λ r : str * ls_fields, (length (f_nlink r.2) ≤ w_nlink (widths_of rows))%nat ∧
    (length (f_owner r.2) ≤ w_owner (widths_of rows))%nat ∧
    (length (f_group r.2) ≤ w_group (widths_of rows))%nat ∧
    (length (f_size r.2) ≤ w_size (widths_of rows))%nat) rows.
Proof.
  assert (Hc : ∀ g : ls_fields → str, Forall (λ r : str * ls_fields,
      (length (g r.2) ≤ column_width (map (λ r, g r.2) rows))%nat) rows).
  { intros g. destruct (column_width_spec (map (λ r, g r.2) rows)) as [H1 _]. by apply Forall_fmap in H1. }
  apply Forall_and; split; [apply (Hc f_nlink)|].
  apply Forall_and; split; [apply (Hc f_owner)|].
  apply Forall_and; split; [apply (Hc f_group)|apply (Hc f_size)].
Qed.
Lemma rows_match entries rows :
  Forall2 fields_of entries rows → Forall2 (row_of (widths_of rows)) entries (map (row_str (widths_of rows)) rows).
Proof.
  intros Hr. apply Forall2_fmap_r. pose proof (widths_fit rows) as Hw. revert Hw. generalize (widths_of rows) as w.
  intros w Hw. eapply Forall2_impl; [exact (Forall2_right _ _ _ _ Hr Hw)|].
  intros e [name f] [[Hname [now Hf]] (H1 & H2 & H3 & H4)]. cbn [fst snd] in *. subst f name. unfold row_str, row_of.
  do 4 eexists. exists now. split; [by apply pad_left_cell|]. split; [by apply pad_right_cell|].
  split; [by apply pad_right_cell|]. split; [by apply pad_left_cell|]. unfold fields_at.
  cbn [f_mode f_nlink f_owner f_group f_size f_mtime fst snd]. by rewrite <-app_assoc.
Qed.

Lemma format_dir_eq m ch path s (long show_all : bool) :
  sh_home s = v_home (sh_vfs s) → vfs_text (sh_vfs s) →
  resolve (sh_vfs s) path (sh_cwd s) = Ok (VFSDirectory m ch) →
  ∃ entries text s',
    _format_ls_dir (VFSDirectory m ch) (canonicalize path (sh_cwd s) (sh_home s)) long show_all s = (Ok text, s') ∧
    ticked s s' ∧ lists (sh_vfs s) show_all (target (sh_vfs s) path (sh_cwd s)) ch entries ∧ shows long entries text.
Proof.
  intros Hh Hv Hr. unfold _format_ls_dir. rewrite st_bind_eq.
  destruct (dots_eq _ show_all path m ch s eq_refl Hh Hv Hr) as (dots & -> & Hdots & Htext). cbv zeta.
  set (shown := List.filter (λ kv, show_all || negb (startswith kv.1 ".")) ch).
  set (entries := merge_sort name_le (dots ++ shown)).
  assert (Hlists : lists (sh_vfs s) show_all (target (sh_vfs s) path (sh_cwd s)) ch entries).
  { split; [apply sorted_names, (Sorted_merge_sort name_le)|]. exists dots. split; [done|].
    apply merge_sort_Permutation. }
  assert (He : Forall entry_ok entries).
  { unfold entries. rewrite merge_sort_Permutation. apply Forall_app. split; [done|].
    eapply incl_Forall; [apply incl_filter|]. pose proof (resolve_text _ path (sh_cwd s) Hv) as Ht.
    rewrite Hr in Ht. apply directory_text in Ht as [_ Hc]. eapply Forall_impl; [exact Hc|]. by intros kv [_ ?]. }
  clearbody entries. destruct long; cbn [negb].
  2: { exists entries. do 2 eexists. split; [done|]. split; [apply ticked_refl|]. by split. }
  rewrite st_bind_eq. unfold lift. rewrite sum_blocks_eq by done. rewrite st_bind_eq.
  destruct (ls_rows_eq entries s He) as (rows & s' & -> & Htick & Hrows).
  exists entries. do 2 eexists. split; [done|]. split; [done|]. split; [done|].
  exists (widths_of rows), (map (row_str (widths_of rows)) rows).
  split; [by apply widths_columns|]. split; [by apply rows_match|done].
Qed.

Definition ls_long (args : list str) : bool := existsb (λ arg, has_flag arg 108) (List.filter is_option args).
Definition ls_all (args : list str) : bool := existsb (λ arg, has_flag arg 97) (List.filter is_option args).
Definition ls_target (args : list str) : str := match operands args with p :: _ => p | [] => lit "." end.

(** C36: What [ls] shows of a directory.  On any tree of text it returns with
    exit code 0 and changes nothing.  It lists the children whose names do not
    start with a dot, with [-a] all of them and [.] and [..], each once, sorted
    by name: separated by two blanks, or with [-l] in rows below the total of
    the sizes in blocks, where every column is exactly as wide as its widest
    cell, counts and sizes to the right and owners to the left. *)
Theorem ls_lists_directory args m ch s :
  sh_home s = v_home (sh_vfs s) → vfs_text (sh_vfs s) →
  resolve (sh_vfs s) (ls_target args) (sh_cwd s) = Ok (VFSDirectory m ch) →
  ∃ entries text s',
    _cmd_ls args s = (Ok (out_result text 0), s') ∧ ticked s s' ∧
    lists (sh_vfs s) (ls_all args) (target (sh_vfs s) (ls_target args) (sh_cwd s)) ch entries ∧
    shows (ls_long args) entries text.
Proof.
  intros Hh Hv Hr. unfold _cmd_ls. cbv zeta. fold (ls_long args) (ls_all args) (ls_target args).
  rewrite st_bind_eq. cbn [gets id]. unfold try_else, vfs_read, reads. rewrite Hr. cbn [is_directory].
  rewrite st_bind_eq.
  destruct (format_dir_eq m ch (ls_target args) s (ls_long args) (ls_all args) Hh Hv Hr)
    as (entries & text & s' & -> & H1 & H2 & H3).
  by exists entries, text, s'.
Qed.
End Rows.

Lemma ls_lists_directory_witness :
  let args := [lit "-la"; lit "/dev"] in
  ∃ ch entries text s',
    @_cmd_ls sample_world args sample_shell = (Ok (out_result text 0), s') ∧
    lists create_default_vfs true [lit "dev"] ch entries ∧ shows true entries text ∧ ch ≠ [].
Proof.
  intros args.
  destruct (resolve create_default_vfs "/dev" "/root") as [[| |m ch]|] eqn:Hr; try (vm_compute in Hr; discriminate Hr).
  destruct (@ls_lists_directory sample_world args m ch sample_shell) as (entries & text & s' & E & _ & Hl & Hs).
  - reflexivity.
  - apply tree_text.
  - exact Hr.
  - exists ch, entries, text, s'. split; [exact E|]. split; [exact Hl|]. split; [exact Hs|].
    intros ->. vm_compute in Hr. discriminate Hr.
Defined.

Example dev_listing :
  (@_cmd_ls sample_world [lit "-l"; lit "/dev"] sample_shell).1 =
  Ok (out_result (join nl
    [lit "total 0";
     lit "crw-rw-rw- 1 root root 0 Apr 10  2024 null";
     lit "crw-rw-rw- 1 root root 0 Apr 10  2024 urandom";
     lit "crw-rw-rw- 1 root root 0 Apr 10  2024 zero"]) 0).
Proof. vm_compute. reflexivity. Qed.
