(* ===== verification/Server.v ===== *)
(** * The server ([server.py])

    [HoneypotServer], the object behind one SSH connection, and [handle_client],
    the coroutine behind one terminal.  A coroutine is cut at the points where
    it waits for the client: [client_open], [client_read] and [client_finish]
    are the pieces of [handle_client] between two reads of the terminal, and
    the two halves of [validate_password] lie around its wait in the tarpit.
    [server_step] runs one such piece of any connection; AsyncSSH, which
    decides which callback runs when, is the sequence of [event]s. *)

From S2P Require Import Prelude PyStr OrdDict Path Vfs HoneypotTree Lru SessionManager Auth Terminal.
From S2P Require Import Regex Llm Sinkhole Shell.

Definition BANNER : str := "Welcome to Ubuntu 22.04.3 LTS (GNU/Linux 5.15.0-88-generic x86_64)".
Definition SWEEP_INTERVAL_SECONDS : Z := 60.

(** What may be raised here: the exceptions of the sources, those of the
    connection that the tuple [_DISCONNECT_ERRORS] names ([EOFError] and its
    subclass, those of AsyncSSH), cancellation of the task, and any other. *)
Inductive server_exc :=
  | Raised (e : pyexc)
  | ConnectionGone
  | CancelledError
  | OtherError.
#[export] Instance server_exc_eq_dec : EqDecision server_exc.
Proof. solve_decision. Defined.

(** [isinstance(e, _DISCONNECT_ERRORS)]. *)
Definition _DISCONNECT_ERRORS (e : server_exc) : bool :=
  match e with
  | Raised e => is_OSError e
  | ConnectionGone => true
  | CancelledError | OtherError => false
  end.

(** ** Who is connected *)

(** The values the code tests with [isinstance]. *)
Inductive pyval := PyString (s : str) | PyOther.
Inductive peername := PeerTuple (items : list str) | PeerString (s : str) | PeerOther.

Definition _peer_ip (peer : peername) : str :=
  match peer with
  | PeerTuple (host :: _) => host
  | PeerString s => if bool_decide (s = []) then "unknown" else s
  | PeerTuple [] | PeerOther => "unknown"
  end.

(** What [conn.set_extra_info] has stored. *)
Definition extra_info := list (str * pyval).

(** [_session_meta]: [conn] is [None] when asking for the connection raises. *)
Definition _session_meta (conn : option extra_info) (peer : peername) : str * str :=
  match conn with
  | None => (lit "local", _peer_ip peer)
  | Some info =>
      (match dict_get info (lit "honeypot_session_id") with
       | Some (PyString s) => if bool_decide (s = []) then lit "local" else s
       | _ => lit "local"
       end,
       match dict_get info (lit "honeypot_client_ip") with
       | Some (PyString s) => if bool_decide (s = []) then _peer_ip peer else s
       | _ => _peer_ip peer
       end)
  end.

(** ** [HoneypotServer] *)

Record honeypot_server := HoneypotServer {
  hs_conn : bool;                       (* [_conn is not None] *)
  hs_client_ip : option str;
  hs_session_id : option str
}.
Definition honeypot_server_init : honeypot_server := HoneypotServer false None None.

(** [connection_made]; [pending] is the value of the context variable. *)
Definition connection_made (pending : option pyval) (peer : peername) (rnd : nat) (uuid : str)
    (now : Z) (auth : auth_manager) : honeypot_server * extra_info * auth_manager :=
  let client_ip :=
    match pending with
    | Some (PyString s) => if bool_decide (s = []) then _peer_ip peer else s
    | _ => _peer_ip peer
    end in
  let (session_id, auth') := create_session client_ip rnd uuid now auth in
  (HoneypotServer true (Some client_ip) (Some session_id),
   [(lit "honeypot_session_id", PyString session_id); (lit "honeypot_client_ip", PyString client_ip)],
   auth').

Definition connection_lost (now : Z) (h : honeypot_server) (sessions : manager) (auth : auth_manager) :
    honeypot_server * manager * auth_manager :=
  let sessions' := match hs_client_ip h with Some ip => touch_session ip now sessions | None => sessions end in
  match hs_session_id h with
  | None => (HoneypotServer false None None, sessions', auth)
  | Some session_id => (HoneypotServer false None None, sessions', release_session session_id auth)
  end.

Definition begin_auth (username : str) : bool := true.
Definition password_auth_supported : bool := true.
Definition kbdint_auth_supported : bool := false.
Definition command_requested (command : str) : bool := true.

(** [validate_password] up to its wait: [None] when it returns [False] at once,
    and otherwise what [validate_login] will return or raise. *)
Definition validate_password_start (h : honeypot_server) (username password : str) (rnd : nat)
    (now1 now2 : Z) (auth : auth_manager) : option (result bool * list auth_event) * auth_manager :=
  match hs_session_id h, hs_client_ip h with
  | Some session_id, Some client_ip =>
      let '(r, events, auth') := validate_login client_ip session_id username password rnd now1 now2 auth in
      (Some (r, events), auth')
  | _, _ => (None, auth)
  end.

(** [validate_password] from there: what it returns, whether it schedules
    [_disconnect_auth_limit], and the lookup of the lockout. *)
Definition validate_password_end (h : honeypot_server) (r : result bool) (now : Z) (auth : auth_manager) :
    bool * bool * auth_manager :=
  let check accepted :=
    match hs_client_ip h with
    | Some client_ip =>
        if accepted : bool then (true, false, auth)
        else let (locked_out, auth') := is_locked_out client_ip now auth in (false, locked_out, auth')
    | None => (accepted, false, auth)
    end in
  match r with
  | Ok accepted => check accepted
  | Err (AuthAttemptLimitExceeded _) => check false
  | Err _ => (false, false, auth)
  end.

(** [_disconnect_auth_limit]: whether [conn.disconnect] was called, and what
    comes out; [raised] is what that call raises. *)
Definition _disconnect_auth_limit (h : honeypot_server) (raised : option server_exc) :
    bool * option server_exc :=
  if hs_conn h then
    (true, match raised with Some e => if _DISCONNECT_ERRORS e then None else Some e | None => None end)
  else (false, None).

(** One round of [_periodic_sweep]. *)
Definition sweep_round (now : Z) (sessions : manager) (auth : auth_manager) : manager * auth_manager :=
  ((sweep now sessions).2, (auth_sweep now auth).2).

(** ** [handle_client] *)

(** How the channel of a process answers: what its [n]-th write raises, and what
    [exit] and then [close] and [wait_closed] raise. *)
Record channel := Channel {
  ch_write : nat → option server_exc;
  ch_exit : option server_exc;
  ch_close : option server_exc
}.

(** The sensor's files: the log of each session and the quarantine directory. *)
Record disk := Disk {
  d_logs : gmap str (list command_record);
  d_quarantine : list (str * str)
}.
Definition log_of (session_id : str) (d : disk) : list command_record :=
  default [] (d_logs d !! session_log_path session_id).

(** How [handle_client] ended: the status it sent, and what it raised. *)
Record ending := Ending { end_status : option Z; end_raised : option server_exc }.

Inductive phase :=
  | Reading                                            (* awaits [process.stdin.readline()] *)
  | Leaving (exit_code : Z) (raised : option server_exc)  (* about to run [finally] *)
  | Ended (e : ending).

Record client := Client {
  cl_record : nat;              (* [record] *)
  cl_ip : str;
  cl_shell : shell;
  cl_channel : channel;
  cl_writes : nat;              (* calls of [write] so far *)
  cl_sent : list str;           (* what they wrote *)
  cl_phase : phase
}.

(** What [readline] returns (the empty string at the end) or raises. *)
Inductive read_event := ReadLine (text : str) | ReadError (e : server_exc).

Definition set_shell (s : shell) (c : client) : client :=
  Client (cl_record c) (cl_ip c) s (cl_channel c) (cl_writes c) (cl_sent c) (cl_phase c).
Definition set_phase (p : phase) (c : client) : client :=
  Client (cl_record c) (cl_ip c) (cl_shell c) (cl_channel c) (cl_writes c) (cl_sent c) p.

(** [_channel_write(process.stdout, text, complete=complete)]: what it raises. *)
Definition stdout_write (text : str) (complete : bool) (c : client) : option server_exc * client :=
  match _channel_write text complete with
  | None => (None, c)
  | Some payload =>
      let raised := ch_write (cl_channel c) (cl_writes c) in
      (raised,
       Client (cl_record c) (cl_ip c) (cl_shell c) (cl_channel c) (S (cl_writes c))
         (cl_sent c ++ match raised with Some _ => [] | None => [payload] end) (cl_phase c))
  end.

(** What a stretch of execution reads of the world at each of its clock readings
    and awaits (the rest of [World] is fixed): the clock, the other connections
    of the client, the disk, the provider of the model. *)
Record moment := Moment {
  mo_clock : nat → Z;
  mo_others : nat → ip_session → ip_session;
  mo_disk_ok : nat → bool;
  mo_provider : option (nat → groq_request → groq_outcome)
}.

Section Server.
Context `{W : World}.
(** The interpreter's stack. *)
Context (stack : nat).

Definition world_at (mo : moment) : World := {|
  w_unicode := w_unicode;
  w_clock := mo_clock mo;
  w_others := mo_others mo;
  w_disk_ok := mo_disk_ok mo;
  w_sha256 := w_sha256;
  w_md5 := w_md5;
  w_sha256_bytes := w_sha256_bytes;
  w_urlparse := w_urlparse;
  w_url_port := w_url_port;
  w_regex := w_regex;
  w_provider := mo_provider mo |}.

(** The shell works on the session object and the files as they are now. *)
Definition load (m : manager) (d : disk) (c : client) : shell :=
  let s := cl_shell c in
  let s := match sm_heap m !! cl_record c with Some record => set_session record s | None => s end in
  set_outside (log_of (sh_session_id s) d) (d_quarantine d) (sh_queries s) (sh_ticks s) s.
Definition store_session (c : client) (s : shell) (m : manager) : manager :=
  use_session (cl_record c) (s_vfs (sh_session s)) (s_llm_cache (sh_session s)) (s_cwd (sh_session s)) m.
Definition store_disk (s : shell) (d : disk) : disk :=
  Disk (<[session_log_path (sh_session_id s) := sh_log s]> (d_logs d)) (sh_quarantine s).

(** [await shell.execute(line)]. *)
Definition client_execute (mo : moment) (line : str) (m : manager) (d : disk) (c : client) :
    result command_result * (manager * disk * client) :=
  let (r, s) := @execute (world_at mo) stack line (load m d c) in
  (r, (store_session c s m, store_disk s d, set_shell s c)).

(** The top of the loop: the prompt, then [readline]. *)
Definition client_prompt (c : client) : client :=
  match stdout_write (prompt (cl_shell c)) false c with
  | (Some e, c) => set_phase (Leaving 0 (Some e)) c
  | (None, c) => set_phase Reading c
  end.

(** [handle_client] up to the first read, or to its [finally]. *)
Definition client_open (mo : moment) (now : Z) (meta : str * str) (command : option str) (ch : channel)
    (m : manager) (d : disk) : manager * disk * client :=
  let (session_id, client_ip) := meta in
  let (l, m) := get_or_create client_ip now m in
  let record := default (IpSession (sm_factory m) [] now DEFAULT_HOME) (sm_heap m !! l) in
  let c := Client l client_ip (shell_init record session_id client_ip (d_quarantine d)) ch 0 [] Reading in
  if bool_decide (default [] command ≠ []) then
    match client_execute mo (default [] command) m d c with
    | (Err e, (m, d, c)) => (m, d, set_phase (Leaving 0 (Some (Raised e))) c)
    | (Ok result, (m, d, c)) =>
        match (if bool_decide (r_output result = []) then (None, c) else stdout_write (r_output result) true c) with
        | (Some e, c) => (m, d, set_phase (Leaving 0 (Some e)) c)
        | (None, c) => (m, d, set_phase (Leaving (r_exit_code result) None) c)
        end
    end
  else
    match stdout_write BANNER true c with
    | (Some e, c) => (m, d, set_phase (Leaving 0 (Some e)) c)
    | (None, c) => (m, d, client_prompt c)
    end.

(** One turn of the loop, from what [readline] gave. *)
Definition client_read (mo : moment) (ev : read_event) (m : manager) (d : disk) (c : client) :
    manager * disk * client :=
  match ev with
  | ReadError e => (m, d, set_phase (Leaving 0 (Some e)) c)
  | ReadLine line =>
      if bool_decide (line = []) then (m, d, set_phase (Leaving 0 None) c)
      else
      match client_execute mo (rstrip line [13; 10]) m d c with
      | (Err e, (m, d, c)) => (m, d, set_phase (Leaving 0 (Some (Raised e))) c)
      | (Ok result, (m, d, c)) =>
          match (if bool_decide (r_output result = []) then (None, c) else stdout_write (r_output result) true c) with
          | (Some e, c) => (m, d, set_phase (Leaving 0 (Some e)) c)
          | (None, c) =>
              if r_exit_session result then (m, d, set_phase (Leaving 0 None) c)
              else (m, d, client_prompt c)
          end
      end
  end.

(** The [except] clauses: a lost connection ends the coroutine quietly. *)
Definition uncaught (raised : option server_exc) : option server_exc :=
  match raised with
  | Some e => if _DISCONNECT_ERRORS e then None else Some e
  | None => None
  end.

(** [finally]: the directory is remembered, the session touched, the status sent. *)
Definition client_finish (now : Z) (exit_code : Z) (raised : option server_exc) (m : manager) (c : client) :
    manager * client :=
  let m := match sm_heap m !! cl_record c with
           | Some record => use_session (cl_record c) (s_vfs record) (s_llm_cache record) (sh_cwd (cl_shell c)) m
           | None => m
           end in
  let m := touch_session (cl_ip c) now m in
  let (status, problem) :=
    match ch_exit (cl_channel c) with
    | Some e => (None, Some e)
    | None => (Some exit_code, ch_close (cl_channel c))
    end in
  let out := match uncaught problem with Some e => Some e | None => uncaught raised end in
  (m, set_phase (Ended (Ending status out)) c).

(** One await of the coroutine: meanwhile the others used the session table,
    then a turn of the loop. *)
Record turn := Turn { tn_others : list (Z * sm_op); tn_moment : moment; tn_event : read_event }.

Fixpoint client_loop (turns : list turn) (m : manager) (d : disk) (c : client) : manager * disk * client :=
  match cl_phase c, turns with
  | Reading, tn :: rest =>
      let '(m, d, c) := client_read (tn_moment tn) (tn_event tn) (sm_run (tn_others tn) m) d c in
      client_loop rest m d c
  | _, _ => (m, d, c)
  end.

(** The whole of [handle_client], for a terminal on which [turns] happens: it
    still awaits input when its phase is [Reading]. *)
Definition handle_client (mo : moment) (now : Z) (meta : str * str) (command : option str) (ch : channel)
    (turns : list turn) (ending_time : Z) (m : manager) (d : disk) : manager * disk * client :=
  let '(m, d, c) := client_open mo now meta command ch m d in
  let '(m, d, c) := client_loop turns m d c in
  match cl_phase c with
  | Leaving exit_code raised =>
      let (m, c) := client_finish ending_time exit_code raised m c in (m, d, c)
  | _ => (m, d, c)
  end.

(** ** The event loop *)

(** A connection: its [HoneypotServer], what was stored on it, a login in the
    tarpit, a scheduled [_disconnect_auth_limit], whether it was disconnected. *)
Record conn := Conn {
  cn_server : honeypot_server;
  cn_info : extra_info;
  cn_login : option (result bool);
  cn_scheduled : bool;
  cn_disconnected : bool
}.

Record server := Server {
  sv_auth : auth_manager;
  sv_sessions : manager;
  sv_conns : gmap nat conn;
  sv_clients : gmap nat client;
  sv_disk : disk;
  sv_attempts : list auth_event           (* what the logins recorded, and the waits *)
}.

Inductive event :=
  | Connect (k : nat) (pending : option pyval) (peer : peername) (rnd : nat) (uuid : str)
  | Disconnect (k : nat)
  | Password (k : nat) (username password : str) (rnd : nat) (delay : nat)
  | PasswordDone (k : nat)
  | Kick (k : nat) (raised : option server_exc)
  | SweepRound
  | OpenProcess (p : nat) (k : option nat) (peer : peername) (command : option str) (ch : channel) (mo : moment)
  | Read (p : nat) (mo : moment) (ev : read_event)
  | Finish (p : nat).

Definition set_managers (auth : auth_manager) (m : manager) (s : server) : server :=
  Server auth m (sv_conns s) (sv_clients s) (sv_disk s) (sv_attempts s).
Definition set_conn (k : nat) (cn : conn) (s : server) : server :=
  Server (sv_auth s) (sv_sessions s) (<[k := cn]> (sv_conns s)) (sv_clients s) (sv_disk s) (sv_attempts s).
Definition set_client (p : nat) (c : client) (s : server) : server :=
  Server (sv_auth s) (sv_sessions s) (sv_conns s) (<[p := c]> (sv_clients s)) (sv_disk s) (sv_attempts s).
Definition set_disk (d : disk) (s : server) : server :=
  Server (sv_auth s) (sv_sessions s) (sv_conns s) (sv_clients s) d (sv_attempts s).
Definition add_attempts (events : list auth_event) (s : server) : server :=
  Server (sv_auth s) (sv_sessions s) (sv_conns s) (sv_clients s) (sv_disk s) (sv_attempts s ++ events).

Definition step_connect (now : Z) (k : nat) (pending : option pyval) (peer : peername) (rnd : nat)
    (uuid : str) (s : server) : server :=
  let '(h, info, auth) := connection_made pending peer rnd uuid now (sv_auth s) in
  set_conn k (Conn h info None false false) (set_managers auth (sv_sessions s) s).

Definition step_disconnect (now : Z) (k : nat) (cn : conn) (s : server) : server :=
  let '(h, m, auth) := connection_lost now (cn_server cn) (sv_sessions s) (sv_auth s) in
  set_conn k (Conn h (cn_info cn) (cn_login cn) (cn_scheduled cn) (cn_disconnected cn)) (set_managers auth m s).

Definition step_password (now : Z) (k : nat) (cn : conn) (username password : str) (rnd : nat)
    (later : Z) (s : server) : server :=
  match validate_password_start (cn_server cn) username password rnd now later (sv_auth s) with
  | (Some (r, events), auth) =>
      add_attempts events
        (set_conn k (Conn (cn_server cn) (cn_info cn) (Some r) (cn_scheduled cn) (cn_disconnected cn))
           (set_managers auth (sv_sessions s) s))
  | (None, auth) => set_managers auth (sv_sessions s) s
  end.

Definition step_password_done (now : Z) (k : nat) (cn : conn) (r : result bool) (s : server) : server :=
  let '(_, scheduled, auth) := validate_password_end (cn_server cn) r now (sv_auth s) in
  set_conn k (Conn (cn_server cn) (cn_info cn) None (cn_scheduled cn || scheduled) (cn_disconnected cn))
    (set_managers auth (sv_sessions s) s).

Definition step_kick (k : nat) (cn : conn) (raised : option server_exc) (s : server) : server :=
  let (called, _) := _disconnect_auth_limit (cn_server cn) raised in
  set_conn k (Conn (cn_server cn) (cn_info cn) (cn_login cn) false (cn_disconnected cn || called)) s.

Definition step_client (p : nat) (res : manager * disk * client) (s : server) : server :=
  let '(m, d, c) := res in set_client p c (set_disk d (set_managers (sv_auth s) m s)).

Definition server_step (now : Z) (ev : event) (s : server) : server :=
  match ev with
  | Connect k pending peer rnd uuid =>
      match sv_conns s !! k with Some _ => s | None => step_connect now k pending peer rnd uuid s end
  | Disconnect k => match sv_conns s !! k with Some cn => step_disconnect now k cn s | None => s end
  | Password k username password rnd delay =>
      match sv_conns s !! k with
      | Some cn => step_password now k cn username password rnd (now + Z.of_nat delay) s
      | None => s
      end
  | PasswordDone k =>
      match sv_conns s !! k with
      | Some cn => match cn_login cn with Some r => step_password_done now k cn r s | None => s end
      | None => s
      end
  | Kick k raised =>
      match sv_conns s !! k with
      | Some cn => if cn_scheduled cn then step_kick k cn raised s else s
      | None => s
      end
  | SweepRound => let (m, auth) := sweep_round now (sv_sessions s) (sv_auth s) in set_managers auth m s
  | OpenProcess p k peer command ch mo =>
      match sv_clients s !! p with
      | Some _ => s
      | None =>
          let info := k ← k; cn_info <$> sv_conns s !! k in
          step_client p (client_open mo now (_session_meta info peer) command ch (sv_sessions s) (sv_disk s)) s
      end
  | Read p mo input =>
      match sv_clients s !! p with
      | Some c =>
          match cl_phase c with
          | Reading => step_client p (client_read mo input (sv_sessions s) (sv_disk s) c) s
          | _ => s
          end
      | None => s
      end
  | Finish p =>
      match sv_clients s !! p with
      | Some c =>
          match cl_phase c with
          | Leaving exit_code raised =>
              let (m, c) := client_finish now exit_code raised (sv_sessions s) c in
              set_client p c (set_managers (sv_auth s) m s)
          | _ => s
          end
      | None => s
      end
  end.

(** When an event that began at [now] is over. *)
Definition event_end (now : Z) (ev : event) : Z :=
  match ev with Password _ _ _ _ delay => now + Z.of_nat delay | _ => now end.

Fixpoint server_run (evs : list (Z * event)) (s : server) : server :=
  match evs with
  | [] => s
  | (now, ev) :: rest => server_run rest (server_step now ev s)
  end.

(** Nobody is connected. *)
Definition server_init (auth : auth_manager) (m : manager) (d : disk) : server :=
  Server auth m ∅ ∅ d [].
(** [main], up to the first connection. *)
Definition main_server (d : disk) : result server :=
  auth ← auth_manager_init DEFAULT_WEAK_PASSWORDS TARPIT_SECONDS DEFAULT_MAX_ATTEMPTS DEFAULT_MAX_PINS
           DEFAULT_PIN_TTL_SECONDS DEFAULT_ATTEMPT_TTL_SECONDS;
  m ← session_manager DEFAULT_MAX_SESSIONS DEFAULT_TTL_SECONDS create_default_vfs;
  mret (server_init auth m d).
End Server.
