(* ===== verification/ServerInv.v ===== *)
(** * The invariant of the server

    What holds between two events, over any number of connections and clients:
    the managers are in a state their own histories reach, every session object
    is in order, every shell can go on, and the evidence on the disk is
    consistent.  [work] is what a piece of [handle_client] may do. *)

From S2P Require Import Prelude PyStr OrdDict Path Chmod Vfs HoneypotTree Lru SessionManager Auth Terminal VfsTree VfsSpec VfsProps.
From S2P Require Import Regex Json Llm LlmProps ShellParse ShellStatic DateTime Sinkhole Shell ShellEffects ShellSample ShellProps ShellBounds Sharing Server.

#[local] Arguments lit : simpl never.

Section Invariant.
Context `{W : World} (stack : nat).

(** ** What is in order *)

(** The part of the shell that is not shared. *)
Record private_ok (s : shell) : Prop := {
  po_cwd : canonical (sh_cwd s);
  po_oldpwd : ∀ old, sh_oldpwd s = Some old → canonical old;
  po_home : canonical (sh_home s);
  po_depth : (sh_depth s ≤ _MAX_SCRIPT_DEPTH)%nat }.

Lemma shell_private s : shell_ok s ↔ session_ok (sh_session s) ∧ private_ok s.
Proof. split; [intros []; by split|intros [? []]; by split]. Qed.

Record disk_ok (d : disk) : Prop := {
  do_filed : ∀ k c, dict_get (d_quarantine d) k = Some c → k = w_sha256 c;
  do_records : ∀ path log, d_logs d !! path = Some log →
    Forall (λ r, kept (d_quarantine d) (cr_captured_artifacts r)) log }.

(** Nothing is lost: logs only grow at the end, no file goes. *)
Record disk_grows (d d' : disk) : Prop := {
  dg_logs : ∀ sid, log_of sid d `prefix_of` log_of sid d';
  dg_files : dir_grows (d_quarantine d) (d_quarantine d') }.

Definition phase_ok (p : phase) : Prop :=
  match p with
  | Reading => True
  | Leaving code _ => 0 ≤ code ≤ 255
  | Ended e => (∀ code, end_status e = Some code → 0 ≤ code ≤ 255) ∧
               ∀ x, end_raised e = Some x → _DISCONNECT_ERRORS x = false
  end.

Record client_ok (m : manager) (d : disk) (c : client) : Prop := {
  co_live : is_Some (sm_heap m !! cl_record c);
  co_private : private_ok (cl_shell c);
  co_artifacts : kept (d_quarantine d) (sh_artifacts (cl_shell c));
  co_phase : phase_ok (cl_phase c) }.

Definition heap_fine (m : manager) : Prop := ∀ l x, sm_heap m !! l = Some x → session_fine x.

(** Every session object is there and has met with nothing but interference. *)
Definition heap_interferes (m m' : manager) : Prop :=
  ∀ l x, sm_heap m !! l = Some x → ∃ y, sm_heap m' !! l = Some y ∧ interference x y.

(** What the holder of [c] may do between two awaits. *)
Record work (m : manager) (d : disk) (c : client) (m' : manager) (d' : disk) (c' : client) : Prop := {
  wk_use : m' = m ∨ ∃ v cache cwd, m' = use_session (cl_record c) v cache cwd m;
  wk_heap : heap_interferes m m';
  wk_disk : disk_ok d';
  wk_grows : disk_grows d d';
  wk_client : client_ok m' d' c';
  wk_record : cl_record c' = cl_record c;
  wk_ip : cl_ip c' = cl_ip c }.

(** ** Simple facts *)

Lemma disk_grows_refl d : disk_grows d d.
Proof. split; [intros sid; reflexivity|by intros k]. Qed.
Lemma disk_grows_trans d1 d2 d3 : disk_grows d1 d2 → disk_grows d2 d3 → disk_grows d1 d3.
Proof. intros [L1 F1] [L2 F2]. split; [intros sid; by transitivity (log_of sid d2)|]. intros k Hk. by apply F2, F1. Qed.

Lemma heap_interferes_refl m : heap_interferes m m.
Proof. intros l x Hx. exists x. split; [done|]. constructor. Qed.
Lemma heap_interferes_trans m1 m2 m3 :
  heap_interferes m1 m2 → heap_interferes m2 m3 → heap_interferes m1 m3.
Proof.
  intros H1 H2 l x Hx. destruct (H1 l x Hx) as (y & Hy & Ixy), (H2 l y Hy) as (z & Hz & Iyz).
  exists z. split; [done|]. by eapply if_trans.
Qed.

(** One object is replaced by something interference could make of it. *)
Lemma heap_interferes_alter l f m :
  (∀ x, sm_heap m !! l = Some x → interference x (f x)) →
  heap_interferes m (with_heap (alter f l (sm_heap m)) m).
Proof.
  intros Hf l' x Hx. cbn. rewrite lookup_alter. case_decide as E; [|exists x; split; [done|constructor]].
  subst l'. rewrite Hx. exists (f x). split; [done|]. by apply Hf.
Qed.
Lemma heap_fine_interferes m m' :
  heap_fine m → heap_interferes m m' →
  (∀ l, is_Some (sm_heap m' !! l) → is_Some (sm_heap m !! l)) → heap_fine m'.
Proof.
  intros Hf Hi Hd l y Hy. destruct (Hd l (ex_intro _ y Hy)) as [x Hx].
  destruct (Hi l x Hx) as (y' & Hy' & Ixy). simplify_eq.
  eapply interference_fine; [done|]. by apply (Hf l).
Qed.

Lemma use_interferes l v cache cwd m x0 :
  sm_heap m !! l = Some x0 → interference x0 (IpSession v cache (s_last_seen x0) cwd) →
  heap_interferes m (use_session l v cache cwd m).
Proof. intros Hl Hi. apply heap_interferes_alter. intros x Hx. by simplify_eq. Qed.
Lemma touch_interferes ip now m : heap_interferes m (touch_session ip now m).
Proof.
  unfold touch_session. destruct (dict_get _ ip) as [l|]; [|apply heap_interferes_refl].
  apply (heap_interferes_alter l (set_last_seen now)). intros x _. constructor.
Qed.
Lemma use_live l v cache cwd m l' :
  is_Some (sm_heap (use_session l v cache cwd m) !! l') ↔ is_Some (sm_heap m !! l').
Proof. apply alter_live. Qed.
Lemma touch_live ip now m l' :
  is_Some (sm_heap (touch_session ip now m) !! l') ↔ is_Some (sm_heap m !! l').
Proof. unfold touch_session. destruct (dict_get _ ip) as [l|]; [|done]. apply alter_live. Qed.

Lemma client_ok_mono m d c m' d' :
  client_ok m d c → heap_interferes m m' → disk_grows d d' → client_ok m' d' c.
Proof.
  intros [[x Hx] Hp Ha Hph] Hi [_ Hf]. split; [|done| |done].
  - destruct (Hi _ x Hx) as (y & Hy & _). by exists y.
  - eapply kept_grows; done.
Qed.

(** Same client, but for what was written and where it stands. *)
Lemma work_dress m d c m' d' c1 c2 :
  cl_record c2 = cl_record c1 → cl_ip c2 = cl_ip c1 → cl_shell c2 = cl_shell c1 → phase_ok (cl_phase c2) →
  work m d c m' d' c1 → work m d c m' d' c2.
Proof.
  intros Hr Hi Hs Hp [Hu Hh Hd Hg [Hl Hpr Ha _] Hr1 Hi1].
  split; [done|done|done|done| |by rewrite Hr|by rewrite Hi]. split; [by rewrite Hr|by rewrite Hs..|done].
Qed.
Lemma work_idle m d c : disk_ok d → client_ok m d c → work m d c m d c.
Proof. intros Hd Hc. split; [by left|apply heap_interferes_refl|done|apply disk_grows_refl|done|done|done]. Qed.

(** ** Executing a line *)

Lemma log_of_store s d sid :
  log_of sid (store_disk s d) =
  if decide (session_log_path (sh_session_id s) = session_log_path sid) then sh_log s else log_of sid d.
Proof.
  unfold log_of, store_disk. cbn. case_decide as E; [by rewrite E, lookup_insert_eq|].
  by rewrite lookup_insert_ne.
Qed.

Lemma loaded mo m d c x :
  sm_heap m !! cl_record c = Some x → disk_ok d → client_ok m d c → session_ok x →
  let s := load m d c in
  shell_ok s ∧ @evidence_ok (world_at mo) s ∧ sh_session s = x ∧ sh_session_id s = sh_session_id (cl_shell c) ∧
  sh_log s = log_of (sh_session_id s) d ∧ sh_quarantine s = d_quarantine d.
Proof.
  intros Hx [Hf Hr] [_ [] Ha _] Hok s. subst s. unfold load. rewrite Hx. split; [by split|]. split; [|done].
  split; [exact Hf|exact Ha|]. cbn. unfold log_of. destruct (d_logs d !! _) as [log|] eqn:E; [by eapply Hr|constructor].
Qed.

Lemma execute_work mo line m d c r m' d' c' :
  interfering (world_at mo) → heap_fine m → disk_ok d → client_ok m d c →
  client_execute stack mo line m d c = (r, (m', d', c')) →
  work m d c m' d' c' ∧ ∀ res, r = Ok res → status_ok res.
Proof.
  intros Hmo Hf Hd Hc. unfold client_execute. pose proof Hc as [[x Hx] Hp Ha Hph].
  destruct (loaded mo m d c x Hx Hd Hc (sf_ok _ (Hf _ _ Hx))) as (Hs & He & Es & Ei & El & Eq).
  set (s := load m d c) in *. pose proof (@traced_execute (world_at mo) stack line s) as Hr.
  pose proof (@exit_code_status (world_at mo) stack line s) as Hst.
  destruct (@execute (world_at mo) stack line s) as [r0 s'] eqn:E. cbn [snd] in Hr.
  intros [= <- <- <- <-]. split; [|intros res ->; by eapply Hst].
  pose proof (shell_interferes _ s s' Hmo Hr Hs) as Hi. rewrite Es in Hi.
  apply (@runs_ok (world_at mo) (interfering_ok _ Hmo) s s' Hr) in Hs as [_ Hp']%shell_private.
  destruct (@runs_evidence (world_at mo) s s' Hr He) as [Hf' Ha' Hl'].
  pose proof (@runs_grows (world_at mo) s s' Hr) as Hg.
  destruct (@runs_log_grows (world_at mo) s s' Hr) as (new & Elog & _).
  destruct (@runs_identity (world_at mo) s s' Hr) as (Eid & _). rewrite Eq in Hg.
  split; [by right; repeat eexists| | | |split|done|done].
  - apply (use_interferes _ _ _ _ _ x Hx). eapply if_trans; [exact Hi|].
    exact (if_seen (s_last_seen x) (sh_session s')).
  - split; cbn; [exact Hf'|]. intros path log. rewrite lookup_insert_Some. intros [[_ <-]|[_ Hlog]]; [done|].
    apply (do_records _ Hd) in Hlog. eapply Forall_impl; [exact Hlog|]. intros rec. by apply kept_grows.
  - split; [|exact Hg]. intros sid. rewrite log_of_store. case_decide as E1; [|done].
    rewrite Elog, El. exists new. f_equal. unfold log_of. by rewrite <-E1, Eid.
  - apply use_live. by exists x.
  - exact Hp'.
  - exact Ha'.
  - exact Hph.
Qed.

(** ** The pieces of [handle_client] *)

(** Writing changes nothing but the terminal. *)
Lemma write_same text complete c e c' :
  stdout_write text complete c = (e, c') →
  cl_record c' = cl_record c ∧ cl_ip c' = cl_ip c ∧ cl_shell c' = cl_shell c ∧ cl_channel c' = cl_channel c.
Proof. unfold stdout_write. destruct (_channel_write _ _); by intros [= <- <-]. Qed.

Lemma output_same (text : str) c e c' :
  (if bool_decide (text = []) then (None, c) else stdout_write text true c) = (e, c') →
  cl_record c' = cl_record c ∧ cl_ip c' = cl_ip c ∧ cl_shell c' = cl_shell c ∧ cl_channel c' = cl_channel c.
Proof. case_bool_decide; [by intros [= <- <-]|apply write_same]. Qed.

Lemma prompt_same c :
  let c' := client_prompt c in
  cl_record c' = cl_record c ∧ cl_ip c' = cl_ip c ∧ cl_shell c' = cl_shell c ∧ cl_channel c' = cl_channel c ∧
  (cl_phase c' = Reading ∨ ∃ e, cl_phase c' = Leaving 0 (Some e)).
Proof.
  unfold client_prompt. destruct (stdout_write _ _ _) as [[e|] c1] eqn:E; apply write_same in E as (?&?&?&?);
    cbn; naive_solver.
Qed.
Lemma prompt_phase_ok c : phase_ok (cl_phase (client_prompt c)).
Proof. destruct (prompt_same c) as (_&_&_&_&[->|[e ->]]); cbn; [done|lia]. Qed.

Lemma client_read_work mo ev m d c m' d' c' :
  interfering (world_at mo) → heap_fine m → disk_ok d → client_ok m d c →
  client_read stack mo ev m d c = (m', d', c') → work m d c m' d' c'.
Proof.
  intros Hmo Hf Hd Hc. pose proof (work_idle m d c Hd Hc) as Hidle.
  destruct ev as [line|e]; cbn [client_read];
    [|intros [= <- <- <-]; by apply (work_dress m d c m d c)].
  case_bool_decide; [intros [= <- <- <-]; by apply (work_dress m d c m d c)|].
  destruct (client_execute _ _ _ _ _ _) as [r [[m1 d1] c1]] eqn:Ex.
  apply execute_work in Ex as [Hw Hst]; [|done..].
  destruct r as [res|e]; [|intros [= <- <- <-]; by apply (work_dress m d c m1 d1 c1)].
  destruct (if bool_decide _ then _ else _) as [[e|] c2] eqn:Ew; apply output_same in Ew as (?&?&?&?).
  - intros [= <- <- <-]. by apply (work_dress m d c m1 d1 c1).
  - destruct (r_exit_session res); intros [= <- <- <-]; [by apply (work_dress m d c m1 d1 c1)|].
    destruct (prompt_same c2) as (?&?&?&?&_).
    apply (work_dress m d c m1 d1 c1); [congruence..|apply prompt_phase_ok|done].
Qed.

Lemma get_or_create_new ip now m t :
  sm_ok m t →
  ∃ x, sm_heap (get_or_create ip now m).2 !! (get_or_create ip now m).1 = Some x ∧
  ((∃ x0, sm_heap m !! (get_or_create ip now m).1 = Some x0 ∧ x = set_last_seen now x0) ∨
   x = IpSession (sm_factory m) [] now DEFAULT_HOME).
Proof.
  intros Hm. apply (sm_ok_purge _ _ now) in Hm. unfold get_or_create.
  set (m1 := _purge_expired_unlocked now m) in *.
  destruct (dict_get (sm_sessions m1) ip) as [l|] eqn:E; cbn [fst snd sm_heap].
  - apply dict_get_Some_elem, (ok_live _ _ Hm) in E as [x0 Hx]. cbn in *. exists (set_last_seen now x0).
    split; [by rewrite lookup_alter, decide_True, Hx|]. left. by exists x0.
  - eexists. split; [apply lookup_insert_eq|]. by right.
Qed.

Lemma get_or_create_interferes ip now m t :
  sm_ok m t → heap_interferes m (get_or_create ip now m).2.
Proof.
  intros Hm. apply (sm_ok_purge _ _ now) in Hm. unfold get_or_create.
  set (m1 := _purge_expired_unlocked now m) in *.
  destruct (dict_get (sm_sessions m1) ip) as [l|] eqn:E; cbn [snd].
  - apply (heap_interferes_alter l (set_last_seen now)). intros x _. constructor.
  - intros l x Hx. exists x. split; [|constructor]. cbn. rewrite lookup_insert_ne; [done|].
    intros <-. pose proof (ok_fresh _ _ Hm _ (ex_intro _ x Hx)). cbn in *. lia.
Qed.

Definition factory_fine (m : manager) : Prop := vfs_ok (sm_factory m) ∧ canonical (v_home (sm_factory m)).

Lemma home_canonical : canonical DEFAULT_HOME.
Proof. apply (canonical_one "root"). vm_decide. Qed.

Lemma fresh_fine m now : factory_fine m → session_fine (IpSession (sm_factory m) [] now DEFAULT_HOME).
Proof. intros [Hv Hh]. split; [split; [exact Hv|apply home_canonical|constructor]|exact Hh]. Qed.

Lemma get_or_create_fine ip now m t :
  sm_ok m t → factory_fine m → heap_fine m → heap_fine (get_or_create ip now m).2.
Proof.
  intros Hm Hfac Hf. unfold get_or_create. set (m1 := _purge_expired_unlocked now m) in *.
  destruct (dict_get (sm_sessions m1) ip) as [l|] eqn:E; cbn [snd]; intros l' x; cbn.
  - rewrite lookup_alter. case_decide; [|apply Hf]. intros (x0 & Hx0 & ->)%fmap_Some.
    eapply interference_fine; [apply if_seen|by eapply Hf].
  - rewrite lookup_insert_Some. intros [[_ <-]|[_ Hx]]; [by apply fresh_fine|by apply (Hf l')].
Qed.

Lemma init_private x sid ip dir : session_fine x → private_ok (shell_init x sid ip dir).
Proof. intros [[? ? ?] Hh]. split; [done|done|exact Hh|vm_decide]. Qed.

(** [handle_client] opens by fetching the record; the rest is work on it. *)
Lemma client_open_work mo now sid ip command ch m d m' d' c' t :
  interfering (world_at mo) → sm_ok m t → factory_fine m → heap_fine m → disk_ok d →
  client_open stack mo now (sid, ip) command ch m d = (m', d', c') →
  let (l, m1) := get_or_create ip now m in
  ∃ x, sm_heap m1 !! l = Some x ∧
  work m1 d (Client l ip (shell_init x sid ip (d_quarantine d)) ch 0 [] Reading) m' d' c'.
Proof.
  intros Hmo Hm Hfac Hf Hd. unfold client_open.
  destruct (get_or_create_new ip now m t Hm) as (x & Hx & _).
  pose proof (get_or_create_fine ip now m t Hm Hfac Hf) as Hf1.
  destruct (get_or_create ip now m) as [l m1]. cbn [fst snd] in *. intros Ho. exists x. split; [done|].
  rewrite Hx in Ho. cbn [default from_option id] in Ho.
  set (c0 := Client l ip (shell_init x sid ip (d_quarantine d)) ch 0 [] Reading) in *.
  assert (Hc : client_ok m1 d c0).
  { split; [by exists x|apply init_private; by apply (Hf1 l)|constructor|done]. }
  pose proof (work_idle m1 d c0 Hd Hc) as Hidle. revert Ho. case_bool_decide.
  - destruct (client_execute _ _ _ _ _ _) as [r [[m2 d2] c1]] eqn:Ex.
    apply execute_work in Ex as [Hw Hst]; [|done..].
    destruct r as [res|e]; [|intros [= <- <- <-]; by apply (work_dress m1 d c0 m2 d2 c1)].
    destruct (if bool_decide _ then _ else _) as [[e|] c2] eqn:Ew; apply output_same in Ew as (?&?&?&?);
      intros [= <- <- <-]; [by apply (work_dress m1 d c0 m2 d2 c1)|].
    apply (work_dress m1 d c0 m2 d2 c1); [done..| |done]. by apply Hst.
  - destruct (stdout_write BANNER true c0) as [[e|] c2] eqn:Ew; apply write_same in Ew as (?&?&?&?).
    { intros [= <- <- <-]. by apply (work_dress m1 d c0 m1 d c0). }
    intros [= <- <- <-]. destruct (prompt_same c2) as (?&?&?&?&_).
    apply (work_dress m1 d c0 m1 d c0); [congruence..|apply prompt_phase_ok|done].
Qed.

Lemma uncaught_not_lost raised x : uncaught raised = Some x → _DISCONNECT_ERRORS x = false.
Proof. destruct raised as [e|]; [|done]. cbn. destruct (_DISCONNECT_ERRORS e) eqn:E; [done|]. by intros [= <-]. Qed.

(** [finally]: the directory is stored, the session refreshed, the client ended. *)
Lemma client_finish_spec now code raised m c m' c' x :
  sm_heap m !! cl_record c = Some x → client_finish now code raised m c = (m', c') →
  m' = touch_session (cl_ip c) now
         (use_session (cl_record c) (s_vfs x) (s_llm_cache x) (sh_cwd (cl_shell c)) m) ∧
  cl_record c' = cl_record c ∧ cl_ip c' = cl_ip c ∧ cl_shell c' = cl_shell c ∧
  ∃ e, cl_phase c' = Ended e ∧ end_status e = match ch_exit (cl_channel c) with Some _ => None | None => Some code end ∧
    (∀ y, end_raised e = Some y → _DISCONNECT_ERRORS y = false).
Proof.
  intros Hx. unfold client_finish. rewrite Hx.
  destruct (match ch_exit (cl_channel c) with Some e => _ | None => _ end) as [status problem] eqn:Ec.
  intros [= <- <-]. split; [done|]. do 3 (split; [done|]). eexists. split; [done|]. cbn. split.
  - by destruct (ch_exit (cl_channel c)); simplify_eq.
  - intros y. destruct (uncaught problem) as [e|] eqn:E1; [intros [= <-]|]; [by eapply uncaught_not_lost|apply uncaught_not_lost].
Qed.

Lemma client_finish_ok now code raised m d c m' c' :
  heap_fine m → client_ok m d c → 0 ≤ code ≤ 255 → client_finish now code raised m c = (m', c') →
  heap_interferes m m' ∧ client_ok m' d c' ∧ (∀ l, is_Some (sm_heap m' !! l) → is_Some (sm_heap m !! l)).
Proof.
  intros Hf Hc Hcode E. pose proof Hc as [[x Hx] Hp Ha _].
  destruct (client_finish_spec _ _ _ _ _ _ _ x Hx E) as (-> & Er & Ei & Es & e & Ep & Hst & Hra).
  set (m1 := use_session _ _ _ _ m). set (m2 := touch_session _ _ _).
  assert (Hi : heap_interferes m m2).
  { apply (heap_interferes_trans m m1); [|apply touch_interferes].
    apply (use_interferes _ _ _ _ _ x Hx). apply (if_leave (sh_cwd (cl_shell c)) x). apply Hp. }
  split; [done|]. split.
  - split; rewrite ?Er, ?Es, ?Ep; [|done|done|].
    + destruct (Hi _ x Hx) as (y & Hy & _). by exists y.
    + split; [|exact Hra]. intros k. rewrite Hst. destruct (ch_exit _); [done|]. by intros [= <-].
  - intros l Hl. by apply touch_live, use_live in Hl.
Qed.
End Invariant.
