(* ===== verification/ServerProps.v ===== *)
(** * The contract of the server

    Any number of connections and clients, in any interleaving of their events:
    the invariant, what one client can do to another, reconnection, lockout, and
    the end of every terminal. *)

From S2P Require Import Prelude PyStr OrdDict Path Chmod Vfs HoneypotTree Lru SessionManager Auth Terminal VfsTree VfsSpec VfsProps.
From S2P Require Import Regex Json Llm LlmProps ShellParse ShellStatic DateTime Sinkhole Shell ShellEffects ShellSample ShellProps ShellBounds Sharing Server ServerInv.

#[local] Arguments lit : simpl never.

(** ** The managers move by their own operations *)

Lemma timeline_app {A} t (ops1 ops2 : list (Z * A)) t1 t2 :
  timeline t ops1 t1 → timeline t1 ops2 t2 → timeline t (ops1 ++ ops2) t2.
Proof.
  revert t. induction ops1 as [|[now op] ops1 IH]; intros t; cbn.
  - destruct ops2 as [|[now op] ops2]; cbn; [lia|]. intros ? [? ?]. by split; [lia|].
  - intros [? H1] H2. split; [done|]. by apply IH.
Qed.

Lemma sm_run_app ops1 ops2 m : sm_run (ops1 ++ ops2) m = sm_run ops2 (sm_run ops1 m).
Proof. revert m. induction ops1 as [|[now op] ops1 IH]; intros m; cbn; [done|]. apply IH. Qed.
Lemma history_ips_app ops1 ops2 : history_ips (ops1 ++ ops2) = history_ips ops1 ∪ history_ips ops2.
Proof. induction ops1 as [|[now op] ops1 IH]; cbn; [set_solver|]. rewrite IH. set_solver. Qed.
Lemma am_ips_app ops1 ops2 : am_ips (ops1 ++ ops2) = am_ips ops1 ∪ am_ips ops2.
Proof. induction ops1 as [|[now op] ops1 IH]; cbn; [set_solver|]. rewrite IH. set_solver. Qed.

(** The session objects that a history writes. *)
Definition op_refs (op : sm_op) : gset nat := match op with SmUse l _ _ _ => {[ l ]} | _ => ∅ end.
Fixpoint history_refs (ops : list (Z * sm_op)) : gset nat :=
  match ops with [] => ∅ | (_, op) :: ops' => op_refs op ∪ history_refs ops' end.
Lemma history_refs_app ops1 ops2 : history_refs (ops1 ++ ops2) = history_refs ops1 ∪ history_refs ops2.
Proof. induction ops1 as [|[now op] ops1 IH]; cbn; [set_solver|]. rewrite IH. set_solver. Qed.
Lemma last_use_other l ops c : l ∉ history_refs ops → last_use l ops c = c.
Proof.
  induction ops as [|[now op] ops IH]; cbn; [done|]. intros Hl.
  destruct op; cbn in *; try (apply IH; set_solver). rewrite decide_False by set_solver. apply IH. set_solver.
Qed.

(** From [m] at [t] to [m'] at [t'], for clients in [ips], on objects in [refs]. *)
Definition sm_moves (ips : gset str) (refs : gset nat) (t : Z) (m : manager) (t' : Z) (m' : manager) : Prop :=
  ∃ ops, timeline t ops t' ∧ m' = sm_run ops m ∧ history_ips ops ⊆ ips ∧ history_refs ops ⊆ refs.
Definition am_moves (ips : gset str) (t : Z) (m : auth_manager) (t' : Z) (m' : auth_manager) : Prop :=
  ∃ ops, timeline t ops t' ∧ m' = am_run ops m ∧ am_ips ops ⊆ ips.

Lemma sm_moves_refl ips refs t m t' : t ≤ t' → sm_moves ips refs t m t' m.
Proof. intros. exists []. split_and!; set_solver. Qed.
Lemma sm_moves_op ips refs t m now op :
  t ≤ now → op_ips op ⊆ ips → op_refs op ⊆ refs → sm_moves ips refs t m now (sm_step now op m).
Proof. intros. exists [(now, op)]. cbn. split_and!; (done || set_solver || lia). Qed.
Lemma sm_moves_trans ips1 refs1 ips2 refs2 t m t1 m1 t2 m2 :
  sm_moves ips1 refs1 t m t1 m1 → sm_moves ips2 refs2 t1 m1 t2 m2 →
  sm_moves (ips1 ∪ ips2) (refs1 ∪ refs2) t m t2 m2.
Proof.
  intros (o1 & T1 & -> & I1 & R1) (o2 & T2 & -> & I2 & R2). exists (o1 ++ o2).
  rewrite sm_run_app, history_ips_app, history_refs_app.
  split; [by eapply timeline_app|]. split; [done|]. split; set_solver.
Qed.
Lemma am_moves_refl ips t m t' : t ≤ t' → am_moves ips t m t' m.
Proof. intros. exists []. split_and!; set_solver. Qed.
Lemma am_moves_op ips t m now op :
  t ≤ now → am_op_ips op ⊆ ips → am_moves ips t m now (am_step now op m).
Proof. intros. exists [(now, op)]. cbn. split_and!; (done || set_solver || lia). Qed.
Lemma am_moves_trans ips1 ips2 t m t1 m1 t2 m2 :
  am_moves ips1 t m t1 m1 → am_moves ips2 t1 m1 t2 m2 → am_moves (ips1 ∪ ips2) t m t2 m2.
Proof.
  intros (o1 & T1 & -> & I1) (o2 & T2 & -> & I2). exists (o1 ++ o2).
  rewrite am_run_app, am_ips_app. split; [by eapply timeline_app|]. split; [done|]. set_solver.
Qed.

Lemma sm_reachable_run ops : ∀ m t0 t t',
  sm_reachable m t0 → t0 ≤ t → timeline t ops t' → ∃ t1, t1 ≤ t' ∧ sm_reachable (sm_run ops m) t1.
Proof.
  induction ops as [|[now op] ops IH]; intros m t0 t t' Hm Ht Hl; cbn in *.
  - exists t0. split; [lia|done].
  - destruct Hl as [Hn Hl]. apply (IH _ now now t'); [|lia|done]. apply (sm_next_step _ t0); [done|lia].
Qed.
Lemma am_reachable_run ops : ∀ m t0 t t',
  am_reachable m t0 → t0 ≤ t → timeline t ops t' → ∃ t1, t1 ≤ t' ∧ am_reachable (am_run ops m) t1.
Proof.
  induction ops as [|[now op] ops IH]; intros m t0 t t' Hm Ht Hl; cbn in *.
  - exists t0. split; [lia|done].
  - destruct Hl as [Hn Hl]. apply (IH _ now now t'); [|lia|done]. apply (am_next_step _ t0); [done|lia].
Qed.

Lemma sm_factory_run ops m : sm_factory (sm_run ops m) = sm_factory m.
Proof.
  revert m. induction ops as [|[now op] ops IH]; intros m; cbn; [done|]. rewrite IH.
  destruct op; cbn; [| |done..].
  - unfold get_or_create. by case_match.
  - unfold touch_session. by case_match.
Qed.

Section Props.
Context `{W : World} (stack : nat).

(** ** What an event involves *)

Definition ip_set (ip : option str) : gset str := match ip with Some ip => {[ ip ]} | None => ∅ end.
(** The client of a new connection. *)
Definition connecting_ip (pending : option pyval) (peer : peername) : str :=
  match pending with
  | Some (PyString s) => if bool_decide (s = []) then _peer_ip peer else s
  | _ => _peer_ip peer
  end.
Definition process_meta (k : option nat) (peer : peername) (s : server) : str * str :=
  _session_meta (k ← k; cn_info <$> sv_conns s !! k) peer.

Definition event_ips (ev : event) (s : server) : gset str :=
  match ev with
  | Connect _ pending peer _ _ => {[ connecting_ip pending peer ]}
  | Disconnect k | Password k _ _ _ _ => ip_set (cn ← sv_conns s !! k; hs_client_ip (cn_server cn))
  | OpenProcess _ k peer _ _ _ => {[ (process_meta k peer s).2 ]}
  | Finish p => ip_set (cl_ip <$> sv_clients s !! p)
  | _ => ∅
  end.
(** The session objects it may write. *)
Definition event_refs (now : Z) (ev : event) (s : server) : gset nat :=
  match ev with
  | OpenProcess _ k peer _ _ _ => {[ (get_or_create (process_meta k peer s).2 now (sv_sessions s)).1 ]}
  | Read p _ _ | Finish p => match sv_clients s !! p with Some c => {[ cl_record c ]} | None => ∅ end
  | _ => ∅
  end.

(** The other connections of a client interfere with it and do nothing worse. *)
Definition event_ok (ev : event) : Prop :=
  match ev with
  | OpenProcess _ _ _ _ _ mo | Read _ mo _ => interfering (world_at mo)
  | _ => True
  end.

(** ** The invariant *)

Record conn_ok (cn : conn) : Prop := {
  cn_lost : hs_conn (cn_server cn) = false →
    hs_client_ip (cn_server cn) = None ∧ hs_session_id (cn_server cn) = None;
  cn_up : hs_conn (cn_server cn) = true → ∃ ip sid,
    hs_client_ip (cn_server cn) = Some ip ∧ hs_session_id (cn_server cn) = Some sid ∧
    cn_info cn = [(lit "honeypot_session_id", PyString sid); (lit "honeypot_client_ip", PyString ip)] }.

Record server_ok (s : server) (t : Z) : Prop := {
  so_auth : ∃ t0, t0 ≤ t ∧ am_reachable (sv_auth s) t0;
  so_sessions : ∃ t0, t0 ≤ t ∧ sm_reachable (sv_sessions s) t0;
  so_factory : factory_fine (sv_sessions s);
  so_heap : heap_fine (sv_sessions s);
  so_disk : disk_ok (sv_disk s);
  so_clients : ∀ p c, sv_clients s !! p = Some c → client_ok (sv_sessions s) (sv_disk s) c;
  so_conns : ∀ k cn, sv_conns s !! k = Some cn → conn_ok cn }.

(** What an event does to what its neighbours see. *)
Record evolves (ips : gset str) (refs : gset nat) (t : Z) (s : server) (t' : Z) (s' : server) : Prop := {
  ev_heap : heap_interferes (sv_sessions s) (sv_sessions s');
  ev_disk : disk_grows (sv_disk s) (sv_disk s');
  ev_sessions : sm_moves ips refs t (sv_sessions s) t' (sv_sessions s');
  ev_auth : am_moves ips t (sv_auth s) t' (sv_auth s') }.

Lemma so_sm s t : server_ok s t → sm_ok (sv_sessions s) t.
Proof. intros [_ (t0 & Ht & Hr) _ _ _ _ _]. by eapply sm_ok_mono, sm_reachable_ok. Qed.

Lemma moves_reachable ips refs t m t' m' :
  sm_moves ips refs t m t' m' → (∃ t0, t0 ≤ t ∧ sm_reachable m t0) → ∃ t0, t0 ≤ t' ∧ sm_reachable m' t0.
Proof. intros (ops & Hl & -> & _) (t0 & Ht & Hr). by eapply sm_reachable_run. Qed.
Lemma am_moves_reachable ips t m t' m' :
  am_moves ips t m t' m' → (∃ t0, t0 ≤ t ∧ am_reachable m t0) → ∃ t0, t0 ≤ t' ∧ am_reachable m' t0.
Proof. intros (ops & Hl & -> & _) (t0 & Ht & Hr). by eapply am_reachable_run. Qed.

Lemma evolves_refl ips refs t s t' : t ≤ t' → evolves ips refs t s t' s.
Proof.
  intros Ht. split; [apply heap_interferes_refl|apply disk_grows_refl|by apply sm_moves_refl|by apply am_moves_refl].
Qed.

(** A step preserves the invariant if the new parts satisfy theirs. *)
Lemma server_ok_evolves ips refs t s t' s' :
  server_ok s t → evolves ips refs t s t' s' → heap_fine (sv_sessions s') → disk_ok (sv_disk s') →
  (∀ p c, sv_clients s' !! p = Some c →
    sv_clients s !! p = Some c ∨ client_ok (sv_sessions s') (sv_disk s') c) →
  (∀ k cn, sv_conns s' !! k = Some cn → sv_conns s !! k = Some cn ∨ conn_ok cn) →
  server_ok s' t'.
Proof.
  intros [Ha Hs Hfac _ _ Hcl Hcn] [Hh Hd Hsm Ham] Hf Hdk Hcl' Hcn'. split.
  - by eapply am_moves_reachable.
  - by eapply moves_reachable.
  - destruct Hsm as (ops & _ & -> & _). unfold factory_fine. by rewrite sm_factory_run.
  - done.
  - done.
  - intros p c [Hc|Hc]%Hcl'; [|done]. eapply client_ok_mono; [by eapply Hcl|done|done].
  - intros k cn [Hc|Hc]%Hcn'; [by eapply Hcn|done].
Qed.

(** What a piece of a client's work is to the server. *)
Lemma work_evolves p s t c m' d' c' m0 ips :
  server_ok s t → heap_interferes (sv_sessions s) m0 → heap_fine m0 →
  sm_moves ips ∅ t (sv_sessions s) t m0 → work m0 (sv_disk s) c m' d' c' →
  let s' := step_client p (m', d', c') s in
  evolves ips {[ cl_record c ]} t s t s' ∧ server_ok s' t.
Proof.
  intros Hok Hi Hf Hm0 [Hu Hh Hd Hg Hc Hr Hip] s'.
  assert (Hev : evolves ips {[ cl_record c ]} t s t s').
  { split; cbn.
    - by eapply heap_interferes_trans.
    - done.
    - replace ips with (ips ∪ ∅) by set_solver. replace {[ cl_record c ]} with (∅ ∪ {[ cl_record c ]} : gset nat) by set_solver.
      eapply sm_moves_trans; [exact Hm0|]. destruct Hu as [->|(v & cache & cwd & ->)]; [apply sm_moves_refl; lia|].
      apply (sm_moves_op _ _ _ _ t (SmUse (cl_record c) v cache cwd)); cbn; [lia|set_solver..].
    - apply am_moves_refl. lia. }
  split; [done|]. eapply server_ok_evolves; [done|exact Hev|..].
  - eapply heap_fine_interferes; [exact Hf|exact Hh|]. cbn. intros l.
    destruct Hu as [->|(v & cache & cwd & ->)]; [done|apply use_live].
  - done.
  - cbn. intros q c1 [?| ->]%lookup_insert_cases; [by left|by right].
  - cbn. by left.
Qed.

(** What a callback of a connection is: it moves the managers. *)
Lemma conn_evolves ips t t' s auth m k cn attempts :
  server_ok s t → t ≤ t' → am_moves ips t (sv_auth s) t' auth →
  sm_moves ips ∅ t (sv_sessions s) t' m → heap_interferes (sv_sessions s) m →
  (∀ l, is_Some (sm_heap m !! l) → is_Some (sm_heap (sv_sessions s) !! l)) → conn_ok cn →
  let s' := Server auth m (<[k := cn]> (sv_conns s)) (sv_clients s) (sv_disk s) attempts in
  evolves ips ∅ t s t' s' ∧ server_ok s' t'.
Proof.
  intros Hok Ht Ha Hm Hi Hl Hcn s'.
  assert (Hev : evolves ips ∅ t s t' s') by (split; [exact Hi|apply disk_grows_refl|done|done]).
  split; [done|]. eapply server_ok_evolves; [done|exact Hev|..].
  - eapply heap_fine_interferes; [apply Hok|exact Hi|done].
  - apply Hok.
  - cbn. by left.
  - cbn. intros j c [?| ->]%lookup_insert_cases; [by left|by right].
Qed.

Lemma server_ok_mono s t t' : t ≤ t' → server_ok s t → server_ok s t'.
Proof.
  intros Ht [(t0 & ? & Ha) (t1 & ? & Hm)]. split; try done; [exists t0|exists t1]; (split; [lia|done]).
Qed.

(** The history of one login. *)
Lemma validate_login_moves ip sid username password rnd now1 now2 m r events m' :
  now1 ≤ now2 → validate_login ip sid username password rnd now1 now2 m = (r, events, m') →
  am_moves {[ ip ]} now1 m now2 m'.
Proof.
  intros Hn. unfold validate_login. destruct (pin_section _ _ _ _ _ _) as [success m1] eqn:E1.
  destruct (decide_login ip success now2 m1) as [[[count limit] accepted] m2] eqn:E2. intros Hv.
  assert (m' = m2) as -> by (destruct accepted; congruence). clear Hv.
  replace {[ ip ]} with ({[ ip ]} ∪ {[ ip ]} : gset str) by set_solver.
  eapply (am_moves_trans _ _ _ _ now1 m1).
  - unfold pin_section in E1. case_decide.
    + pose proof (am_moves_op {[ ip ]} now1 m now1 (AmPin ip rnd)) as Hp. cbn in Hp.
      destruct (get_or_pin_password ip rnd now1 m) as [pinned m3]. injection E1 as <- <-. by apply Hp.
    + injection E1 as <- <-. by apply am_moves_refl.
  - pose proof (am_moves_op {[ ip ]} now1 m1 now2 (AmDecide ip success)) as Hp. cbn in Hp.
    rewrite E2 in Hp. by apply Hp.
Qed.

Lemma made_conn pending peer rnd uuid now auth h info auth' :
  connection_made pending peer rnd uuid now auth = (h, info, auth') →
  conn_ok (Conn h info None false false) ∧
  am_moves {[ connecting_ip pending peer ]} now auth now auth'.
Proof.
  intros E. pose proof (am_moves_op {[ connecting_ip pending peer ]} now auth now
    (AmPin (connecting_ip pending peer) rnd) ltac:(lia) ltac:(set_solver)) as Hp.
  unfold connection_made, create_session in E. fold (connecting_ip pending peer) in E. injection E as <- <- <-.
  split; [|exact Hp]. split; [done|]. intros _. by repeat eexists.
Qed.

Definition step_good (now : Z) (ev : event) (s : server) : Prop :=
  evolves (event_ips ev s) (event_refs now ev s) now s (event_end now ev) (server_step stack now ev s) ∧
  server_ok (server_step stack now ev s) (event_end now ev).

Lemma idle_good now ev s :
  server_ok s now → server_step stack now ev s = s → step_good now ev s.
Proof.
  intros Hok E. unfold step_good. rewrite E. assert (now ≤ event_end now ev) by (destruct ev; cbn; lia).
  split; [by apply evolves_refl|]. by eapply server_ok_mono.
Qed.

Lemma connect_good now k pending peer rnd uuid s :
  server_ok s now → step_good now (Connect k pending peer rnd uuid) s.
Proof.
  intros Hok. destruct (sv_conns s !! k) as [cn|] eqn:Ek; [apply idle_good; [done|]; cbn; by rewrite Ek|].
  unfold step_good. cbn [server_step event_ips event_refs event_end]. rewrite Ek. unfold step_connect.
  destruct (connection_made pending peer rnd uuid now (sv_auth s)) as [[h info] auth] eqn:E. apply made_conn in E as [Hcn Ha].
  apply (conn_evolves _ now now s auth (sv_sessions s)); [done|lia|done|apply sm_moves_refl; lia|
    apply heap_interferes_refl|done|done].
Qed.

Lemma disconnect_good now k s : server_ok s now → step_good now (Disconnect k) s.
Proof.
  intros Hok. destruct (sv_conns s !! k) as [cn|] eqn:Ek; [|apply idle_good; [done|]; cbn; by rewrite Ek].
  unfold step_good. cbn [server_step event_ips event_refs event_end]. rewrite Ek. cbn. unfold step_disconnect, connection_lost.
  set (m := match hs_client_ip (cn_server cn) with Some ip => touch_session ip now (sv_sessions s) | None => sv_sessions s end).
  assert (Hgo : ∀ auth, auth = sv_auth s →
    let h := HoneypotServer false None None in
    let s' := set_conn k (Conn h (cn_info cn) (cn_login cn) (cn_scheduled cn) (cn_disconnected cn)) (set_managers auth m s) in
    evolves (ip_set (hs_client_ip (cn_server cn))) ∅ now s now s' ∧ server_ok s' now).
  { intros auth -> h s'. subst m. apply (conn_evolves _ now now s (sv_auth s) _ k (Conn h (cn_info cn) _ _ _) (sv_attempts s));
      [done|lia|apply am_moves_refl; lia| | | |done].
    - destruct (hs_client_ip _) as [ip|]; [|apply sm_moves_refl; lia].
      apply (sm_moves_op _ _ _ _ now (SmTouch ip)); [lia|done|set_solver].
    - destruct (hs_client_ip _) as [ip|]; [apply touch_interferes|apply heap_interferes_refl].
    - intros l. destruct (hs_client_ip _) as [ip|]; [apply touch_live|done]. }
  destruct (hs_session_id (cn_server cn)); by apply Hgo.
Qed.

Lemma password_good now k username password rnd delay s :
  server_ok s now → step_good now (Password k username password rnd delay) s.
Proof.
  intros Hok. destruct (sv_conns s !! k) as [cn|] eqn:Ek; [|apply idle_good; [done|]; cbn; by rewrite Ek].
  pose proof (so_conns _ _ Hok k cn Ek) as Hcn. set (later := now + Z.of_nat delay).
  unfold step_good. cbn [server_step event_ips event_refs event_end]. rewrite Ek. cbn. unfold step_password, validate_password_start. fold later.
  assert (Hidle : evolves (ip_set (hs_client_ip (cn_server cn))) ∅ now s later s ∧ server_ok s later).
  { split; [apply evolves_refl; lia|]. eapply server_ok_mono; [|done]. lia. }
  assert (Esame : set_managers (sv_auth s) (sv_sessions s) s = s) by by destruct s.
  destruct (hs_session_id (cn_server cn)) as [sid|]; [|by rewrite Esame].
  destruct (hs_client_ip (cn_server cn)) as [ip|] eqn:Eip; [|by rewrite Esame].
  destruct (validate_login _ _ _ _ _ _ _ _) as [[r events] auth] eqn:Ev.
  apply validate_login_moves in Ev; [|lia].
  apply (conn_evolves _ now later s auth (sv_sessions s) k (Conn (cn_server cn) (cn_info cn) _ _ _));
    [done|lia|done|apply sm_moves_refl; lia|apply heap_interferes_refl|done|by destruct Hcn].
Qed.

Lemma password_done_good now k s : server_ok s now → step_good now (PasswordDone k) s.
Proof.
  intros Hok. destruct (sv_conns s !! k) as [cn|] eqn:Ek; [|apply idle_good; [done|]; cbn; by rewrite Ek].
  destruct (cn_login cn) as [r|] eqn:El; [|apply idle_good; [done|]; cbn; by rewrite Ek, El].
  pose proof (so_conns _ _ Hok k cn Ek) as Hcn.
  unfold step_good. cbn [server_step event_ips event_refs event_end]. rewrite Ek, El. unfold step_password_done.
  destruct (validate_password_end (cn_server cn) r now (sv_auth s)) as [[b sch] auth] eqn:E.
  apply (conn_evolves _ now now s auth (sv_sessions s) k (Conn (cn_server cn) (cn_info cn) _ _ _) (sv_attempts s));
    [done|lia| |apply sm_moves_refl; lia|apply heap_interferes_refl|done|by destruct Hcn].
  assert (Ha : auth = sv_auth s ∨ ∃ ip, auth = (is_locked_out ip now (sv_auth s)).2).
  { unfold validate_password_end in E. repeat case_match; simplify_eq; eauto; right; eexists; by rewrite H2 || by rewrite H1. }
  destruct Ha as [->|[ip ->]]; [apply am_moves_refl; lia|].
  apply (am_moves_op _ _ _ now (AmIsLocked ip)); [lia|set_solver].
Qed.

Lemma kick_good now k raised s : server_ok s now → step_good now (Kick k raised) s.
Proof.
  intros Hok. destruct (sv_conns s !! k) as [cn|] eqn:Ek; [|apply idle_good; [done|]; cbn; by rewrite Ek].
  destruct (cn_scheduled cn) eqn:El; [|apply idle_good; [done|]; cbn; by rewrite Ek, El].
  pose proof (so_conns _ _ Hok k cn Ek) as Hcn.
  unfold step_good. cbn [server_step event_ips event_refs event_end]. rewrite Ek, El. unfold step_kick. destruct (_disconnect_auth_limit _ _) as [called x].
  apply (conn_evolves _ now now s (sv_auth s) (sv_sessions s) k (Conn (cn_server cn) (cn_info cn) _ _ _) (sv_attempts s));
    [done|lia|apply am_moves_refl; lia|apply sm_moves_refl; lia|apply heap_interferes_refl|done|by destruct Hcn].
Qed.

Lemma sweep_good now s : server_ok s now → step_good now SweepRound s.
Proof.
  intros Hok. set (s' := server_step stack now SweepRound s).
  assert (Hev : evolves ∅ ∅ now s now s').
  { split; [|apply disk_grows_refl| |].
    - intros l x Hx. exists x. split; [done|constructor].
    - apply (sm_moves_op _ _ _ _ now SmSweep); [lia|set_solver..].
    - apply (am_moves_op _ _ _ now AmSweep); [lia|set_solver]. }
  split; [exact Hev|]. eapply server_ok_evolves; [done|exact Hev|apply Hok|apply Hok|by left|by left].
Qed.

Lemma open_good now p k peer command ch mo s :
  server_ok s now → event_ok (OpenProcess p k peer command ch mo) →
  step_good now (OpenProcess p k peer command ch mo) s.
Proof.
  intros Hok Hmo. destruct (sv_clients s !! p) as [c|] eqn:Ep; [apply idle_good; [done|]; cbn; by rewrite Ep|].
  unfold step_good. cbn [server_step event_ips event_refs event_end]. rewrite Ep.
  change (_session_meta _ peer) with (process_meta k peer s). destruct (process_meta k peer s) as [sid ip].
  cbn [snd]. pose proof (so_sm _ _ Hok) as Hm.
  destruct (client_open _ _ _ _ _ _ _ _) as [[m' d'] c'] eqn:Eo.
  eapply client_open_work in Eo; [|done|exact Hm|apply Hok..].
  pose proof (get_or_create_interferes ip now _ _ Hm) as Hi.
  pose proof (get_or_create_fine ip now _ _ Hm (so_factory _ _ Hok) (so_heap _ _ Hok)) as Hf.
  pose proof (sm_moves_op {[ ip ]} ∅ now (sv_sessions s) now (SmGet ip) ltac:(lia) ltac:(set_solver) ltac:(set_solver)) as Hmv.
  cbn [sm_step] in Hmv. destruct (get_or_create ip now (sv_sessions s)) as [l m1]. cbn [fst snd] in *.
  destruct Eo as (x & _ & Hw). by eapply work_evolves in Hw.
Qed.

Lemma read_good now p mo input s :
  server_ok s now → event_ok (Read p mo input) → step_good now (Read p mo input) s.
Proof.
  intros Hok Hmo. destruct (sv_clients s !! p) as [c|] eqn:Ep; [|apply idle_good; [done|]; cbn; by rewrite Ep].
  destruct (cl_phase c) eqn:Eph; [|apply idle_good; [done|]; cbn; by rewrite Ep, Eph..].
  unfold step_good. cbn [server_step event_ips event_refs event_end]. rewrite Ep, Eph.
  destruct (client_read _ _ _ _ _ _) as [[m' d'] c'] eqn:Er.
  apply client_read_work in Er; [|done|apply Hok|apply Hok|by apply (so_clients _ _ Hok p)].
  eapply work_evolves in Er; [exact Er|done|apply heap_interferes_refl|apply Hok|apply sm_moves_refl; lia].
Qed.

Lemma finish_good now p s : server_ok s now → step_good now (Finish p) s.
Proof.
  intros Hok. destruct (sv_clients s !! p) as [c|] eqn:Ep; [|apply idle_good; [done|]; cbn; by rewrite Ep].
  destruct (cl_phase c) as [|code raised|] eqn:Eph;
    [apply idle_good; [done|]; cbn; by rewrite Ep, Eph| |apply idle_good; [done|]; cbn; by rewrite Ep, Eph].
  unfold step_good. cbn [server_step event_ips event_refs event_end]. rewrite Ep, Eph.
  destruct (client_finish now code raised (sv_sessions s) c) as [m' c'] eqn:Ef.
  pose proof (so_clients _ _ Hok p c Ep) as Hc. pose proof (co_live _ _ _ Hc) as [x Hx].
  assert (Hcode : 0 ≤ code ≤ 255) by (pose proof (co_phase _ _ _ Hc) as Hp; by rewrite Eph in Hp).
  destruct (client_finish_ok now code raised _ _ _ _ _ (so_heap _ _ Hok) Hc Hcode Ef) as (Hi & Hc' & Hl).
  destruct (client_finish_spec _ _ _ _ _ _ _ x Hx Ef) as (Em & _).
  assert (Hev : evolves (ip_set (Some (cl_ip c))) {[ cl_record c ]} now s now
                  (set_client p c' (set_managers (sv_auth s) m' s))).
  { split; [exact Hi|apply disk_grows_refl| |apply am_moves_refl; lia]. cbn. rewrite Em.
    replace {[ cl_ip c ]} with (∅ ∪ {[ cl_ip c ]} : gset str) by set_solver.
    replace {[ cl_record c ]} with ({[ cl_record c ]} ∪ ∅ : gset nat) by set_solver.
    apply (sm_moves_trans ∅ {[ cl_record c ]} {[ cl_ip c ]} ∅ now _ now
      (use_session (cl_record c) (s_vfs x) (s_llm_cache x) (sh_cwd (cl_shell c)) (sv_sessions s))).
    - apply (sm_moves_op _ _ _ _ now (SmUse (cl_record c) (s_vfs x) (s_llm_cache x) (sh_cwd (cl_shell c)))); [lia|set_solver..].
    - apply (sm_moves_op _ _ _ _ now (SmTouch (cl_ip c))); [lia|set_solver..]. }
  split; [exact Hev|]. eapply server_ok_evolves; [done|exact Hev|..].
  - eapply heap_fine_interferes; [apply Hok|exact Hi|exact Hl].
  - apply Hok.
  - cbn. intros q c1 [?| ->]%lookup_insert_cases; [by left|by right].
  - by left.
Qed.

Lemma server_step_good s t now ev :
  server_ok s t → t ≤ now → event_ok ev → step_good now ev s.
Proof.
  intros Hok Ht Hev. apply (server_ok_mono _ _ now) in Hok; [|done].
  destruct ev; [by apply connect_good|by apply disconnect_good|by apply password_good|
    by apply password_done_good|by apply kick_good|by apply sweep_good|by apply open_good|
    by apply read_good|by apply finish_good].
Qed.

(** ** Reachable servers *)

Inductive server_reachable : server → Z → Prop :=
  | server_starts pw tarpit ma mp ttl attl auth mx sttl f m d t :
      auth_manager_init pw tarpit ma mp ttl attl = Ok auth → session_manager mx sttl f = Ok m →
      vfs_ok f → canonical (v_home f) → disk_ok d → server_reachable (server_init auth m d) t
  | server_goes_on s t now ev :
      server_reachable s t → t ≤ now → event_ok ev →
      server_reachable (server_step stack now ev s) (event_end now ev).

Lemma server_reachable_ok s t : server_reachable s t → server_ok s t.
Proof.
  induction 1 as [pw tarpit ma mp ttl attl auth mx sttl f m d t Ha Hm Hv Hh Hd|s t now ev _ IH Ht Hev].
  - assert (Em : sm_factory m = f ∧ sm_heap m = ∅).
    { unfold session_manager in Hm. destruct (mx <? 1), (sttl <? 0); try done. by injection Hm as <-. }
    destruct Em as [Ef Eh]. split; cbn.
    + exists t. split; [lia|]. by eapply am_init.
    + exists t. split; [lia|]. by eapply sm_init.
    + split; by rewrite Ef.
    + intros l x. by rewrite Eh, lookup_empty.
    + done.
    + intros p c. by rewrite lookup_empty.
    + intros k cn. by rewrite lookup_empty.
  - by apply (server_step_good s t now ev).
Qed.

(** The server as [main] starts it. *)
Lemma main_reachable d t s : disk_ok d → main_server d = Ok s → server_reachable s t.
Proof.
  intros Hd. unfold main_server. cbn [mbind result_bind].
  destruct (auth_manager_init _ _ _ _ _ _) as [auth|] eqn:Ea; [|done].
  destruct (session_manager DEFAULT_MAX_SESSIONS DEFAULT_TTL_SECONDS create_default_vfs) as [m|] eqn:Em; [|done].
  intros [= <-]. eapply server_starts; [exact Ea|exact Em|apply default_vfs_ok|apply home_canonical|done].
Qed.

(** A history of events, each with the instant it begins, from [t] to [t']. *)
Fixpoint schedule (t : Z) (evs : list (Z * event)) (t' : Z) : Prop :=
  match evs with
  | [] => t = t'
  | (now, ev) :: rest => t ≤ now ∧ event_ok ev ∧ schedule (event_end now ev) rest t'
  end.
Fixpoint run_ips (evs : list (Z * event)) (s : server) : gset str :=
  match evs with
  | [] => ∅
  | (now, ev) :: rest => event_ips ev s ∪ run_ips rest (server_step stack now ev s)
  end.
Fixpoint run_refs (evs : list (Z * event)) (s : server) : gset nat :=
  match evs with
  | [] => ∅
  | (now, ev) :: rest => event_refs now ev s ∪ run_refs rest (server_step stack now ev s)
  end.

Lemma evolves_trans ips1 refs1 ips2 refs2 t s t1 s1 t2 s2 :
  evolves ips1 refs1 t s t1 s1 → evolves ips2 refs2 t1 s1 t2 s2 →
  evolves (ips1 ∪ ips2) (refs1 ∪ refs2) t s t2 s2.
Proof.
  intros [H1 D1 M1 A1] [H2 D2 M2 A2]. split; [by eapply heap_interferes_trans|by eapply disk_grows_trans|
    by eapply sm_moves_trans|by eapply am_moves_trans].
Qed.
Lemma evolves_earlier ips refs t0 t s t' s' : t0 ≤ t → evolves ips refs t s t' s' → evolves ips refs t0 s t' s'.
Proof.
  assert (Hl : ∀ A (ops : list (Z * A)), t0 ≤ t → timeline t ops t' → timeline t0 ops t').
  { intros A [|[now op] ops]; cbn; intros; [lia|]. naive_solver lia. }
  intros Ht [H D (o1 & T1 & M1) (o2 & T2 & A2)]. split; [done|done|exists o1|exists o2]; by split; [apply Hl|].
Qed.

Lemma server_run_evolves evs : ∀ s t t',
  server_reachable s t → schedule t evs t' →
  evolves (run_ips evs s) (run_refs evs s) t s t' (server_run stack evs s) ∧
  server_reachable (server_run stack evs s) t'.
Proof.
  induction evs as [|[now ev] evs IH]; intros s t t' Hr Hs; cbn in *.
  - subst t'. split; [apply evolves_refl; lia|done].
  - destruct Hs as (Ht & Hev & Hs).
    destruct (server_step_good s t now ev (server_reachable_ok _ _ Hr) Ht Hev) as [Hgo _].
    destruct (IH (server_step stack now ev s) _ t' ltac:(by eapply server_goes_on) Hs) as [Hrest Hr'].
    split; [|done]. eapply evolves_trans; [by eapply evolves_earlier|done].
Qed.

(** ** Reconnection *)






(** ** The whole server *)

(** C1: The server stays in order through every interleaving of its callbacks:
    both managers are in a state that a history of their own locked operations
    reaches, every session object (those dropped by the table included) has a
    well-formed filesystem, a canonical directory and a validated cache, the
    evidence on the disk is consistent, a connection has an address and an
    identifier exactly while it is up, and every terminal has a live session and
    a shell that can go on. *)
Theorem server_invariant s t :
  server_reachable s t →
  (∃ t0, t0 ≤ t ∧ sm_reachable (sv_sessions s) t0) ∧ (∃ t0, t0 ≤ t ∧ am_reachable (sv_auth s) t0) ∧
  heap_fine (sv_sessions s) ∧ disk_ok (sv_disk s) ∧
  (∀ k cn, sv_conns s !! k = Some cn → conn_ok cn) ∧
  ∀ p c, sv_clients s !! p = Some c →
    client_ok (sv_sessions s) (sv_disk s) c ∧ shell_ok (load (sv_sessions s) (sv_disk s) c).
Proof.
  intros Hok%server_reachable_ok. do 5 (split; [apply Hok|]). intros p c Hc.
  pose proof (so_clients _ _ Hok p c Hc) as Hcl. split; [done|]. pose proof (co_live _ _ _ Hcl) as [x Hx].
  pose proof (loaded (Moment (λ _, 0) (λ _ y, y) (λ _, true) None) _ _ c x Hx (so_disk _ _ Hok) Hcl
    (sf_ok _ (so_heap _ _ Hok _ x Hx))) as [Hs _]. exact Hs.
Qed.

(** C17: Refinement: over any stretch of events the managers do what some history
    of their own operations does, in the same time, naming no other clients than
    those of the events and writing no other session than those of the terminals
    that ran; no session object disappears or suffers more than interference,
    and the evidence only grows. So each terminal may rely on what all the
    others ensure. *)
Theorem server_refines s t evs t' s' :
  server_reachable s t → schedule t evs t' → s' = server_run stack evs s →
  (∃ ops, timeline t ops t' ∧ sv_sessions s' = sm_run ops (sv_sessions s) ∧
          history_ips ops ⊆ run_ips evs s ∧ history_refs ops ⊆ run_refs evs s) ∧
  (∃ ops, timeline t ops t' ∧ sv_auth s' = am_run ops (sv_auth s) ∧ am_ips ops ⊆ run_ips evs s) ∧
  (∀ l x, sm_heap (sv_sessions s) !! l = Some x →
     ∃ y, sm_heap (sv_sessions s') !! l = Some y ∧ interference x y ∧
          (l ∉ run_refs evs s → content y = content x)) ∧
  (∀ sid, log_of sid (sv_disk s) `prefix_of` log_of sid (sv_disk s')) ∧
  dir_grows (d_quarantine (sv_disk s)) (d_quarantine (sv_disk s')).
Proof.
  intros Hr Hs ->. destruct (server_run_evolves evs s t t' Hr Hs) as [[Hh [Hd1 Hd2] Hm Ha] _].
  split; [exact Hm|]. split; [exact Ha|]. split; [|by split].
  intros l x Hx. destruct (Hh l x Hx) as (y & Hy & Hi). exists y. split; [done|]. split; [done|].
  intros Hl. destruct Hm as (ops & Htl & Em & _ & Hrefs).
  pose proof (content_run l t ops t' (sv_sessions s) (so_sm _ _ (server_reachable_ok _ _ Hr)) Htl (ex_intro _ x Hx)) as Hc.
  rewrite <-Em, last_use_other in Hc by set_solver. unfold content_at in Hc. rewrite Hx, Hy in Hc.
  by apply (inj Some) in Hc.
Qed.

(** ** Lockout *)

(** The login that reaches the limit. *)
Lemma limit_reached ip sid user pw rnd t1 t2 m sid' events m' t :
  am_ok m t → t ≤ t1 → t1 ≤ t2 → (is_locked_out ip t2 m).1 = false →
  validate_login ip sid user pw rnd t1 t2 m = (Err (AuthAttemptLimitExceeded sid'), events, m') →
  ∃ m1 c, am_ok m1 t2 ∧ (is_locked_out ip t2 m1).1 = false ∧ decide_login ip false t2 m1 = ((c, true, false), m') ∧
    am_attempt_ttl m1 = am_attempt_ttl m ∧ am_max_pins m1 = am_max_pins m.
Proof.
  intros Hm Ht1 Ht2 Hnl. unfold validate_login.
  destruct (pin_section ip user pw rnd t1 m) as [success m1] eqn:E.
  destruct (pin_section_spec _ _ _ _ _ _ t2 _ _ _ Hm Ht1 Ht2 E) as (_ & Hm1 & Em & Ea & _ & Hg).
  apply (am_ok_mono _ _ t2) in Hm1; [|done]. apply (am_ok_mono _ _ t2) in Hm; [|lia].
  assert (Hnl1 : (is_locked_out ip t2 m1).1 = false).
  { revert Hnl. unfold is_locked_out. cbn [fst]. rewrite !(purge_attempts_get _ t2) by done.
    rewrite Ea, Hg. unfold locked. by change (am_max_attempts (purge_tables t2 ?x)) with (am_max_attempts x); rewrite Em. }
  assert (Emp : am_max_pins m1 = am_max_pins m).
  { unfold pin_section in E. case_decide; [|by injection E as _ <-].
    destruct (am_config t1 (AmPin ip rnd) m) as (_ & _ & E3 & _). cbn in E3.
    destruct (get_or_pin_password ip rnd t1 m). by injection E as _ <-. }
  pose proof (decide_login_spec ip success t2 m1 Hm1) as Hd. cbn zeta in Hd.
  destruct (decide_login ip success t2 m1) as [[[c limit] accepted] m2] eqn:Ed.
  destruct accepted; [done|]. intros [= Hlim _ <-]. destruct limit; [|done].
  exists m1, c. split; [done|]. split; [done|]. split; [|done].
  destruct success; [|done]. revert Ed. unfold decide_login. unfold is_locked_out in Hnl1. cbn [fst] in Hnl1.
  by rewrite Hnl1.
Qed.

(** A rejected login whose answer schedules the disconnection, and the callback. *)
Lemma done_and_kicked s k cn r now b auth :
  sv_conns s !! k = Some cn → cn_login cn = Some r → hs_conn (cn_server cn) = true →
  validate_password_end (cn_server cn) r now (sv_auth s) = (b, true, auth) →
  let s' := server_step stack now (PasswordDone k) s in
  (∃ cn', sv_conns s' !! k = Some cn' ∧ cn_scheduled cn' = true) ∧
  ∀ now' raised, ∃ cn',
    sv_conns (server_step stack now' (Kick k raised) s') !! k = Some cn' ∧ cn_disconnected cn' = true.
Proof.
  intros Hk Hl Hup Eend s'. subst s'. cbn [server_step]. rewrite Hk, Hl. unfold step_password_done. rewrite Eend.
  split.
  - eexists. split; [apply lookup_insert_eq|]. cbn. apply orb_true_r.
  - intros now' raised. cbn [sv_conns set_conn]. rewrite lookup_insert_eq. cbn [cn_scheduled]. rewrite orb_true_r.
    unfold step_kick, _disconnect_auth_limit. cbn [cn_server]. rewrite Hup. eexists.
    split; [apply lookup_insert_eq|]. apply orb_true_r.
Qed.

(** C20: A lockout ends the connection: when a login reaches the limit of failures
    of its address, the connection, if it is still up when the tarpit lets go of
    it and nothing else has changed its record, is answered [False] and scheduled
    to be disconnected, and the scheduled callback disconnects it, whatever else
    happens on the server in between, as long as fewer than [max_pins] other
    clients show up (the table of failures evicts the oldest) and the failure is
    not older than [attempt_ttl_seconds]. *)
Theorem lockout_disconnects s t0 t k cn ip sid user pw rnd delay s1 cn1 evs t1 s2 now s3 :
  let t2 := t + Z.of_nat delay in
  server_reachable s t0 → t0 ≤ t → sv_conns s !! k = Some cn →
  hs_conn (cn_server cn) = true → hs_client_ip (cn_server cn) = Some ip → hs_session_id (cn_server cn) = Some sid →
  (is_locked_out ip t2 (sv_auth s)).1 = false →
  s1 = server_step stack t (Password k user pw rnd delay) s → sv_conns s1 !! k = Some cn1 →
  cn_login cn1 = Some (Err (AuthAttemptLimitExceeded sid)) →
  schedule t2 evs t1 → s2 = server_run stack evs s1 → sv_conns s2 !! k = Some cn1 →
  (size (run_ips evs s1 ∖ {[ ip ]}) < am_max_pins (sv_auth s))%nat →
  t1 ≤ now → now - t2 ≤ am_attempt_ttl (sv_auth s) →
  s3 = server_step stack now (PasswordDone k) s2 →
  (validate_password_end (cn_server cn1) (Err (AuthAttemptLimitExceeded sid)) now (sv_auth s2)).1 = (false, true) ∧
  (∃ cn3, sv_conns s3 !! k = Some cn3 ∧ cn_scheduled cn3 = true) ∧
  ∀ now' raised, ∃ cn4,
    sv_conns (server_step stack now' (Kick k raised) s3) !! k = Some cn4 ∧ cn_disconnected cn4 = true.
Proof.
  intros t2 Hr Ht Hk Hup Hip Hsid Hnl E1 Hk1 Hlogin Hs E2 Hk2 Hsz Hnow Httl E3.
  pose proof (server_reachable_ok _ _ Hr) as [(ta & Hta & Ham) _ _ _ _ _ _].
  apply am_reachable_ok in Ham. apply (am_ok_mono _ _ t0) in Ham; [|done].
  pose proof (server_goes_on s t0 t (Password k user pw rnd delay) Hr Ht I) as Hr1.
  cbn [event_end] in Hr1. fold t2 in Hr1. rewrite <-E1 in Hr1.
  destruct (server_run_evolves evs s1 t2 t1 Hr1 Hs) as [[_ _ _ (ops & Hl & Eauth & Hips)] _].
  rewrite <-E2 in Eauth. cbn [server_step] in E1. rewrite Hk in E1.
  unfold step_password, validate_password_start in E1. rewrite Hip, Hsid in E1. fold t2 in E1.
  destruct (validate_login ip sid user pw rnd t t2 (sv_auth s)) as [[r events] auth1] eqn:Ev.
  subst s1. cbn [sv_conns sv_auth add_attempts set_conn set_managers] in *.
  rewrite lookup_insert_eq in Hk1. injection Hk1 as <-. cbn [cn_login] in Hlogin. injection Hlogin as ->.
  assert (Hle : t ≤ t2) by (unfold t2; lia).
  destruct (limit_reached _ _ _ _ _ _ _ _ _ _ _ _ Ham Ht Hle Hnl Ev) as (m1 & c & Hm1 & Hnl1 & Hd & Et & Ep).
  assert (Htl : timeline t2 ops now).
  { rewrite <-(app_nil_r ops). by eapply timeline_app. }
  assert (Hlock : (is_locked_out ip now (sv_auth s2)).1 = true).
  { rewrite Eauth. eapply (locked_out_until m1 t2); [done..|by rewrite Et|]. rewrite Ep.
    eapply Nat.le_lt_trans; [|exact Hsz]. apply subseteq_size. unfold am_others. set_solver. }
  destruct (is_locked_out ip now (sv_auth s2)) as [b auth2] eqn:Eb. cbn in Hlock. subst b.
  assert (Eend : validate_password_end (cn_server cn) (Err (AuthAttemptLimitExceeded sid)) now (sv_auth s2) =
                 (false, true, auth2)).
  { unfold validate_password_end. by rewrite Hip, Eb. }
  cbn [cn_server]. rewrite Eend. split; [done|]. subst s3. by eapply done_and_kicked.
Qed.

(** ** Every terminal comes to its end *)

(** The table of sessions is a table. *)
Definition keys_ok (m : manager) : Prop := (1 ≤ sm_max m)%nat ∧ dict_wf (sm_sessions m).

(** A coroutine that has not run its [finally] yet. *)
Record open_client (m : manager) (c : client) : Prop := {
  oc_live : is_Some (sm_heap m !! cl_record c);
  oc_keys : keys_ok m;
  oc_phase : cl_phase c = Reading ∨ ∃ code raised, cl_phase c = Leaving code raised ∧ 0 ≤ code ≤ 255 }.

Lemma sm_step_wf now op m : keys_ok m → keys_ok (sm_step now op m).
Proof.
  intros [Hmax Hw]. split; [by destruct (step_config now op m) as [-> _]|].
  assert (Hp : dict_wf (sm_sessions (_purge_expired_unlocked now m))).
  { eapply sublist_keys; [by apply sublist_purge|done]. }
  destruct op as [ip|ip| |l v cache cwd]; cbn [sm_step]; [| |exact Hp|exact Hw].
  - unfold get_or_create. case_match; [by apply move_to_end_wf|]. apply dict_set_wf, popitem_while_wf; done.
  - unfold touch_session. case_match; [|done]. by apply move_to_end_wf.
Qed.
Lemma sm_run_wf ops : ∀ m, keys_ok m → keys_ok (sm_run ops m).
Proof. induction ops as [|[now op] ops IH]; intros m Hw; [done|]. cbn. by apply IH, sm_step_wf. Qed.

Lemma execute_shape mo line m d c r m' d' c' :
  is_Some (sm_heap m !! cl_record c) → client_execute stack mo line m d c = (r, (m', d', c')) →
  is_Some (sm_heap m' !! cl_record c) ∧ keys_ok m' = keys_ok m ∧ cl_record c' = cl_record c ∧
  cl_ip c' = cl_ip c ∧ cl_channel c' = cl_channel c ∧ ∀ res, r = Ok res → status_ok res.
Proof.
  intros Hl. unfold client_execute. pose proof (@exit_code_status (world_at mo) stack line (load m d c)) as Hst.
  destruct (execute stack line _) as [r0 s'] eqn:E. intros [= <- <- <- <-].
  split; [by apply use_live|]. do 4 (split; [done|]). intros res ->. by eapply Hst.
Qed.

(** The input that ends the loop, whatever was typed before. *)
Definition closes (ev : read_event) : bool :=
  match ev with ReadLine line => bool_decide (line = []) | ReadError _ => true end.

Definition shaped (c : client) (m' : manager) (c' : client) : Prop :=
  open_client m' c' ∧ cl_record c' = cl_record c ∧ cl_ip c' = cl_ip c ∧ cl_channel c' = cl_channel c.

Lemma leave_shape c c1 m1 code raised (P : Prop) :
  cl_record c1 = cl_record c → cl_ip c1 = cl_ip c → cl_channel c1 = cl_channel c →
  is_Some (sm_heap m1 !! cl_record c) → keys_ok m1 → 0 ≤ code ≤ 255 →
  shaped c m1 (set_phase (Leaving code raised) c1) ∧ (P → cl_phase (set_phase (Leaving code raised) c1) ≠ Reading).
Proof.
  intros Hr Hi Hch Hl Hw Hcode. split; [|done]. split; [|done]. split; cbn; [by rewrite Hr|done|]. right. by exists code, raised.
Qed.
Lemma prompt_shape c c1 m1 :
  cl_record c1 = cl_record c → cl_ip c1 = cl_ip c → cl_channel c1 = cl_channel c →
  is_Some (sm_heap m1 !! cl_record c) → keys_ok m1 → shaped c m1 (client_prompt c1).
Proof.
  intros Hr Hi Hch Hl Hw. destruct (prompt_same c1) as (Er&Ei&_&Ech&Hp).
  split; [|split; [congruence|]; split; congruence]. split; [by rewrite Er, Hr|done|].
  destruct Hp as [?|[e ?]]; [by left|right]. exists 0, (Some e). split; [done|lia].
Qed.

Ltac leave := apply leave_shape; first [congruence|done|lia].

Lemma read_shape mo ev m d c m' d' c' :
  is_Some (sm_heap m !! cl_record c) → keys_ok m → client_read stack mo ev m d c = (m', d', c') →
  shaped c m' c' ∧ (closes ev = true → cl_phase c' ≠ Reading).
Proof.
  intros Hl Hw. destruct ev as [line|e]; cbn [client_read]; [|intros [= <- <- <-]; leave].
  unfold closes. case_bool_decide as Eline; [intros [= <- <- <-]; leave|].
  destruct (client_execute _ _ _ _ _ _) as [r [[m1 d1] c1]] eqn:Ex.
  apply execute_shape in Ex as (Hl1 & Hs1 & Hr1 & Hi1 & Hc1 & _); [|done]. rewrite <-Hs1 in Hw.
  destruct r as [res|e]; [|intros [= <- <- <-]; leave].
  destruct (if bool_decide _ then _ else _) as [[e|] c2] eqn:Ew; apply output_same in Ew as (?&?&?&?);
    [intros [= <- <- <-]; leave|].
  destruct (r_exit_session res); intros [= <- <- <-]; [leave|].
  split; [|done]. apply prompt_shape; (congruence || done).
Qed.

Lemma open_shape mo now sid ip command ch m d m' d' c' t :
  sm_ok m t → client_open stack mo now (sid, ip) command ch m d = (m', d', c') →
  open_client m' c' ∧ cl_ip c' = ip ∧ cl_channel c' = ch ∧ (default [] command ≠ [] → cl_phase c' ≠ Reading).
Proof.
  intros Hm. unfold client_open. destruct (get_or_create_new ip now m t Hm) as (x & Hx & _).
  pose proof (sm_step_wf now (SmGet ip) m (conj (ok_max _ _ Hm) (ok_keys _ _ Hm))) as Hw. cbn in Hw.
  destruct (get_or_create ip now m) as [l m1]. cbn [fst snd] in *. rewrite Hx. cbn [default from_option id].
  set (c0 := Client l ip (shell_init x sid ip (d_quarantine d)) ch 0 [] Reading).
  assert (Hl : is_Some (sm_heap m1 !! cl_record c0)) by by exists x.
  intros E. cut (shaped c0 m' c' ∧ (default [] command ≠ [] → cl_phase c' ≠ Reading)).
  { intros [(?&?&?&?) ?]. done. }
  revert E. case_bool_decide.
  - destruct (client_execute _ _ _ _ _ _) as [r [[m2 d2] c1]] eqn:Ex.
    apply execute_shape in Ex as (Hl1 & Hs1 & Hr1 & Hi1 & Hc1 & Hst); [|done]. rewrite <-Hs1 in Hw.
    destruct r as [res|e]; [|intros [= <- <- <-]; leave].
    destruct (if bool_decide _ then _ else _) as [[e|] c2] eqn:Ew; apply output_same in Ew as (?&?&?&?);
      intros [= <- <- <-]; [leave|]. specialize (Hst res eq_refl). unfold status_ok in Hst. leave.
  - destruct (stdout_write BANNER true c0) as [[e|] c2] eqn:Ew; apply write_same in Ew as (?&?&?&?);
      intros [= <- <- <-]; [leave|]. split; [apply prompt_shape; (congruence || done)|done].
Qed.

Lemma sm_run_live ops : ∀ m l, is_Some (sm_heap m !! l) → is_Some (sm_heap (sm_run ops m) !! l).
Proof.
  induction ops as [|[now op] ops IH]; intros m l Hl; cbn; [done|]. apply IH. destruct op; cbn.
  - unfold get_or_create. case_match; cbn; [by apply alter_live|].
    rewrite lookup_insert_is_Some'. by right.
  - by apply touch_live.
  - done.
  - by apply use_live.
Qed.

Lemma loop_shape turns : ∀ m d c m' d' c',
  open_client m c → client_loop stack turns m d c = (m', d', c') →
  shaped c m' c' ∧
  (cl_phase c ≠ Reading ∨ (∃ tn, last turns = Some tn ∧ closes (tn_event tn) = true) → cl_phase c' ≠ Reading).
Proof.
  induction turns as [|tn turns IH]; intros m d c m' d' c' Ho; cbn [client_loop].
  - assert (E : ∀ A (a : A), match cl_phase c with Reading => a | _ => a end = a) by by intros; case_match.
    rewrite E. intros [= <- <- <-]. split; [by split|]. by intros [?|(tn & [=] & _)].
  - destruct (oc_phase _ _ Ho) as [Hp|(code & raised & Hp & Hcode)]; rewrite Hp.
    2:{ intros [= <- <- <-]. split; [by split|]. by rewrite Hp. }
    destruct (client_read _ _ _ _ _ _) as [[m1 d1] c1] eqn:Er.
    apply read_shape in Er as [(Ho1 & E1 & E2 & E3) Hcl]; [|apply sm_run_live, Ho|apply sm_run_wf, Ho].
    intros El. destruct (IH m1 d1 c1 m' d' c' Ho1 El) as [(Ho' & F1 & F2 & F3) Hend].
    split; [split; [done|]; split; [congruence|]; split; congruence|].
    intros [?|(tn' & Hlast & Hc)]; [done|]. apply Hend.
    destruct turns as [|tn1 turns]; [left; injection Hlast as <-; by apply Hcl|right]. by exists tn'.
Qed.

(** C15: Every terminal comes to its end: whatever the client types, whatever is
    raised by the shell or the channel, and whatever the others do to the
    session table, once the input ends or fails (or, for a single command, once
    it has run) [handle_client] runs its [finally]: the session object holds the
    shell's last directory, the session counts as seen at that moment if the
    table still has it, a status between 0 and 255 is sent unless sending it
    raises, and no loss of the connection is ever raised to the caller. *)
Theorem handle_client_ends mo now sid ip command ch turns ending_time m t d m' d' c' :
  sm_reachable m t →
  default [] command ≠ [] ∨ (∃ tn, last turns = Some tn ∧ closes (tn_event tn) = true) →
  handle_client stack mo now (sid, ip) command ch turns ending_time m d = (m', d', c') →
  ∃ e x, cl_phase c' = Ended e ∧
    (ch_exit ch = None → ∃ code, end_status e = Some code ∧ 0 ≤ code ≤ 255) ∧
    (∀ y, end_raised e = Some y → _DISCONNECT_ERRORS y = false) ∧
    sm_heap m' !! cl_record c' = Some x ∧ s_cwd x = sh_cwd (cl_shell c') ∧
    (dict_get (sm_sessions m') ip = Some (cl_record c') → s_last_seen x = ending_time).
Proof.
  intros Hm%sm_reachable_ok Hends. unfold handle_client.
  destruct (client_open _ _ _ _ _ _ _ _) as [[m1 d1] c1] eqn:Eo.
  destruct (open_shape _ _ _ _ _ _ _ _ _ _ _ _ Hm Eo) as (Ho1 & Ei1 & Ech1 & Hp1).
  destruct (client_loop _ _ _ _ _) as [[m2 d2] c2] eqn:El.
  destruct (loop_shape _ _ _ _ _ _ _ Ho1 El) as [([[x Hx] [_ Hw] Hph] & Er2 & Ei2 & Ech2) Hp2].
  assert (Hnot : cl_phase c2 ≠ Reading) by (apply Hp2; destruct Hends; auto).
  destruct Hph as [?|(code & raised & -> & Hcode)]; [done|].
  destruct (client_finish ending_time code raised m2 c2) as [m3 c3] eqn:Ef. intros [= <- <- <-].
  destruct (client_finish_spec _ _ _ _ _ _ _ x Hx Ef) as (Em & Er & Ei & Es & e & Ep & Hst & Hra).
  set (m2' := use_session _ _ _ _ m2) in Em.
  pose (x2 := IpSession (s_vfs x) (s_llm_cache x) (s_last_seen x) (sh_cwd (cl_shell c2))).
  assert (Hx2 : sm_heap m2' !! cl_record c2 = Some x2) by (cbn; by rewrite lookup_alter, decide_True, Hx).
  rewrite Er, Es, Em, <-Ei1, <-Ei2. exists e. rewrite Ech2, Ech1 in Hst.
  assert (Hstatus : ch_exit ch = None → ∃ k, end_status e = Some k ∧ 0 ≤ k ≤ 255).
  { intros Hex. rewrite Hex in Hst. by exists code. }
  destruct (decide (dict_get (sm_sessions m2') (cl_ip c2) = Some (cl_record c2))) as [Eg|Eg].
  - exists (set_last_seen ending_time x2). do 3 (split; [done|]). unfold touch_session. rewrite Eg.
    cbn [sm_heap with_sessions with_heap]. by rewrite lookup_alter, decide_True, Hx2.
  - exists x2. do 3 (split; [done|]). unfold touch_session.
    destruct (dict_get (sm_sessions m2') (cl_ip c2)) as [l|] eqn:El2; [|by rewrite Hx2, El2].
    cbn [sm_heap with_sessions with_heap sm_sessions].
    rewrite lookup_alter_ne by congruence. split; [done|]. split; [done|].
    rewrite dict_get_move_to_end, El2 by exact Hw. by intros [= ->].
Qed.
End Props.

(** ** Witnesses *)

Definition sample_moment : moment := Moment (@w_clock sample_world) (λ _ x, x) (λ _, true) None.
Definition sample_channel : channel := Channel (λ _, None) None None.
Definition sample_init : server :=
  server_init (AuthManager DEFAULT_WEAK_PASSWORDS TARPIT_SECONDS 1 2 10 5 [] [])
    (Manager 2 10 create_default_vfs [] ∅ 0) (Disk ∅ []).
Definition visitor : str := "198.51.100.7".
(** A client connects, opens a terminal and works in it; the terminal closes. *)
Definition sample_visit : list (Z * event) :=
  [(1, Connect 0 (Some (PyString visitor)) PeerOther 0 "ab12");
   (2, OpenProcess 0 (Some 0%nat) PeerOther None sample_channel sample_moment);
   (3, Read 0 sample_moment (ReadLine (lit "cd /tmp; echo hi > a" ++ [10])));
   (4, Read 0 sample_moment (ReadLine []))].
(** Another one shows up, and the first one comes back. *)
Definition sample_between : list (Z * event) :=
  [(6, Connect 1 (Some (PyString "203.0.113.9")) PeerOther 0 "cd34");
   (7, OpenProcess 1 (Some 1%nat) PeerOther (Some (lit "echo bye > /tmp/b")) sample_channel sample_moment);
   (8, Finish 1); (9, Connect 2 None (PeerTuple [visitor]) 0 "ef56")].

Lemma sample_interferes : interfering (@world_at sample_world sample_moment).
Proof. intros n x _. constructor. Qed.

Ltac scheduled :=
  cbn; repeat match goal with
  | |- _ ∧ _ => apply conj
  | |- interfering _ => apply sample_interferes
  | |- True => exact I
  end; lia || reflexivity.

Lemma sample_init_reachable t : @server_reachable sample_world 3 sample_init t.
Proof.
  eapply (@server_starts sample_world 3 DEFAULT_WEAK_PASSWORDS TARPIT_SECONDS 1 2 10 5 _ 2 10 create_default_vfs).
  - reflexivity.
  - reflexivity.
  - apply default_vfs_ok.
  - apply home_canonical.
  - split; cbn; [done|]. intros path log. by rewrite lookup_empty.
Qed.

Definition sample_server : server := @server_run sample_world 3 sample_visit sample_init.

Lemma sample_server_reachable : @server_reachable sample_world 3 sample_server 4.
Proof.
  eapply (@server_run_evolves sample_world 3 sample_visit sample_init 0); [apply sample_init_reachable|].
  scheduled.
Qed.

(** The terminal of the visit, at its [finally]. *)
Lemma sample_leaving :
  ∃ c x, sv_clients sample_server !! 0%nat = Some c ∧ cl_phase c = Leaving 0 None ∧
  cl_ip c = visitor ∧ cl_record c = 0%nat ∧ sm_heap (sv_sessions sample_server) !! 0%nat = Some x ∧
  sh_cwd (cl_shell c) = lit "/tmp" ∧ read_file (s_vfs x) "a" "/tmp" = Ok (lit "hi" ++ nl).
Proof.
  destruct (sv_clients sample_server !! 0%nat) as [c|] eqn:Ec; [|vm_compute in Ec; discriminate].
  destruct (sm_heap (sv_sessions sample_server) !! 0%nat) as [x|] eqn:Ex; [|vm_compute in Ex; discriminate].
  exists c, x.
  assert (H1 : (λ c, (cl_phase c, cl_ip c, cl_record c, sh_cwd (cl_shell c))) <$> sv_clients sample_server !! 0%nat =
    Some (Leaving 0 None, visitor, 0%nat, lit "/tmp")) by (vm_compute; reflexivity).
  assert (H2 : (λ x, read_file (s_vfs x) "a" "/tmp") <$> sm_heap (sv_sessions sample_server) !! 0%nat =
    Some (Ok (lit "hi" ++ nl))) by (vm_compute; reflexivity).
  rewrite Ec in H1. rewrite Ex in H2. cbn [fmap option_fmap option_map] in *.
  injection H1 as H3 H4 H5 H6. injection H2 as H7.
  exact (conj eq_refl (conj H3 (conj H4 (conj H5 (conj eq_refl (conj H6 H7)))))).
Qed.

Lemma server_invariant_witness :
  heap_fine (sv_sessions sample_server) ∧ @disk_ok sample_world (sv_disk sample_server) ∧
  length (log_of "ab12" (sv_disk sample_server)) = 2%nat.
Proof.
  destruct (@server_invariant sample_world 3 sample_server 4 sample_server_reachable) as (_ & _ & Hf & Hd & _).
  split; [exact Hf|]. split; [exact Hd|]. vm_compute. reflexivity.
Defined.

Lemma server_refines_witness :
  let s' := @server_run sample_world 3 sample_between sample_server in
  ∃ x y, sm_heap (sv_sessions sample_server) !! 0%nat = Some x ∧ sm_heap (sv_sessions s') !! 0%nat = Some y ∧
    interference x y ∧ content y = content x.
Proof.
  intros s'. destruct sample_leaving as (c & x & _ & _ & _ & _ & Hx & _).
  destruct (@server_refines sample_world 3 sample_server 4 sample_between 9 s') as (_ & _ & Hheap & _).
  - apply sample_server_reachable.
  - unfold sample_between. scheduled.
  - reflexivity.
  - destruct (Hheap 0%nat x Hx) as (y & Hy & Hi & Hc). exists x, y. split; [exact Hx|].
    split; [exact Hy|]. split; [exact Hi|]. apply Hc. vm_decide.
Defined.


(** A wrong password on the first connection. *)
Definition sample_guess : event := Password 0 "root" "hunter2" 0 0.
Definition sample_connected : server :=
  @server_run sample_world 3 [(1, Connect 0 (Some (PyString visitor)) PeerOther 0 "ab12")] sample_init.

Lemma sample_connected_reachable : @server_reachable sample_world 3 sample_connected 1.
Proof.
  eapply (@server_run_evolves sample_world 3 _ sample_init 0); [apply sample_init_reachable|]. scheduled.
Qed.

Lemma lockout_disconnects_witness :
  let s1 := @server_step sample_world 3 5 sample_guess sample_connected in
  let s2 := @server_run sample_world 3 sample_between s1 in
  let s3 := @server_step sample_world 3 9 (PasswordDone 0) s2 in
  ∃ cn, sv_conns (@server_step sample_world 3 9 (Kick 0 None) s3) !! 0%nat = Some cn ∧ cn_disconnected cn = true.
Proof.
  intros s1 s2 s3.
  pose (conn_with := λ login, Conn (HoneypotServer true (Some visitor) (Some (lit "ab12")))
    [(lit "honeypot_session_id", PyString "ab12"); (lit "honeypot_client_ip", PyString visitor)] login false false).
  destruct (@lockout_disconnects sample_world 3 sample_connected 1 5 0 (conn_with None) visitor "ab12" "root" "hunter2"
    0 0 s1 (conn_with (Some (Err (AuthAttemptLimitExceeded "ab12")))) sample_between 9 s2 9 s3) as (_ & _ & Hkick).
  - apply sample_connected_reachable.
  - lia.
  - vm_compute. reflexivity.
  - reflexivity.
  - reflexivity.
  - reflexivity.
  - vm_compute. reflexivity.
  - reflexivity.
  - vm_compute. reflexivity.
  - reflexivity.
  - unfold sample_between. scheduled.
  - reflexivity.
  - vm_compute. reflexivity.
  - apply Nat.ltb_lt. vm_compute. reflexivity.
  - lia.
  - vm_compute. discriminate.
  - reflexivity.
  - apply Hkick.
Defined.

Lemma handle_client_ends_witness :
  let turns := [Turn [] sample_moment (ReadLine (lit "cd /etc" ++ [10]));
                Turn [(3, SmSweep)] sample_moment (ReadError ConnectionGone)] in
  let out := @handle_client sample_world 3 sample_moment 1 (lit "ab12", visitor) None sample_channel turns 4
               (sv_sessions sample_init) (Disk ∅ []) in
  ∃ e x, cl_phase out.2 = Ended e ∧ end_status e = Some 0 ∧
    sm_heap out.1.1 !! 0%nat = Some x ∧ s_cwd x = sh_cwd (cl_shell out.2) ∧ s_last_seen x = 4.
Proof.
  intros turns out. destruct out as [[m' d'] c'] eqn:E.
  destruct (@handle_client_ends sample_world 3 sample_moment 1 "ab12" visitor None sample_channel turns 4
    (sv_sessions sample_init) 0 (Disk ∅ []) m' d' c') as (e & x & Hp & Hst & _ & Hx & Hcwd & Hseen).
  - by apply (sm_init 2 10 create_default_vfs).
  - right. exists (Turn [(3, SmSweep)] sample_moment (ReadError ConnectionGone)). exact (conj eq_refl eq_refl).
  - exact E.
  - assert (H : (cl_record out.2, dict_get (sm_sessions out.1.1) visitor) = (0%nat, Some 0%nat)) by (vm_compute; reflexivity).
    assert (Hph : cl_phase out.2 = Ended (Ending (Some 0) None)) by (vm_compute; reflexivity).
    rewrite E in H, Hph. cbn [fst snd] in *. injection H as Hl Hg. rewrite Hl in *.
    exists e, x. split; [exact Hp|]. split; [rewrite Hph in Hp; by injection Hp as <-|].
    split; [exact Hx|]. split; [exact Hcwd|]. by apply Hseen.
Defined.

(** An error of the filesystem that the shell lets out is an [OSError], which
    [handle_client] takes for a lost connection: the terminal closes with
    status 0 and nothing is raised. *)
Example filesystem_error_closes_terminal :
  let out := @handle_client sample_world 3 sample_moment 1 (lit "ab12", visitor) None sample_channel
    [Turn [] sample_moment (ReadLine "rm /dev/zero; cat /dev/zero > x")] 4 (sv_sessions sample_init) (Disk ∅ []) in
  cl_phase out.2 = Ended (Ending (Some 0) None).
Proof. vm_compute. reflexivity. Qed.
