(* ===== verification/Attribution.v ===== *)
(** * Who did what

    Every record in the sensor's logs is in the file of its own session and
    names the session and the address of a connection that was really made. *)

From S2P Require Import Prelude PyStr OrdDict Path Chmod Vfs HoneypotTree Lru SessionManager Auth Terminal VfsTree VfsSpec VfsProps.
From S2P Require Import Regex Json Llm LlmProps ShellParse ShellStatic DateTime Sinkhole Shell ShellEffects ShellSample ShellProps ShellBounds Sharing Server ServerInv ServerProps.

#[local] Arguments lit : simpl never.

Section Attribution.
Context `{W : World} (stack : nat).

(** The session and the address a terminal works for. *)
Definition identity (c : client) : str * str := (sh_session_id (cl_shell c), sh_client_ip (cl_shell c)).
Definition record_identity (r : command_record) : str * str := (cr_session_id r, cr_client_ip r).

(** [d'] is [d] with some records of [who] at the end of its log. *)
Definition logs_for (who : str * str) (d d' : disk) : Prop :=
  d_logs d' = d_logs d ∨
  ∃ new, d_logs d' = <[session_log_path who.1 := log_of who.1 d ++ new]> (d_logs d) ∧
    Forall (λ r, record_identity r = who) new.

Lemma execute_logs mo line m d c r m' d' c' :
  client_execute stack mo line m d c = (r, (m', d', c')) →
  logs_for (identity c) d d' ∧ identity c' = identity c.
Proof.
  unfold client_execute. pose proof (@traced_execute (world_at mo) stack line (load m d c)) as Hr.
  assert (Hload : sh_session_id (load m d c) = sh_session_id (cl_shell c) ∧
    sh_client_ip (load m d c) = sh_client_ip (cl_shell c) ∧
    sh_log (load m d c) = log_of (sh_session_id (cl_shell c)) d).
  { unfold load. by destruct (sm_heap m !! cl_record c). }
  destruct Hload as (Ei & Ec & El). destruct (execute stack line _) as [r0 s']. cbn in Hr.
  intros [= <- <- <- <-]. destruct (@runs_log_grows (world_at mo) _ _ Hr) as (new & Elog & Hnew).
  destruct (@runs_identity (world_at mo) _ _ Hr) as (Ei' & Ec' & _). unfold identity. cbn [cl_shell set_shell].
  split; [right|by rewrite Ei', Ec', Ei, Ec]. exists new. cbn. rewrite Elog, El, Ei', Ei. split; [done|].
  eapply Forall_impl; [exact Hnew|]. intros rec [H1 H2]. unfold record_identity. by rewrite H1, H2, Ei, Ec.
Qed.

(** What a piece of a terminal does to the logs. *)
Definition records (c : client) (d d' : disk) (c' : client) : Prop :=
  logs_for (identity c) d d' ∧ identity c' = identity c ∧ cl_ip c' = cl_ip c.

Lemma records_none c d c1 : cl_shell c1 = cl_shell c → cl_ip c1 = cl_ip c → records c d d c1.
Proof. intros Hs Hi. split; [by left|]. unfold identity. by rewrite Hs. Qed.
Lemma records_dress c d d' c1 c2 :
  records c d d' c1 → cl_shell c2 = cl_shell c1 → cl_ip c2 = cl_ip c1 → records c d d' c2.
Proof. intros (Hl & Hid & Hip) Hs Hi. split; [done|]. unfold identity in *. by rewrite Hs, Hi. Qed.

Lemma execute_records mo line m d c r m' d' c' :
  client_execute stack mo line m d c = (r, (m', d', c')) → records c d d' c'.
Proof.
  intros E. destruct (execute_logs _ _ _ _ _ _ _ _ _ E) as [Hl Hid]. split; [done|]. split; [done|].
  revert E. unfold client_execute. destruct (execute stack line _). by intros [= _ _ _ <-].
Qed.

(** The text of a result on the terminal. *)
Lemma show_records c d d' c1 (text : str) e c2 :
  records c d d' c1 →
  (if bool_decide (text = []) then (None, c1) else stdout_write text true c1) = (e, c2) → records c d d' c2.
Proof. intros Hr Ew. apply output_same in Ew as (_ & Hi & Hs & _). by eapply records_dress. Qed.
Lemma prompt_records c d d' c1 : records c d d' c1 → records c d d' (client_prompt c1).
Proof. intros Hr. destruct (prompt_same c1) as (_ & Hi & Hs & _). by eapply records_dress. Qed.
Lemma phase_records c d d' c1 p : records c d d' c1 → records c d d' (set_phase p c1).
Proof. intros Hr. by eapply records_dress. Qed.

Lemma read_records mo ev m d c m' d' c' :
  client_read stack mo ev m d c = (m', d', c') → records c d d' c'.
Proof.
  destruct ev as [line|e]; cbn [client_read]; [|intros [= <- <- <-]; by apply records_none].
  case_bool_decide; [intros [= <- <- <-]; by apply records_none|].
  destruct (client_execute _ _ _ _ _ _) as [r [[m1 d1] c1]] eqn:Ex. apply execute_records in Ex.
  destruct r as [res|e]; [|intros [= <- <- <-]; by apply phase_records].
  destruct (if bool_decide _ then _ else _) as [[e|] c2] eqn:Ew; apply (show_records c d d1) in Ew; try done;
    [intros [= <- <- <-]; by apply phase_records|].
  destruct (r_exit_session res); intros [= <- <- <-]; [by apply phase_records|by apply prompt_records].
Qed.

Lemma open_records mo now sid ip command ch m d m' d' c' :
  client_open stack mo now (sid, ip) command ch m d = (m', d', c') →
  logs_for (sid, ip) d d' ∧ identity c' = (sid, ip) ∧ cl_ip c' = ip.
Proof.
  unfold client_open. destruct (get_or_create ip now m) as [l m1].
  set (c0 := Client l ip _ ch 0 [] Reading). intros E. cut (records c0 d d' c'); [done|]. revert E.
  assert (H0 : records c0 d d c0) by by apply records_none.
  case_bool_decide.
  - destruct (client_execute _ _ _ _ _ _) as [r [[m2 d2] c1]] eqn:Ex. apply execute_records in Ex.
    destruct r as [res|e]; [|intros [= <- <- <-]; by apply phase_records].
    destruct (if bool_decide _ then _ else _) as [[e|] c2] eqn:Ew; apply (show_records c0 d d2) in Ew; try done;
      intros [= <- <- <-]; by apply phase_records.
  - destruct (stdout_write BANNER true c0) as [[e|] c2] eqn:Ew; apply write_same in Ew as (_ & Hi & Hs & _);
      intros [= <- <- <-]; [by apply phase_records, records_none|by apply prompt_records, records_none].
Qed.

(** ** The invariant *)

(** The identity that [_session_meta] gives a terminal, by its connection. *)
Definition meta_of (who : str * str) (s : server) : Prop :=
  (∃ k cn peer, sv_conns s !! k = Some cn ∧ who = _session_meta (Some (cn_info cn)) peer) ∨
  (∃ peer, who = _session_meta None peer).

(** What [connection_made] stores. *)
Definition made_info (sid ip : str) : extra_info :=
  [(lit "honeypot_session_id", PyString sid); (lit "honeypot_client_ip", PyString ip)].

Record attributed (s : server) : Prop := {
  at_conns : ∀ k cn, sv_conns s !! k = Some cn → ∃ sid ip, cn_info cn = made_info sid ip;
  at_clients : ∀ p c, sv_clients s !! p = Some c → sh_client_ip (cl_shell c) = cl_ip c ∧ meta_of (identity c) s;
  at_logs : ∀ path log r, d_logs (sv_disk s) !! path = Some log → r ∈ log →
    path = session_log_path (cr_session_id r) ∧ meta_of (record_identity r) s }.

(** Connections keep what was stored on them. *)
Definition conns_keep (s s' : server) : Prop :=
  ∀ k cn, sv_conns s !! k = Some cn → ∃ cn', sv_conns s' !! k = Some cn' ∧ cn_info cn' = cn_info cn.

Lemma meta_keep who s s' : conns_keep s s' → meta_of who s → meta_of who s'.
Proof.
  intros Hk [(k & cn & peer & Hcn & ->)|[peer ->]]; [left|by right; exists peer].
  destruct (Hk k cn Hcn) as (cn' & Hcn' & <-). by exists k, cn', peer.
Qed.

Lemma set_conn_keep k cn cn' s auth m :
  sv_conns s !! k = Some cn → cn_info cn' = cn_info cn → conns_keep s (set_conn k cn' (set_managers auth m s)).
Proof.
  intros Hk Hi j cj Hj. cbn. destruct (decide (k = j)) as [<-|Hne].
  - rewrite lookup_insert_eq. simplify_eq. by eexists.
  - rewrite lookup_insert_ne by done. by exists cj.
Qed.

(** A step that leaves terminals and logs alone. *)
Lemma attributed_quiet s s' :
  attributed s → conns_keep s s' → (∀ k cn, sv_conns s' !! k = Some cn → ∃ sid ip, cn_info cn = made_info sid ip) →
  sv_clients s' = sv_clients s → sv_disk s' = sv_disk s → attributed s'.
Proof.
  intros [_ Hc Hl] Hk Hcn Ec Ed. split; [done|..].
  - intros p c. rewrite Ec. intros Hp. destruct (Hc p c Hp) as [? Hm]. split; [done|]. by eapply meta_keep.
  - intros path log r. rewrite Ed. intros Hlog Hr. destruct (Hl path log r Hlog Hr) as [? Hm].
    split; [done|]. by eapply meta_keep.
Qed.

(** A terminal that has run. *)
Lemma attributed_client s p c who m d :
  attributed s → identity c = who → cl_ip c = who.2 → meta_of who s → logs_for who (sv_disk s) d →
  attributed (step_client p (m, d, c) s).
Proof.
  intros [Hcn Hc Hl] Hid Hip Hm Hlogs. split; cbn; [exact Hcn|..].
  - intros q c1 [Hq| ->]%lookup_insert_cases; [by apply (Hc q)|]. split; [|by rewrite Hid]. rewrite Hip, <-Hid. done.
  - intros path log r Hlog Hr. destruct Hlogs as [E|(new & E & Hnew)]; rewrite E in Hlog; [by eapply Hl|].
    apply lookup_insert_Some in Hlog as [[<- <-]|[_ Hlog]]; [|by eapply Hl].
    apply elem_of_app in Hr as [Hr|Hr].
    + unfold log_of in Hr. destruct (d_logs (sv_disk s) !! session_log_path who.1) as [old|] eqn:Eo;
        [by eapply (Hl _ old)|by apply elem_of_nil in Hr].
    + rewrite Forall_forall in Hnew. pose proof (Hnew r Hr) as <-. done.
Qed.

Lemma conn_step k cn cn' s auth m at' :
  attributed s → sv_conns s !! k = Some cn → cn_info cn' = cn_info cn →
  attributed (add_attempts at' (set_conn k cn' (set_managers auth m s))).
Proof.
  intros Ha Hk Hi. apply (attributed_quiet s); [done|by eapply (set_conn_keep k cn cn' s auth m)| |done|done].
  cbn. intros j cj [Hj| ->]%lookup_insert_cases; [by eapply at_conns|]. rewrite Hi. by eapply at_conns.
Qed.

Lemma connection_made_info pending peer rnd uuid now auth :
  ∃ sid ip, (connection_made pending peer rnd uuid now auth).1.2 = made_info sid ip.
Proof. unfold connection_made. destruct (create_session _ _ _ _ _) as [sid auth']. by eexists _, _. Qed.

Lemma connect_step now k pending peer rnd uuid s :
  attributed s → sv_conns s !! k = None → attributed (step_connect now k pending peer rnd uuid s).
Proof.
  intros Ha Hk. unfold step_connect. pose proof (connection_made_info pending peer rnd uuid now (sv_auth s)) as Hi.
  destruct (connection_made _ _ _ _ _ _) as [[h info] auth]. cbn in Hi. apply (attributed_quiet s); [done| | |done|done].
  - intros j cj Hj. exists cj. cbn. rewrite lookup_insert_ne; [done|]. intros ->. by rewrite Hk in Hj.
  - cbn. intros j cj [Hj| ->]%lookup_insert_cases; [by eapply at_conns|done].
Qed.

Lemma add_nothing s : add_attempts [] s = s.
Proof. destruct s. unfold add_attempts. cbn. by rewrite app_nil_r. Qed.
Lemma set_same_managers s : set_managers (sv_auth s) (sv_sessions s) s = s.
Proof. by destruct s. Qed.
Lemma managers_step s auth m : attributed s → attributed (set_managers auth m s).
Proof.
  intros Ha. apply (attributed_quiet s); [done|intros k cn Hk; by exists cn|apply Ha|done|done].
Qed.

Lemma attributed_step now ev s : attributed s → attributed (server_step stack now ev s).
Proof.
  intros Ha.
  destruct ev as [k pending peer rnd uuid|k|k u pw rnd delay|k|k raised| |p k peer command ch mo|p mo input|p];
    cbn [server_step].
  - destruct (sv_conns s !! k) eqn:Ek; [done|]. by apply connect_step.
  - destruct (sv_conns s !! k) as [cn|] eqn:Ek; [|done]. unfold step_disconnect.
    destruct (connection_lost _ _ _ _) as [[h m] auth]. rewrite <-(add_nothing (set_conn _ _ _)). by eapply conn_step.
  - destruct (sv_conns s !! k) as [cn|] eqn:Ek; [|done]. unfold step_password.
    destruct (validate_password_start _ _ _ _ _ _ _) as [[[r events]|] auth]; [by eapply conn_step|by apply managers_step].
  - destruct (sv_conns s !! k) as [cn|] eqn:Ek; [|done]. destruct (cn_login cn) as [r|]; [|done]. unfold step_password_done.
    destruct (validate_password_end _ _ _ _) as [[b sch] auth]. rewrite <-(add_nothing (set_conn _ _ _)). by eapply conn_step.
  - destruct (sv_conns s !! k) as [cn|] eqn:Ek; [|done]. destruct (cn_scheduled cn); [|done]. unfold step_kick.
    destruct (_disconnect_auth_limit _ _) as [called x]. rewrite <-(add_nothing (set_conn _ _ _)).
    rewrite <-(set_same_managers s) at 1. by eapply conn_step.
  - by apply managers_step.
  - destruct (sv_clients s !! p); [done|]. destruct (_session_meta _ peer) as [sid ip] eqn:Em.
    destruct (client_open _ _ _ _ _ _ _ _) as [[m d] c] eqn:Eo. apply open_records in Eo as (Hl & Hid & Hip).
    apply (attributed_client s p c (sid, ip)); [done|done|done| |done]. rewrite <-Em.
    destruct k as [k|]; cbn; [|right; by exists peer].
    destruct (sv_conns s !! k) as [cn|] eqn:Ek; cbn; [left; by exists k, cn, peer|right; by exists peer].
  - destruct (sv_clients s !! p) as [c|] eqn:Ep; [|done]. destruct (cl_phase c); [|done..].
    destruct (client_read _ _ _ _ _ _) as [[m d] c'] eqn:Er. apply read_records in Er as (Hl & Hid & Hip).
    destruct (at_clients _ Ha p c Ep) as [Hc Hm].
    apply (attributed_client s p c' (identity c)); [done|done| |done|done]. by rewrite Hip.
  - destruct (sv_clients s !! p) as [c|] eqn:Ep; [|done]. destruct (cl_phase c) as [|code raised|]; [done| |done].
    destruct (client_finish now code raised (sv_sessions s) c) as [m c'] eqn:Ef.
    destruct (at_clients _ Ha p c Ep) as [Hc Hm].
    assert (Es : cl_shell c' = cl_shell c ∧ cl_ip c' = cl_ip c).
    { revert Ef. unfold client_finish. destruct (match ch_exit _ with Some _ => _ | None => _ end). by intros [= _ <-]. }
    destruct Es as [Es Ei].
    apply (attributed_client s p c' (identity c) m (sv_disk s)); [done|by unfold identity; rewrite Es| |done|by left].
    by rewrite Ei.
Qed.

Lemma attributed_run evs : ∀ s, attributed s → attributed (server_run stack evs s).
Proof. induction evs as [|[now ev] evs IH]; intros s Ha; [done|]. cbn. by apply IH, attributed_step. Qed.

Lemma attributed_init auth m quarantine : attributed (server_init auth m (Disk ∅ quarantine)).
Proof. split; cbn; intros; by rewrite lookup_empty in *. Qed.

Lemma meta_made sid ip peer :
  _session_meta (Some (made_info sid ip)) peer =
  (if bool_decide (sid = []) then lit "local" else sid, if bool_decide (ip = []) then _peer_ip peer else ip).
Proof.
  unfold _session_meta.
  assert (E1 : dict_get (made_info sid ip) (lit "honeypot_session_id") = Some (PyString sid)) by reflexivity.
  assert (E2 : dict_get (made_info sid ip) (lit "honeypot_client_ip") = Some (PyString ip)) by reflexivity.
  by rewrite E1, E2.
Qed.

(** Every record is attributed to a connection that was made: after any
    history of events, in any interleaving, each record on the disk is in the
    file of the session it names, and, unless the terminal's connection was not
    known (the session is then [local]), it names the identifier and the
    address that were stored on one connection when it was made. *)
Theorem records_are_attributed evs auth m quarantine path log r :
  let s := server_run stack evs (server_init auth m (Disk ∅ quarantine)) in
  d_logs (sv_disk s) !! path = Some log → r ∈ log →
  path = session_log_path (cr_session_id r) ∧
  (cr_session_id r = lit "local" ∨
   ∃ k cn sid ip, sv_conns s !! k = Some cn ∧ cn_info cn = made_info sid ip ∧
     (sid ≠ [] → ip ≠ [] → cr_session_id r = sid ∧ cr_client_ip r = ip)).
Proof.
  intros s Hlog Hr. assert (Ha : attributed s).
  { apply attributed_run, attributed_init. }
  destruct (at_logs _ Ha path log r Hlog Hr) as [Hp Hm]. split; [done|].
  destruct Hm as [(k & cn & peer & Hk & E)|[peer E]]; [right|left; by injection E].
  destruct (at_conns _ Ha k cn Hk) as (sid & ip & Hi). exists k, cn, sid, ip. split; [done|]. split; [done|].
  intros Hs Hip. rewrite Hi, meta_made, !bool_decide_eq_false_2 in E by done. unfold record_identity in E. by injection E.
Qed.
End Attribution.

Lemma records_are_attributed_witness :
  let s := @server_run sample_world 3 sample_visit (server_init (sv_auth sample_init) (sv_sessions sample_init) (Disk ∅ [])) in
  ∃ log r, d_logs (sv_disk s) !! session_log_path (lit "ab12") = Some log ∧ r ∈ log ∧
    cr_command r = lit "cd /tmp" ∧ cr_client_ip r = visitor ∧
    (cr_session_id r = lit "local" ∨ ∃ k cn sid ip, sv_conns s !! k = Some cn ∧ cn_info cn = made_info sid ip ∧
       (sid ≠ [] → ip ≠ [] → cr_session_id r = sid ∧ cr_client_ip r = ip)).
Proof.
  intros s. destruct (d_logs (sv_disk s) !! session_log_path (lit "ab12")) as [log|] eqn:El;
    [|vm_compute in El; discriminate].
  assert (Hhead : (λ log, (λ r, (cr_command r, cr_client_ip r)) <$> head log) <$> d_logs (sv_disk s) !! session_log_path (lit "ab12") =
    Some (Some (lit "cd /tmp", visitor))) by (vm_compute; reflexivity).
  rewrite El in Hhead. destruct log as [|r log]; [discriminate Hhead|]. injection Hhead as Hcmd Hip.
  exists (r :: log), r. split; [reflexivity|]. split; [left|]. split; [exact Hcmd|]. split; [exact Hip|].
  apply (@records_are_attributed sample_world 3 sample_visit (sv_auth sample_init) (sv_sessions sample_init) []
    (session_log_path (lit "ab12")) (r :: log) r El). left.
Defined.
