(* ===== verification/ServerText.v ===== *)
(** * Text through the server

    The discipline of [ShellText] holds between any two events of the server:
    the session objects, the shells and the logs are of text, whatever is typed
    on however many terminals.  So nothing a client types, the model answers or
    the filesystem holds ends a terminal with [UnicodeEncodeError], and every
    log file is read back as its records. *)

From S2P Require Import Prelude PyStr OrdDict Path Vfs HoneypotTree Json JsonDump DateTime TextOps VfsText SessionManager Auth Terminal.
From S2P Require Import Regex Llm Sinkhole Telemetry Shell ShellText ShellTyped ShellSample Server ServerInv ServerProps Attribution.

#[local] Arguments lit : simpl never.

(** Not the exception that bad text raises. *)
Definition benign (o : option server_exc) : Prop := o ≠ Some (Raised UnicodeEncodeError).

(** A channel fails for its own reasons. *)
Definition channel_text (ch : channel) : Prop :=
  (∀ n, benign (ch_write ch n)) ∧ benign (ch_exit ch) ∧ benign (ch_close ch).
Definition phase_text (p : phase) : Prop :=
  match p with Reading => True | Leaving _ raised => benign raised | Ended e => benign (end_raised e) end.

Definition value_text (v : pyval) : Prop := match v with PyString s => text_ok s | PyOther => True end.
Definition peer_text (p : peername) : Prop :=
  match p with PeerTuple items => Forall text_ok items | PeerString s => text_ok s | PeerOther => True end.
Definition info_text (info : extra_info) : Prop := Forall (λ kv, value_text kv.2) info.

Definition disk_text (d : disk) : Prop := ∀ path log, d_logs d !! path = Some log → Forall record_text log.

Lemma peer_ip_text p : peer_text p → text_ok (_peer_ip p).
Proof.
  destruct p as [[|host items]|s|]; cbn; [intros _; key_ok|by intros [? _]%Forall_cons| |intros _; key_ok].
  intros Hs. by apply text_if; [key_ok|].
Qed.
Lemma session_meta_text info peer :
  (∀ i, info = Some i → info_text i) → peer_text peer →
  text_ok (_session_meta info peer).1 ∧ text_ok (_session_meta info peer).2.
Proof.
  intros Hi Hp%peer_ip_text. destruct info as [info|]; cbn [_session_meta fst snd]; [|split; [key_ok|done]].
  specialize (Hi info eq_refl). unfold info_text in Hi. rewrite Forall_forall in Hi.
  assert (Hv : ∀ k s, dict_get info k = Some (PyString s) → text_ok s).
  { intros k s Hk%dict_get_Some_elem. exact (Hi _ Hk). }
  split.
  - destruct (dict_get info (lit "honeypot_session_id")) as [[s|]|] eqn:E; try key_ok. apply text_if; [key_ok|by eapply Hv].
  - destruct (dict_get info (lit "honeypot_client_ip")) as [[s|]|] eqn:E; try done. apply text_if; [done|by eapply Hv].
Qed.

Lemma crlf_text s : text_ok s → text_ok (normalize_crlf s).
Proof.
  intros Hs. unfold normalize_crlf. cbv zeta. apply text_if; [apply text_nil|].
  assert (H1 : text_ok [10]) by key_ok. assert (H2 : text_ok [13; 10]) by key_ok.
  set (unix := replace _ [13] [10]). assert (Hu : text_ok unix) by (unfold unix; eauto with text).
  assert (Hb : text_ok (replace (if endswith unix [10] then take (length unix - 1) unix else unix) [10] [13; 10])).
  { apply text_replace; [|done]. apply text_if; eauto with text. }
  apply text_if; eauto with text.
Qed.
Lemma channel_write_text text complete payload :
  text_ok text → _channel_write text complete = Some payload → text_ok payload.
Proof.
  intros Ht. unfold _channel_write. case_bool_decide; [done|]. cbv zeta. intros <-%(inj Some).
  apply crlf_text, text_if; [|done]. apply text_app; [done|key_ok].
Qed.
Lemma prompt_text `{Unicode} s : shell_text s → text_ok (prompt s).
Proof.
  intros Hs. unfold prompt. cbv zeta. pose proof (st_cwd _ Hs) as Hc.
  repeat (apply text_app; [key_ok|]). apply text_app; [|key_ok]. apply text_if; [key_ok|done].
Qed.

Section Server.
Context `{W : World} (stack : nat).

Definition heap_text (m : manager) : Prop :=
  (∀ l x, sm_heap m !! l = Some x → session_text x) ∧ vfs_text (sm_factory m).
Record client_text (c : client) : Prop := {
  ct_shell : shell_text (cl_shell c);
  ct_sent : Forall text_ok (cl_sent c);
  ct_channel : channel_text (cl_channel c);
  ct_phase : phase_text (cl_phase c) }.
Definition state_text (st : manager * disk * client) : Prop :=
  heap_text st.1.1 ∧ disk_text st.1.2 ∧ client_text st.2.

(** ** The session table *)

Lemma alter_heap_text l f m :
  (∀ x, session_text x → session_text (f x)) → heap_text m → heap_text (with_heap (alter f l (sm_heap m)) m).
Proof.
  intros Hf [Hh Hv]. split; [|exact Hv]. intros l' x. cbn. rewrite lookup_alter. case_decide; [|apply Hh].
  intros (x0 & Hx0 & ->)%fmap_Some. by eapply Hf, Hh.
Qed.
Lemma use_text l v cache cwd m :
  session_text (IpSession v cache 0 cwd) → heap_text m → heap_text (use_session l v cache cwd m).
Proof. intros Hs. by apply alter_heap_text. Qed.
Lemma touch_session_text ip now m : heap_text m → heap_text (touch_session ip now m).
Proof.
  intros Hm. unfold touch_session. destruct (dict_get _ ip) as [l|]; [|done]. by apply (alter_heap_text l (set_last_seen now)).
Qed.
Lemma fresh_text v now : vfs_text v → session_text (IpSession v [] now DEFAULT_HOME).
Proof. intros Hv. split; [done|]. split; [key_ok|apply Forall_nil_2]. Qed.
Lemma get_or_create_text ip now m : heap_text m → heap_text (get_or_create ip now m).2.
Proof.
  intros Hm. assert (Hp : heap_text (_purge_expired_unlocked now m)) by exact Hm.
  unfold get_or_create. generalize dependent (_purge_expired_unlocked now m). intros m1 Hp.
  destruct (dict_get (sm_sessions m1) ip) as [l|]; [by apply (alter_heap_text l (set_last_seen now))|].
  destruct Hp as [Hh Hv]. split; [|exact Hv]. intros l x [Hx| ->]%lookup_insert_cases; [by eapply Hh|by apply fresh_text].
Qed.

(** ** The pieces of [handle_client] *)

Lemma dress_text c c' :
  client_text c → cl_shell c' = cl_shell c → cl_channel c' = cl_channel c → Forall text_ok (cl_sent c') →
  phase_text (cl_phase c') → client_text c'.
Proof. intros [Hs _ Hc _] Es Ec Hsent Hp. by split; rewrite ?Es, ?Ec. Qed.
Lemma phase_to_text p c : phase_text p → client_text c → client_text (set_phase p c).
Proof. intros Hp Hc. apply (dress_text c); try done. apply (ct_sent _ Hc). Qed.

Lemma stdout_text text complete c :
  text_ok text → client_text c → let (e, c') := stdout_write text complete c in benign e ∧ client_text c'.
Proof.
  intros Ht Hc. unfold stdout_write. destruct (_channel_write text complete) as [payload|] eqn:E; [|done].
  cbv zeta. split; [apply (ct_channel _ Hc)|]. apply (dress_text c); try done; [|apply (ct_phase _ Hc)].
  cbn. apply Forall_app. split; [apply (ct_sent _ Hc)|]. case_match; [apply Forall_nil_2|].
  apply Forall_singleton. by eapply channel_write_text.
Qed.
(** The text of a result on the terminal. *)
Lemma show_text (text : str) c :
  text_ok text → client_text c →
  let (e, c') := if bool_decide (text = []) then (None, c) else stdout_write text true c in benign e ∧ client_text c'.
Proof. intros Ht Hc. case_bool_decide; [done|by apply stdout_text]. Qed.
Lemma client_prompt_text c : client_text c → client_text (client_prompt c).
Proof.
  intros Hc. unfold client_prompt. pose proof (stdout_text (prompt (cl_shell c)) false c (prompt_text _ (ct_shell _ Hc)) Hc) as Hw.
  destruct (stdout_write _ _ _) as [[e|] c']; destruct Hw; by apply phase_to_text.
Qed.

Lemma load_text m d c : state_text (m, d, c) → shell_text (load m d c).
Proof.
  intros ([Hh _] & Hd & [Hs _ _ _]). unfold load.
  set (s := match sm_heap m !! cl_record c with Some _ => _ | None => _ end).
  assert (H1 : shell_text s).
  { subst s. destruct (sm_heap m !! cl_record c) as [x|] eqn:E; [|done]. apply set_session_text; [by eapply Hh|done]. }
  apply set_outside_text; [|done]. unfold log_of. destruct (d_logs d !! _) as [log|] eqn:E; [by eapply Hd|apply Forall_nil_2].
Qed.
Lemma client_execute_text mo line m d c :
  TextWorld (world_at mo) → text_ok line → state_text (m, d, c) →
  let (r, st) := client_execute stack mo line m d c in fits res_text r ∧ state_text st.
Proof.
  intros Hmo Hl Hst. unfold client_execute.
  pose proof (@execute_text (world_at mo) Hmo stack line Hl _ (load_text m d c Hst)) as [Hr Hs].
  destruct (execute stack line _) as [r s]. cbn [fst snd] in Hr, Hs. split; [exact Hr|].
  destruct Hst as (Hm & Hd & Hc). split; [|split]; cbn [fst snd].
  - apply use_text; [|done]. destruct (st_session _ Hs) as (? & ? & ?). by split_and!.
  - intros path log. cbn. intros [Hlog| ->]%lookup_insert_cases; [by eapply Hd|apply (st_log _ Hs)].
  - destruct Hc as [_ Hsent Hch Hp]. by split.
Qed.

(** After a line: its output is shown, then [next] decides. *)
Lemma after_line_text mo line m d c (next : command_result → client → client) :
  TextWorld (world_at mo) → text_ok line → state_text (m, d, c) →
  (∀ result c, client_text c → client_text (next result c)) →
  state_text
    match client_execute stack mo line m d c with
    | (Err e, (m, d, c)) => (m, d, set_phase (Leaving 0 (Some (Raised e))) c)
    | (Ok result, (m, d, c)) =>
        match (if bool_decide (r_output result = []) then (None, c) else stdout_write (r_output result) true c) with
        | (Some e, c) => (m, d, set_phase (Leaving 0 (Some e)) c)
        | (None, c) => (m, d, next result c)
        end
    end.
Proof.
  intros Hmo Hl Hst Hn. pose proof (client_execute_text mo line m d c Hmo Hl Hst) as Hx.
  destruct (client_execute _ _ _ _ _ _) as [[result|e] [[m1 d1] c1]]; destruct Hx as [Hr (Hm & Hd & Hc)]; cbn in Hr, Hm, Hd, Hc.
  - pose proof (show_text (r_output result) c1 Hr Hc) as Hw.
    destruct (if bool_decide _ then _ else _) as [[e|] c2]; destruct Hw as [He Hc2];
      (split; [exact Hm|split; [exact Hd|]]); [by apply phase_to_text|by apply Hn].
  - split; [exact Hm|split; [exact Hd|]]. apply phase_to_text; [|done]. intros [= ->]. done.
Qed.

Definition input_text (ev : read_event) : Prop :=
  match ev with ReadLine t => text_ok t | ReadError e => benign (Some e) end.

Lemma client_read_text mo ev m d c :
  TextWorld (world_at mo) → input_text ev → state_text (m, d, c) → state_text (client_read stack mo ev m d c).
Proof.
  intros Hmo He Hst. pose proof Hst as (Hm & Hd & Hc). cbn in Hm, Hd, Hc.
  destruct ev as [line|e]; cbn [client_read]; [|split_and!; [done..|by apply phase_to_text]].
  case_bool_decide; [by split_and!; [..|by apply phase_to_text]|].
  set (next := λ (result : command_result) c, if r_exit_session result then set_phase (Leaving 0 None) c else client_prompt c).
  assert (Hn : ∀ result c, client_text c → client_text (next result c)).
  { intros result c1 Hc1. unfold next. destruct (r_exit_session result); [by apply phase_to_text|by apply client_prompt_text]. }
  pose proof (after_line_text mo (rstrip line [13; 10]) m d c next Hmo (text_rstrip line [13; 10] He) Hst Hn) as H1.
  destruct (client_execute _ _ _ _ _ _) as [[result|e] [[m1 d1] c1]]; [|exact H1].
  destruct (if bool_decide _ then _ else _) as [[e|] c2]; [exact H1|].
  unfold next in H1. destruct (r_exit_session result); exact H1.
Qed.

Lemma client_open_text mo now meta command ch m d :
  TextWorld (world_at mo) → text_ok meta.1 → text_ok meta.2 → text_ok (default [] command) → channel_text ch →
  heap_text m → disk_text d → state_text (client_open stack mo now meta command ch m d).
Proof.
  intros Hmo. destruct meta as [sid ip]; cbn [fst snd]. intros Hsid Hip Hcmd Hch Hm Hd. unfold client_open.
  pose proof (get_or_create_text ip now m Hm) as Hm1. destruct (get_or_create ip now m) as [l m1]. cbn [snd] in Hm1.
  set (record := default _ (sm_heap m1 !! l)).
  assert (Hrec : session_text record).
  { unfold record. destruct (sm_heap m1 !! l) as [x|] eqn:E; [by eapply Hm1|]. apply fresh_text, Hm1. }
  set (c0 := Client l ip (shell_init record sid ip (d_quarantine d)) ch 0 [] Reading).
  assert (Hc0 : client_text c0) by (split; [by apply shell_init_text|apply Forall_nil_2|done|done]).
  case_bool_decide.
  - by apply (after_line_text mo (default [] command) m1 d c0 (λ result c, set_phase (Leaving (r_exit_code result) None) c));
      [| |split_and!|intros result c Hc; apply phase_to_text].
  - pose proof (stdout_text BANNER true c0 ltac:(key_ok) Hc0) as Hw.
    destruct (stdout_write BANNER true c0) as [[e|] c1]; destruct Hw as [He Hc1]; split_and!; try done;
      [by apply phase_to_text|by apply client_prompt_text].
Qed.

Lemma uncaught_benign raised : benign raised → benign (uncaught raised).
Proof. destruct raised as [e|]; [|done]. cbn. by destruct (_DISCONNECT_ERRORS e). Qed.
Lemma client_finish_text now code raised m c :
  benign raised → heap_text m → client_text c →
  let (m', c') := client_finish now code raised m c in heap_text m' ∧ client_text c'.
Proof.
  intros Hr Hm Hc. unfold client_finish.
  set (m1 := match sm_heap m !! cl_record c with Some _ => _ | None => m end).
  assert (Hm1 : heap_text m1).
  { unfold m1. destruct (sm_heap m !! cl_record c) as [x|] eqn:E; [|done]. destruct Hm as [Hh Hv].
    destruct (Hh _ _ E) as (Hx & _ & Hca). apply use_text; [|done].
    split; [exact Hx|]. split; [apply (st_cwd _ (ct_shell _ Hc))|exact Hca]. }
  destruct (ct_channel _ Hc) as (_ & Hex & Hcl).
  destruct (match ch_exit (cl_channel c) with Some _ => _ | None => _ end) as [status problem] eqn:E.
  split; [by apply touch_session_text|]. apply phase_to_text; [|done]. cbn.
  assert (Hp : benign problem) by (destruct (ch_exit (cl_channel c)); simplify_eq; done).
  apply uncaught_benign in Hp, Hr. by destruct (uncaught problem).
Qed.

(** ** Events *)

Definition event_text (ev : event) : Prop :=
  match ev with
  | Connect _ pending peer _ uuid => (∀ v, pending = Some v → value_text v) ∧ peer_text peer ∧ text_ok uuid
  | OpenProcess _ _ peer command ch mo =>
      peer_text peer ∧ text_ok (default [] command) ∧ channel_text ch ∧ TextWorld (world_at mo)
  | Read _ mo input => TextWorld (world_at mo) ∧ input_text input
  | _ => True
  end.

Record server_text (s : server) : Prop := {
  se_sessions : heap_text (sv_sessions s);
  se_conns : ∀ k cn, sv_conns s !! k = Some cn → info_text (cn_info cn);
  se_clients : ∀ p c, sv_clients s !! p = Some c → client_text c;
  se_disk : disk_text (sv_disk s) }.

Lemma text_client_step p st s : server_text s → state_text st → server_text (step_client p st s).
Proof.
  intros [Hm Hcn Hc Hd] (Hm' & Hd' & Hc'). destruct st as [[m d] c]. split; [exact Hm'|exact Hcn| |exact Hd'].
  cbn. intros q c1 [Hq| ->]%lookup_insert_cases; [by eapply Hc|exact Hc'].
Qed.
Lemma text_conn_step k cn cn' auth m events s :
  server_text s → heap_text m → sv_conns s !! k = Some cn → cn_info cn' = cn_info cn →
  server_text (add_attempts events (set_conn k cn' (set_managers auth m s))).
Proof.
  intros [_ Hcn Hc Hd] Hm Hk Hi. split; [exact Hm| |exact Hc|exact Hd].
  cbn. intros j cj [Hj| ->]%lookup_insert_cases; [by eapply Hcn|]. rewrite Hi. by eapply Hcn.
Qed.
Lemma text_set_managers auth m s : server_text s → heap_text m → server_text (set_managers auth m s).
Proof. intros [_ Hcn Hc Hd] Hm. by split. Qed.

Lemma made_info_text pending peer rnd uuid now auth :
  (∀ v, pending = Some v → value_text v) → peer_text peer → text_ok uuid →
  info_text (connection_made pending peer rnd uuid now auth).1.2.
Proof.
  intros Hv Hp%peer_ip_text Hu. unfold connection_made. cbn [create_session fst snd]. repeat apply Forall_cons_2; [exact Hu| |apply Forall_nil_2].
  cbn. destruct pending as [[s|]|]; [|done..]. specialize (Hv _ eq_refl). by apply text_if.
Qed.

Lemma server_text_step now ev s : event_text ev → server_text s → server_text (server_step stack now ev s).
Proof.
  intros Hev Hs. pose proof Hs as [Hm Hcn Hc Hd].
  destruct ev as [k pending peer rnd uuid|k|k u pw rnd delay|k|k raised| |p k peer command ch mo|p mo input|p];
    cbn [server_step event_text] in *.
  - destruct (sv_conns s !! k); [done|]. unfold step_connect. destruct Hev as (Hpend & Hpeer & Hu).
    pose proof (made_info_text pending peer rnd uuid now (sv_auth s) Hpend Hpeer Hu) as Hi.
    destruct (connection_made _ _ _ _ _ _) as [[h info] auth]. split; [exact Hm| |exact Hc|exact Hd].
    cbn. intros j cj [Hj| ->]%lookup_insert_cases; [by eapply Hcn|exact Hi].
  - destruct (sv_conns s !! k) as [cn|] eqn:Ek; [|done]. unfold step_disconnect, connection_lost.
    assert (Hm' : heap_text (match hs_client_ip (cn_server cn) with Some ip => touch_session ip now (sv_sessions s) | None => sv_sessions s end)).
    { destruct (hs_client_ip _); [by apply touch_session_text|done]. }
    destruct (hs_session_id _); rewrite <-(add_nothing (set_conn _ _ _)); by eapply text_conn_step.
  - destruct (sv_conns s !! k) as [cn|] eqn:Ek; [|done]. unfold step_password.
    destruct (validate_password_start _ _ _ _ _ _ _) as [[[r events]|] auth]; [by eapply text_conn_step|by apply text_set_managers].
  - destruct (sv_conns s !! k) as [cn|] eqn:Ek; [|done]. destruct (cn_login cn) as [r|]; [|done]. unfold step_password_done.
    destruct (validate_password_end _ _ _ _) as [[b sch] auth]. rewrite <-(add_nothing (set_conn _ _ _)). by eapply text_conn_step.
  - destruct (sv_conns s !! k) as [cn|] eqn:Ek; [|done]. destruct (cn_scheduled cn); [|done]. unfold step_kick.
    destruct (_disconnect_auth_limit _ _) as [called x]. rewrite <-(add_nothing (set_conn _ _ _)).
    rewrite <-(set_same_managers s) at 1. by eapply text_conn_step.
  - apply text_set_managers; [done|exact Hm].
  - destruct (sv_clients s !! p); [done|]. destruct Hev as (Hpeer & Hcmd & Hch & Hmo). apply text_client_step; [done|].
    destruct (session_meta_text (k ← k; cn_info <$> sv_conns s !! k) peer) as [H1 H2]; [|done|by apply client_open_text].
    intros i. destruct k as [k|]; [|done]. cbn. intros (cn & Hk & ->)%fmap_Some. by eapply Hcn.
  - destruct (sv_clients s !! p) as [c|] eqn:Ep; [|done]. destruct (cl_phase c); [|done..]. destruct Hev as [Hmo Hin].
    apply text_client_step; [done|]. apply client_read_text; [done|done|]. split_and!; [done..|by eapply Hc].
  - destruct (sv_clients s !! p) as [c|] eqn:Ep; [|done]. pose proof (Hc p c Ep) as Hct.
    destruct (cl_phase c) as [|code raised|] eqn:Eph; [done| |done].
    pose proof (ct_phase _ Hct) as Hr. rewrite Eph in Hr.
    pose proof (client_finish_text now code raised (sv_sessions s) c Hr Hm Hct) as Hf.
    destruct (client_finish _ _ _ _ _) as [m c']. destruct Hf as [Hm' Hc'].
    exact (text_client_step p (m, sv_disk s, c') s Hs (conj Hm' (conj Hd Hc'))).
Qed.

Lemma server_text_run evs : ∀ s, Forall (λ e, event_text e.2) evs → server_text s → server_text (server_run stack evs s).
Proof.
  induction evs as [|[now ev] evs IH]; intros s He Hs; [done|]. apply Forall_cons in He as [He Hes].
  cbn. by apply IH; [|apply server_text_step].
Qed.
End Server.

(** C10: what a session is logged as is read back as what was recorded.  Clients
    connect, type lines of text, are answered and leave, in any interleaving,
    in worlds that give the shell text ([event_text], [TextWorld]: in
    particular every answer of the model is text, without escaped surrogates;
    one with a surrogate can end a terminal, [ShellTyped.surrogate_answer_raises]).
    Then no exception a channel raises and nothing typed or answered ever makes a
    terminal end with [UnicodeEncodeError]; everything that
    was sent can be encoded; and each log file of the sensor, the lines of JSON
    appended for its records with any durations, is read back line by line as
    exactly those records. *)
Theorem session_logs_read_back `{W : World} stack evs s path rows :
  server_text s → Forall (λ e, event_text e.2) evs →
  let s' := server_run stack evs s in
  d_logs (sv_disk s') !! path = Some rows.*1 → Forall float_ok rows.*2 →
  let js := map (λ rd, command_fields rd.1 rd.2) rows in
  (∃ file, append_all (map (pair true) js) [] = Ok file ∧ read_jsonl file = Some js) ∧
  (∀ p c, sv_clients s' !! p = Some c →
     Forall (λ t, ∃ data, encode_utf8 t = Ok data) (cl_sent c) ∧
     ∀ e, cl_phase c = Ended e → end_raised e ≠ Some (Raised UnicodeEncodeError)).
Proof.
  intros Hs He s' Hlog Hdur js. pose proof (server_text_run stack evs s He Hs) as Hs'. fold s' in Hs'. split.
  - pose proof (se_disk _ Hs' path _ Hlog) as Hrec. apply (Forall_fmap fst) in Hrec. apply (Forall_fmap snd) in Hdur.
    assert (Hok : Forall (λ j, json_ok j) js).
    { apply Forall_fmap. pose proof (conj Hrec Hdur) as Hboth. apply Forall_and in Hboth. eapply Forall_impl; [exact Hboth|].
      intros [r d] [(H1 & H2 & H3 & H4 & H5 & H6) Hd]. by apply command_json_ok. }
    by apply all_read_back.
  - intros p c Hc. pose proof (se_clients _ Hs' p c Hc) as Hct. split.
    + eapply Forall_impl; [apply (ct_sent _ Hct)|]. intros t Ht. eexists. unfold encode_utf8. by rewrite text_encodable.
    + intros e Hp. pose proof (ct_phase _ Hct) as Hb. by rewrite Hp in Hb.
Qed.

(** ** Witness *)

Definition text_moment : moment :=
  Moment (@w_clock typed_world) (λ _ x, x) (λ _, true) (@w_provider typed_world).
Definition text_visit : list (Z * event) :=
  [(1, Connect 0 (Some (PyString visitor)) PeerOther 0 "ab12");
   (2, OpenProcess 0 (Some 0%nat) PeerOther None sample_channel text_moment);
   (3, Read 0 text_moment (ReadLine (typed_line ++ [10])));
   (4, Read 0 text_moment (ReadLine (lit "exit" ++ [10]))); (5, Finish 0)].

Lemma text_visit_text : Forall (λ e, @event_text typed_world e.2) text_visit.
Proof.
  assert (Hch : channel_text sample_channel) by (split_and!; try intros n; done).
  unfold text_visit. repeat (apply Forall_cons_2; [cbn [event_text snd]|]); try apply Forall_nil_2.
  - split_and!; [|done|key_ok]. intros v [= <-]. key_ok.
  - split_and!; [done|apply text_nil|done|exact typed_world_text].
  - split; [exact typed_world_text|key_ok].
  - split; [exact typed_world_text|key_ok].
  - done.
Qed.
Lemma sample_init_text : @server_text typed_world sample_init.
Proof.
  split.
  - split; [|exact tree_text]. intros l x. by rewrite (lookup_empty l : sm_heap (sv_sessions sample_init) !! l = None).
  - intros k cn. by rewrite (lookup_empty k : sv_conns sample_init !! k = None).
  - intros p c. by rewrite (lookup_empty p : sv_clients sample_init !! p = None).
  - intros path log. by rewrite (lookup_empty path : d_logs (sv_disk sample_init) !! path = None).
Qed.

Lemma session_logs_read_back_witness :
  let s' := @server_run typed_world 100 text_visit sample_init in
  let rows := map (λ r, (r, lit "1.25")) (log_of "ab12" (sv_disk s')) in
  let js := map (λ rd, command_fields rd.1 rd.2) rows in
  length js = 6%nat ∧ ∃ file, append_all (map (pair true) js) [] = Ok file ∧ read_jsonl file = Some js.
Proof.
  intros s' rows js. split; [vm_compute; reflexivity|].
  assert (Hlog : d_logs (sv_disk s') !! session_log_path "ab12" = Some rows.*1).
  { unfold rows. rewrite <-list_fmap_compose, list_fmap_id. unfold log_of.
    destruct (d_logs (sv_disk s') !! session_log_path "ab12") eqn:E; [done|vm_compute in E; discriminate]. }
  assert (Hdur : Forall float_ok rows.*2).
  { unfold rows. rewrite <-list_fmap_compose. apply Forall_fmap, Forall_true. intros r. exact float_sample. }
  exact (proj1 (@session_logs_read_back typed_world 100 text_visit sample_init _ rows sample_init_text text_visit_text Hlog Hdur)).
Defined.
