(* ===== verification/Gateway.v ===== *)
(** * From the socket to the log ([server.py])

    The listener gives every TCP connection a [_ProxyPreambleProtocol]; when it
    hands over, AsyncSSH's connection is made and, within the same callback,
    [HoneypotServer.connection_made] with the announced address in the context
    variable.  [gateway] runs the protocols of [Proxy.v] in front of the server
    of [Server.v]: a connection of the server exists by a hand-over only. *)

From S2P Require Import Prelude PyStr OrdDict Path Vfs HoneypotTree SessionManager Auth Proxy Terminal.
From S2P Require Import Regex Llm Sinkhole Shell ShellSample Server ServerProps Attribution.

#[local] Arguments lit : simpl never.

(** A TCP connection: its protocol object, the peer of its transport, and what
    the transport has delivered so far. *)
Record link := Link {
  lk_protocol : preamble;
  lk_peer : peername;
  lk_bytes : str;
  lk_eof : bool
}.

(** The address [_ProxyPreambleProtocol.connection_made] falls back to. *)
Definition tuple_peer (peer : peername) : option str :=
  match peer with PeerTuple (host :: _) => Some host | _ => None end.
Definition fallback_of (peer : peername) : str := default (lit "unknown") (tuple_peer peer).

Record gateway := Gateway { gw_links : gmap nat link; gw_server : server }.

(** What the event loop does.  A transport delivers nothing after its end of
    file; [rnd] and [uuid] are what a connection that is made draws.  [Inside]
    is what AsyncSSH does on the connections it was handed. *)
Inductive gate_event :=
  | Accept (k : nat) (peer : peername)
  | Deliver (k : nat) (data : str) (rnd : nat) (uuid : str)
  | EndOfFile (k : nat) (rnd : nat) (uuid : str)
  | TransportLost (k : nat)
  | Flow (k : nat) (resume : bool)
  | Inside (ev : event).

(** The address of a hand-over, once it happened. *)
Definition handed_ip (p : preamble) : option str :=
  match pp_trace p with InnerMade ip :: _ => Some ip | _ => None end.

Definition is_connect (ev : event) : bool := match ev with Connect _ _ _ _ _ => true | _ => false end.

Section Gateway.
Context `{W : World} (stack : nat).

(** A callback of the protocol of [k], with the connection it may make. *)
Definition gate_callback (now : Z) (k : nat) (l : link) (callback : preamble → preamble) (data : str)
    (eof : bool) (rnd : nat) (uuid : str) (g : gateway) : gateway :=
  let p := callback (lk_protocol l) in
  Gateway (<[k := Link p (lk_peer l) (lk_bytes l ++ data) eof]> (gw_links g))
    (match handed_ip (lk_protocol l), handed_ip p with
     | None, Some ip => server_step stack now (Connect k (Some (PyString ip)) (lk_peer l) rnd uuid) (gw_server g)
     | _, _ => gw_server g
     end).

Definition gate_step (now : Z) (ev : gate_event) (g : gateway) : gateway :=
  match ev with
  | Accept k peer =>
      match gw_links g !! k with
      | Some _ => g
      | None =>
          Gateway (<[k := Link (pp_connection_made (tuple_peer peer) preamble_init) peer [] false]> (gw_links g))
            (gw_server g)
      end
  | Deliver k data rnd uuid =>
      match gw_links g !! k with
      | Some l => if lk_eof l then g else gate_callback now k l (data_received data) data false rnd uuid g
      | None => g
      end
  | EndOfFile k rnd uuid =>
      match gw_links g !! k with
      | Some l => if lk_eof l then g else gate_callback now k l eof_received [] true rnd uuid g
      | None => g
      end
  | TransportLost k =>
      match gw_links g !! k with
      | Some l => gate_callback now k l pp_connection_lost [] true 0 [] g
      | None => g
      end
  | Flow k resume =>
      match gw_links g !! k with
      | Some l => gate_callback now k l (if resume then resume_writing else pause_writing) [] (lk_eof l) 0 [] g
      | None => g
      end
  | Inside ev => if is_connect ev then g else Gateway (gw_links g) (server_step stack now ev (gw_server g))
  end.

Fixpoint gate_run (evs : list (Z * gate_event)) (g : gateway) : gateway :=
  match evs with
  | [] => g
  | (now, ev) :: rest => gate_run rest (gate_step now ev g)
  end.

Definition gate_init (s : server) : gateway := Gateway ∅ s.

(** ** The protocol of a link *)

(** What the bytes say: the address and the bytes for SSH. *)
Definition said (l : link) : str * str := split_preamble (fallback_of (lk_peer l)) (lk_bytes l).

Definition made_once (t : list inner_event) : Prop :=
  Forall (λ e, match e with InnerMade _ => False | _ => True end) t.

(** [b1] decided, [b2] came later. *)
Inductive decided (fb b : str) (eof : bool) (ip rest : str) : Prop :=
  | decided_by b1 b2 l :
      b = b1 ++ b2 → rest = l ++ b2 → decision false fb b1 = Some (ip, l) → decided fb b eof ip rest
  | decided_eof : eof = true → split_preamble fb b = (ip, rest) → decided fb b eof ip rest.

Inductive link_ok (fb b : str) (eof : bool) : preamble → Prop :=
  | link_waiting :
      decision false fb b = None → eof = false → link_ok fb b eof (Preamble true b fb false false [])
  | link_dead :                         (* lost before the hand-over *)
      eof = true → link_ok fb b eof (Preamble true b fb false false [])
  | link_handed ip rest t :
      decided fb b eof ip rest → made_once t → inner_bytes (InnerMade ip :: t) = rest →
      link_ok fb b eof (Preamble true [] fb true true (InnerMade ip :: t)).

Lemma made_once_app t e : made_once t → made_once [e] → made_once (t ++ [e]).
Proof. intros Ht He. by apply Forall_app. Qed.
Lemma inner_bytes_app t t' : inner_bytes (t ++ t') = inner_bytes t ++ inner_bytes t'.
Proof. unfold inner_bytes. by rewrite omap_app, concat_app. Qed.

Lemma decided_more fb b eof ip rest c : eof = false → decided fb b eof ip rest → decided fb (b ++ c) eof ip (rest ++ c).
Proof.
  intros -> [b1 b2 l -> -> Hd|He _]; [|done].
  by eapply (decided_by _ _ _ _ _ b1 (b2 ++ c) l); rewrite ?app_assoc.
Qed.
Lemma decided_later fb b eof eof' ip rest :
  (eof = true → eof' = true) → decided fb b eof ip rest → decided fb b eof' ip rest.
Proof. intros He [b1 b2 l Hb Hr Hd|Heof Hs]; [by eapply decided_by|]. apply decided_eof; auto. Qed.

Lemma decided_said fb b eof ip rest : decided fb b eof ip rest → header_fits b → split_preamble fb b = (ip, rest).
Proof. intros [b1 b2 l -> -> Hd|_ Hs] Hfit; [by apply decision_sound|done]. Qed.

Lemma complete_link fb b eof ip l :
  decided fb b eof ip l → link_ok fb b eof (_complete ip l (Preamble true b fb false false [])).
Proof.
  intros Hd. unfold _complete. cbn [pp_handed_off pp_transport orb negb]. apply (link_handed _ _ _ ip l); [done|..].
  - unfold made_once. case_bool_decide; by repeat constructor.
  - case_bool_decide as E; cbn; [by rewrite E|by rewrite app_nil_r].
Qed.

Lemma data_link fb b c p : link_ok fb b false p → link_ok fb (b ++ c) false (data_received c p).
Proof.
  intros [_ _|He|ip rest t Hd Ht Hb]; [|done|]; unfold data_received; cbn [pp_handed_off].
  - rewrite try_handoff_decision by done. cbn [pp_buf pp_fallback_ip pp_transport pp_handed_off pp_inner pp_trace].
    destruct (decision false fb (b ++ c)) as [[ip l]|] eqn:E; [|by constructor].
    apply complete_link. by eapply (decided_by _ _ _ _ _ (b ++ c) [] l); rewrite ?app_nil_r.
  - unfold pp_tell. cbn. apply (link_handed _ _ _ ip (rest ++ c)); [by apply decided_more|by apply made_once_app; [|repeat constructor]|].
    change (InnerMade ip :: t ++ [InnerData c]) with ((InnerMade ip :: t) ++ [InnerData c]).
    rewrite inner_bytes_app, Hb. cbn. by rewrite app_nil_r.
Qed.

(** What is told without data: a protocol that still waits is told nothing. *)
Definition no_data (e : inner_event) : Prop :=
  match e with InnerMade _ | InnerData _ => False | _ => True end.

Lemma tell_link fb b eof eof' e p :
  no_data e → (eof = true → eof' = true) → link_ok fb b eof p → link_ok fb b eof' (pp_tell e p).
Proof.
  intros He Heof [Hd Hw|Hw|ip rest t Hd Ht Hb]; unfold pp_tell; cbn.
  - destruct eof'; [by apply link_dead|by apply link_waiting].
  - apply link_dead. auto.
  - apply (link_handed _ _ _ ip rest); [by eapply decided_later|apply made_once_app; [done|by destruct e; repeat constructor]|].
    change (InnerMade ip :: t ++ [e]) with ((InnerMade ip :: t) ++ [e]). rewrite inner_bytes_app, Hb.
    destruct e; try done; cbn; by rewrite app_nil_r.
Qed.

Lemma eof_link fb b p : link_ok fb b false p → link_ok fb b true (eof_received p).
Proof.
  intros Hl. unfold eof_received. apply (tell_link _ _ true); [done|done|].
  destruct Hl as [Hd _|He|ip rest t Hd Ht Hb]; [|done|].
  - cbn [pp_handed_off pp_buf pp_transport pp_fallback_ip]. case_bool_decide as Hne.
    + rewrite try_handoff_decision by done. cbn [pp_fallback_ip pp_buf]. rewrite (decision_force fb b Hne).
      destruct (split_preamble fb b) as [ip l] eqn:Es. apply complete_link. by apply decided_eof.
    + assert (b = []) as -> by by destruct (decide (b = [])). apply complete_link. by apply decided_eof.
  - cbn [pp_handed_off]. apply (link_handed _ _ _ ip rest); [|done|done]. by apply (decided_later _ _ false).
Qed.

(** The address, once handed over, stays. *)
Lemma handed_keep fb b eof p ip (callback : preamble → preamble) :
  link_ok fb b eof p → handed_ip p = Some ip →
  (callback = eof_received ∨ (∃ c, callback = data_received c) ∨ ∃ e, no_data e ∧ callback = pp_tell e) →
  handed_ip (callback p) = Some ip.
Proof.
  intros [_ _|_|ip' rest t _ _ _] Hip; [done|done|]. cbn in Hip. injection Hip as ->.
  intros [->|[[c ->]|(e & _ & ->)]]; reflexivity.
Qed.

(** ** What is stored on the connections *)

Lemma step_infos now ev s k :
  is_connect ev = false → cn_info <$> sv_conns (server_step stack now ev s) !! k = cn_info <$> sv_conns s !! k.
Proof.
  intros Hev.
  assert (Hset : ∀ j cn cn' s', sv_conns s' = sv_conns s → sv_conns s !! j = Some cn → cn_info cn' = cn_info cn →
    cn_info <$> sv_conns (set_conn j cn' s') !! k = cn_info <$> sv_conns s !! k).
  { intros j cn cn' s' Es Hj Hi. cbn. rewrite Es. destruct (decide (j = k)) as [<-|Hne].
    - rewrite lookup_insert_eq, Hj. cbn. by rewrite Hi.
    - by rewrite lookup_insert_ne. }
  destruct ev as [|j|j u pw rnd delay|j|j raised| |p j peer command ch mo|p mo input|p]; [done|..]; cbn [server_step].
  - destruct (sv_conns s !! j) as [cn|] eqn:Ej; [|done]. unfold step_disconnect.
    destruct (connection_lost _ _ _ _) as [[h m] auth]. by eapply Hset.
  - destruct (sv_conns s !! j) as [cn|] eqn:Ej; [|done]. unfold step_password.
    destruct (validate_password_start _ _ _ _ _ _ _) as [[[r events]|] auth]; [|done].
    by apply (Hset j cn _ (set_managers auth (sv_sessions s) s)).
  - destruct (sv_conns s !! j) as [cn|] eqn:Ej; [|done]. destruct (cn_login cn) as [r|]; [|done]. unfold step_password_done.
    destruct (validate_password_end _ _ _ _) as [[b sch] auth]. by eapply Hset.
  - destruct (sv_conns s !! j) as [cn|] eqn:Ej; [|done]. destruct (cn_scheduled cn); [|done]. unfold step_kick.
    destruct (_disconnect_auth_limit _ _) as [called x]. by eapply Hset.
  - done.
  - destruct (sv_clients s !! p); [done|]. by destruct (client_open _ _ _ _ _ _ _ _) as [[m d] c].
  - destruct (sv_clients s !! p) as [c|]; [|done]. destruct (cl_phase c); [|done..].
    by destruct (client_read _ _ _ _ _ _) as [[m d] c'].
  - destruct (sv_clients s !! p) as [c|]; [|done]. destruct (cl_phase c); [done| |done].
    by destruct (client_finish _ _ _ _ _) as [m c'].
Qed.

(** The address a connection goes by. *)
Definition address (peer : peername) (ip : str) : str := if bool_decide (ip = []) then _peer_ip peer else ip.

Lemma connect_infos now k ip peer rnd uuid s j :
  sv_conns s !! k = None →
  cn_info <$> sv_conns (server_step stack now (Connect k (Some (PyString ip)) peer rnd uuid) s) !! j =
  if decide (j = k) then Some (made_info uuid (address peer ip)) else cn_info <$> sv_conns s !! j.
Proof.
  intros Hk. cbn [server_step]. rewrite Hk. unfold step_connect, connection_made.
  destruct (create_session _ _ _ _ _) as [sid auth] eqn:Ec. assert (sid = uuid) as -> by by injection Ec.
  cbn. case_decide as Ej; [subst j; by rewrite lookup_insert_eq|by rewrite lookup_insert_ne].
Qed.

(** ** The invariant *)

Record gate_ok (g : gateway) : Prop := {
  go_links : ∀ k l, gw_links g !! k = Some l →
    link_ok (fallback_of (lk_peer l)) (lk_bytes l) (lk_eof l) (lk_protocol l);
  go_conns : ∀ k info, cn_info <$> sv_conns (gw_server g) !! k = Some info →
    ∃ l ip sid, gw_links g !! k = Some l ∧ handed_ip (lk_protocol l) = Some ip ∧
      info = made_info sid (address (lk_peer l) ip);
  go_made : ∀ k l ip, gw_links g !! k = Some l → handed_ip (lk_protocol l) = Some ip →
    is_Some (sv_conns (gw_server g) !! k);
  go_attributed : attributed (gw_server g) }.

Lemma callback_ok now k l callback data eof rnd uuid g :
  gate_ok g → gw_links g !! k = Some l →
  link_ok (fallback_of (lk_peer l)) (lk_bytes l ++ data) eof (callback (lk_protocol l)) →
  (callback = eof_received ∨ (∃ c, callback = data_received c) ∨ ∃ e, no_data e ∧ callback = pp_tell e) →
  gate_ok (gate_callback now k l callback data eof rnd uuid g).
Proof.
  intros [Hl Hc Hm Ha] Hk Hl' Hcb. pose proof (Hl k l Hk) as Hold. unfold gate_callback.
  set (p := callback (lk_protocol l)) in *.
  assert (Hkeep : ∀ ip, handed_ip (lk_protocol l) = Some ip → handed_ip p = Some ip)
    by by intros; eapply handed_keep.
  assert (Hlinks : ∀ j l1, <[k:=Link p (lk_peer l) (lk_bytes l ++ data) eof]> (gw_links g) !! j = Some l1 →
    link_ok (fallback_of (lk_peer l1)) (lk_bytes l1) (lk_eof l1) (lk_protocol l1)).
  { intros j l1 [Hj| ->]%lookup_insert_cases; [by eapply Hl|done]. }
  destruct (handed_ip (lk_protocol l)) as [ip0|] eqn:E0; [|destruct (handed_ip p) as [ip1|] eqn:E1].
  - specialize (Hkeep ip0 eq_refl). split; cbn; [exact Hlinks|..|done].
    + intros j info Hj. destruct (Hc j info Hj) as (l1 & ip & sid & Hl1 & Hip & ->). destruct (decide (k = j)) as [<-|Hne].
      * assert (l1 = l) as -> by congruence. rewrite lookup_insert_eq. eexists _, ip, sid.
        split; [done|]. split; [cbn; congruence|done].
      * exists l1, ip, sid. by rewrite lookup_insert_ne.
    + intros j l1 ip Hj Hip. destruct (decide (k = j)) as [<-|Hne]; [by eapply Hm|].
      rewrite lookup_insert_ne in Hj by done. by eapply Hm.
  - assert (Hnone : sv_conns (gw_server g) !! k = None).
    { destruct (sv_conns (gw_server g) !! k) as [cn|] eqn:Ecn; [|done].
      destruct (Hc k (cn_info cn)) as (l1 & ip & sid & Hl1 & Hip & _); [by rewrite Ecn|congruence]. }
    split; cbn [gw_links gw_server]; [exact Hlinks|..|by apply attributed_step].
    + intros j info. rewrite connect_infos by done. case_decide as Ej.
      * subst j. intros [= <-]. rewrite lookup_insert_eq. by eexists _, ip1, uuid.
      * rewrite lookup_insert_ne by done. apply Hc.
    + intros j l1 ip Hj Hip. pose proof (connect_infos now k ip1 (lk_peer l) rnd uuid (gw_server g) j Hnone) as Hi.
      case_decide as Ej; [by destruct (sv_conns _ !! j)|]. rewrite lookup_insert_ne in Hj by done.
      destruct (Hm j l1 ip Hj Hip) as [cn Hcn]. rewrite Hcn in Hi. by destruct (sv_conns _ !! j).
  - split; cbn; [exact Hlinks|..|done].
    + intros j info Hj. destruct (Hc j info Hj) as (l1 & ip & sid & Hl1 & Hip & ->). destruct (decide (k = j)) as [<-|Hne]; [congruence|].
      exists l1, ip, sid. by rewrite lookup_insert_ne.
    + intros j l1 ip Hj Hip. destruct (decide (k = j)) as [<-|Hne].
      * rewrite lookup_insert_eq in Hj. injection Hj as <-. cbn in Hip. congruence.
      * rewrite lookup_insert_ne in Hj by done. by eapply Hm.
Qed.

Lemma gate_step_ok now ev g : gate_ok g → gate_ok (gate_step now ev g).
Proof.
  intros Hg. pose proof Hg as [Hl Hc Hm Ha].
  destruct ev as [k peer|k data rnd uuid|k rnd uuid|k|k resume|ev]; cbn [gate_step].
  - destruct (gw_links g !! k) as [l0|] eqn:Ek; [done|]. split; cbn.
    + intros j l [Hj| ->]%lookup_insert_cases; [by eapply Hl|]. cbn.
      unfold fallback_of. by destruct (tuple_peer peer); constructor.
    + intros j info Hj. destruct (Hc j info Hj) as (l & ip & sid & Hlk & Hip & ->). exists l, ip, sid.
      rewrite lookup_insert_ne; [done|]. congruence.
    + intros j l ip [Hj| ->]%lookup_insert_cases; [by eapply Hm|done].
    + done.
  - destruct (gw_links g !! k) as [l|] eqn:Ek; [|done]. destruct (lk_eof l) eqn:Ee; [done|].
    apply callback_ok; [done|done| |right; left; by exists data]. apply data_link. rewrite <-Ee. by apply (Hl k).
  - destruct (gw_links g !! k) as [l|] eqn:Ek; [|done]. destruct (lk_eof l) eqn:Ee; [done|].
    apply callback_ok; [done|done| |by left]. rewrite app_nil_r. apply eof_link. rewrite <-Ee. by apply (Hl k).
  - destruct (gw_links g !! k) as [l|] eqn:Ek; [|done].
    apply callback_ok; [done|done| |right; right; by exists InnerLost]. rewrite app_nil_r.
    apply (tell_link _ _ (lk_eof l)); [done|done|by apply (Hl k)].
  - destruct (gw_links g !! k) as [l|] eqn:Ek; [|done].
    assert (He : (∃ e, no_data e ∧ (if resume then resume_writing else pause_writing) = pp_tell e)).
    { destruct resume; [by exists InnerResume|by exists InnerPause]. }
    apply callback_ok; [done|done| |by right; right]. rewrite app_nil_r. destruct He as (e & He & ->).
    apply (tell_link _ _ (lk_eof l)); [done|done|by apply (Hl k)].
  - destruct (is_connect ev) eqn:Eev; [done|]. split; cbn [gw_links gw_server]; [done|..].
    + intros k info. rewrite step_infos by done. apply Hc.
    + intros k l ip Hk Hip. destruct (Hm k l ip Hk Hip) as [cn Hcn].
      pose proof (step_infos now ev (gw_server g) k Eev) as E. rewrite Hcn in E.
      by destruct (sv_conns (server_step stack now ev (gw_server g)) !! k).
    + by apply attributed_step.
Qed.

Lemma gate_run_ok evs : ∀ g, gate_ok g → gate_ok (gate_run evs g).
Proof. induction evs as [|[now ev] evs IH]; intros g Hg; [done|]. cbn [gate_run]. by apply IH, gate_step_ok. Qed.

Lemma gate_init_ok auth m quarantine : gate_ok (gate_init (server_init auth m (Disk ∅ quarantine))).
Proof.
  split; cbn; [by intros k l H; rewrite lookup_empty in H| |by intros k l ip H; rewrite lookup_empty in H|].
  - intros k info. by rewrite lookup_empty.
  - apply attributed_init.
Qed.

(** What SSH received, and the address of the hand-over, are what the bytes say. *)
Lemma gate_said g k l ip :
  gate_ok g → gw_links g !! k = Some l → handed_ip (lk_protocol l) = Some ip → header_fits (lk_bytes l) →
  said l = (ip, inner_bytes (pp_trace (lk_protocol l))).
Proof.
  intros Hg Hk Hip Hfit. destruct (go_links _ Hg k l Hk) as [_ _|_|ip' rest t Hd _ Hb]; [done|done|].
  injection Hip as <-. cbn [pp_trace]. rewrite Hb. unfold said. by eapply decided_said.
Qed.

(** The connection a record is of. *)
Lemma gate_records g path log r :
  gate_ok g → d_logs (sv_disk (gw_server g)) !! path = Some log → r ∈ log →
  cr_session_id r = lit "local" ∨
  ∃ k l ip cn, gw_links g !! k = Some l ∧ handed_ip (lk_protocol l) = Some ip ∧
    sv_conns (gw_server g) !! k = Some cn ∧
    dict_get (cn_info cn) (lit "honeypot_session_id") = Some (PyString (cr_session_id r)) ∧
    (address (lk_peer l) ip ≠ [] → cr_client_ip r = address (lk_peer l) ip).
Proof.
  intros Hg Hlog Hr. destruct (at_logs _ (go_attributed _ Hg) path log r Hlog Hr) as [_ [(k & cn & peer & Hcn & E)|[peer E]]];
    [|left; by injection E].
  destruct (go_conns _ Hg k (cn_info cn)) as (l & ip & sid & Hk & Hip & Hi); [by rewrite Hcn|].
  rewrite Hi, meta_made in E. injection E as Es Ea.
  destruct (decide (sid = [])) as [->|Hs]; [by left|right]. exists k, l, ip, cn. split; [done|]. split; [done|].
  split; [done|]. split; [rewrite Hi, Es, bool_decide_eq_false_2 by done; reflexivity|].
  intros Hne. rewrite Ea. by rewrite bool_decide_eq_false_2.
Qed.

(** C19: The log names the address that the bytes of a connection announce: after
    any history of callbacks of any number of TCP connections and of what
    AsyncSSH does behind them, every record is of a session whose connection was
    not known ([local]; such records are excepted) or of a connection that
    was handed over, and bears the identifier stored on it; and if the first line
    of that connection's bytes is at most [_PROXY_MAX_LINE] bytes long, 107 with
    its end ([header_fits]), then, however the bytes are cut, the record bears the
    address of its PROXY line (the peer's when there is none, or a malformed
    one), and SSH has received exactly the bytes behind that line.  Of a longer
    line it depends on the cut which address that is
    ([Proxy.long_header_depends_on_chunking]). *)
Theorem announced_address_is_logged evs auth m quarantine :
  let g := gate_run evs (gate_init (server_init auth m (Disk ∅ quarantine))) in
  (∀ k l ip, gw_links g !! k = Some l → handed_ip (lk_protocol l) = Some ip → header_fits (lk_bytes l) →
    said l = (ip, inner_bytes (pp_trace (lk_protocol l)))) ∧
  (∀ path log r, d_logs (sv_disk (gw_server g)) !! path = Some log → r ∈ log →
    cr_session_id r = lit "local" ∨
    ∃ k l cn, gw_links g !! k = Some l ∧ is_Some (handed_ip (lk_protocol l)) ∧
      sv_conns (gw_server g) !! k = Some cn ∧
      dict_get (cn_info cn) (lit "honeypot_session_id") = Some (PyString (cr_session_id r)) ∧
      (header_fits (lk_bytes l) → address (lk_peer l) (said l).1 ≠ [] →
       cr_client_ip r = address (lk_peer l) (said l).1)).
Proof.
  intros g. assert (Hg : gate_ok g) by by apply gate_run_ok, gate_init_ok.
  split; [intros k l ip; by apply gate_said|]. intros path log r Hlog Hr.
  destruct (gate_records g path log r Hg Hlog Hr) as [Hl|(k & l & ip & cn & Hk & Hip & Hcn & Hd & Ha)]; [by left|right].
  exists k, l, cn. split; [done|]. split; [done|]. split; [done|]. split; [done|].
  intros Hfit. by rewrite (gate_said g k l ip Hg Hk Hip Hfit).
Qed.
End Gateway.

(** A visitor behind the proxy, whose header arrives in two pieces. *)
Definition proxied_visit : list (Z * gate_event) :=
  [(1, Accept 0 (PeerTuple [lit "127.0.0.1"]));
   (1, Deliver 0 (lit "PROXY TCP4 198.51.") 0 []);
   (2, Deliver 0 (lit "100.7 10.0.0.1 50022 22" ++ crlf ++ lit "SSH-2.0") 0 "ab12");
   (3, Inside (OpenProcess 0 (Some 0%nat) PeerOther None sample_channel sample_moment));
   (4, Inside (Read 0 sample_moment (ReadLine (lit "cd /tmp" ++ [10]))))].

Lemma announced_address_is_logged_witness :
  let g := @gate_run sample_world 3 proxied_visit
             (gate_init (server_init (sv_auth sample_init) (sv_sessions sample_init) (Disk ∅ []))) in
  ∃ log r k l, d_logs (sv_disk (gw_server g)) !! session_log_path (lit "ab12") = Some log ∧ r ∈ log ∧
    cr_command r = lit "cd /tmp" ∧ gw_links g !! k = Some l ∧ handed_ip (lk_protocol l) = Some visitor ∧
    said l = (visitor, lit "SSH-2.0") ∧ said l = (visitor, inner_bytes (pp_trace (lk_protocol l))) ∧
    (cr_session_id r = lit "local" ∨ ∃ k' l', gw_links g !! k' = Some l' ∧ is_Some (handed_ip (lk_protocol l'))).
Proof.
  intros g. destruct (d_logs (sv_disk (gw_server g)) !! session_log_path (lit "ab12")) as [log|] eqn:El;
    [|vm_compute in El; discriminate].
  assert (Hhead : (λ log, cr_command <$> head log) <$> d_logs (sv_disk (gw_server g)) !! session_log_path (lit "ab12") =
    Some (Some (lit "cd /tmp"))) by (vm_compute; reflexivity).
  rewrite El in Hhead. destruct log as [|r log]; [discriminate Hhead|]. injection Hhead as Hcmd.
  destruct (gw_links g !! 0%nat) as [l|] eqn:Ek; [|vm_compute in Ek; discriminate].
  assert (Hip : (λ l, handed_ip (lk_protocol l)) <$> gw_links g !! 0%nat = Some (Some visitor)) by (vm_compute; reflexivity).
  assert (Hby : lk_bytes <$> gw_links g !! 0%nat =
    Some (lit "PROXY TCP4 198.51.100.7 10.0.0.1 50022 22" ++ crlf ++ lit "SSH-2.0")) by (vm_compute; reflexivity).
  rewrite Ek in Hip, Hby. apply (inj Some) in Hip. apply (inj Some) in Hby.
  destruct (@announced_address_is_logged sample_world 3 proxied_visit (sv_auth sample_init) (sv_sessions sample_init) [])
    as [Hsaid Hlogged].
  exists (r :: log), r, 0%nat, l. split; [reflexivity|]. split; [left|]. split; [exact Hcmd|]. split; [exact Ek|].
  split; [exact Hip|].
  assert (Hs : said l = (visitor, inner_bytes (pp_trace (lk_protocol l)))).
  { apply (Hsaid 0%nat l visitor Ek Hip). rewrite Hby. intros _.
    assert (Ef : find crlf (lit "PROXY TCP4 198.51.100.7 10.0.0.1 50022 22" ++ crlf ++ lit "SSH-2.0") = Some 41%nat)
      by (vm_compute; reflexivity).
    rewrite Ef. unfold _PROXY_MAX_LINE. lia. }
  split; [unfold said; rewrite Hby; vm_compute; reflexivity|]. split; [exact Hs|].
  destruct (Hlogged (session_log_path (lit "ab12")) (r :: log) r El) as [Hl|(k & l' & cn & Hk & Hh & _)]; [left|left; exact Hl|].
  right. exists k, l'. split; [exact Hk|exact Hh].
Defined.
