(* ===== verification/FrontDoor.v ===== *)
(** * From the visitor's socket to the log

    The front-end proxy of [ProxyServer.v] and the SSH server behind it
    ([Gateway.v]), joined by TCP in [front_step]: a link of the gateway is the
    backend's end of a session of the proxy, and the transport delivers to it, in
    pieces of any size, the bytes the proxy wrote there.  The PROXY line that
    [format_proxy_v1] writes is the one [parse_proxy_v1_line] reads. *)

From S2P Require Import Prelude PyStr OrdDict Path Vfs HoneypotTree SessionManager Auth Proxy Terminal.
From S2P Require Import Regex Llm Sinkhole Shell ShellSample Server ServerProps Attribution Gateway.
From S2P Require Import RateLimit Relay RelayProps ProxyServer ProxyServerProps.

#[local] Arguments lit : simpl never.

(** What [inet_ntop] writes: printable text without blanks, of the length of the
    longest address. *)
Class InetLaws `{Inet} : Prop := {
  ntop4_text : ∀ a s, inet_ntop4 a = Some s → s ≠ [] ∧ Forall (λ c, 32 < c < 128) s ∧ (length s ≤ 15)%nat;
  ntop6_text : ∀ a s, inet_ntop6 a = Some s → s ≠ [] ∧ Forall (λ c, 32 < c < 128) s ∧ (length s ≤ 39)%nat }.

Lemma find_first (x : Z) pat line t : x ∉ line → find (x :: pat) (line ++ x :: pat ++ t) = Some (length line).
Proof.
  induction line as [|c line IH]; intros Hx; rewrite find_unfold.
  - rewrite app_nil_l. change (x :: pat ++ t) with ((x :: pat) ++ t). by rewrite startswith_app.
  - apply not_elem_of_cons in Hx as [Hc Hx]. assert (E : startswith ((c :: line) ++ x :: pat ++ t) (x :: pat) = false).
    { apply startswith_false. intros Hp. cbn in Hp. by apply prefix_cons_inv_1 in Hp. }
    rewrite E. cbn [app]. by rewrite IH.
Qed.

(** ** The line *)

Section Line.
Context `{InetLaws}.

Definition known (a : sockaddr) : bool := bool_decide (peer_ip a ≠ lit "unknown").
(** The line names the visitor: both addresses are known, and of one family. *)
Definition named (local : option sockaddr) (addr : sockaddr) : bool :=
  match local with
  | None => false
  | Some dst => known addr && known dst && bool_decide (effective_family addr = effective_family dst)
  end.

Lemma known_text a : known a = true →
  effective_family a ≠ AF_UNSPEC ∧ peer_ip a ≠ [] ∧ Forall (λ c, 32 < c < 128) (peer_ip a) ∧ (length (peer_ip a) ≤ 39)%nat.
Proof.
  unfold known. rewrite bool_decide_eq_true. unfold peer_ip.
  assert (H4 : ∀ b, default (lit "unknown") (inet_ntop4 b) ≠ lit "unknown" →
    let s := default (lit "unknown") (inet_ntop4 b) in s ≠ [] ∧ Forall (λ c, 32 < c < 128) s ∧ (length s ≤ 39)%nat).
  { intros b. destruct (inet_ntop4 b) as [s|] eqn:E; [|done]. intros _. apply ntop4_text in E as (?&?&?). cbn. split_and!; [done|done|lia]. }
  assert (H6 : ∀ b, default (lit "unknown") (inet_ntop6 b) ≠ lit "unknown" →
    let s := default (lit "unknown") (inet_ntop6 b) in s ≠ [] ∧ Forall (λ c, 32 < c < 128) s ∧ (length s ≤ 39)%nat).
  { intros b. destruct (inet_ntop6 b) as [s|] eqn:E; [|done]. intros _. by apply ntop6_text in E. }
  destruct a as [addr port|addr port|]; cbn [effective_family]; [|destruct (v4_mapped addr)|done]; by split; [|eauto].
Qed.

Lemma port_bound a : 0 ≤ sock_port a ≤ 65535.
Proof. destruct a as [x port|x port|]; cbn [sock_port]; [|..|lia]; pose proof (Z.mod_pos_bound port (2 ^ 16)); lia. Qed.

(** A line is [header] and the end of a line, and is read as [r]. *)
Definition header_reads (header : str) (r : option (str * Z)) : Prop :=
  ∃ line, header = line ++ crlf ∧ startswith line _PROXY_PREFIX = true ∧ ¬ (13 ∈ line) ∧ (length line ≤ 105)%nat ∧
    parse_proxy_v1_line line = r.

Lemma known_line family src dst :
  family = lit "TCP4" ∨ family = lit "TCP6" → known src = true → known dst = true →
  header_reads (lit "PROXY " ++ family ++ lit " " ++ peer_ip src ++ lit " " ++ peer_ip dst ++ lit " " ++
    py_str (sock_port src) ++ lit " " ++ py_str (sock_port dst) ++ [13; 10]) (Some (peer_ip src, sock_port src)).
Proof.
  intros Hf Hs Hd. apply known_text in Hs as (_ & Hne & Hsrc & Hls). apply known_text in Hd as (_ & _ & Hdst & Hld).
  pose proof (port_bound src) as Hps. pose proof (port_bound dst) as Hpd.
  assert (Hno : ∀ s : str, Forall (λ c, 32 < c < 128) s → 13 ∉ s).
  { intros s Hs Hin. rewrite Forall_forall in Hs. apply Hs in Hin. lia. }
  assert (Hdig : ∀ n, 0 ≤ n → 13 ∉ py_str n).
  { intros n Hn Hin. pose proof (py_str_ascii n Hn) as Hall. rewrite Forall_forall in Hall. by apply Hall in Hin. }
  exists (proxy_header family (peer_ip src) (peer_ip dst) (sock_port src) (sock_port dst)). unfold proxy_header. cbn [join].
  split; [by change (lit "PROXY ") with (lit "PROXY" ++ [32]); change (lit " ") with [32]; rewrite <-!app_assoc|].
  split; [rewrite app_assoc; apply startswith_app|]. split.
  { assert (Hfam : 13 ∉ family) by (destruct Hf as [->| ->]; vm_decide). assert (Hp : 13 ∉ lit "PROXY") by vm_decide.
    assert (H32 : 13 ∉ [32]) by vm_decide. rewrite !not_elem_of_app. split_and!; auto; apply Hdig; lia. }
  split.
  - rewrite !length_app. pose proof (py_str_length 5 (sock_port src)). pose proof (py_str_length 5 (sock_port dst)).
    change (length (lit "PROXY")) with 5%nat. cbn [length].
    assert (length family = 4%nat) by by destruct Hf as [->| ->]. lia.
  - by apply (proxy_header_roundtrip family (peer_ip src) (peer_ip dst)).
Qed.

(** What the honeypot makes of the line the proxy writes. *)
Lemma header_line local addr :
  header_reads (make_proxy_v1_header local addr) (if named local addr then Some (peer_ip addr, sock_port addr) else None).
Proof.
  assert (Hunknown : header_reads (lit "PROXY UNKNOWN" ++ [13; 10]) None).
  { exists (lit "PROXY UNKNOWN"). split; [done|]. split; [by vm_compute|]. split; [vm_decide|]. split; [vm_compute; lia|by vm_compute]. }
  unfold make_proxy_v1_header, format_proxy_v1, named. destruct local as [dst|]; [|exact Hunknown].
  assert (Hk : ∀ a, bool_decide (peer_ip a = lit "unknown") = negb (known a)).
  { intros a. unfold known. by rewrite bool_decide_not, negb_involutive. }
  rewrite !Hk. destruct (known addr) eqn:Ea; [|exact Hunknown]. destruct (known dst) eqn:Ed; [|exact Hunknown].
  destruct (known_text addr Ea) as [Hfam _], (known_text dst Ed) as [Hfam' _]. cbn [negb orb andb]. cbv zeta.
  destruct (effective_family addr) eqn:E1, (effective_family dst) eqn:E2; try done; try exact Hunknown;
    apply known_line; auto.
Qed.

Lemma header_said fb local addr rest :
  let h := make_proxy_v1_header local addr in
  split_preamble fb (h ++ rest) = (if named local addr then peer_ip addr else fb, rest) ∧ header_fits (h ++ rest).
Proof.
  destruct (header_line local addr) as (line & -> & Hpre & H13 & Hlen & Hparse). unfold split_preamble, header_fits. cbv zeta.
  rewrite <-app_assoc. rewrite (startswith_mono _ _ _ Hpre).
  change (crlf ++ rest) with (13 :: [10] ++ rest). unfold crlf. rewrite (find_first 13 [10] line rest H13).
  split; [|intros _; unfold _PROXY_MAX_LINE; lia].
  rewrite take_app_length, Hparse. f_equal; [by destruct (named local addr)|].
  rewrite drop_app, drop_ge by lia. by replace (length line + 2 - length line)%nat with 2%nat by lia.
Qed.

(** Nothing is decided before the line has arrived. *)
Lemma decided_late fb local addr b rest ip l :
  let h := make_proxy_v1_header local addr in
  b `prefix_of` h ++ rest → decision false fb b = Some (ip, l) → h `prefix_of` b.
Proof.
  intros h Hb Hd. destruct (decide (length h ≤ length b)%nat) as [Hl|Hl].
  { apply (prefix_weak_total h b) in Hb as [Hp|Hp]; [done| |by apply prefix_app_r].
    by rewrite (prefix_length_eq _ _ Hp Hl). }
  exfalso. destruct (header_line local addr) as (line & Eh & Hpre & H13 & Hlen & _). fold h in Eh.
  assert (Hbh : b `prefix_of` h).
  { apply (prefix_weak_total h b) in Hb as [Hp|Hp]; [apply prefix_length in Hp; lia|done|by apply prefix_app_r]. }
  destruct Hbh as [b' Ehb]. assert (Hstart : ∀ p, (length p ≤ length b)%nat → startswith b p = startswith h p).
  { intros p Hp. by rewrite Ehb, startswith_app_l. }
  assert (Hline : (length h = length line + 2)%nat) by by rewrite Eh, length_app.
  unfold decision in Hd. case_bool_decide as Ene; [done|].
  assert (HP : startswith b (lit "P") = true).
  { rewrite Hstart by (change (length (lit "P")) with 1%nat; destruct b; [done|cbn; lia]). rewrite Eh. apply startswith_mono.
    apply startswith_true. apply startswith_true in Hpre. etrans; [apply P_prefix|done]. }
  rewrite HP in Hd. cbn [negb] in Hd. case_bool_decide as E6; [done|].
  rewrite Hstart, Eh, (startswith_mono _ _ _ Hpre) in Hd by (change (length _PROXY_PREFIX) with 6%nat in *; lia). cbn [negb orb] in Hd.
  destruct (find crlf b) as [i|] eqn:Ef.
  - pose proof (find_bound _ _ _ Ef) as Hi. apply (find_app _ _ b') in Ef. rewrite <-Ehb, Eh in Ef.
    pose proof (find_first 13 [10] line [] H13) as Ef'. cbn [app] in Ef'. unfold crlf in Ef. rewrite Ef in Ef'.
    injection Ef' as ->. cbn in Hi. lia.
  - case_bool_decide as E7; [|done]. unfold _PROXY_MAX_LINE in E7. lia.
Qed.
End Line.

(** ** The two programs joined *)

Section FrontDoor.
Context `{Double} `{InetLaws} `{W : World} (stack : nat).

(** Both programs, and which session a link belongs to. *)
Record front := Front { fr_proxy : proxy_server; fr_gateway : gateway; fr_route : gmap nat Z }.

(** What happens: a step of the proxy; the listener accepts the connection that a
    session opened; up to [n] more of the bytes written there are delivered; any other
    step of the gateway. *)
Inductive front_event :=
  | AtProxy (ev : proxy_event)
  | Linked (k : nat) (id : Z) (peer : peername)
  | Carried (k n : nat) (rnd : nat) (uuid : str)
  | Behind (ev : gate_event).

Definition from_network (ev : gate_event) : bool :=
  match ev with Accept _ _ | Deliver _ _ _ _ => true | _ => false end.
(** What the transport may still deliver to [l], a link of the session [c]. *)
Definition in_flight (c : channel) (l : link) : str := drop (length (lk_bytes l)) (w_to_backend (cn_wire c)).

Definition front_step (now : Z) (ev : front_event) (f : front) : front :=
  let '(Front p g route) := f in
  match ev with
  | AtProxy ev => Front (proxy_step now ev p) g route
  | Linked k id peer =>
      match px_sessions p !! id, gw_links g !! k with
      | Some _, None =>
          if bool_decide (map_Forall (λ _ id', id' ≠ id) route)
          then Front p (gate_step stack now (Accept k peer) g) (<[k := id]> route) else f
      | _, _ => f
      end
  | Carried k n rnd uuid =>
      match route !! k ≫= λ id, px_sessions p !! id, gw_links g !! k with
      | Some c, Some l => Front p (gate_step stack now (Deliver k (take n (in_flight c l)) rnd uuid) g) route
      | _, _ => f
      end
  | Behind ev => if from_network ev then f else Front p (gate_step stack now ev g) route
  end.
Fixpoint front_run (evs : list (Z * front_event)) (f : front) : front :=
  match evs with [] => f | (now, ev) :: rest => front_run rest (front_step now ev f) end.
Definition front_init (p : proxy_server) (s : server) : front := Front p (gate_init s) ∅.

(** A link has been given a part of what was written in its session. *)
Definition carried (f : front) : Prop :=
  ∀ k l, gw_links (fr_gateway f) !! k = Some l →
    ∃ id c, fr_route f !! k = Some id ∧ px_sessions (fr_proxy f) !! id = Some c ∧
      lk_bytes l `prefix_of` w_to_backend (cn_wire c).

(** The bytes of a link, after a step of the gateway. *)
Lemma gate_links now ev g k l' :
  gw_links (gate_step stack now ev g) !! k = Some l' →
  (∃ l, gw_links g !! k = Some l ∧
     (lk_bytes l' = lk_bytes l ∨ ∃ data rnd uuid, ev = Deliver k data rnd uuid ∧ lk_bytes l' = lk_bytes l ++ data)) ∨
  (∃ peer, ev = Accept k peer) ∧ gw_links g !! k = None ∧ lk_bytes l' = [].
Proof using Type.
  assert (Hcb : ∀ j l callback data eof rnd uuid, gw_links g !! j = Some l →
    gw_links (gate_callback stack now j l callback data eof rnd uuid g) !! k = Some l' →
    ∃ l0, gw_links g !! k = Some l0 ∧ (lk_bytes l' = lk_bytes l0 ∨ j = k ∧ lk_bytes l' = lk_bytes l0 ++ data)).
  { intros j l callback data eof rnd uuid Hj. unfold gate_callback. cbn [gw_links]. rewrite lookup_insert.
    case_decide as E; [subst j; intros <-%(inj Some); exists l; auto|]. intros Hk. exists l'. auto. }
  intros Hk. destruct ev as [j peer|j data rnd uuid|j rnd uuid|j|j resume|ev]; cbn [gate_step] in Hk.
  - destruct (gw_links g !! j) as [l0|] eqn:Ej; [left; exists l'; auto|]. cbn [gw_links] in Hk. rewrite lookup_insert in Hk.
    case_decide as E; [|left; exists l'; auto]. subst j. apply (inj Some) in Hk as <-. right. eauto.
  - destruct (gw_links g !! j) as [l0|] eqn:Ej; [|left; exists l'; auto]. destruct (lk_eof l0); [left; exists l'; auto|].
    destruct (Hcb _ _ _ _ _ _ _ Ej Hk) as (l1 & Hl1 & [E|[-> E]]); left; exists l1; split; eauto 8.
  - destruct (gw_links g !! j) as [l0|] eqn:Ej; [|left; exists l'; auto]. destruct (lk_eof l0); [left; exists l'; auto|].
    destruct (Hcb _ _ _ _ _ _ _ Ej Hk) as (l1 & Hl1 & [E|[-> E]]); left; exists l1; rewrite ?app_nil_r in E; auto.
  - destruct (gw_links g !! j) as [l0|] eqn:Ej; [|left; exists l'; auto].
    destruct (Hcb _ _ _ _ _ _ _ Ej Hk) as (l1 & Hl1 & [E|[-> E]]); left; exists l1; rewrite ?app_nil_r in E; auto.
  - destruct (gw_links g !! j) as [l0|] eqn:Ej; [|left; exists l'; auto].
    destruct (Hcb _ _ _ _ _ _ _ Ej Hk) as (l1 & Hl1 & [E|[-> E]]); left; exists l1; rewrite ?app_nil_r in E; auto.
  - left. exists l'. destruct (is_connect ev); auto.
Qed.

Record front_ok (send : bool) (f : front) : Prop := {
  fo_proxy : proxy_ok false (fr_proxy f);
  fo_send : px_send_proxy_protocol (fr_proxy f) = send;
  fo_gateway : gate_ok (fr_gateway f);
  fo_carried : carried f }.

Lemma carried_gate now ev p g route :
  from_network ev = false → carried (Front p g route) → carried (Front p (gate_step stack now ev g) route).
Proof using Type.
  intros Hev Hcar k l' Hk. apply gate_links in Hk as [(l & Hl & [E|(data & rnd & uuid & -> & _)])|[[peer ->] _]]; [|done..].
  cbn. rewrite E. by apply (Hcar k l).
Qed.

Lemma front_step_ok send now ev f : front_ok send f → front_ok send (front_step now ev f).
Proof using Type.
  destruct f as [p g route]. intros Hf. pose proof Hf as [Hp Hs Hg Hcar]. cbn in Hp, Hs, Hg.
  destruct ev as [ev|k id peer|k n rnd uuid|ev]; cbn [front_step].
  - split; cbn; [by apply proxy_step_ok| |done|].
    + destruct (proxy_step_config now ev p) as [E _]. congruence.
    + intros k l Hk. destruct (Hcar k l Hk) as (id & c & Hr & Hc & Hb).
      destruct (proxy_step_continues false now ev p Hp id c Hc) as (c' & Hc' & _ & Hgr). exists id, c'.
      split; [done|]. split; [done|]. etrans; [exact Hb|]. apply (Hgr SBackend).
  - destruct (px_sessions p !! id) as [c|] eqn:Ec; [|done]. destruct (gw_links g !! k) as [l0|] eqn:Ek; [done|].
    case_bool_decide; [|done]. split; cbn [fr_proxy fr_gateway]; [done|done|by apply gate_step_ok|].
    intros j l' Hj. cbn [fr_gateway fr_route fr_proxy] in *.
    apply gate_links in Hj as [(l & Hl & [E|(data & rnd & uuid & [=] & _)])|[[peer' [= -> _]] [_ Eb]]].
    + destruct (Hcar j l Hl) as (id' & c' & Hr & Hc & Hb). exists id', c'. cbn in Hr, Hc.
      rewrite lookup_insert_ne by congruence. by rewrite E.
    + exists id, c. rewrite lookup_insert_eq, Eb. split; [done|]. split; [done|apply prefix_nil].
  - destruct (route !! k) as [id|] eqn:Er; [|done]. cbn [mbind option_bind].
    destruct (px_sessions p !! id) as [c|] eqn:Ec; [|done]. destruct (gw_links g !! k) as [l0|] eqn:Ek; [|done].
    split; cbn [fr_proxy fr_gateway]; [done|done|by apply gate_step_ok|]. intros j l' Hj. cbn [fr_gateway fr_route fr_proxy] in *.
    apply gate_links in Hj as [(l & Hl & [E|(data & rnd' & uuid' & [= <- <- _ _] & E)])|[[peer [=]] _]].
    + destruct (Hcar j l Hl) as (id' & c' & Hr & Hc & Hb). exists id', c'. by rewrite E.
    + destruct (Hcar k l Hl) as (id' & c' & Hr & Hc & Hb). cbn in Hr, Hc. simplify_eq. exists id, c.
      split; [done|]. split; [done|]. rewrite E. unfold in_flight. destruct Hb as [rest Hb]. rewrite Hb.
      rewrite drop_app_length. apply prefix_app. apply prefix_take.
  - destruct (from_network ev) eqn:Eev; [done|].
    split; cbn [fr_proxy fr_gateway]; [done|done|by apply gate_step_ok|by apply carried_gate].
Qed.
Lemma front_run_ok send evs : ∀ f, front_ok send f → front_ok send (front_run evs f).
Proof using Type. induction evs as [|[now ev] evs IH]; intros f Hf; [done|]. cbn [front_run]. by apply IH, front_step_ok. Qed.
Lemma front_init_ok send max per limit burst auth m quarantine :
  front_ok send (front_init (proxy_init send max per limit burst) (server_init auth m (Disk ∅ quarantine))).
Proof using Type.
  split; cbn; [apply proxy_init_ok|done|apply gate_init_ok|]. intros k l Hk. cbn in Hk. by rewrite lookup_empty in Hk.
Qed.

(** The PROXY line of [c] has arrived. *)
Definition announced (c : channel) (l : link) : Prop := cn_header c `prefix_of` lk_bytes l.

(** The address the honeypot is to know [l] by. *)
Definition visitor_of (local : option sockaddr) (addr : sockaddr) (l : link) : str :=
  if named local addr then peer_ip addr else fallback_of (lk_peer l).

Lemma announced_said fine g k l ip c addr local :
  gate_ok g → relayed fine c → cn_header c = make_proxy_v1_header local addr →
  gw_links g !! k = Some l → handed_ip (lk_protocol l) = Some ip → lk_bytes l `prefix_of` w_to_backend (cn_wire c) →
  (lk_eof l = false → announced c l) ∧
  (announced c l → ip = visitor_of local addr l ∧ inner_bytes (pp_trace (lk_protocol l)) `prefix_of` w_from_client (cn_wire c)).
Proof.
  intros Hg Hr Eh Hk Hip Hb.
  assert (Hflow : lk_bytes l `prefix_of` make_proxy_v1_header local addr ++ w_from_client (cn_wire c)).
  { etrans; [exact Hb|]. rewrite <-Eh. unfold relayed in Hr. destruct (cn_slot c) as [s|[]].
    - destruct Hr as (Hl & _). exact (live_in_order _ _ _ Hl SBackend).
    - by rewrite (Hr SBackend : w_to_backend (cn_wire c) = cn_header c ++ w_from_client (cn_wire c)).
    - exact (Hr SBackend). }
  unfold announced. rewrite Eh. split.
  - intros He. destruct (go_links _ Hg k l Hk) as [_ _|_|ip' rest t Hd _ _]; [done|done|].
    destruct Hd as [b1 b2 lo Eb _ Hdec|Heof _]; [|congruence]. rewrite Eb in *. apply prefix_app_r.
    eapply decided_late; [|exact Hdec]. etrans; [by apply prefix_app_r|exact Hflow].
  - intros [rest Er]. rewrite Er in Hflow. apply prefix_app_inv in Hflow.
    destruct (header_said (fallback_of (lk_peer l)) local addr rest) as [Hsaid Hfit]. rewrite <-Er in Hsaid, Hfit.
    pose proof (gate_said g k l ip Hg Hk Hip Hfit) as E. unfold said in E. rewrite Hsaid in E. by injection E as <- <-.
Qed.

(** C6: The log bears the visitor's address, end to end: over any history of the
    proxy and of the honeypot behind it, joined by TCP, every record is of a
    session whose connection was not known ([local]) or of the link of a session of the proxy; once the
    PROXY line has arrived, which it has unless the link was cut in the middle of it,
    the record bears the address the proxy accepted the visitor from, the one
    it is counted under in the limiter, and SSH received nothing but what the visitor
    sent, so a PROXY line of his own is not believed.  When an address is not
    known to the proxy, it is that of the proxy itself. *)
Theorem visitor_is_logged evs max per limit burst auth m quarantine :
  let f := front_run evs (front_init (proxy_init true max per limit burst) (server_init auth m (Disk ∅ quarantine))) in
  ∀ path log r, d_logs (sv_disk (gw_server (fr_gateway f))) !! path = Some log → r ∈ log →
    cr_session_id r = lit "local" ∨
    ∃ k l id c addr local, gw_links (fr_gateway f) !! k = Some l ∧
      fr_route f !! k = Some id ∧ px_sessions (fr_proxy f) !! id = Some c ∧
      cn_header c = make_proxy_v1_header local addr ∧
      (∀ s, cn_slot c = Live s → ps_lease s = Some (peer_ip addr)) ∧
      (lk_eof l = false → announced c l) ∧
      (announced c l →
        inner_bytes (pp_trace (lk_protocol l)) `prefix_of` w_from_client (cn_wire c) ∧
        if named local addr then cr_client_ip r = peer_ip addr
        else let ip := address (lk_peer l) (fallback_of (lk_peer l)) in ip ≠ [] → cr_client_ip r = ip).
Proof.
  intros f path log r Hlog Hr. assert (Hf : front_ok true f) by by apply front_run_ok, front_init_ok.
  destruct Hf as [Hp Hs Hg Hcar].
  destruct (gate_records _ path log r Hg Hlog Hr) as [Hl|(k & l & ip & cn & Hk & Hip & _ & _ & Ha)]; [by left|right].
  destruct (Hcar k l Hk) as (id & c & Hro & Hc & Hb). destruct (po_accepted _ _ Hp _ c Hc) as (addr & local & Eh & El).
  rewrite Hs in Eh. cbn [header_of] in Eh.
  destruct (announced_said false _ k l ip c addr local Hg (po_channels _ _ Hp _ c Hc) Eh Hk Hip Hb) as [Hlate Hsaid].
  exists k, l, id, c, addr, local. do 5 (split; [done|]). split; [exact Hlate|]. intros Han.
  destruct (Hsaid Han) as [-> Hin]. split; [done|]. unfold visitor_of in Ha. destruct (named local addr) eqn:En; [|exact Ha].
  unfold named in En. destruct local as [dst|]; [|done]. apply andb_prop in En as [[(_ & Hne & _)%known_text _]%andb_prop _].
  revert Ha. unfold address. rewrite bool_decide_eq_false_2 by done. auto.
Qed.
End FrontDoor.

(** ** Witness *)

#[local] Instance sample_inet_laws : @InetLaws sample_inet.
Proof.
  split; cbn [inet_ntop4 inet_ntop6 sample_inet]; [|done]. intros b s. unfold dotted.
  destruct b as [|w [|x [|y [|z [|? ?]]]]]; try done. destruct (forallb _ _) eqn:E; [|done]. intros <-%(inj Some).
  assert (Hb : ∀ c, c ∈ [w; x; y; z] → Forall (λ c, 32 < c < 128) (py_str c) ∧ (length (py_str c) ≤ 3)%nat).
  { intros c Hc. rewrite forallb_forall in E. assert (0 ≤ c < 256) by (apply list_elem_of_In, E in Hc; lia). split.
    - eapply Forall_impl; [apply py_str_ascii; lia|]. unfold is_digit. cbn. lia.
    - etrans; [apply (py_str_length 3); lia|lia]. }
  destruct (Hb w) as [Hw Hlw]; [set_solver|]. destruct (Hb x) as [Hx Hlx]; [set_solver|].
  destruct (Hb y) as [Hy Hly]; [set_solver|]. destruct (Hb z) as [Hz Hlz]; [set_solver|].
  assert (Hdot : Forall (λ c, 32 < c < 128) (lit ".")) by vm_decide.
  cbn [map join]. split; [by destruct (py_str w); change (lit ".") with [46]|]. split; [repeat apply Forall_app_2; auto|].
  rewrite !length_app. change (length (lit ".")) with 1%nat. lia.
Qed.

(** The visitor sends a PROXY line of his own. *)
Definition spoof : str := lit "PROXY TCP4 192.0.2.66 10.0.0.1 1 22" ++ crlf.
Definition spoofed_visit : list (Z * front_event) :=
  [(0, AtProxy (EpollEvent kTokenListen EPOLLIN 0 (accepting 1)));
   (1, AtProxy (EpollEvent (sample_token SBackend) EPOLLOUT 1 (EventAnswers [] false [] (Answers [SentBytes 1000] [] []))));
   (1, Linked 0 1 (PeerTuple [lit "127.0.0.1"]));
   (1, Carried 0 20 0 (lit "ab12"));
   (2, AtProxy (EpollEvent (sample_token SClient) EPOLLIN 2 (EventAnswers [] false [RecvBytes spoof] (Answers [SentBytes 1000] [] []))));
   (2, Carried 0 1000 0 (lit "ab12"));
   (3, Behind (Inside (OpenProcess 0 (Some 0%nat) PeerOther None sample_channel sample_moment)));
   (4, Behind (Inside (Read 0 sample_moment (ReadLine (lit "cd /tmp" ++ [10])))))].

Lemma visitor_is_logged_witness :
  let f := @front_run binary64 sample_inet sample_world 3 spoofed_visit
             (front_init (@proxy_init binary64 true 10 1 5 5) (server_init (sv_auth sample_init) (sv_sessions sample_init) (Disk ∅ []))) in
  ∃ log r, d_logs (sv_disk (gw_server (fr_gateway f))) !! session_log_path (lit "ab12") = Some log ∧ r ∈ log ∧
    cr_command r = lit "cd /tmp" ∧ cr_client_ip r = lit "198.51.100.7" ∧
    ∃ l c addr local, gw_links (fr_gateway f) !! 0%nat = Some l ∧ px_sessions (fr_proxy f) !! 1 = Some c ∧
      inner_bytes (pp_trace (lk_protocol l)) `prefix_of` w_from_client (cn_wire c) ∧ w_from_client (cn_wire c) = spoof ∧
      cn_header c = @make_proxy_v1_header sample_inet local addr ∧
      (@named sample_inet local addr = true → cr_client_ip r = @peer_ip sample_inet addr).
Proof.
  intros f. destruct (d_logs (sv_disk (gw_server (fr_gateway f))) !! session_log_path (lit "ab12")) as [log|] eqn:El;
    [|vm_compute in El; discriminate].
  assert (Hhead : (λ log, (λ r, (cr_command r, cr_client_ip r, cr_session_id r)) <$> head log) <$>
    d_logs (sv_disk (gw_server (fr_gateway f))) !! session_log_path (lit "ab12") =
    Some (Some (lit "cd /tmp", lit "198.51.100.7", lit "ab12"))) by (vm_compute; reflexivity).
  rewrite El in Hhead. destruct log as [|r log]; [discriminate Hhead|]. apply (inj Some), (inj Some) in Hhead. cbv beta in Hhead.
  apply pair_equal_spec in Hhead as [[Hcmd Hcip]%pair_equal_spec Hsid].
  assert (Hroute : fr_route f = {[0%nat := 1]}) by (apply (bool_decide_unpack _); vm_compute; exact I).
  destruct (@visitor_is_logged binary64 sample_inet sample_inet_laws sample_world 3 spoofed_visit
    10 1 5 5 (sv_auth sample_init) (sv_sessions sample_init) [] (session_log_path (lit "ab12")) (r :: log) r El)
    as [Hl|(k & l & id & c & addr & local & Hk & Hro & Hc & Eh & _ & _ & Han)]; [left|rewrite Hsid in Hl; discriminate Hl|].
  fold f in Hk, Hro, Hc. rewrite Hroute in Hro. apply lookup_singleton_Some in Hro as [<- <-].
  assert (Hwire : (l ← gw_links (fr_gateway f) !! 0%nat; c ← px_sessions (fr_proxy f) !! 1;
    Some (bool_decide (cn_header c `prefix_of` lk_bytes l), w_from_client (cn_wire c))) = Some (true, spoof)) by (vm_compute; reflexivity).
  rewrite Hk in Hwire. cbn [mbind option_bind] in Hwire. rewrite Hc in Hwire. cbn [mbind option_bind] in Hwire.
  apply (inj Some), pair_equal_spec in Hwire as [Ha%bool_decide_eq_true Hs].
  destruct (Han Ha) as [Hin Hip]. exists (r :: log), r. split; [reflexivity|]. split; [left|]. do 2 (split; [assumption|]).
  exists l, c, addr, local. split; [exact Hk|]. split; [exact Hc|]. split; [exact Hin|]. split; [exact Hs|]. split; [exact Eh|].
  intros Hn. rewrite Hn in Hip. exact Hip.
Defined.
