(* ===== verification/LlmSchema.v ===== *)
(** * The schema of the model's answers ([llm.py])

    The program sends [LLM_JSON_SCHEMA] with every request, and checks the
    answers by code of its own, [parse_llm_simulation].  Here the schema is
    evaluated, and the two agree: the code accepts what the schema accepts, but
    for the members that it does not know, which it ignores. *)

From S2P Require Import Prelude PyStr OrdDict Regex Json Llm LlmProps JsonDump.

#[local] Arguments lit : simpl never.

Definition LLM_JSON_SCHEMA : json := JObj
  [(lit "type", JStr "object");
   (lit "properties", JObj
     [(lit "stdout", JObj [(lit "type", JStr "string")]);
      (lit "stderr", JObj [(lit "type", JStr "string")]);
      (lit "exit_code", JObj [(lit "type", JStr "integer"); (lit "minimum", JInt 0); (lit "maximum", JInt 255)])]);
   (lit "required", JList [JStr "stdout"; JStr "stderr"; JStr "exit_code"]);
   (lit "additionalProperties", JBool false)].

Definition GROQ_RESPONSE_FORMAT : json := JObj
  [(lit "type", JStr "json_schema");
   (lit "json_schema", JObj
     [(lit "name", JStr "linux_command_result");
      (lit "strict", JBool true);
      (lit "schema", LLM_JSON_SCHEMA)])].

(** [create_llm_provider]: the environment's key, if any, decides. *)
Inductive llm_provider := NullLLMProvider | GroqProvider (api_key : str).

Definition create_llm_provider `{Unicode} (GROQ_API_KEY : option str) : llm_provider :=
  let api_key := strip (default [] GROQ_API_KEY) in
  if bool_decide (api_key = []) then NullLLMProvider else GroqProvider api_key.

(** [generate_response] of the provider; [client] is the vendor's, for a key. *)
Definition provider_generate_response `{Unicode} (client : str → groq_request → groq_outcome) (p : llm_provider)
    (command cwd : str) (context : llm_context) (argv : list str) : llm_simulation :=
  match p with
  | NullLLMProvider => null_generate_response command argv
  | GroqProvider api_key => groq_generate_response (client api_key) command cwd context argv
  end.

(** ** Evaluating a schema

    The keywords that [LLM_JSON_SCHEMA] uses, with the meaning that JSON Schema
    gives them, on values as [json.loads] returns them: an integer is a number
    written without fraction and exponent. *)

Definition has_type (ty : str) (v : json) : bool :=
  match v with
  | JObj _ => bool_decide (ty = "object")
  | JList _ => bool_decide (ty = "array")
  | JStr _ => bool_decide (ty = "string")
  | JInt _ => bool_decide (ty = "integer") || bool_decide (ty = "number")
  | JFloat _ => bool_decide (ty = "number")
  | JBool _ => bool_decide (ty = "boolean")
  | JNull => bool_decide (ty = "null")
  end.

Definition keyword (schema : list (str * json)) (name : string) : option json := dict_get schema (lit name).

(** A keyword that is not there asks for nothing. *)
Definition type_holds schema v : bool :=
  match keyword schema "type" with Some (JStr ty) => has_type ty v | _ => true end.
Definition minimum_holds schema v : bool :=
  match keyword schema "minimum", v with Some (JInt low), JInt n => low <=? n | _, _ => true end.
Definition maximum_holds schema v : bool :=
  match keyword schema "maximum", v with Some (JInt high), JInt n => n <=? high | _, _ => true end.
Definition required_holds schema v : bool :=
  match keyword schema "required", v with
  | Some (JList names), JObj d =>
      forallb (λ name, match name with JStr k => dict_has d k | _ => true end) names
  | _, _ => true
  end.
Definition properties (schema : list (str * json)) : list (str * json) :=
  match keyword schema "properties" with Some (JObj ps) => ps | _ => [] end.
Definition additional_holds schema v : bool :=
  match keyword schema "additionalProperties", v with
  | Some (JBool false), JObj d => forallb (λ kv, dict_has (properties schema) kv.1) d
  | _, _ => true
  end.

(** [depth] bounds the nesting of the schema. *)
Fixpoint conforms (depth : nat) (schema v : json) : bool :=
  match depth, schema with
  | S depth, JObj sc =>
      type_holds sc v && minimum_holds sc v && maximum_holds sc v && required_holds sc v &&
      additional_holds sc v &&
      match v with
      | JObj d =>
          forallb (λ p, match dict_get d p.1 with Some x => conforms depth p.2 x | None => true end) (properties sc)
      | _ => true
      end
  | _, _ => false
  end.

(** The schema without one keyword. *)
Definition without (name : string) (schema : json) : json :=
  match schema with JObj sc => JObj (dict_del sc (lit name)) | _ => schema end.
Definition OPEN_SCHEMA : json := without "additionalProperties" LLM_JSON_SCHEMA.

Definition str_member (d : list (str * json)) (name : string) : str :=
  match keyword d name with Some (JStr s) => s | _ => [] end.
Definition int_member (d : list (str * json)) (name : string) : Z :=
  match keyword d name with Some (JInt n) => n | _ => 0 end.
Definition members (v : json) : llm_simulation :=
  match v with
  | JObj d => LLMSimulation (str_member d "stdout") (str_member d "stderr") (int_member d "exit_code")
  | _ => LLMSimulation [] [] 0
  end.

(** The value that [to_json] writes. *)
Definition simulation_json (sim : llm_simulation) : json :=
  JObj [(lit "stdout", JStr (sim_stdout sim)); (lit "stderr", JStr (sim_stderr sim));
        (lit "exit_code", JInt (sim_exit sim))].

Lemma to_json_dumps sim : to_json sim = json_dumps (simulation_json sim).
Proof.
  unfold to_json, simulation_json. rewrite dumps_obj. cbn [map join]. unfold dump_member. cbn [fst snd json_dumps].
  by rewrite <-!app_assoc.
Qed.

(** ** The schema member by member *)

Definition STRING_SCHEMA : json := JObj [(lit "type", JStr "string")].
Definition STATUS_SCHEMA : json := JObj [(lit "type", JStr "integer"); (lit "minimum", JInt 0); (lit "maximum", JInt 255)].

Lemma string_conforms v : conforms 1 STRING_SCHEMA v = match v with JStr _ => true | _ => false end.
Proof. by destruct v. Qed.
Lemma status_conforms v :
  conforms 1 STATUS_SCHEMA v = match v with JInt n => (0 <=? n) && (n <=? 255) | _ => false end.
Proof. destruct v; try done. cbn. by rewrite !andb_true_r. Qed.

Definition member_conforms (d : list (str * json)) (name : string) (schema : json) : bool :=
  match dict_get d (lit name) with Some x => conforms 1 schema x | None => true end.

Lemma open_schema_object d :
  conforms 2 OPEN_SCHEMA (JObj d) =
  (dict_has d (lit "stdout") && (dict_has d (lit "stderr") && (dict_has d (lit "exit_code") && true))) && true &&
  (member_conforms d "stdout" STRING_SCHEMA && (member_conforms d "stderr" STRING_SCHEMA &&
   (member_conforms d "exit_code" STATUS_SCHEMA && true))).
Proof. reflexivity. Qed.

(** What the schema asks for is what the code looks at. *)
Lemma open_schema_members v :
  conforms 2 OPEN_SCHEMA v =
  match v with
  | JObj d =>
      match dict_get d (lit "stdout"), dict_get d (lit "stderr"), dict_get d (lit "exit_code") with
      | Some (JStr _), Some (JStr _), Some (JInt n) => (0 <=? n) && (n <=? 255)
      | _, _, _ => false
      end
  | _ => false
  end.
Proof.
  destruct v as [| | | | | |d]; try reflexivity. rewrite open_schema_object. unfold dict_has, member_conforms.
  destruct (dict_get d _) as [v1|]; [|done]. rewrite string_conforms.
  destruct (dict_get d _) as [v2|]; [|by destruct v1]. rewrite string_conforms.
  destruct (dict_get d _) as [v3|]; [|by destruct v1, v2]. rewrite status_conforms.
  destruct v1, v2, v3; cbn; try done. by rewrite !andb_true_r.
Qed.

Lemma schema_opens v : conforms 2 LLM_JSON_SCHEMA v = true → conforms 2 OPEN_SCHEMA v = true.
Proof.
  destruct v as [| | | | | |d]; try (intros H; exact H). rewrite open_schema_object. intros H.
  change (conforms 2 LLM_JSON_SCHEMA (JObj d)) with
    ((dict_has d (lit "stdout") && (dict_has d (lit "stderr") && (dict_has d (lit "exit_code") && true))) &&
     additional_holds (match LLM_JSON_SCHEMA with JObj sc => sc | _ => [] end) (JObj d) &&
     (member_conforms d "stdout" STRING_SCHEMA && (member_conforms d "stderr" STRING_SCHEMA &&
      (member_conforms d "exit_code" STATUS_SCHEMA && true)))) in H.
  apply andb_prop in H as [[H1 _]%andb_prop H2]. by rewrite H1, H2.
Qed.

Lemma simulation_conforms sim : 0 ≤ sim_exit sim ≤ 255 → conforms 2 LLM_JSON_SCHEMA (simulation_json sim) = true.
Proof.
  intros Hn. destruct sim as [so se n]. cbn [sim_exit] in Hn.
  transitivity ((0 <=? n) && (n <=? 255) && true && true && true && true); [|by rewrite !andb_true_r, andb_true_iff, !Z.leb_le].
  reflexivity.
Qed.

Section Schema.
Context `{Unicode}.

(** The reference: what the schema, open to further members, makes of a text. *)
Definition schema_answer (content : str) : option llm_simulation :=
  v ← json_loads (strip (_strip_markdown_fences content));
  if conforms 2 OPEN_SCHEMA v then Some (members v) else None.

Lemma parse_by_schema content binary args :
  parse_llm_simulation content binary args =
  match schema_answer content with
  | Some sim => if conversational sim then format_binary_usage_error binary args else sim
  | None => format_binary_usage_error binary args
  end.
Proof.
  unfold parse_llm_simulation, schema_answer. destruct (json_loads _) as [v|]; [|done]. cbn [mbind option_bind].
  rewrite open_schema_members. destruct v as [| | | | | |d]; try done. unfold members, str_member, int_member, keyword.
  destruct (dict_get d (lit "stdout")) as [[]|]; try done. destruct (dict_get d (lit "stderr")) as [[]|]; try done.
  destruct (dict_get d (lit "exit_code")) as [[]|]; try done.
  destruct (Z.ltb_spec n 0), (Z.leb_spec 0 n), (Z.ltb_spec 255 n), (Z.leb_spec n 255); try lia; done.
Qed.

(** C30: The code enforces the schema it sends: of any text the model returns,
    it takes exactly what the schema, evaluated on the JSON read from the text,
    accepts (further members are ignored), unless the answer speaks as a
    chatbot, and answers a usage error to everything else.  In particular an
    answer that keeps to the schema is not rejected for its form, and what is
    shown conforms to the closed schema whatever came. *)
Theorem schema_is_enforced content binary args :
  let sim := parse_llm_simulation content binary args in
  sim = match schema_answer content with
        | Some a => if conversational a then format_binary_usage_error binary args else a
        | None => format_binary_usage_error binary args
        end ∧
  (∀ v, json_loads (strip (_strip_markdown_fences content)) = Some v → conforms 2 LLM_JSON_SCHEMA v = true →
    schema_answer content = Some (members v)) ∧
  conforms 2 LLM_JSON_SCHEMA (simulation_json sim) = true ∧ to_json sim = json_dumps (simulation_json sim).
Proof.
  intros sim. split; [apply parse_by_schema|]. split; [|split].
  - intros v Hv Hc. unfold schema_answer. rewrite Hv. cbn [mbind option_bind]. by rewrite (schema_opens v Hc).
  - apply simulation_conforms. unfold sim. destruct (parse_cases content binary args) as [->|[_ ?]]; [|done].
    apply usage_error_exit.
  - apply to_json_dumps.
Qed.

(** Without a key in the environment no answer depends on the vendor. *)
Lemma no_key_no_request GROQ_API_KEY client client' command cwd context argv :
  strip (default [] GROQ_API_KEY) = [] →
  provider_generate_response client (create_llm_provider GROQ_API_KEY) command cwd context argv =
  provider_generate_response client' (create_llm_provider GROQ_API_KEY) command cwd context argv.
Proof. intros E. unfold create_llm_provider. by rewrite E. Qed.
End Schema.

(** A member that the schema forbids is ignored, a status out of range is not. *)
Example further_members_ignored :
  @schema_answer ascii_only (json_dumps (JObj [(lit "note", JNull); (lit "stdout", JStr "ok"); (lit "stderr", JStr []);
    (lit "exit_code", JInt 0)])) = Some (LLMSimulation "ok" [] 0).
Proof. by vm_compute. Qed.
Example status_out_of_range :
  @schema_answer ascii_only (to_json (LLMSimulation "ok" [] 256)) = None.
Proof. by vm_compute. Qed.

Lemma schema_is_enforced_witness :
  let content := to_json (LLMSimulation "eth0" [] 1) in
  let sim := @parse_llm_simulation ascii_only content "ip" [lit "link"] in
  sim = LLMSimulation "eth0" [] 1 ∧
  @schema_answer ascii_only content = Some (members (simulation_json (LLMSimulation "eth0" [] 1))) ∧
  conforms 2 LLM_JSON_SCHEMA (simulation_json sim) = true.
Proof.
  intros content sim. destruct (@schema_is_enforced ascii_only content "ip" [lit "link"]) as (_ & Ha & Hc & _).
  split; [by vm_compute|]. split; [|exact Hc]. apply Ha; by vm_compute.
Defined.
