(* ===== verification/Benchmark.v ===== *)
(** * The latency benchmark ([benchmark_llm.py])

    Commands run one after the other on one shell, each with the path it is
    expected to be answered by, its time and a preview of its output, and the
    tables that are printed of them.  Times are in microseconds; how a time in
    milliseconds and a mean are written with one decimal is a parameter. *)

From S2P Require Import Prelude PyStr OrdDict Path Vfs HoneypotTree SessionManager VfsProps.
From S2P Require Import Regex Llm ShellParse ShellStatic DateTime Sinkhole Shell ShellSample.

#[local] Arguments lit : simpl never.

Definition _WARMUP_COMMAND : str := "whoami".
Definition _DEFAULT_COMMANDS : list str :=
  [lit "whoami"; lit "uname -a"; lit "id"; lit "ps aux"; lit "ps -ef"; lit "df -h"; lit "free -m"; lit "uptime"].
Definition _PREVIEW_CHARS : Z := 60.

Record sample := Sample {
  sa_command : str;
  sa_path : str;
  sa_latency : Z;
  sa_output_len : nat;
  sa_preview : str;
  sa_error : option str
}.

Definition _path_for (command : str) : str :=
  match shlex_split command with
  | Err _ => "llm"
  | Ok tokens => match lookup_static_output tokens with Some _ => "static" | None => "llm" end
  end.

(** [text[:stop]]; a negative stop counts from the end. *)
Definition slice_to (text : str) (stop : Z) : str :=
  if stop <? 0 then take (length text - Z.to_nat (- stop)) text else take (Z.to_nat stop) text.

Definition _preview (text : str) (limit : Z) : str :=
  let compact := join [32] (split_ws text) in
  if Z.of_nat (length compact) <=? limit then compact
  else slice_to compact (limit - 3) ++ lit "...".

(** [type(exc).__name__]. *)
Definition exc_name (e : pyexc) : str :=
  match e with
  | FileNotFoundError _ => "FileNotFoundError"
  | NotADirectoryError _ => "NotADirectoryError"
  | IsADirectoryError _ => "IsADirectoryError"
  | FileExistsError _ => "FileExistsError"
  | OSError _ => "OSError"
  | VFSFileTooLargeError _ => "VFSFileTooLargeError"
  | VFSNoSpaceError _ => "VFSNoSpaceError"
  | ValueError _ => "ValueError"
  | OverflowError _ => "OverflowError"
  | UnicodeEncodeError => "UnicodeEncodeError"
  | RecursionError => "RecursionError"
  | AuthAttemptLimitExceeded _ => "AuthAttemptLimitExceeded"
  end.

Section Benchmark.
Context `{World} (stack : nat).

Definition _timed_execute (command : str) : ST shell sample :=
  started ← read_clock;
  outcome ← attempt (execute stack command);
  ended ← read_clock;
  mret match outcome with
       | Err e => Sample command (_path_for command) (ended - started) 0 [] (Some (exc_name e))
       | Ok result =>
           Sample command (_path_for command) (ended - started) (length (r_output result))
             (_preview (r_output result) _PREVIEW_CHARS) None
       end.

Fixpoint run_samples (commands : list str) : ST shell (list sample) :=
  match commands with
  | [] => mret []
  | command :: rest =>
      x ← _timed_execute command;
      xs ← run_samples rest;
      mret (x :: xs)
  end.

(** ** The label *)

(** The commands that have a fixed answer. *)
Definition static_names : list str :=
  map (λ kv, nth 0 kv.1 []) _STATIC_OUTPUTS ++
  [lit "ip"; lit "ss"; lit "netstat"; lit "iptables"; lit "ufw"; lit "dmidecode"; lit "ifconfig"; lit "route"].

Lemma static_name command args out :
  lookup_static_output (command :: args) = Some out → command ∈ static_names.
Proof.
  unfold static_names, lookup_static_output. intros E. apply elem_of_app.
  destruct (dict_get _STATIC_OUTPUTS _) as [exact|] eqn:Ed.
  - left. apply dict_get_Some_elem in Ed. apply list_elem_of_fmap. by eexists (command :: args, exact).
  - right. revert E. unfold _lookup_static_aliases.
    repeat match goal with |- (if ?b then _ else _) = Some _ → _ => destruct b eqn:?; [intros _|] end; [..|done];
    repeat match goal with
    | H : _ && _ = true |- _ => apply andb_true_iff in H as [H _]
    | H : bool_decide _ = true |- _ => apply bool_decide_eq_true in H
    | H : _ ∧ _ |- _ => destruct H as [H _]
    end; subst command; set_solver.
Qed.

(** None of them is a shell, a path or a command with a handler. *)
Definition plain_name (command : str) : bool :=
  bool_decide (_strip_system_prefix command = command) && bool_decide (command ∉ _SHELL_WRAPPERS) &&
  negb (_is_explicit_path command) && negb (dict_has _handlers command).
Lemma static_names_plain : forallb plain_name static_names = true.
Proof. vm_compute. reflexivity. Qed.

Lemma static_dispatch exec command args out stripped stdin depth s :
  lookup_static_output (command :: args) = Some out →
  _dispatch exec (command :: args) stripped stdin depth s =
  (Ok (CommandResult out false (lookup_static_exit_code (command :: args)) PVfs, PStatic), s).
Proof.
  intros E. pose proof static_names_plain as Hall. rewrite forallb_forall in Hall.
  specialize (Hall command (proj1 (list_elem_of_In _ _) (static_name _ _ _ E))).
  unfold plain_name in Hall. rewrite !andb_true_iff, !negb_true_iff in Hall. destruct Hall as [[[Hs Hw] Hp] Hh].
  apply bool_decide_eq_true in Hs, Hw. unfold _dispatch. rewrite Hs.
  rewrite (bool_decide_eq_false_2 (command ≠ command)) by (by intros []). cbn [andb]. cbv zeta.
  rewrite bool_decide_eq_false_2 by done. rewrite Hp. unfold dict_has in Hh.
  destruct (dict_get _handlers command); [done|]. by rewrite E.
Qed.

(** The benchmark's label [static] is right: a command so labelled, when the
    shell comes to dispatch its words, is answered by the fixed text with its
    fixed exit code, by the path [static], and nothing else happens, so the
    model is not asked; whatever the state of the session and the nesting. *)
Theorem static_label_sound command :
  _path_for command = lit "static" →
  ∃ tokens out, shlex_split command = Ok tokens ∧ lookup_static_output tokens = Some out ∧
  ∀ exec stripped stdin depth s,
    _dispatch exec tokens stripped stdin depth s =
    (Ok (CommandResult out false (lookup_static_exit_code tokens) PVfs, PStatic), s).
Proof.
  unfold _path_for. destruct (shlex_split command) as [tokens|e]; [|done].
  destruct (lookup_static_output tokens) as [out|] eqn:E; [|done]. intros _.
  exists tokens, out. split; [done|]. split; [done|]. intros exec stripped stdin depth s.
  destruct tokens as [|c args]; [done|]. by apply static_dispatch.
Qed.

(** ** The samples *)

(** A sample that raised has no preview. *)
Definition plain_sample (x : sample) : Prop := sa_error x ≠ None → sa_preview x = [].
Lemma timed_total command s :
  ∃ x s', _timed_execute command s = (Ok x, s') ∧ sa_command x = command ∧ sa_path x = _path_for command ∧ plain_sample x.
Proof.
  unfold _timed_execute. rewrite st_bind_eq. unfold read_clock at 1. cbn beta iota.
  rewrite st_bind_eq. unfold attempt. destruct (execute stack command _) as [r s1]. cbn beta iota.
  rewrite st_bind_eq. cbn. destruct r; eexists _, _; split_and!; try done; by intros [].
Qed.

(** Every command is timed, in order, also when the shell raises. *)
Theorem samples_cover commands s :
  ∃ xs s', run_samples commands s = (Ok xs, s') ∧ map sa_command xs = commands ∧
    map sa_path xs = map _path_for commands ∧ Forall plain_sample xs.
Proof.
  revert s. induction commands as [|c commands IH]; intros s; cbn [run_samples]; [by exists [], s|].
  rewrite st_bind_eq. destruct (timed_total c s) as (x & s1 & -> & Hc & Hp & Hx).
  rewrite st_bind_eq. destruct (IH s1) as (xs & s2 & -> & Hcs & Hps & Hxs). exists (x :: xs), s2.
  split; [done|]. cbn. rewrite Hc, Hp, Hcs, Hps. by repeat split; [..|constructor].
Qed.
End Benchmark.

Section Tables.
Context `{World} (stack : nat).

(** ** The tables *)

(** The text of the times: [f"{x:.1f}"] of one, and of the mean of several. *)
Context (ms_text : Z → str) (mean_text : list Z → str).

Definition width (title : str) (cells : list str) : nat := foldr Nat.max (length title) (map length cells).
(** [s.preview or s.error or ""], and the note of a row. *)
Definition widest_note (x : sample) : str :=
  if bool_decide (sa_preview x = []) then default [] (sa_error x) else sa_preview x.
Definition note (x : sample) : str :=
  match sa_error x with Some e => if bool_decide (e = []) then sa_preview x else e | None => sa_preview x end.

Definition table_line (cmd_w path_w prev_w : nat) (command path time len note : str) : str :=
  pad_right cmd_w 32 command ++ lit "  " ++ pad_right path_w 32 path ++ lit "  " ++ pad_left 9 32 time ++ lit "  " ++
  pad_left 5 32 len ++ lit "  " ++ pad_right prev_w 32 note.
Definition table_lines (samples : list sample) : list str :=
  let cmd_w := width (lit "Command") (map sa_command samples) in
  let path_w := width (lit "Path") (map sa_path samples) in
  let prev_w := width (lit "Preview") (map widest_note samples) in
  let header := table_line cmd_w path_w prev_w (lit "Command") (lit "Path") (lit "Time (ms)") (lit "Len") (lit "Preview") in
  header :: repeat 45 (length header) ::
  map (λ x, table_line cmd_w path_w prev_w (sa_command x) (sa_path x) (ms_text (sa_latency x))
              (py_str (Z.of_nat (sa_output_len x))) (note x)) samples.
(** The [max] of no samples raises. *)
Definition _print_table (samples : list sample) : result (list str) :=
  match samples with [] => Err (ValueError "max() iterable argument is empty") | _ => Ok (table_lines samples) end.

(** The groups that [_print_stats] summarises. *)
Definition stat_groups (samples : list sample) : list (str * list sample) :=
  List.filter (λ group, bool_decide (group.2 ≠ []))
    [(lit "static", List.filter (λ x, bool_decide (sa_path x = lit "static")) samples);
     (lit "llm", List.filter (λ x, bool_decide (sa_path x = lit "llm")) samples);
     (lit "all", samples)].
Definition least (l : list Z) : Z := match l with [] => 0 | x :: l => fold_left Z.min l x end.
Definition greatest (l : list Z) : Z := match l with [] => 0 | x :: l => fold_left Z.max l x end.
Definition summary_line (group : str * list sample) : str :=
  let latencies := map sa_latency group.2 in
  lit "Summary " ++ pad_right 6 32 group.1 ++ lit "  n=" ++ py_str (Z.of_nat (length latencies)) ++ lit "  min=" ++
  ms_text (least latencies) ++ lit " ms  max=" ++ ms_text (greatest latencies) ++ lit " ms  avg=" ++
  mean_text latencies ++ lit " ms".
Definition raised (x : sample) : bool := match sa_error x with Some e => bool_decide (e ≠ []) | None => false end.
Definition _print_stats (samples : list sample) : list str :=
  let failed := List.filter raised samples in
  [] :: map summary_line (stat_groups samples) ++
  if bool_decide (failed = []) then []
  else [lit "Errors   " ++ py_str (Z.of_nat (length failed)) ++ lit "/" ++ py_str (Z.of_nat (length samples)) ++
        lit " calls raised after provider fallback"].

(** [_run]: the status it returns and the lines it prints; [api_key] is the
    variable of the environment, empty when it is not set. *)
Definition _run (api_key : str) (commands : list str) : ST shell (Z * list str) :=
  if bool_decide (strip api_key = []) then mret (1, [lit "GROQ_API_KEY is not set. Add it to .env and retry."])
  else
    warmup ← _timed_execute stack _WARMUP_COMMAND;
    let warm := match sa_error warmup with
                | Some e => lit "Warm-up failed (" ++ e ++ lit ") after " ++ ms_text (sa_latency warmup) ++ lit " ms"
                | None => lit "Warm-up completed in " ++ ms_text (sa_latency warmup) ++ lit " ms"
                end in
    samples ← run_samples stack commands;
    table ← lift (_print_table samples);
    mret (0, [lit "Model: " ++ GROQ_MODEL; lit "Router: Shell.execute (static templates before Groq)";
              lit "Warm-up: " ++ _WARMUP_COMMAND; warm; []] ++ table ++ _print_stats samples).

(** ** The table lines up *)

Lemma pad_right_length n c t : (length t ≤ n)%nat → length (pad_right n c t) = n.
Proof. unfold pad_right. rewrite length_app, repeat_length. lia. Qed.
Lemma pad_left_length n c t : (length t ≤ n)%nat → length (pad_left n c t) = n.
Proof. unfold pad_left. rewrite length_app, repeat_length. lia. Qed.
Lemma width_title title cells : (length title ≤ width title cells)%nat.
Proof. unfold width. induction cells; cbn; lia. Qed.
Lemma width_cell title cells t : t ∈ cells → (length t ≤ width title cells)%nat.
Proof. unfold width. induction 1 as [|? ? ? _ IH]; cbn; [lia|]. etrans; [exact IH|]. apply Nat.le_max_r. Qed.
Lemma width_of {A} (f : A → str) title xs x : x ∈ xs → (length (f x) ≤ width title (map f xs))%nat.
Proof. intros Hx. apply width_cell. by apply list_elem_of_fmap_2. Qed.

Lemma table_line_length cmd_w path_w prev_w command path time len note_ :
  (length command ≤ cmd_w)%nat → (length path ≤ path_w)%nat → (length time ≤ 9)%nat → (length len ≤ 5)%nat →
  (length note_ ≤ prev_w)%nat →
  length (table_line cmd_w path_w prev_w command path time len note_) = (cmd_w + path_w + prev_w + 22)%nat.
Proof.
  intros. unfold table_line. rewrite !length_app, !pad_right_length, !pad_left_length by done.
  change (length (lit "  ")) with 2%nat. lia.
Qed.

Lemma note_fits x : plain_sample x → note x = widest_note x.
Proof.
  unfold plain_sample, note, widest_note. destruct (sa_error x) as [e|]; cbn.
  - intros Hp. rewrite Hp by done. cbn. by case_bool_decide; subst.
  - intros _. case_bool_decide; congruence.
Qed.

(** Every line of the table is as long as its header, whatever was timed, as
    long as the times and lengths have room. *)
Theorem table_lines_up samples :
  Forall plain_sample samples →
  Forall (λ x, (length (ms_text (sa_latency x)) ≤ 9)%nat ∧ Z.of_nat (sa_output_len x) < 10 ^ 5) samples →
  ∃ n, Forall (λ l, length l = n) (table_lines samples).
Proof using Type.
  intros Hplain Hroom. unfold table_lines. cbv zeta. set (cmd_w := width _ _). set (path_w := width _ _). set (prev_w := width _ _).
  exists (cmd_w + path_w + prev_w + 22)%nat.
  assert (Hh : length (table_line cmd_w path_w prev_w (lit "Command") (lit "Path") (lit "Time (ms)") (lit "Len") (lit "Preview")) =
    (cmd_w + path_w + prev_w + 22)%nat).
  { apply table_line_length; try apply width_title; vm_compute; lia. }
  constructor; [exact Hh|]. constructor; [by rewrite repeat_length|]. apply Forall_map, Forall_forall. intros x Hx.
  rewrite Forall_forall in Hplain, Hroom. destruct (Hroom x Hx) as [Ht Hl]. cbn. apply table_line_length.
  - by apply (width_of sa_command).
  - by apply (width_of sa_path).
  - done.
  - etrans; [apply (py_str_length 5); lia|lia].
  - rewrite note_fits by by apply Hplain. by apply (width_of widest_note).
Qed.

(** With a key and a command the benchmark ends with status 0, whatever the
    shell raises, and its table is of all the commands, in order. *)
Theorem run_ends_well api_key commands s :
  strip api_key ≠ [] → commands ≠ [] →
  ∃ warm samples s', _run api_key commands s =
    (Ok (0, warm ++ table_lines samples ++ _print_stats samples), s') ∧
    map sa_command samples = commands ∧ Forall plain_sample samples.
Proof using Type.
  intros Hk Hc. unfold _run. rewrite bool_decide_eq_false_2 by done. rewrite st_bind_eq.
  destruct (timed_total stack _WARMUP_COMMAND s) as (w & s1 & -> & _). cbv zeta. rewrite st_bind_eq.
  destruct (samples_cover stack commands s1) as (xs & s2 & -> & Hxs & _ & Hp). rewrite st_bind_eq.
  destruct xs as [|x xs]; [by subst commands|]. cbn [_print_table lift]. by eexists _, (x :: xs), s2.
Qed.
End Tables.

(** ** The preview *)

Theorem preview_bounds text limit :
  3 ≤ limit → Z.of_nat (length (_preview text limit)) ≤ limit.
Proof.
  intros Hl. unfold _preview. destruct (Z.leb_spec (Z.of_nat (length (join [32] (split_ws text)))) limit); [done|].
  unfold slice_to. destruct (Z.ltb_spec (limit - 3) 0); [lia|]. rewrite length_app, length_take. change (length (lit "...")) with 3%nat. lia.
Qed.

Lemma static_label_sound_witness :
  ∃ out, ∀ exec stripped stdin depth s,
    @_dispatch sample_world exec [lit "ss"; lit "-lntp"] stripped stdin depth s =
    (Ok (CommandResult out false 0 PVfs, PStatic), s).
Proof.
  destruct (@static_label_sound sample_world "ss -lntp") as (tokens & out & Ht & _ & Hd).
  - vm_compute. reflexivity.
  - assert (Et : shlex_split "ss -lntp" = Ok [lit "ss"; lit "-lntp"]) by (vm_compute; reflexivity).
    rewrite Et in Ht. injection Ht as <-. exists out. exact Hd.
Defined.

(** The converse does not hold: [uname -a] is labelled [llm] and counted with
    the answers of the model, but the shell answers it itself, by the path
    [static]. *)
Example uname_is_mislabelled :
  _path_for "uname -a" = lit "llm" ∧
  match (@execute sample_world 2 "uname -a" sample_shell).1 with Ok r => r_path r = PStatic | _ => False end.
Proof. split; vm_compute; reflexivity. Qed.
